(* ===== verification/_CoqProject ===== *)
-Q . S2P
Prelude.v
Prog.v
World.v
Mem.v
Errors.v
IocbPool.v
Ring.v
Threads.v
PoolThreads.v
Trace.v
Sim.v
System.v
Demo.v
Submit.v
Poll.v
Context.v
Lifecycle.v
Session.v
Library.v
Files.v
Fill.v
Buffers.v
Witnesses.v
Findings.v
