(* ===== verification/Prelude.v ===== *)
(** * Verification of the Artemis native libaio layer

    The library is the JNI layer between Artemis and the kernel's asynchronous
    I/O: one C file,
    [src/src/main/c/org_apache_activemq_artemis_nativo_jlibaio_LibaioContext.c],
    and the declarations of [exception_helper.h].  A Java context owns a
    [struct io_control]: an AIO context of the kernel, a pool of [struct iocb]
    handed out and taken back as a ring buffer, an array for completed events, and
    two locks.  Requests take an iocb from the pool, put a JNI global reference to
    the callback in its [data] and submit it; a poller takes the completions,
    either from the ring the kernel maps in user space or by a system call, calls
    the callback, deletes the reference and puts the iocb back.  A write to a
    temporary file wakes the blocked poller.  All of this is modelled, function by
    function, under the names of the C code.

    ** The embedding

    - [Prelude]: machine integers on LP64, windows of circular arrays, multisets
      as lists.
    - [Prog]: a C function is a [prog]: a tree of atomic actions on a state.
      [run] executes it alone and keeps apart a result, undefined behaviour
      ([Crash]), a lock that is never released ([Deadlock]), a call of the kernel
      that waits for ever ([Waiting]) and a loop without fuel.  [wp p Q s] says that
      [p] returns from [s] and ends in [Q]: every theorem with [wp] contains
      termination, the absence of undefined behaviour and the absence of deadlock.
      [wp_may] also allows what its last two arguments say of fuel and of waiting.
    - [World]: the state.  A heap of typed blocks (an access outside a live block
      is undefined, and addresses are not reused after [free], so that no dangling
      pointer is ever valid by accident); the file-scope variables; and the trace
      of all calls that leave the library.  The kernel, libaio, the C library's
      system calls and the JVM are the parameter [Env], a function from the
      history of calls to the next answer.  The answer of [io_getevents] may be
      that it waits ([GeWait]); all other calls are taken to return.
    - [Mem]: the actions - accesses of memory, locks, [malloc], [free], calls -
      and their [wp] rules, applied by [wp_step].

    ** The components

    - [Errors]: the [throw...] helpers and [exceptionMessage].  An exception is an
      event: JNI does not unwind the C stack.
    - [IocbPool]: [getIOCB] and [putIOCB], refined to a FIFO queue.
    - [Threads], [PoolThreads]: programs interleaved action by action, critical
      sections, and the pool shared by any number of threads.
    - [Ring]: [ringio_get_events].  The kernel writes the ring between any two
      accesses, so each access is a call of the environment; [KernelRing] is the
      contract of the ring.
    - [Trace]: what a trace means - references and contexts alive, descriptors
      open, iocbs with the kernel ([owned]), completions the kernel has handed out
      ([reports], from the answers of [io_getevents] and from the ring as last
      read), effects that Java sees - and the documented promises of libaio, of
      POSIX and of the JNI, each a class.
    - [Sim]: a simulated kernel and JVM that keep these promises: the concrete
      environment of the witnesses.
    - [System]: the invariant of a live context.  Every iocb is in exactly one
      place: free, with the kernel, or in the hands of a running call; and the
      live references are those of the iocbs that are not free.
    - [Demo]: concrete contexts to evaluate on.
    - [Submit]: [submitWrite], [submitRead], [submit].
    - [Poll]: [poll] and [blockedPoll].
    - [Context], [Lifecycle]: [newContext], with its four ways to end, and
      [deleteContext].
    - [Session]: the states a client can reach by requests and polls.
    - [Library]: [JNI_OnLoad], [JNI_OnUnload], [shutdownHook], the switch between
      reaper and system call.
    - [Files], [Fill], [Buffers]: the entry points on files, on the shared buffer
      of zeros, and on native buffers.
    - [Witnesses]: instances of the theorems of [Errors], [IocbPool] and [Ring].
    - [Findings]: what happens outside the hypotheses of the theorems on
      [deleteContext] and [blockedPoll], and a client that comes to it.

    ** What the theorems show

    - Whole clients: [client_always_safe] and [drained_client_owns_nothing], over
      all reachable states; [new_and_delete_roundtrip], [load_unload_roundtrip],
      [buffer_roundtrip] and [open_close_roundtrip], over life cycles.
    - Pollers: [poll_correct] and [blockedPoll_safe] say what Java sees as a function
      of the completions the kernel has reported during the call, with their
      results and in their order; a poll waits for ever only for more completions
      than there are requests in flight, [deleteContext] never does.
    - Entry points on every branch, errors included: [submitWrite_correct],
      [submitRead_correct], [newContext_correct], [deleteContext_correct],
      [JNI_OnLoad_correct], [fill_correct], [verifyBuffer_correct], [newAlignedBuffer_correct],
      [memsetBuffer_correct], [open_correct], [fallocate_correct],
      [getBlockSize_correct], [file_queries_correct], [throw_errno_correct].
    - Concurrency: [pool_threads_safe].
    - Data structures: [pool_refines_fifo], [ringio_get_events_correct],
      [ring_reap_exactly_once].
    - Termination: [blockedPoll_terminates].  The fuel of [blockedPoll] counts
      calls of [ringio_get_events]; one for each request in flight and one for
      each interruption that is left are enough, and no turn waits for ever.  Every
      other loop has a bound in the code, and its model is total.
    - Limits: [closeDumbHandlers_closes_stdin], [fill_too_large],
      [newAlignedBuffer_undefined], [exceptionMessage_undefined],
      [newContext_releases_indeterminate], [tear_down_double_free] and
      [blockedPoll_null_callback_leaks].

    ** What is not modelled

    - Concurrency beyond the pool: in the theorems on whole entry points each runs
      alone.  Programs are trees of atomic actions, so that the same definitions
      can be interleaved, as [PoolThreads] does for the pool.
    - A callback that calls the library again from within [blockedPoll].
    - The [DEBUG] prints, which are compiled out, and the memory barriers, which
      constrain the compiler only.
    - [asprintf] that fails leaves its pointer as it was (as glibc does from 2.37
      on, and as the code assumes); [malloc(0)] is not a special case.
    - [GetMethodID] of a null class, which [JNI_OnLoad] calls when the JVM has no
      global reference left: the JNI gives it no meaning, and here it answers.
    - The Java classes and the build. *)

From Stdlib Require Export ZArith Lia.
From stdpp Require Export base gmap list strings numbers.

#[global] Open Scope Z_scope.

(** ** Machine integers

    The C code is compiled for LP64: [int] and [jint] have 32 bits, [long],
    [jlong] and [size_t] have 64 bits, and [unsigned] has 32.  Values are kept
    as [Z]; the conversions below are the ones the C implementation performs. *)

Definition u32 (z : Z) : Z := z mod 2 ^ 32.
Definition u64 (z : Z) : Z := z mod 2 ^ 64.
Definition i32 (z : Z) : Z := (z + 2 ^ 31) mod 2 ^ 32 - 2 ^ 31.

Definition INT_MIN : Z := - 2 ^ 31.
Definition INT_MAX : Z := 2 ^ 31 - 1.

Definition is_i32 (z : Z) : bool := (INT_MIN <=? z) && (z <=? INT_MAX).

Lemma is_i32_spec z : is_i32 z = true ↔ INT_MIN ≤ z ≤ INT_MAX.
Proof. unfold is_i32. lia. Qed.

Lemma i32_small z : INT_MIN ≤ z ≤ INT_MAX → i32 z = z.
Proof. unfold i32, INT_MIN, INT_MAX. intros. rewrite Z.mod_small; lia. Qed.

Lemma i32_range z : INT_MIN ≤ i32 z ≤ INT_MAX.
Proof. unfold i32, INT_MIN, INT_MAX. pose proof (Z.mod_pos_bound (z + 2^31) (2^32)). lia. Qed.

Lemma u32_small z : 0 ≤ z < 2 ^ 32 → u32 z = z.
Proof. apply Z.mod_small. Qed.

Lemma u64_bounds z : 0 ≤ u64 z < 2 ^ 64.
Proof. apply Z.mod_pos_bound. lia. Qed.
Lemma u64_small z : 0 ≤ z < 2 ^ 64 → u64 z = z.
Proof. apply Z.mod_small. Qed.

(** Reading the difference of two [unsigned] values back as an [int]: this is
    how [ringio_get_events] finds out whether the ring has wrapped. *)
Lemma i32_u32_sub a b :
  INT_MIN ≤ a - b ≤ INT_MAX → i32 (u32 (a - b)) = a - b.
Proof.
  unfold i32, u32, INT_MIN, INT_MAX. intros.
  rewrite Zplus_mod_idemp_l. rewrite Z.mod_small; lia.
Qed.

(** Answers of type [unit] carry nothing. *)
Lemma unit_eta (u : unit) : u = tt.
Proof. by destruct u. Qed.

(** ** Circular windows

    The iocb pool, the kernel's completion ring and the Java callback cache are
    all arrays used as circular queues.  [window l s n] is the [n] elements of
    [l] that start at index [s] and wrap around. *)

Definition window {A} (l : list A) (s n : nat) : list A :=
  take n (drop s (l ++ l)).

Section window.
Context {A : Type}.
Implicit Types (l : list A) (s n m i : nat) (x : A).
Open Scope nat_scope.

Lemma wrap_cases s i n :
  s < n → i < n →
  (s + i < n ∧ (s + i) mod n = s + i) ∨ (n ≤ s + i ∧ (s + i) mod n = s + i - n).
Proof.
  intros Hs Hi. destruct (decide (s + i < n)).
  - left. split; [done|]. by apply Nat.mod_small.
  - right. split; [lia|]. symmetry. apply Nat.mod_unique with 1; lia.
Qed.

Lemma window_length l s n :
  s ≤ length l → n ≤ length l → length (window l s n) = n.
Proof. intros. unfold window. rewrite length_take, length_drop, length_app. lia. Qed.

Lemma window_lookup l s n i :
  s < length l → n ≤ length l → i < n →
  window l s n !! i = l !! ((s + i) mod length l).
Proof.
  intros Hs Hn Hi. unfold window.
  rewrite lookup_take_lt by done. rewrite lookup_drop.
  destruct (wrap_cases s i (length l)) as [[? ->]|[? ->]]; try lia.
  - by rewrite lookup_app_l by lia.
  - by rewrite lookup_app_r by lia.
Qed.

Lemma window_0 l s : window l s 0 = [].
Proof. done. Qed.

(** Two windows agree when they read the same cells. *)
Lemma window_ext l l' s n :
  length l' = length l → s < length l → n ≤ length l →
  (∀ i, i < n → l' !! ((s + i) mod length l) = l !! ((s + i) mod length l)) →
  window l' s n = window l s n.
Proof.
  intros Hl Hs Hn Hi. apply list_eq_same_length with n.
  - apply window_length; lia.
  - apply window_length; lia.
  - intros i x y Hin. rewrite !window_lookup by lia. rewrite Hl, Hi by lia. congruence.
Qed.

Lemma window_app l s n m :
  s < length l → n + m ≤ length l →
  window l s (n + m) = window l s n ++ window l ((s + n) mod length l) m.
Proof.
  intros Hs Hnm. assert (length l ≠ 0) by lia.
  pose proof (Nat.mod_upper_bound (s + n) (length l) ltac:(done)).
  apply list_eq_same_length with (n + m).
  - rewrite length_app, !window_length; lia.
  - apply window_length; lia.
  - intros i x y Hi. rewrite window_lookup by lia. destruct (decide (i < n)).
    + rewrite lookup_app_l by (rewrite window_length; lia).
      rewrite window_lookup by lia. congruence.
    + rewrite lookup_app_r; rewrite window_length by lia; [|lia].
      rewrite window_lookup by lia.
      rewrite Nat.Div0.add_mod_idemp_l.
      replace (s + n + (i - n)) with (s + i) by lia. congruence.
Qed.

Lemma window_1 l s x : l !! s = Some x → window l s 1 = [x].
Proof.
  intros Hx. pose proof (lookup_lt_Some _ _ _ Hx).
  apply list_eq_same_length with 1; [done|apply window_length; lia|].
  intros [|i] y z Hi; [|lia]. rewrite window_lookup by lia.
  rewrite Nat.add_0_r, Nat.mod_small by lia. simpl. congruence.
Qed.

(** Taking from the front of the queue. *)
Lemma window_pop l s n x :
  l !! s = Some x → S n ≤ length l →
  window l s (S n) = x :: window l ((s + 1) mod length l) n.
Proof.
  intros Hx Hn. pose proof (lookup_lt_Some _ _ _ Hx).
  replace (S n) with (1 + n) by lia. rewrite window_app by lia.
  by rewrite (window_1 _ _ _ Hx).
Qed.

Lemma wrap_inj s i j n :
  s < n → i < n → j < n → (s + i) mod n = (s + j) mod n → i = j.
Proof.
  intros. destruct (wrap_cases s i n) as [[? Hi]|[? Hi]], (wrap_cases s j n) as [[? Hj]|[? Hj]]; lia.
Qed.

(** Writing the cell just after a window does not change it. *)
Lemma window_insert_out l s n x :
  s < length l → n < length l →
  window (<[(s + n) mod length l := x]> l) s n = window l s n.
Proof.
  intros Hs Hn. apply window_ext; [apply length_insert|lia|lia|].
  intros i Hi. apply list_lookup_insert_ne. intros Heq.
  apply wrap_inj in Heq; lia.
Qed.

(** Adding at the back of the queue. *)
Lemma window_push l s n x :
  s < length l → n < length l →
  window (<[(s + n) mod length l := x]> l) s (S n) = window l s n ++ [x].
Proof.
  intros Hs Hn. replace (S n) with (n + 1) by lia.
  rewrite window_app; rewrite ?length_insert; [|lia|lia].
  rewrite window_insert_out by lia. f_equal. apply window_1.
  apply list_lookup_insert_eq. apply Nat.mod_upper_bound. lia.
Qed.

Lemma window_full l : window l 0 (length l) = l.
Proof. unfold window. by rewrite drop_0, take_app_length. Qed.

Lemma window_rotate l s :
  s ≤ length l → window l s (length l) = drop s l ++ take s l.
Proof.
  intros Hs. unfold window. rewrite drop_app_le by lia.
  rewrite take_app_ge by (rewrite length_drop; lia).
  rewrite length_drop. do 2 f_equal. lia.
Qed.

Lemma window_full_perm l s : s ≤ length l → window l s (length l) ≡ₚ l.
Proof.
  intros Hs. rewrite window_rotate by done.
  rewrite Permutation_app_comm. by rewrite take_drop.
Qed.

Lemma window_take l s n m : n ≤ m → take n (window l s m) = window l s n.
Proof. intros. unfold window. rewrite take_take. f_equal. lia. Qed.
End window.

(** Moving a list to the front. *)
Lemma app_swap {A} (a b c : list A) : a ++ b ++ c ≡ₚ (b ++ a) ++ c.
Proof. by rewrite app_assoc, (Permutation_app_comm a b). Qed.

(** ** Removing one occurrence of an element *)
Section remove1.
Context {A : Type} `{EqDecision A}.
Implicit Types (x y : A) (l k : list A).

Fixpoint remove1 x l : list A :=
  match l with
  | [] => []
  | y :: l => if decide (x = y) then l else y :: remove1 x l
  end.

Lemma remove1_perm x l : x ∈ l → x :: remove1 x l ≡ₚ l.
Proof.
  induction l as [|y l IH]; [by rewrite elem_of_nil|].
  rewrite elem_of_cons. intros Hx. simpl. case_decide as Hxy; [by subst|].
  rewrite Permutation_swap, IH; [done|]. by destruct Hx.
Qed.

Lemma remove1_notin x l : x ∉ l → remove1 x l = l.
Proof.
  induction l as [|y l IH]; [done|]. intros [Hxy Hx]%not_elem_of_cons. simpl.
  rewrite decide_False by done. by rewrite IH.
Qed.

Lemma elem_of_remove1_ne x y l : x ≠ y → x ∈ l → x ∈ remove1 y l.
Proof.
  intros Hxy. induction l as [|z l IH]; [done|]. simpl. rewrite elem_of_cons.
  case_decide; intros [->|Hin]; subst; try done; rewrite ?elem_of_cons; auto.
Qed.

Lemma remove1_cons_perm x l k : l ≡ₚ x :: k → remove1 x l ≡ₚ k.
Proof.
  intros Hl. apply (Permutation_cons_inv (a := x)). rewrite remove1_perm; [done|].
  rewrite Hl. apply list_elem_of_here.
Qed.

Definition remove_all k l : list A := foldr remove1 l k.

Lemma remove_all_perm k l m : l ≡ₚ k ++ m → remove_all k l ≡ₚ m.
Proof.
  revert m. induction k as [|x k IH]; intros m Hl; simpl; [done|].
  apply remove1_cons_perm. apply IH. by rewrite Hl, <-Permutation_middle.
Qed.

Lemma submseteq_remove_all k l : k ⊆+ l → l ≡ₚ k ++ remove_all k l.
Proof.
  intros [m Hm]%submseteq_Permutation. by rewrite (remove_all_perm k l m Hm).
Qed.
End remove1.

(** [n] bytes of zero. *)
Definition zeros (n : Z) : list Z := replicate (Z.to_nat n) 0.
