(* ===== verification/Prog.v ===== *)
(** * Programs

    The shallow embedding of the C functions.  A program of type [prog S A] is
    a tree of atomic actions on a shared state [S] that ends with a value of
    type [A].  An action is one access to memory, one lock operation or one call
    of the environment, so that a program can be run on its own ([run]) and can
    also be interleaved with others, action by action.

    The embedding keeps apart the ways a C function fails to return: undefined
    behaviour ([Crash]), a lock that is never released ([Deadlock]), a call that
    waits for something that does not come ([Waiting]), and a loop that was given
    too little fuel ([OutOfFuel]). *)

From S2P Require Export Prelude.

Inductive act (S B : Type) : Type :=
  | Next (b : B) (s : S)
  | Block
  | Waits
  | Undef.
Arguments Next {S B}.
Arguments Block {S B}.
Arguments Waits {S B}.
Arguments Undef {S B}.

Inductive prog (S A : Type) : Type :=
  | Ret (a : A)
  | Act {B : Set} (f : S → act S B) (k : B → prog S A)
  | Ub
  | NoFuel.
Arguments Ret {S A}.
Arguments Act {S A B}.
Arguments Ub {S A}.
Arguments NoFuel {S A}.

Fixpoint bind {S A B} (p : prog S A) (k : A → prog S B) : prog S B :=
  match p with
  | Ret a => k a
  | Act f k' => Act f (λ b, bind (k' b) k)
  | Ub => Ub
  | NoFuel => NoFuel
  end.

Declare Scope prog_scope.
Delimit Scope prog_scope with prog.
Bind Scope prog_scope with prog.
Notation "'let*' x ':=' p 'in' q" := (bind p (λ x, q))
  (at level 10, x binder, p at level 100, q at level 200,
   format "'[v' 'let*'  x  ':='  p  'in' '/' q ']'") : prog_scope.
Notation "p ;; q" := (bind p (λ _, q))
  (at level 100, q at level 200, right associativity) : prog_scope.
#[global] Open Scope prog_scope.

Inductive outcome (S A : Type) : Type :=
  | Done (a : A) (s : S)
  | Crash
  | Deadlock (s : S)
  | Waiting (s : S)
  | OutOfFuel (s : S).
Arguments Done {S A}.
Arguments Crash {S A}.
Arguments Deadlock {S A}.
Arguments Waiting {S A}.
Arguments OutOfFuel {S A}.

(** Running a program alone. *)
Fixpoint run {S A} (p : prog S A) (s : S) : outcome S A :=
  match p with
  | Ret a => Done a s
  | Act f k =>
      match f s with
      | Next b s' => run (k b) s'
      | Block => Deadlock s
      | Waits => Waiting s
      | Undef => Crash
      end
  | Ub => Crash
  | NoFuel => OutOfFuel s
  end.

Section run.
Context {S : Type}.

Lemma run_bind {A B} (p : prog S A) (k : A → prog S B) s :
  run (bind p k) s =
  match run p s with
  | Done a s' => run (k a) s'
  | Crash => Crash
  | Deadlock s' => Deadlock s'
  | Waiting s' => Waiting s'
  | OutOfFuel s' => OutOfFuel s'
  end.
Proof.
  revert s. induction p as [a|C f k' IH| |]; intros s; simpl; try done.
  destruct (f s); [apply IH|done|done|done].
Qed.

(** [wp p Q s]: run alone from [s], the program [p] returns (no undefined
    behaviour, no deadlock, no endless wait, enough fuel) and [Q] holds of its value and of the
    final state. *)
Definition wp {A} (p : prog S A) (Q : A → S → Prop) (s : S) : Prop :=
  match run p s with
  | Done a s' => Q a s'
  | _ => False
  end.

Lemma wp_run {A} (p : prog S A) Q s :
  wp p Q s ↔ ∃ a s', run p s = Done a s' ∧ Q a s'.
Proof.
  unfold wp. destruct (run p s); split; intros H; try done; try (by destruct H as (?&?&?&?)).
  - eauto.
  - destruct H as (?&?&[= -> ->]&?). done.
Qed.

Lemma wp_ret {A} (a : A) (Q : A → S → Prop) s : Q a s → wp (Ret a) Q s.
Proof. done. Qed.

Lemma wp_bind {A B} (p : prog S A) (k : A → prog S B) Q s :
  wp p (λ a s', wp (k a) Q s') s → wp (bind p k) Q s.
Proof. unfold wp. rewrite run_bind. by destruct (run p s). Qed.

Lemma wp_bind_inv {A B} (p : prog S A) (k : A → prog S B) Q s :
  wp (bind p k) Q s → wp p (λ a s', wp (k a) Q s') s.
Proof. unfold wp. rewrite run_bind. by destruct (run p s). Qed.

Lemma wp_bind_assoc {A B C} (p : prog S A) (k : A → prog S B) (l : B → prog S C) Q s :
  wp (bind (bind p k) l) Q s → wp (bind p (λ a, bind (k a) l)) Q s.
Proof. unfold wp. rewrite !run_bind. destruct (run p s); try done. by rewrite run_bind. Qed.

Lemma wp_mono {A} (p : prog S A) (P Q : A → S → Prop) s :
  wp p P s → (∀ a s', P a s' → Q a s') → wp p Q s.
Proof. unfold wp. destruct (run p s); naive_solver. Qed.

Lemma wp_done {A} (p : prog S A) a s s' :
  wp p (λ x t, x = a ∧ t = s') s ↔ run p s = Done a s'.
Proof.
  unfold wp. destruct (run p s); split; intros H; try done.
  - by destruct H as [-> ->].
  - by injection H as -> ->.
Qed.

Lemma wp_of_run {A} (p : prog S A) (Q : A → S → Prop) s a s' :
  run p s = Done a s' → Q a s' → wp p Q s.
Proof. unfold wp. by intros ->. Qed.

Lemma run_bind_done {A B} (p : prog S A) (k : A → prog S B) s a s' :
  run p s = Done a s' → run (bind p k) s = run (k a) s'.
Proof. rewrite run_bind. by intros ->. Qed.

(** Composition: a specification of [p] proved once, used inside a larger
    program. *)
Lemma wp_seq {A B} (p : prog S A) (k : A → prog S B) (P : A → S → Prop) Q s :
  wp p P s → (∀ a s', P a s' → wp (k a) Q s') → wp (bind p k) Q s.
Proof. intros Hp Hk. apply wp_bind. by apply wp_mono with P. Qed.

Lemma wp_and {A} (p : prog S A) (P Q : A → S → Prop) s :
  wp p P s → wp p Q s → wp p (λ a s', P a s' ∧ Q a s') s.
Proof. unfold wp. by destruct (run p s). Qed.

(** [wp_may p Q F W s]: as [wp], but the program may also run out of fuel, and
    then [F] holds, or wait for ever in a state where [W] holds. *)
Definition wp_may {A} (p : prog S A) (Q : A → S → Prop) (F : Prop) (W : S → Prop) (s : S) : Prop :=
  match run p s with
  | Done a s' => Q a s'
  | OutOfFuel _ => F
  | Waiting s' => W s'
  | _ => False
  end.

Lemma wp_may_of_wp {A} (p : prog S A) Q F W s : wp p Q s → wp_may p Q F W s.
Proof. unfold wp, wp_may. by destruct (run p s). Qed.

Lemma wp_may_mono {A} (p : prog S A) (P Q : A → S → Prop) F (V W : S → Prop) s :
  wp_may p P F V s → (∀ a s', P a s' → Q a s') → (∀ s', V s' → W s') → wp_may p Q F W s.
Proof. unfold wp_may. destruct (run p s); naive_solver. Qed.

Lemma wp_of_may {A} (p : prog S A) Q W s :
  wp_may p Q False W s → (∀ s', ¬ W s') → wp p Q s.
Proof. unfold wp, wp_may. destruct (run p s); naive_solver. Qed.

Lemma wp_may_seq {A B} (p : prog S A) (k : A → prog S B) (P : A → S → Prop) Q F W s :
  wp p P s → (∀ a s', P a s' → wp_may (k a) Q F W s') → wp_may (bind p k) Q F W s.
Proof. unfold wp, wp_may. rewrite run_bind. destruct (run p s); naive_solver. Qed.

Lemma wp_may_bind {A B} (p : prog S A) (k : A → prog S B) (P : A → S → Prop) Q F W s :
  wp_may p P F W s → (∀ a s', P a s' → wp_may (k a) Q F W s') → wp_may (bind p k) Q F W s.
Proof. unfold wp_may. rewrite run_bind. destruct (run p s); naive_solver. Qed.

(** *** Loops *)

(** [for (int i = lo; i < hi; i++) body(i)] *)
Fixpoint for_loop (n : nat) (i : Z) (body : Z → prog S unit) : prog S unit :=
  match n with
  | O => Ret tt
  | Datatypes.S n' => body i ;; for_loop n' (i + 1) body
  end.

Definition for_ (lo hi : Z) (body : Z → prog S unit) : prog S unit :=
  for_loop (Z.to_nat (hi - lo)) lo body.

(** The same loop with a body that can leave it: [Some r] is a [return] or a
    [break] that carries [r], [None] goes on. *)
Fixpoint for_exit_loop {R} (n : nat) (i : Z) (body : Z → prog S (option R))
    : prog S (option R) :=
  match n with
  | O => Ret None
  | Datatypes.S n' =>
      let* o := body i in
      match o with
      | Some r => Ret (Some r)
      | None => for_exit_loop n' (i + 1) body
      end
  end.

Definition for_exit {R} (lo hi : Z) (body : Z → prog S (option R)) : prog S (option R) :=
  for_exit_loop (Z.to_nat (hi - lo)) lo body.

Lemma wp_for (I : Z → S → Prop) lo hi body (Q : unit → S → Prop) s :
  lo ≤ hi → I lo s →
  (∀ i s', lo ≤ i < hi → I i s' → wp (body i) (λ _ s'', I (i + 1) s'') s') →
  (∀ s', I hi s' → Q tt s') →
  wp (for_ lo hi body) Q s.
Proof.
  intros Hle HI Hbody HQ. unfold for_.
  assert (∀ n i s', Z.of_nat n = hi - i → lo ≤ i → I i s' → wp (for_loop n i body) Q s') as Hl.
  { induction n as [|n IH]; intros i s' Hn Hi HI'; simpl.
    - apply wp_ret, HQ. by replace hi with i by lia.
    - eapply wp_seq; [apply Hbody; [lia|done]|]. intros [] s'' ?. apply IH; [lia|lia|done]. }
  apply Hl; [lia|lia|done].
Qed.

Lemma wp_for_empty lo hi body (Q : unit → S → Prop) s :
  hi ≤ lo → Q tt s → wp (for_ lo hi body) Q s.
Proof.
  intros ? HQ. unfold for_. replace (Z.to_nat (hi - lo)) with O by lia. done.
Qed.

Lemma wp_for_exit {R} (I : Z → S → Prop) lo hi body (Q : option R → S → Prop) s :
  lo ≤ hi → I lo s →
  (∀ i s', lo ≤ i < hi → I i s' →
     wp (body i) (λ o s'', match o with Some r => Q (Some r) s'' | None => I (i + 1) s'' end) s') →
  (∀ s', I hi s' → Q None s') →
  wp (for_exit lo hi body) Q s.
Proof.
  intros Hle HI Hbody HQ. unfold for_exit.
  assert (∀ n i s', Z.of_nat n = hi - i → lo ≤ i → I i s' → wp (for_exit_loop n i body) Q s') as Hl.
  { induction n as [|n IH]; intros i s' Hn Hi HI'; simpl.
    - apply wp_ret, HQ. by replace hi with i by lia.
    - eapply wp_seq; [apply Hbody; [lia|done]|]. intros [r|] s'' Ho; [done|].
      apply IH; [lia|lia|done]. }
  apply Hl; [lia|lia|done].
Qed.

Lemma wp_for_exit_empty {R} lo hi body (Q : option R → S → Prop) s :
  hi ≤ lo → Q None s → wp (for_exit lo hi body) Q s.
Proof.
  intros ? HQ. unfold for_exit. replace (Z.to_nat (hi - lo)) with O by lia. done.
Qed.

(** *** Checked [int] arithmetic: signed overflow is undefined. *)
Definition int_ (z : Z) : prog S Z := if is_i32 z then Ret z else Ub.

Lemma wp_int z (Q : Z → S → Prop) s :
  INT_MIN ≤ z ≤ INT_MAX → Q z s → wp (int_ z) Q s.
Proof. intros Hz HQ. unfold int_. by rewrite (proj2 (is_i32_spec z) Hz). Qed.
End run.

#[global] Arguments for_ {S} lo hi body : simpl never.
#[global] Arguments for_exit {S R} lo hi body : simpl never.
#[global] Arguments int_ {S} z : simpl never.
#[global] Arguments wp {S A} p Q s : simpl never.
#[global] Arguments wp_may {S A} p Q F W s : simpl never.
