(* ===== verification/World.v ===== *)
(** * The world of the native library

    The state the C code acts on, and the code it calls that is not part of the
    repository.

    - [heap]: what [malloc] and [posix_memalign] returned and [free] has not
      taken back, one typed block per allocation ([io_control], [iocb], the array
      of iocb pointers, the array of events, raw bytes, C strings).  An access outside a live
      block is undefined behaviour.
    - [glob]: the file-scope variables of
      [org_apache_activemq_artemis_nativo_jlibaio_LibaioContext.c].
    - [trace]: every call that leaves the library, with its answer, latest first.
      The kernel, libaio, the C library's system calls and the JVM are one
      parameter, [Env], that answers a call from the whole history; so a theorem
      for all [Env] holds whatever they do, and what a theorem needs of them is a
      named hypothesis on the answers.

    Addresses are never reused after [free], which only makes the model refuse
    more: a dangling pointer stays dangling. *)

From S2P Require Export Prog.

(** ** Data types of the C code and of libaio.h *)

Definition NULL : Z := 0.

(** The newline of the messages. *)
Definition nl : string := String (Ascii.ascii_of_nat 10) EmptyString.

Inductive mutex : Set := MUninit | MFree | MLocked | MDestroyed.

(** [struct io_control] *)
Record io_control : Set := IoControl {
  ioContext : Z;          (* io_context_t *)
  events : Z;             (* struct io_event * *)
  thisObject : Z;         (* jobject *)
  iocbLock : mutex;
  pollLock : mutex;
  iocb_pool : Z;          (* struct iocb ** iocb *)
  queueSize : Z;
  iocbPut : Z;
  iocbGet : Z;
  used : Z
}.

(** [struct iocb] of libaio.h: the caller's [data], the file, the opcode and the
    common part of the request. *)
Record iocb : Set := Iocb {
  data : Z;
  aio_fildes : Z;
  aio_lio_opcode : Z;
  c_buf : Z;
  c_nbytes : Z;
  c_offset : Z
}.

(** [struct io_event] of libaio.h *)
Record io_event : Set := IoEvent {
  ev_data : Z;
  ev_obj : Z;             (* struct iocb * *)
  ev_res : Z;
  ev_res2 : Z
}.

(** [struct aio_ring]: the completion ring the kernel maps in user space. *)
Record aio_ring : Set := AioRing {
  ring_id : Z;
  ring_nr : Z;
  ring_head : Z;
  ring_tail : Z;
  ring_magic : Z;
  ring_compat_features : Z;
  ring_incompat_features : Z;
  ring_header_length : Z;
  ring_io_events : list io_event
}.

Record stat : Set := Stat_ { st_size : Z; st_blksize : Z }.

(** What [posix_memalign] returns: aligned bytes. *)
Record raw : Set := Raw { raw_align : Z; raw_bytes : list Z }.

#[export] Instance mutex_eq_dec : EqDecision mutex.
Proof. solve_decision. Defined.
#[export] Instance iocb_eq_dec : EqDecision iocb.
Proof. solve_decision. Defined.
#[export] Instance io_event_eq_dec : EqDecision io_event.
Proof. solve_decision. Defined.

Inductive block : Set :=
  | BControl (c : io_control)
  | BIocb (x : iocb)
  | BPtrs (l : list Z)
  | BEvents (l : list io_event)
  | BRaw (r : raw)
  | BStr (s : string).

(** The C types that live in a heap block of their own. *)
Class Storable (T : Set) := {
  to_block : T → block;
  of_block : block → option T;
  of_to_block x : of_block (to_block x) = Some x
}.

#[export] Instance control_storable : Storable io_control := {
  to_block := BControl;
  of_block b := match b with BControl c => Some c | _ => None end;
  of_to_block _ := eq_refl
}.
#[export] Instance iocb_storable : Storable iocb := {
  to_block := BIocb;
  of_block b := match b with BIocb x => Some x | _ => None end;
  of_to_block _ := eq_refl
}.
#[export] Instance ptrs_storable : Storable (list Z) := {
  to_block := BPtrs;
  of_block b := match b with BPtrs l => Some l | _ => None end;
  of_to_block _ := eq_refl
}.
#[export] Instance events_storable : Storable (list io_event) := {
  to_block := BEvents;
  of_block b := match b with BEvents l => Some l | _ => None end;
  of_to_block _ := eq_refl
}.
#[export] Instance raw_storable : Storable raw := {
  to_block := BRaw;
  of_block b := match b with BRaw r => Some r | _ => None end;
  of_to_block _ := eq_refl
}.

#[export] Instance string_storable : Storable string := {
  to_block := BStr;
  of_block b := match b with BStr s => Some s | _ => None end;
  of_to_block _ := eq_refl
}.

(** Assignments to the fields the code writes. *)
Definition set_ioContext v c := IoControl v (events c) (thisObject c) (iocbLock c) (pollLock c)
  (iocb_pool c) (queueSize c) (iocbPut c) (iocbGet c) (used c).
Definition set_events v c := IoControl (ioContext c) v (thisObject c) (iocbLock c) (pollLock c)
  (iocb_pool c) (queueSize c) (iocbPut c) (iocbGet c) (used c).
Definition set_thisObject v c := IoControl (ioContext c) (events c) v (iocbLock c) (pollLock c)
  (iocb_pool c) (queueSize c) (iocbPut c) (iocbGet c) (used c).
Definition set_iocbLock v c := IoControl (ioContext c) (events c) (thisObject c) v (pollLock c)
  (iocb_pool c) (queueSize c) (iocbPut c) (iocbGet c) (used c).
Definition set_pollLock v c := IoControl (ioContext c) (events c) (thisObject c) (iocbLock c) v
  (iocb_pool c) (queueSize c) (iocbPut c) (iocbGet c) (used c).
Definition set_iocb_pool v c := IoControl (ioContext c) (events c) (thisObject c) (iocbLock c)
  (pollLock c) v (queueSize c) (iocbPut c) (iocbGet c) (used c).
Definition set_queueSize v c := IoControl (ioContext c) (events c) (thisObject c) (iocbLock c)
  (pollLock c) (iocb_pool c) v (iocbPut c) (iocbGet c) (used c).
Definition set_iocbPut v c := IoControl (ioContext c) (events c) (thisObject c) (iocbLock c)
  (pollLock c) (iocb_pool c) (queueSize c) v (iocbGet c) (used c).
Definition set_iocbGet v c := IoControl (ioContext c) (events c) (thisObject c) (iocbLock c)
  (pollLock c) (iocb_pool c) (queueSize c) (iocbPut c) v (used c).
Definition set_used v c := IoControl (ioContext c) (events c) (thisObject c) (iocbLock c)
  (pollLock c) (iocb_pool c) (queueSize c) (iocbPut c) (iocbGet c) v.

Definition set_data v x := Iocb v (aio_fildes x) (aio_lio_opcode x) (c_buf x) (c_nbytes x) (c_offset x).

(** ** The file-scope variables *)

Record globals : Set := Globals {
  forceSysCall : Z;                  (* jboolean *)
  dumbWriteHandler : Z;
  dumbPath : string;
  oneMegaBuffer : Z;
  oneMegaMutex : mutex;
  submitClass : Z;
  errorMethod : Z;
  doneMethod : Z;
  libaioContextDone : Z;
  libaioContextClass : Z;
  runtimeExceptionClass : Z;
  ioExceptionClass : Z
}.

Definition set_forceSysCall v g := Globals v (dumbWriteHandler g) (dumbPath g) (oneMegaBuffer g)
  (oneMegaMutex g) (submitClass g) (errorMethod g) (doneMethod g) (libaioContextDone g)
  (libaioContextClass g) (runtimeExceptionClass g) (ioExceptionClass g).
Definition set_dumbWriteHandler v g := Globals (forceSysCall g) v (dumbPath g) (oneMegaBuffer g)
  (oneMegaMutex g) (submitClass g) (errorMethod g) (doneMethod g) (libaioContextDone g)
  (libaioContextClass g) (runtimeExceptionClass g) (ioExceptionClass g).
Definition set_dumbPath v g := Globals (forceSysCall g) (dumbWriteHandler g) v (oneMegaBuffer g)
  (oneMegaMutex g) (submitClass g) (errorMethod g) (doneMethod g) (libaioContextDone g)
  (libaioContextClass g) (runtimeExceptionClass g) (ioExceptionClass g).
Definition set_oneMegaBuffer v g := Globals (forceSysCall g) (dumbWriteHandler g) (dumbPath g) v
  (oneMegaMutex g) (submitClass g) (errorMethod g) (doneMethod g) (libaioContextDone g)
  (libaioContextClass g) (runtimeExceptionClass g) (ioExceptionClass g).
Definition set_oneMegaMutex v g := Globals (forceSysCall g) (dumbWriteHandler g) (dumbPath g)
  (oneMegaBuffer g) v (submitClass g) (errorMethod g) (doneMethod g) (libaioContextDone g)
  (libaioContextClass g) (runtimeExceptionClass g) (ioExceptionClass g).
Definition set_submitClass v g := Globals (forceSysCall g) (dumbWriteHandler g) (dumbPath g)
  (oneMegaBuffer g) (oneMegaMutex g) v (errorMethod g) (doneMethod g) (libaioContextDone g)
  (libaioContextClass g) (runtimeExceptionClass g) (ioExceptionClass g).
Definition set_errorMethod v g := Globals (forceSysCall g) (dumbWriteHandler g) (dumbPath g)
  (oneMegaBuffer g) (oneMegaMutex g) (submitClass g) v (doneMethod g) (libaioContextDone g)
  (libaioContextClass g) (runtimeExceptionClass g) (ioExceptionClass g).
Definition set_doneMethod v g := Globals (forceSysCall g) (dumbWriteHandler g) (dumbPath g)
  (oneMegaBuffer g) (oneMegaMutex g) (submitClass g) (errorMethod g) v (libaioContextDone g)
  (libaioContextClass g) (runtimeExceptionClass g) (ioExceptionClass g).
Definition set_libaioContextDone v g := Globals (forceSysCall g) (dumbWriteHandler g) (dumbPath g)
  (oneMegaBuffer g) (oneMegaMutex g) (submitClass g) (errorMethod g) (doneMethod g) v
  (libaioContextClass g) (runtimeExceptionClass g) (ioExceptionClass g).
Definition set_libaioContextClass v g := Globals (forceSysCall g) (dumbWriteHandler g) (dumbPath g)
  (oneMegaBuffer g) (oneMegaMutex g) (submitClass g) (errorMethod g) (doneMethod g)
  (libaioContextDone g) v (runtimeExceptionClass g) (ioExceptionClass g).
Definition set_runtimeExceptionClass v g := Globals (forceSysCall g) (dumbWriteHandler g)
  (dumbPath g) (oneMegaBuffer g) (oneMegaMutex g) (submitClass g) (errorMethod g) (doneMethod g)
  (libaioContextDone g) (libaioContextClass g) v (ioExceptionClass g).
Definition set_ioExceptionClass v g := Globals (forceSysCall g) (dumbWriteHandler g)
  (dumbPath g) (oneMegaBuffer g) (oneMegaMutex g) (submitClass g) (errorMethod g) (doneMethod g)
  (libaioContextDone g) (libaioContextClass g) (runtimeExceptionClass g) v.

(** ** Calls that leave the library

    One constructor per function of the C library, libaio, the kernel's ring
    and the JNI that the code calls, indexed by the type of its answer. *)

(** The answer of [io_getevents]: an error code, the events it stores, or none at
    all: the call waits for completions that do not come. *)
Inductive ge_result : Set := GeError (e : Z) | GeEvents (l : list io_event) | GeWait.

Inductive syscall : Set → Set :=
  (* memory and threads: does the allocation fail; result of the call *)
  | MallocFails (size : Z) : syscall bool
  | PosixMemalign (alignment size : Z) : syscall Z
  | AsprintfFails : syscall bool
  | PthreadMutexInit : syscall Z
  (* diagnostics *)
  | Fprintf (err : bool) (msg : string) : syscall unit
  | FflushStdout : syscall unit
  (* files *)
  | Open (path : option string) (flags mode : Z) : syscall Z
  | Close (fd : Z) : syscall Z
  | Flock (fd op : Z) : syscall Z
  | Fstat (fd : Z) : syscall (option stat)
  | Stat (path : option string) : syscall (option stat)
  | Fallocate (fd mode off len : Z) : syscall Z
  | Fsync (fd : Z) : syscall Z
  | Fdatasync (fd : Z) : syscall Z
  | Lseek (fd off whence : Z) : syscall Z
  | Write (fd : Z) (buf : option (list Z)) (count : Z) : syscall Z
  | Mkstemp (template : string) : syscall (Z * string)
  | Unlink (path : string) : syscall Z
  | Errno : syscall Z
  (* libaio and the ring *)
  | IoQueueInit (maxevents : Z) : syscall (Z * option Z)
  | IoQueueRelease (ctx : Z) : syscall Z
  | IoSubmit (ctx ptr : Z) (cb : iocb) : syscall Z
  | IoGetevents (ctx min_nr max : Z) (timeout : option (Z * Z)) : syscall ge_result
  | RingRead (ctx : Z) : syscall (option aio_ring)
  | RingStoreHead (ctx head : Z) : syscall unit
  (* JNI *)
  | GetEnv (version : Z) : syscall Z
  | FindClass (name : string) : syscall Z
  | GetMethodID (cls : Z) (name sig : string) : syscall Z
  | NewGlobalRef (obj : Z) : syscall Z
  | DeleteGlobalRef (ref : Z) : syscall unit
  | ThrowNew (cls : Z) (msg : option string) : syscall unit
  | GetDirectBufferAddress (buf : Z) : syscall Z
  | NewDirectByteBuffer (addr capacity : Z) : syscall Z
  | GetStringUTFChars (jstr : Z) : syscall (option string)
  | ReleaseStringUTFChars (jstr : Z) (chars : option string) : syscall unit
  | NewStringUTF (s : string) : syscall Z
  | CallVoidMethod (obj method : Z) (args : list Z) : syscall unit
  | SetObjectArrayElement (arr index obj : Z) : syscall unit.

Record event := Ev { ev_type : Set; ev_call : syscall ev_type; ev_answer : ev_type }.
Arguments Ev {ev_type} ev_call ev_answer.

(** Latest event first. *)
Definition history := list event.

(** Everything outside the repository.  [strerror] is the C library's table of
    messages; [io_prep_pwrite] and [io_prep_pread] are libaio's; the [indet_]
    fields are the contents of memory that was allocated and not yet written. *)
Class Env := {
  answer : history → ∀ {T : Set}, syscall T → T;
  strerror : Z → string;
  io_prep_pwrite_env : iocb → Z → Z → Z → Z → iocb;
  io_prep_pread_env : iocb → Z → Z → Z → Z → iocb;
  indet_control : io_control;
  indet_iocb : iocb;
  indet_ptr : Z;
  indet_event : io_event;
  indet_byte : Z
}.

Record world := World {
  heap : gmap Z block;
  brk : Z;
  glob : globals;
  trace : history
}.

Definition upd_heap (f : gmap Z block → gmap Z block) w := World (f (heap w)) (brk w) (glob w) (trace w).
Definition upd_glob (f : globals → globals) w := World (heap w) (brk w) (f (glob w)) (trace w).
Definition log {T : Set} (c : syscall T) (r : T) w := World (heap w) (brk w) (glob w) (Ev c r :: trace w).
Definition put {T : Set} `{Storable T} (p : Z) (x : T) w := upd_heap <[p := to_block x]> w.

(** Every allocated address is below the allocator's mark, and none is null. *)
Definition heap_ok (w : world) : Prop :=
  0 < brk w ∧ ∀ p b, heap w !! p = Some b → 0 < p < brk w.

Definition has {T : Set} `{Storable T} (w : world) (p : Z) (x : T) : Prop :=
  heap w !! p = Some (to_block x).

(** [w'] has the memory of [w]: nothing allocated in [w] was freed or written,
    and what was allocated since was freed. *)
Record same_mem (w w' : world) : Prop := SameMem {
  same_heap : heap w' = heap w;
  same_glob : glob w' = glob w;
  same_brk : brk w ≤ brk w'
}.

#[export] Instance same_mem_preorder : PreOrder same_mem.
Proof.
  split.
  - intros w. split; [done|done|lia].
  - intros w1 w2 w3 [H1 G1 B1] [H2 G2 B2]. split; [congruence|congruence|lia].
Qed.

Lemma same_mem_heap_ok w w' : same_mem w w' → heap_ok w → heap_ok w'.
Proof.
  intros [Hh _ Hb] [Hpos Hok]. split; [lia|]. intros p b. rewrite Hh.
  intros ?%Hok. lia.
Qed.

Lemma same_mem_log {T : Set} (c : syscall T) r w : same_mem w (log c r w).
Proof. split; simpl; [done|done|lia]. Qed.

Notation "w '⊨' p '↦' x" := (has w p x) (at level 70, p at level 20, x at level 20).
