(* ===== verification/Mem.v ===== *)
(** * Memory, locks and calls

    The atomic actions of the C functions, as programs on the [world], and the
    [wp] rule of each.  [wp_step] applies the rule that fits the next action. *)

From S2P Require Export World.

Abbreviation cprog := (prog world).

Section actions.
Context {E : Env}.

(** A call that leaves the library: answered by the environment, and logged. *)
Definition call {T : Set} (c : syscall T) : cprog T :=
  Act (λ w, let r := answer (trace w) c in Next r (log c r w)) Ret.

(** [p->f] *)
Definition load {T : Set} `{Storable T} {A : Set} (p : Z) (f : T → A) : cprog A :=
  Act (λ w, match heap w !! p ≫= of_block with
            | Some x => Next (f x) w
            | None => Undef
            end) Ret.

(** [p->f = v], with [g] the assignment on the structure. *)
Definition store {T : Set} `{Storable T} (p : Z) (g : T → T) : cprog unit :=
  Act (λ w, match heap w !! p ≫= of_block with
            | Some x => Next tt (put p (g x) w)
            | None => Undef
            end) Ret.

(** [p[i]] and [p[i] = x]; out of bounds is undefined. *)
Definition load_elt {A : Set} `{Storable (list A)} (p i : Z) : cprog A :=
  Act (λ w, match heap w !! p ≫= of_block with
            | Some l => match (if 0 <=? i then l !! Z.to_nat i else None) with
                        | Some x => Next x w
                        | None => Undef
                        end
            | None => Undef
            end) Ret.

Definition store_elt {A : Set} `{Storable (list A)} (p i : Z) (x : A) : cprog unit :=
  Act (λ w, match heap w !! p ≫= of_block with
            | Some l => if (0 <=? i) && (i <? Z.of_nat (length l))
                        then Next tt (put p (<[Z.to_nat i := x]> l) w)
                        else Undef
            | None => Undef
            end) Ret.

(** File-scope variables. *)
Definition load_glob {A : Set} (f : globals → A) : cprog A :=
  Act (λ w, Next (f (glob w)) w) Ret.
Definition store_glob (g : globals → globals) : cprog unit :=
  Act (λ w, Next tt (upd_glob g w)) Ret.

(** The next address that is a multiple of [a]. *)
Definition align_up (a p : Z) : Z := (p + a - 1) / a * a.

(** [bump]: give the block [b], of [size] bytes, the address [p]. *)
Definition bump (p size : Z) (b : block) (w : world) : world :=
  World (<[p := b]> (heap w)) (p + Z.max 1 size) (glob w) (trace w).

Definition alloc (a size : Z) (b : block) : cprog Z :=
  Act (λ w, let p := align_up (Z.max 1 a) (brk w) in Next p (bump p size b w)) Ret.

(** [malloc(size)], used as a [T]: [x] stands for its indeterminate contents. *)
Definition malloc {T : Set} `{Storable T} (size : Z) (x : T) : cprog Z :=
  let* fails := call (MallocFails size) in
  if fails then Ret NULL else alloc 16 size (to_block x).

(** [posix_memalign(&p, alignment, size)]: its result, and [p] when it is 0. *)
Definition posix_memalign (alignment size : Z) : cprog (Z * Z) :=
  let* r := call (PosixMemalign alignment size) in
  if r =? 0
  then let* p := alloc alignment size
                   (BRaw (Raw alignment (replicate (Z.to_nat size) indet_byte))) in
       Ret (0, p)
  else Ret (r, NULL).

(** [asprintf(&result, "%s%s", s1, s2)]: -1 and an unchanged [result] when it
    fails, else the number of characters and the new string. *)
Definition asprintf_s_s (s1 s2 : string) : cprog (Z * Z) :=
  let* fails := call AsprintfFails in
  if fails then Ret (-1, NULL)
  else let s := (s1 +:+ s2) in
       let* p := alloc 1 (Z.of_nat (String.length s) + 1) (BStr s) in
       Ret (Z.of_nat (String.length s), p).

(** The string a callee finds at the [char *] [p]. *)
Definition string_at (p : Z) : cprog (option string) :=
  Act (B := option string) (λ w, Next (heap w !! p ≫= of_block) w) Ret.

(** [free(p)] *)
Definition free (p : Z) : cprog unit :=
  if p =? NULL then Ret tt
  else Act (λ w, match heap w !! p with
                 | Some _ => Next tt (upd_heap (delete p) w)
                 | None => Undef
                 end) Ret.

(** [memset(p, c, n)] *)
Definition memset (p c n : Z) : cprog unit :=
  Act (λ w, match heap w !! p ≫= of_block with
            | Some r =>
                if n <=? Z.of_nat (length (raw_bytes r))
                then Next tt (put p (Raw (raw_align r)
                       (replicate (Z.to_nat n) c ++ drop (Z.to_nat n) (raw_bytes r))) w)
                else Undef
            | None => Undef
            end) Ret.

(** The bytes a system call finds at [p], if [p] is a buffer. *)
Definition bytes_at (p : Z) : cprog (option (list Z)) :=
  Act (B := option (list Z)) (λ w, Next (raw_bytes <$> (heap w !! p ≫= of_block)) w) Ret.

(** *** Mutexes *)
Inductive mref : Set := IocbLock (p : Z) | PollLock (p : Z) | OneMegaMutex.

(** The mutex [m] names, and the world in which it has another state. *)
Definition focus (m : mref) (w : world) : option (mutex * (mutex → world)) :=
  match m with
  | IocbLock p => (λ c, (iocbLock c, λ v, put p (set_iocbLock v c) w)) <$> (heap w !! p ≫= of_block)
  | PollLock p => (λ c, (pollLock c, λ v, put p (set_pollLock v c) w)) <$> (heap w !! p ≫= of_block)
  | OneMegaMutex => Some (oneMegaMutex (glob w), λ v, upd_glob (set_oneMegaMutex v) w)
  end.

Definition pthread_mutex_lock (m : mref) : cprog unit :=
  Act (λ w, match focus m w with
            | Some (MFree, upd) => Next tt (upd MLocked)
            | Some (MLocked, _) => Block
            | _ => Undef
            end) Ret.

Definition pthread_mutex_unlock (m : mref) : cprog unit :=
  Act (λ w, match focus m w with
            | Some (MLocked, upd) => Next tt (upd MFree)
            | _ => Undef
            end) Ret.

Definition pthread_mutex_init (m : mref) : cprog Z :=
  let* r := call PthreadMutexInit in
  if r =? 0
  then Act (λ w, match focus m w with
                 | Some (_, upd) => Next 0 (upd MFree)
                 | None => Undef
                 end) Ret
  else Ret r.

Definition pthread_mutex_destroy (m : mref) : cprog unit :=
  Act (λ w, match focus m w with
            | Some (MFree, upd) => Next tt (upd MDestroyed)
            | _ => Undef
            end) Ret.

(** [io_getevents(ctx, min_nr, max, events, timeout)]: the events it returns
    are written at the start of the array [evs].  It is the only call that may
    not return. *)
Definition io_getevents (ctx min_nr max evs : Z) (timeout : option (Z * Z)) : cprog Z :=
  let* r := call (IoGetevents ctx min_nr max timeout) in
  match r with
  | GeError e => Ret e
  | GeEvents l =>
      Act (λ w, match heap w !! evs ≫= of_block with
                | Some arr => if (length l <=? length arr)%nat
                              then Next tt (put evs (l ++ drop (length l) arr) w)
                              else Undef
                | None => Undef
                end) (λ _, Ret (Z.of_nat (length l)))
  | GeWait => Act (B := unit) (λ _, Waits) (λ _, Ret 0)
  end.
End actions.

Notation "p '->>' f" := (load p f) (at level 50, f at level 10).

(** ** Lookups in updated worlds *)

Section lookup.
Context {T U : Set} `{Storable T, Storable U}.
Implicit Types (w : world) (p q : Z).

Lemma has_of_block w p (x : T) : w ⊨ p ↦ x → heap w !! p ≫= of_block = Some x.
Proof. unfold has. intros ->. apply of_to_block. Qed.

Lemma has_put_eq w p (x : T) : put p x w ⊨ p ↦ x.
Proof. unfold has. simpl. apply lookup_insert_eq. Qed.

Lemma has_put_ne w p q (x : T) (y : U) : p ≠ q → w ⊨ q ↦ y → put p x w ⊨ q ↦ y.
Proof. unfold has. simpl. intros. by rewrite lookup_insert_ne. Qed.

Lemma has_log {V : Set} (c : syscall V) r w p (x : T) : w ⊨ p ↦ x → log c r w ⊨ p ↦ x.
Proof. done. Qed.

Lemma has_upd_glob f w p (x : T) : w ⊨ p ↦ x → upd_glob f w ⊨ p ↦ x.
Proof. done. Qed.

Lemma has_inj w p (x y : T) : w ⊨ p ↦ x → w ⊨ p ↦ y → x = y.
Proof. intros Hx%has_of_block Hy%has_of_block. congruence. Qed.

Lemma put_put w p (x y : T) : put p x (put p y w) = put p x w.
Proof. unfold put, upd_heap. simpl. by rewrite insert_insert_eq. Qed.

Lemma put_id w p (x : T) : w ⊨ p ↦ x → put p x w = w.
Proof. destruct w. unfold has, put, upd_heap. simpl. intros. by rewrite insert_id. Qed.

Lemma put_comm w p q (x : T) (y : U) : p ≠ q → put p x (put q y w) = put q y (put p x w).
Proof. intros. unfold put, upd_heap. simpl. by rewrite insert_insert_ne. Qed.

(** Blocks of different types are at different addresses. *)
Lemma has_ne w p q (x : T) (y : U) :
  w ⊨ p ↦ x → w ⊨ q ↦ y → to_block x ≠ to_block y → p ≠ q.
Proof. unfold has. intros Hp Hq Hne ->. congruence. Qed.
End lookup.

Create HintDb world.
Create Rewrite HintDb world.
#[export] Hint Resolve has_put_eq has_log has_upd_glob : world.
#[export] Hint Extern 3 (has (put _ _ _) _ _) => (apply has_put_ne; [congruence|]) : world.
#[export] Hint Rewrite @put_put : world.


(** ** The rules *)

Section rules.
Context {E : Env}.
Implicit Types (w : world).

Lemma wp_call {T : Set} (c : syscall T) (Q : T → world → Prop) w :
  Q (answer (trace w) c) (log c (answer (trace w) c) w) → wp (call c) Q w.
Proof. done. Qed.

Lemma run_ret {A} (a : A) w : run (Ret a) w = Done a w.
Proof. done. Qed.
Lemma run_load_glob {A : Set} (f : globals → A) w : run (load_glob f) w = Done (f (glob w)) w.
Proof. done. Qed.
Lemma run_call {T : Set} (c : syscall T) w :
  run (call c) w = Done (answer (trace w) c) (log c (answer (trace w) c) w).
Proof. done. Qed.

Lemma wp_load {T : Set} `{Storable T} {A : Set} p (f : T → A) x (Q : A → world → Prop) w :
  w ⊨ p ↦ x → Q (f x) w → wp (load p f) Q w.
Proof. intros Hp HQ. unfold wp, load. simpl. by rewrite (has_of_block _ _ _ Hp). Qed.

Lemma wp_store {T : Set} `{Storable T} p (g : T → T) x (Q : unit → world → Prop) w :
  w ⊨ p ↦ x → Q tt (put p (g x) w) → wp (store p g) Q w.
Proof. intros Hp HQ. unfold wp, store. simpl. by rewrite (has_of_block _ _ _ Hp). Qed.

Lemma wp_load_elt {A : Set} `{Storable (list A)} p i l x (Q : A → world → Prop) w :
  w ⊨ p ↦ l → 0 ≤ i → l !! Z.to_nat i = Some x → Q x w → wp (load_elt p i) Q w.
Proof.
  intros Hp Hi Hx HQ. unfold wp, load_elt. simpl. rewrite (has_of_block _ _ _ Hp).
  rewrite (proj2 (Z.leb_le 0 i) Hi). by rewrite Hx.
Qed.

Lemma wp_store_elt {A : Set} `{Storable (list A)} p i l x (Q : unit → world → Prop) w :
  w ⊨ p ↦ l → 0 ≤ i < Z.of_nat (length l) →
  Q tt (put p (<[Z.to_nat i := x]> l) w) → wp (store_elt p i x) Q w.
Proof.
  intros Hp Hi HQ. unfold wp, store_elt. simpl. rewrite (has_of_block _ _ _ Hp).
  rewrite (proj2 (Z.leb_le 0 i)), (proj2 (Z.ltb_lt i _)) by lia. done.
Qed.

Lemma wp_load_glob {A : Set} (f : globals → A) (Q : A → world → Prop) w :
  Q (f (glob w)) w → wp (load_glob f) Q w.
Proof. done. Qed.

Lemma wp_store_glob f (Q : unit → world → Prop) w :
  Q tt (upd_glob f w) → wp (store_glob f) Q w.
Proof. done. Qed.

Lemma wp_free p b (Q : unit → world → Prop) w :
  heap w !! p = Some b → p ≠ NULL → Q tt (upd_heap (delete p) w) → wp (free p) Q w.
Proof.
  intros Hp Hn HQ. unfold wp, free. rewrite (proj2 (Z.eqb_neq p NULL) Hn). simpl. by rewrite Hp.
Qed.

Lemma wp_lock m upd (Q : unit → world → Prop) w :
  focus m w = Some (MFree, upd) → Q tt (upd MLocked) → wp (pthread_mutex_lock m) Q w.
Proof. intros Hm HQ. unfold wp, pthread_mutex_lock. simpl. by rewrite Hm. Qed.

Lemma wp_unlock m upd (Q : unit → world → Prop) w :
  focus m w = Some (MLocked, upd) → Q tt (upd MFree) → wp (pthread_mutex_unlock m) Q w.
Proof. intros Hm HQ. unfold wp, pthread_mutex_unlock. simpl. by rewrite Hm. Qed.

Lemma wp_destroy m upd (Q : unit → world → Prop) w :
  focus m w = Some (MFree, upd) → Q tt (upd MDestroyed) → wp (pthread_mutex_destroy m) Q w.
Proof. intros Hm HQ. unfold wp, pthread_mutex_destroy. simpl. by rewrite Hm. Qed.

Lemma focus_iocbLock p c w :
  w ⊨ p ↦ c → focus (IocbLock p) w = Some (iocbLock c, λ v, put p (set_iocbLock v c) w).
Proof. intros Hp. unfold focus. by rewrite (has_of_block _ _ _ Hp). Qed.

Lemma focus_pollLock p c w :
  w ⊨ p ↦ c → focus (PollLock p) w = Some (pollLock c, λ v, put p (set_pollLock v c) w).
Proof. intros Hp. unfold focus. by rewrite (has_of_block _ _ _ Hp). Qed.

Lemma wp_iocbLock_lock p c (Q : unit → world → Prop) w :
  w ⊨ p ↦ c → iocbLock c = MFree →
  Q tt (put p (set_iocbLock MLocked c) w) → wp (pthread_mutex_lock (IocbLock p)) Q w.
Proof. intros Hp Hl HQ. eapply wp_lock; [rewrite (focus_iocbLock _ _ _ Hp), Hl; done|done]. Qed.

Lemma wp_iocbLock_unlock p c (Q : unit → world → Prop) w :
  w ⊨ p ↦ c → iocbLock c = MLocked →
  Q tt (put p (set_iocbLock MFree c) w) → wp (pthread_mutex_unlock (IocbLock p)) Q w.
Proof. intros Hp Hl HQ. eapply wp_unlock; [rewrite (focus_iocbLock _ _ _ Hp), Hl; done|done]. Qed.

Lemma wp_pollLock_lock p c (Q : unit → world → Prop) w :
  w ⊨ p ↦ c → pollLock c = MFree →
  Q tt (put p (set_pollLock MLocked c) w) → wp (pthread_mutex_lock (PollLock p)) Q w.
Proof. intros Hp Hl HQ. eapply wp_lock; [rewrite (focus_pollLock _ _ _ Hp), Hl; done|done]. Qed.

Lemma wp_pollLock_unlock p c (Q : unit → world → Prop) w :
  w ⊨ p ↦ c → pollLock c = MLocked →
  Q tt (put p (set_pollLock MFree c) w) → wp (pthread_mutex_unlock (PollLock p)) Q w.
Proof. intros Hp Hl HQ. eapply wp_unlock; [rewrite (focus_pollLock _ _ _ Hp), Hl; done|done]. Qed.

Lemma wp_mutex_init m upd v (Q : Z → world → Prop) w :
  focus m (log PthreadMutexInit 0 w) = Some (v, upd) →
  (answer (trace w) PthreadMutexInit = 0 → Q 0 (upd MFree)) →
  (∀ r, r ≠ 0 → answer (trace w) PthreadMutexInit = r → Q r (log PthreadMutexInit r w)) →
  wp (pthread_mutex_init m) Q w.
Proof.
  intros Hf H0 Hr. unfold pthread_mutex_init. apply wp_bind, wp_call.
  destruct (Z.eqb_spec (answer (trace w) PthreadMutexInit) 0) as [He|He].
  - unfold wp. simpl. rewrite He, Hf. simpl. by apply H0.
  - apply wp_ret. by apply Hr.
Qed.

(** *** Allocation *)

Lemma align_up_bounds a p : 0 < a → p ≤ align_up a p < p + a.
Proof.
  intros Ha. unfold align_up.
  pose proof (Z.div_mod (p + a - 1) a ltac:(lia)).
  pose proof (Z.mod_pos_bound (p + a - 1) a Ha). lia.
Qed.

Lemma heap_ok_bump p size b w :
  heap_ok w → brk w ≤ p → heap_ok (bump p size b w).
Proof.
  intros [Hpos Hok] Hp. split; simpl; [lia|]. intros q b'.
  destruct (decide (p = q)) as [->|Hne].
  - rewrite lookup_insert_eq. lia.
  - rewrite lookup_insert_ne by done. intros ?%Hok. lia.
Qed.

Lemma heap_ok_put {T : Set} `{Storable T} p (x y : T) w :
  heap_ok w → w ⊨ p ↦ x → heap_ok (put p y w).
Proof.
  intros [Hpos Hok] Hp. split; [done|]. intros q b. simpl.
  destruct (decide (p = q)) as [->|Hne].
  - intros _. by apply (Hok _ _ Hp).
  - rewrite lookup_insert_ne by done. apply Hok.
Qed.

Lemma heap_ok_delete p w : heap_ok w → heap_ok (upd_heap (delete p) w).
Proof.
  intros [Hpos Hok]. split; [done|]. intros q b. simpl.
  rewrite lookup_delete. case_decide; [done|apply Hok].
Qed.

Lemma heap_ok_log {T : Set} (c : syscall T) r w : heap_ok w → heap_ok (log c r w).
Proof. done. Qed.
Lemma heap_ok_glob f w : heap_ok w → heap_ok (upd_glob f w).
Proof. done. Qed.

Lemma heap_ok_fresh w p : heap_ok w → brk w ≤ p → heap w !! p = None.
Proof.
  intros [_ Hok] Hp. destruct (heap w !! p) as [b|] eqn:Hb; [|done].
  apply Hok in Hb. lia.
Qed.

Lemma wp_alloc a size b (Q : Z → world → Prop) w :
  heap_ok w →
  (∀ p, brk w ≤ p → 0 < p → p `mod` Z.max 1 a = 0 → heap w !! p = None →
        Q p (bump p size b w)) →
  wp (alloc a size b) Q w.
Proof.
  intros Hok HQ. unfold wp, alloc. simpl.
  pose proof (align_up_bounds (Z.max 1 a) (brk w) ltac:(lia)) as Hb.
  apply HQ; [lia|destruct Hok; lia| |apply heap_ok_fresh; [done|lia]].
  unfold align_up. apply Z.mod_mul. lia.
Qed.

Lemma wp_malloc {T : Set} `{Storable T} size (x : T) (Q : Z → world → Prop) w :
  heap_ok w →
  (answer (trace w) (MallocFails size) = true → Q NULL (log (MallocFails size) true w)) →
  (answer (trace w) (MallocFails size) = false →
   ∀ p, brk w ≤ p → 0 < p → heap w !! p = None →
        Q p (bump p size (to_block x) (log (MallocFails size) false w))) →
  wp (malloc size x) Q w.
Proof.
  intros Hok Ht Hf. unfold malloc. apply wp_bind, wp_call.
  destruct (answer (trace w) (MallocFails size)).
  - apply wp_ret. by apply Ht.
  - apply wp_alloc; [done|]. intros p Hp Hp0 _ Hfr. by apply Hf.
Qed.

(** A block that is allocated and freed leaves the memory as it was. *)
Lemma free_bump p size b w w' :
  heap w !! p = None → brk w ≤ p → same_mem (bump p size b w) w' →
  same_mem w (upd_heap (delete p) w').
Proof.
  intros Hp Hb [Hh Hg Hk]. simpl in *. split; simpl.
  - rewrite Hh. by apply delete_insert_id.
  - done.
  - lia.
Qed.

Lemma wp_posix_memalign a size (Q : Z * Z → world → Prop) w :
  heap_ok w →
  (∀ r, r ≠ 0 → answer (trace w) (PosixMemalign a size) = r →
     Q (r, NULL) (log (PosixMemalign a size) r w)) →
  (answer (trace w) (PosixMemalign a size) = 0 →
   ∀ p, brk w ≤ p → 0 < p → p `mod` Z.max 1 a = 0 → heap w !! p = None →
     Q (0, p) (bump p size (BRaw (Raw a (replicate (Z.to_nat size) indet_byte)))
                 (log (PosixMemalign a size) 0 w))) →
  wp (posix_memalign a size) Q w.
Proof.
  intros Hok Hr H0. unfold posix_memalign. apply wp_bind, wp_call.
  destruct (Z.eqb_spec (answer (trace w) (PosixMemalign a size)) 0) as [He|He].
  - apply wp_bind, wp_alloc; [done|]. intros p Hp Hp0 Hm Hfr. apply wp_ret.
    rewrite He in *. by apply H0.
  - apply wp_ret. by apply Hr.
Qed.

Lemma wp_memset p c n r (Q : unit → world → Prop) w :
  w ⊨ p ↦ r → n ≤ Z.of_nat (length (raw_bytes r)) →
  Q tt (put p (Raw (raw_align r) (replicate (Z.to_nat n) c ++ drop (Z.to_nat n) (raw_bytes r))) w) →
  wp (memset p c n) Q w.
Proof.
  intros Hp Hn HQ. unfold wp, memset. simpl. unfold has in Hp. rewrite Hp. simpl.
  by rewrite (proj2 (Z.leb_le _ _) Hn).
Qed.

Lemma wp_bytes_at p (Q : option (list Z) → world → Prop) w :
  Q (raw_bytes <$> (heap w !! p ≫= of_block)) w → wp (bytes_at p) Q w.
Proof. done. Qed.

Lemma wp_io_getevents ctx min_nr max evs timeout arr (Q : Z → world → Prop) F W w :
  w ⊨ evs ↦ arr →
  (∀ e, answer (trace w) (IoGetevents ctx min_nr max timeout) = GeError e →
     Q e (log (IoGetevents ctx min_nr max timeout) (GeError e) w)) →
  (∀ l, answer (trace w) (IoGetevents ctx min_nr max timeout) = GeEvents l →
     (length l ≤ length arr)%nat ∧
     Q (Z.of_nat (length l))
       (put evs (l ++ drop (length l) arr)
          (log (IoGetevents ctx min_nr max timeout) (GeEvents l) w))) →
  (answer (trace w) (IoGetevents ctx min_nr max timeout) = GeWait →
     W (log (IoGetevents ctx min_nr max timeout) GeWait w)) →
  wp_may (io_getevents ctx min_nr max evs timeout) Q F W w.
Proof.
  intros Harr He Hl Hw. unfold io_getevents.
  eapply wp_may_seq; [by apply wp_call; instantiate (1 := λ a w', a = _ ∧ w' = log _ a w)|].
  intros ? ? [-> ->]. destruct (answer _ _) as [e|l|]; [by apply He| |by apply Hw].
  destruct (Hl l eq_refl) as [Hlen HQ]. unfold wp_may. simpl.
  unfold has in Harr. rewrite Harr. simpl. by rewrite (proj2 (Nat.leb_le _ _) Hlen).
Qed.

Lemma wp_if {A} (b : bool) (p q : cprog A) Q w :
  (b = true → wp p Q w) → (b = false → wp q Q w) → wp (if b then p else q) Q w.
Proof. destruct b; auto. Qed.
End rules.

#[export] Hint Resolve heap_ok_bump heap_ok_put heap_ok_delete heap_ok_log heap_ok_glob : world.

#[global] Arguments bind {S A B} p%_prog k%_prog : simpl never.
#[global] Arguments run {S A} p%_prog s : simpl never.
#[global] Arguments call {E T} c : simpl never.
#[global] Arguments load {T _ A} p f : simpl never.
#[global] Arguments store {T _} p g : simpl never.
#[global] Arguments load_elt {A _} p i : simpl never.
#[global] Arguments store_elt {A _} p i x : simpl never.
#[global] Arguments load_glob {A} f : simpl never.
#[global] Arguments store_glob g : simpl never.
#[global] Arguments malloc {E T _} size x : simpl never.
#[global] Arguments posix_memalign {E} alignment size : simpl never.
#[global] Arguments alloc a size b : simpl never.
#[global] Arguments free p : simpl never.
#[global] Arguments asprintf_s_s {E} s1 s2 : simpl never.
#[global] Arguments string_at p : simpl never.
#[global] Arguments memset p c n : simpl never.
#[global] Arguments bytes_at p : simpl never.
#[global] Arguments pthread_mutex_lock m : simpl never.
#[global] Arguments pthread_mutex_unlock m : simpl never.
#[global] Arguments pthread_mutex_init {E} m : simpl never.
#[global] Arguments pthread_mutex_destroy m : simpl never.
#[global] Arguments io_getevents {E} ctx min_nr max evs timeout : simpl never.

(** ** Allocated on the way

    [w'] is [w] with the blocks at [ps] allocated since, and nothing else changed. *)
Record extends (w w' : world) (ps : list Z) : Prop := Extends {
  ex_ok : heap_ok w';
  ex_heap q : q ∉ ps → heap w' !! q = heap w !! q;
  ex_new q : q ∈ ps → heap w !! q = None ∧ q ≠ NULL ∧ is_Some (heap w' !! q);
  ex_nodup : NoDup ps;
  ex_glob : glob w' = glob w;
  ex_brk : brk w ≤ brk w'
}.

Section extends.
Context {E : Env}.
Implicit Types (w : world) (ps : list Z).

Lemma extends_refl w : heap_ok w → extends w w [].
Proof.
  intros Hok. split; try done; [|constructor]. by intros q ?%elem_of_nil.
Qed.

Lemma extends_log {T : Set} w w' ps (c : syscall T) r : extends w w' ps → extends w (log c r w') ps.
Proof. by intros []. Qed.

Lemma extends_bump w w' ps p size b :
  extends w w' ps → brk w' ≤ p → 0 < p → extends w (bump p size b w') (p :: ps).
Proof.
  intros [Hok Hh Hn Hnd Hg Hb] Hp Hp0.
  pose proof (heap_ok_fresh _ _ Hok Hp) as Hfr.
  assert (p ∉ ps) as Hps.
  { intros Hin. destruct (Hn p Hin) as (_ & _ & [x Hx]). congruence. }
  split; simpl; [by apply heap_ok_bump|..].
  - intros q [Hqp Hq]%not_elem_of_cons. rewrite lookup_insert_ne by done. by apply Hh.
  - intros q [->|Hq]%elem_of_cons.
    + rewrite lookup_insert_eq. split_and!; [|unfold NULL; lia|done].
      by rewrite <-Hh.
    + destruct (Hn q Hq) as (? & ? & ?). split_and!; [done|done|].
      rewrite lookup_insert_ne; [done|]. by intros ->.
  - by apply list.NoDup_cons.
  - done.
  - lia.
Qed.

Lemma extends_put {T : Set} `{Storable T} w w' ps p (x y : T) :
  extends w w' ps → p ∈ ps → w' ⊨ p ↦ x → extends w (put p y w') ps.
Proof.
  intros [Hok Hh Hn Hnd Hg Hb] Hp Hx. split; simpl; try done.
  - by eapply heap_ok_put.
  - intros q Hq. rewrite lookup_insert_ne; [by apply Hh|]. by intros ->.
  - intros q Hq. destruct (Hn q Hq) as (? & ? & ?). split_and!; [done|done|].
    destruct (decide (p = q)) as [->|?]; [by rewrite lookup_insert_eq|by rewrite lookup_insert_ne].
Qed.

Lemma has_bump {T : Set} `{Storable T} w p q size b (x : T) :
  heap w !! p = None → w ⊨ q ↦ x → bump p size b w ⊨ q ↦ x.
Proof.
  unfold has. simpl. intros Hp Hq. rewrite lookup_insert_ne; [done|]. intros ->. congruence.
Qed.

Lemma has_bump_eq {T : Set} `{Storable T} w p size (x : T) : bump p size (to_block x) w ⊨ p ↦ x.
Proof. unfold has. simpl. apply lookup_insert_eq. Qed.

Lemma extends_perm w w' ps ps' : ps ≡ₚ ps' → extends w w' ps → extends w w' ps'.
Proof.
  intros Hps [Hok Hh Hn Hnd Hg Hb]. split; try done.
  - intros q. rewrite <-Hps. apply Hh.
  - intros q. rewrite <-Hps. apply Hn.
  - by rewrite <-Hps.
Qed.

Lemma wp_extends_free w w' p ps (Q : unit → world → Prop) :
  extends w w' (p :: ps) →
  (extends w (upd_heap (delete p) w') ps → Q tt (upd_heap (delete p) w')) →
  wp (free p) Q w'.
Proof.
  intros [Hok Hh Hn Hnd Hg Hb] HQ. apply list.NoDup_cons in Hnd as [Hp Hnd].
  destruct (Hn p) as (Hw & H0 & [b Hb']); [apply list_elem_of_here|].
  eapply wp_free; [done|done|]. apply HQ. split; simpl; try done.
  - by apply heap_ok_delete.
  - intros q Hq. destruct (decide (p = q)) as [<-|?].
    + by rewrite lookup_delete_eq, Hw.
    + rewrite lookup_delete_ne by done. apply Hh. by apply not_elem_of_cons.
  - intros q Hq. destruct (Hn q) as (? & ? & ?); [by apply list_elem_of_further|].
    split_and!; [done|done|]. rewrite lookup_delete_ne; [done|]. by intros ->.
Qed.

Lemma extends_nil w w' : extends w w' [] → same_mem w w'.
Proof.
  intros [Hok Hh Hn Hnd Hg Hb]. split; [|done|done].
  apply map_eq. intros q. apply Hh. by intros ?%elem_of_nil.
Qed.
End extends.

(** [wp_simpl] computes fields of updated records. *)
Ltac wp_simpl :=
  cbn [ioContext events thisObject iocbLock pollLock iocb_pool queueSize iocbPut iocbGet used
       set_ioContext set_events set_thisObject set_iocbLock set_pollLock set_iocb_pool
       set_queueSize set_iocbPut set_iocbGet set_used
       data aio_fildes aio_lio_opcode c_buf c_nbytes c_offset set_data
       forceSysCall dumbWriteHandler dumbPath oneMegaBuffer oneMegaMutex submitClass errorMethod
       doneMethod libaioContextDone libaioContextClass runtimeExceptionClass ioExceptionClass
       set_forceSysCall set_dumbWriteHandler set_dumbPath set_oneMegaBuffer set_oneMegaMutex
       set_submitClass set_errorMethod set_doneMethod set_libaioContextDone
       set_libaioContextClass set_runtimeExceptionClass set_ioExceptionClass
       heap brk glob trace put log upd_heap upd_glob bump fst snd].

(** [wp_step] runs one action.  Lookups are solved from the context with the
    [world] hints; what remains is the postcondition after the action. *)
Ltac wp_side := first [eassumption | by eauto 10 with world | reflexivity].
Ltac wp_fields :=
  cbn [ioContext events thisObject iocbLock pollLock iocb_pool queueSize iocbPut iocbGet used
       set_ioContext set_events set_thisObject set_iocbLock set_pollLock set_iocb_pool
       set_queueSize set_iocbPut set_iocbGet set_used
       data aio_fildes aio_lio_opcode c_buf c_nbytes c_offset set_data fst snd].
Ltac wp_step :=
  lazymatch goal with
  | |- wp (bind _ _) _ _ => apply wp_bind; wp_step
  | |- wp (Ret _) _ _ => apply wp_ret
  | |- wp (call _) _ _ => apply wp_call
  | |- wp (load _ _) _ _ => eapply wp_load; [wp_side|]
  | |- wp (store _ _) _ _ => eapply wp_store; [wp_side|]
  | |- wp (load_elt _ _) _ _ => eapply wp_load_elt; [wp_side|try lia|try wp_side|]
  | |- wp (store_elt _ _ _) _ _ => eapply wp_store_elt; [wp_side|try lia|]
  | |- wp (load_glob _) _ _ => apply wp_load_glob
  | |- wp (store_glob _) _ _ => apply wp_store_glob
  | |- wp (int_ _) _ _ => apply wp_int; [try (unfold INT_MIN, INT_MAX in *; lia)|]
  | |- wp (pthread_mutex_lock (IocbLock _)) _ _ => eapply wp_iocbLock_lock; [wp_side|try wp_side|]
  | |- wp (pthread_mutex_unlock (IocbLock _)) _ _ => eapply wp_iocbLock_unlock; [wp_side|try wp_side|]
  | |- wp (pthread_mutex_lock (PollLock _)) _ _ => eapply wp_pollLock_lock; [wp_side|try wp_side|]
  | |- wp (pthread_mutex_unlock (PollLock _)) _ _ => eapply wp_pollLock_unlock; [wp_side|try wp_side|]
  | |- wp (match ?b with true => _ | false => _ end) _ _ =>
      let H := fresh "Hif" in apply wp_if; intros H; try (exfalso; lia)
  end; cbv beta; wp_fields.
Ltac wp_steps := repeat wp_step.
