(* ===== verification/Errors.v ===== *)
(** * Exceptions thrown to Java

    [exceptionMessage] and the [throw...] helpers.  A JNI exception does not
    unwind the C stack: [ThrowNew] leaves it pending and the C function goes on
    to its own [return], so throwing is an event of the trace. *)

From S2P Require Export Mem.

Section errors.
Context {E : Env}.

Definition throwRuntimeException (message : string) : cprog unit :=
  let* cls := load_glob runtimeExceptionClass in
  call (ThrowNew cls (Some message)).

Definition throwIOException (message : string) : cprog unit :=
  let* cls := load_glob ioExceptionClass in
  call (ThrowNew cls (Some message)).

(** The line [exceptionMessage] prints when [asprintf] fails. *)
Definition no_memory_message (msg err : string) : string :=
  "Could not allocate enough memory for the error message: " +:+ msg +:+ "/" +:+ err +:+ nl.

Definition exceptionMessage (msg : string) (error : Z) : cprog Z :=
  let* error := (if error <? 0 then int_ (error * -1) else Ret error) in
  let* r := asprintf_s_s msg (strerror error) in
  if r.1 =? -1
  then call (Fprintf true (no_memory_message msg (strerror error))) ;; Ret r.2
  else Ret r.2.

Definition throwRuntimeExceptionErrorNo (message : string) (errorNumber : Z) : cprog unit :=
  let* allocatedMessage := exceptionMessage message errorNumber in
  let* cls := load_glob runtimeExceptionClass in
  let* chars := string_at allocatedMessage in
  call (ThrowNew cls chars) ;;
  free allocatedMessage.

Definition throwIOExceptionErrorNo (message : string) (errorNumber : Z) : cprog unit :=
  let* allocatedMessage := exceptionMessage message errorNumber in
  let* cls := load_glob ioExceptionClass in
  let* chars := string_at allocatedMessage in
  call (ThrowNew cls chars) ;;
  free allocatedMessage.

Definition throwOutOfMemoryError : cprog unit :=
  let* exceptionClass := call (FindClass "java/lang/OutOfMemoryError") in
  call (ThrowNew exceptionClass (Some "")).

(** ** What they do *)

(** The events of throwing [cls] with the message for [error] after history [t]. *)
Definition errno_thrown (cls : Z) (msg : string) (error : Z) (t : history) : history :=
  let err := strerror (Z.abs error) in
  if answer t AsprintfFails
  then Ev (ThrowNew cls None) tt
         :: Ev (Fprintf true (no_memory_message msg err)) (answer (Ev AsprintfFails true :: t) (Fprintf true (no_memory_message msg err)))
         :: Ev AsprintfFails true :: t
  else Ev (ThrowNew cls (Some (msg +:+ err))) tt :: Ev AsprintfFails false :: t.


Lemma wp_string_at p (Q : option string → world → Prop) w :
  Q (heap w !! p ≫= of_block) w → wp (string_at p) Q w.
Proof. done. Qed.

(** [exceptionMessage] makes the error code positive first. *)
Lemma wp_exceptionMessage msg error (Q : Z → world → Prop) w :
  INT_MIN < error ≤ INT_MAX → heap_ok w →
  (answer (trace w) AsprintfFails = true →
     Q NULL (log (Fprintf true (no_memory_message msg (strerror (Z.abs error))))
               (answer (Ev AsprintfFails true :: trace w)
                  (Fprintf true (no_memory_message msg (strerror (Z.abs error)))))
               (log AsprintfFails true w))) →
  (answer (trace w) AsprintfFails = false →
     ∀ p sz, brk w ≤ p → 0 < p → heap w !! p = None →
       Q p (bump p sz (BStr (msg +:+ strerror (Z.abs error))) (log AsprintfFails false w))) →
  wp (exceptionMessage msg error) Q w.
Proof.
  intros He Hok Ht Hf. unfold exceptionMessage.
  assert (∀ k, wp (let* e := if error <? 0 then int_ (error * -1) else Ret error in k e) Q w
               ↔ wp (k (Z.abs error)) Q w) as ->.
  { intros k. unfold int_, wp. destruct (Z.ltb_spec error 0).
    - rewrite (proj2 (is_i32_spec (error * -1))) by (unfold INT_MIN, INT_MAX in *; lia).
      simpl. by replace (error * -1) with (Z.abs error) by lia.
    - simpl. by replace (Z.abs error) with error by lia. }
  apply wp_bind. unfold asprintf_s_s. apply wp_bind, wp_call.
  destruct (answer (trace w) AsprintfFails).
  - apply wp_ret. cbn [fst snd]. rewrite Z.eqb_refl. wp_steps. by apply Ht.
  - apply wp_bind, wp_alloc; [done|]. intros p Hp Hp0 _ Hfr. apply wp_ret. cbn [fst snd].
    rewrite (proj2 (Z.eqb_neq _ _)) by lia. apply wp_ret. by apply Hf.
Qed.

Lemma wp_throw_errno cls msg error w :
  INT_MIN < error ≤ INT_MAX → heap_ok w →
  wp (let* m := exceptionMessage msg error in
      let* c := load_glob cls in
      let* chars := string_at m in
      call (ThrowNew c chars) ;; free m)
     (λ _ w', same_mem w w' ∧ trace w' = errno_thrown (cls (glob w)) msg error (trace w)) w.
Proof.
  intros He Hok. apply wp_bind, wp_exceptionMessage; [done|done|..].
  - intros Hf. wp_steps. apply wp_bind, wp_string_at.
    assert (heap w !! NULL = None) as Hnull.
    { destruct (heap w !! NULL) eqn:Hn; [|done]. apply Hok in Hn. unfold NULL in Hn. lia. }
    simpl. rewrite Hnull. wp_steps. unfold free. simpl. apply wp_ret.
    split; [by split; simpl|].
    unfold errno_thrown. rewrite Hf. simpl. by rewrite (unit_eta (answer _ _)).
  - intros Hf p sz Hp Hp0 Hfr. wp_steps. apply wp_bind, wp_string_at.
    wp_steps. eapply wp_free; [by apply lookup_insert_eq|unfold NULL; lia|].
    split.
    + eapply (free_bump p sz _ w); [done|done|]. split; simpl; [done|done|lia].
    + unfold errno_thrown. rewrite Hf. simpl. rewrite lookup_insert_eq. simpl.
      by rewrite (unit_eta (answer _ _)).
Qed.

Lemma wp_throwIOExceptionErrorNo msg error w :
  INT_MIN < error ≤ INT_MAX → heap_ok w →
  wp (throwIOExceptionErrorNo msg error)
     (λ _ w', same_mem w w' ∧
              trace w' = errno_thrown (ioExceptionClass (glob w)) msg error (trace w)) w.
Proof. apply wp_throw_errno. Qed.

Lemma wp_throwRuntimeExceptionErrorNo msg error w :
  INT_MIN < error ≤ INT_MAX → heap_ok w →
  wp (throwRuntimeExceptionErrorNo msg error)
     (λ _ w', same_mem w w' ∧
              trace w' = errno_thrown (runtimeExceptionClass (glob w)) msg error (trace w)) w.
Proof. apply wp_throw_errno. Qed.

(** C22.  [throwIOExceptionErrorNo] and [throwRuntimeExceptionErrorNo], for any
    code but [INT_MIN] and of either sign: one exception of their class is
    thrown, with the message followed by the C library's text for the absolute
    value of the code - or, when there is no memory for that, without a message
    and after a line on stderr -, and the allocated message is freed again. *)
Theorem throw_errno_correct msg error w :
  INT_MIN < error ≤ INT_MAX → heap_ok w →
  wp (throwIOExceptionErrorNo msg error) (λ _ w', same_mem w w' ∧
    trace w' = errno_thrown (ioExceptionClass (glob w)) msg error (trace w)) w ∧
  wp (throwRuntimeExceptionErrorNo msg error) (λ _ w', same_mem w w' ∧
    trace w' = errno_thrown (runtimeExceptionClass (glob w)) msg error (trace w)) w.
Proof. split; by apply wp_throw_errno. Qed.

(** C35.  Of all the [int] codes, [exceptionMessage] has undefined behaviour for
    exactly one: the negation of [INT_MIN] overflows. *)
Theorem exceptionMessage_undefined msg error w :
  INT_MIN ≤ error ≤ INT_MAX → heap_ok w →
  (run (exceptionMessage msg error) w = Crash ↔ error = INT_MIN).
Proof.
  intros He Hok. split; [|by intros ->]. intros Hc.
  destruct (decide (error = INT_MIN)) as [|Hne]; [done|].
  assert (wp (exceptionMessage msg error) (λ _ _, True) w) as Hwp.
  { apply wp_exceptionMessage; [lia|done|done|done]. }
  unfold wp in Hwp. by rewrite Hc in Hwp.
Qed.
End errors.
