(* ===== verification/IocbPool.v ===== *)
(** * The pool of iocbs

    [getIOCB] and [putIOCB]: an array of [queueSize] pointers used as a circular
    queue of free iocbs, behind [iocbLock].  The specification is a FIFO queue;
    [pool w control free] says that in [w] the control block implements the queue
    [free], and the refinement theorems say that the C functions do to the array
    what the specification does to the queue. *)

From S2P Require Export Mem.

(** ** Specification: a bounded FIFO queue of free iocbs *)
Module PoolSpec.
Definition get (free : list Z) : Z * list Z :=
  match free with
  | [] => (NULL, [])
  | x :: free' => (x, free')
  end.

Definition put (x : Z) (free : list Z) : list Z := free ++ [x].
End PoolSpec.

(** ** The code *)
Section pool_code.
(** [getIOCB] from the lock on. *)
Definition get_locked (control : Z) : cprog Z :=
  let* u := control ->> used in
  let* qs := control ->> queueSize in
  let* iocb :=
    (if u <? qs then
       let* u := control ->> used in
       let* u := int_ (u + 1) in
       store control (set_used u) ;;
       let* pool := control ->> iocb_pool in
       let* get := control ->> iocbGet in
       let* get1 := int_ (get + 1) in
       store control (set_iocbGet get1) ;;
       let* iocb := load_elt (A := Z) pool get in
       let* get := control ->> iocbGet in
       let* qs := control ->> queueSize in
       (if qs <=? get then store control (set_iocbGet 0) else Ret tt) ;;
       Ret iocb
     else Ret NULL) in
  pthread_mutex_unlock (IocbLock control) ;;
  Ret iocb.

Definition getIOCB (control : Z) : cprog Z :=
  pthread_mutex_lock (IocbLock control) ;;
  get_locked control.

(** [putIOCB] from the lock on. *)
Definition put_locked (control iocbBack : Z) : cprog unit :=
  let* u := control ->> used in
  let* u := int_ (u - 1) in
  store control (set_used u) ;;
  let* pool := control ->> iocb_pool in
  let* put := control ->> iocbPut in
  let* put1 := int_ (put + 1) in
  store control (set_iocbPut put1) ;;
  store_elt (A := Z) pool put iocbBack ;;
  let* put := control ->> iocbPut in
  let* qs := control ->> queueSize in
  (if qs <=? put then store control (set_iocbPut 0) else Ret tt) ;;
  pthread_mutex_unlock (IocbLock control).

Definition putIOCB (control iocbBack : Z) : cprog unit :=
  pthread_mutex_lock (IocbLock control) ;;
  put_locked control iocbBack.
End pool_code.

(** ** Representation *)

(** [c], with the pointer array [arr], holds the free queue [free]: the window of
    [arr] that starts at [iocbGet] and ends just before [iocbPut]. *)
Record pool_rep (c : io_control) (arr free : list Z) : Prop := PoolRep {
  pr_size : 0 < queueSize c ≤ INT_MAX;
  pr_len : Z.of_nat (length arr) = queueSize c;
  pr_used : used c = queueSize c - Z.of_nat (length free);
  pr_used_pos : 0 ≤ used c;
  pr_get : 0 ≤ iocbGet c < queueSize c;
  pr_put : iocbPut c = (iocbGet c + Z.of_nat (length free)) `mod` queueSize c;
  pr_window : window arr (Z.to_nat (iocbGet c)) (length free) = free
}.

(** In [w] the block at [control] is [c], its pointer array is [arr], no thread
    is inside the pool, and the free queue is [free]. *)
Record pool (w : world) (control : Z) (c : io_control) (arr free : list Z) : Prop := Pool {
  pool_has : w ⊨ control ↦ c;
  pool_has_arr : w ⊨ iocb_pool c ↦ arr;
  pool_unlocked : iocbLock c = MFree;
  pool_rep_ok : pool_rep c arr free
}.

(** The control block after a successful [getIOCB] and after [putIOCB]. *)
Definition taken (c : io_control) : io_control :=
  set_used (used c + 1) (set_iocbGet ((iocbGet c + 1) `mod` queueSize c) c).
Definition returned (c : io_control) : io_control :=
  set_used (used c - 1) (set_iocbPut ((iocbPut c + 1) `mod` queueSize c) c).

(** Counting modulo the size by hand: [if (i >= n) i = 0]. *)
Lemma wrap_next i n : 0 ≤ i < n → (if n <=? i + 1 then 0 else i + 1) = (i + 1) `mod` n.
Proof.
  intros Hi. destruct (Z.leb_spec n (i + 1)).
  - replace (i + 1) with n by lia. by rewrite Z_mod_same_full.
  - by rewrite Z.mod_small by lia.
Qed.

Lemma to_nat_mod a n : 0 ≤ a → 0 < n → Z.to_nat (a `mod` n) = (Z.to_nat a `mod` Z.to_nat n)%nat.
Proof. intros. by rewrite Z2Nat.inj_mod by lia. Qed.

Section pool_rep.
Implicit Types (c : io_control) (arr free : list Z).

Lemma pool_rep_bounds c arr free :
  pool_rep c arr free → 0 ≤ Z.of_nat (length free) ≤ queueSize c.
Proof. intros []. lia. Qed.

Lemma pool_rep_head c arr x free :
  pool_rep c arr (x :: free) → arr !! Z.to_nat (iocbGet c) = Some x.
Proof.
  intros [Hsz Hlen Hu Hup Hg Hp Hw]. simpl in *.
  assert (window arr (Z.to_nat (iocbGet c)) (S (length free)) !! O = Some x) as H0 by by rewrite Hw.
  rewrite window_lookup in H0 by lia.
  rewrite Nat.add_0_r, Nat.mod_small in H0 by lia. done.
Qed.

(** Taking the head of the queue. *)
Lemma pool_rep_taken c arr x free :
  pool_rep c arr (x :: free) → pool_rep (taken c) arr free.
Proof.
  intros Hrep. pose proof (pool_rep_head _ _ _ _ Hrep) as Hx.
  destruct Hrep as [Hsz Hlen Hu Hup Hg Hp Hw]. simpl in *.
  pose proof (Z.mod_pos_bound (iocbGet c + 1) (queueSize c) ltac:(lia)).
  split; simpl; try done; try lia.
  - rewrite Hp. rewrite Z.add_mod_idemp_l by lia. f_equal. lia.
  - rewrite (window_pop _ _ _ x) in Hw by (done || lia). injection Hw as Hw.
    etrans; [|exact Hw]. f_equal. rewrite to_nat_mod by lia.
    rewrite Z2Nat.inj_add by lia. by rewrite <-Hlen, Nat2Z.id.
Qed.

(** Adding at the back of the queue. *)
Lemma pool_rep_returned c arr free x :
  pool_rep c arr free → 0 < used c →
  pool_rep (returned c) (<[Z.to_nat (iocbPut c) := x]> arr) (free ++ [x]).
Proof.
  intros [Hsz Hlen Hu Hup Hg Hp Hw] Hpos.
  split; simpl; rewrite ?length_app, ?length_insert; simpl; try done; try lia.
  - rewrite Hp. rewrite Z.add_mod_idemp_l by lia. f_equal. lia.
  - rewrite Hp, to_nat_mod by lia. rewrite Z2Nat.inj_add by lia.
    rewrite <-Hlen, !Nat2Z.id. rewrite Nat.add_1_r.
    rewrite window_push by lia. by rewrite Hw.
Qed.

Lemma pool_rep_put_bounds c arr free :
  pool_rep c arr free → 0 ≤ iocbPut c < Z.of_nat (length arr).
Proof. intros [Hsz Hlen Hu Hup Hg Hp Hw]. rewrite Hp, Hlen. apply Z.mod_pos_bound. lia. Qed.
End pool_rep.

(** ** Functional behaviour of the two operations *)
Section pool_wp.
Context {E : Env}.

Lemma wp_getIOCB_empty p c arr w :
  pool w p c arr [] → wp (getIOCB p) (λ r w', r = NULL ∧ w' = w) w.
Proof.
  intros [Hc Harr Hl [Hsz Hlen Hu Hup Hg Hp Hw]]. simpl in *. unfold getIOCB, get_locked.
  wp_steps. rewrite put_put.
  split; [done|]. apply put_id. unfold has in *. rewrite Hc. by destruct c; simpl in *; subst.
Qed.

Lemma wp_getIOCB p c arr x free w :
  pool w p c arr (x :: free) →
  wp (getIOCB p) (λ r w', r = x ∧ w' = put p (taken c) w) w.
Proof.
  intros [Hc Harr Hl Hrep]. pose proof (pool_rep_head _ _ _ _ Hrep) as Hx.
  destruct Hrep as [Hsz Hlen Hu Hup Hg Hp Hw]. simpl in *. unfold getIOCB, get_locked.
  assert (p ≠ iocb_pool c) by (eapply (has_ne w _ _ c arr); [done|done|]; simpl; congruence).
  wp_steps.
  - rewrite !put_put. split; [done|]. f_equal. unfold taken.
    rewrite <-wrap_next by lia. rewrite (proj2 (Z.leb_le _ _)) by lia.
    by destruct c; simpl in *; subst.
  - rewrite !put_put. split; [done|]. f_equal. unfold taken.
    rewrite <-wrap_next by lia. rewrite (proj2 (Z.leb_gt _ _)) by lia.
    by destruct c; simpl in *; subst.
Qed.

Lemma wp_putIOCB p c arr free x w :
  pool w p c arr free → 0 < used c →
  wp (putIOCB p x) (λ _ w',
    w' = put p (returned c) (put (iocb_pool c) (<[Z.to_nat (iocbPut c) := x]> arr) w)) w.
Proof.
  intros [Hc Harr Hl Hrep] Hpos. pose proof (pool_rep_put_bounds _ _ _ Hrep).
  destruct Hrep as [Hsz Hlen Hu Hup Hg Hp Hw]. unfold putIOCB, put_locked.
  assert (p ≠ iocb_pool c) by (eapply (has_ne w _ _ c arr); [done|done|]; simpl; congruence).
  wp_steps; rewrite !put_put, (put_comm _ p (iocb_pool c)), !put_put, put_comm by done.
  all: f_equal; unfold returned; rewrite <-wrap_next by lia.
  - rewrite (proj2 (Z.leb_le _ _)) by lia. by destruct c; simpl in *; subst.
  - rewrite (proj2 (Z.leb_gt _ _)) by lia. by destruct c; simpl in *; subst.
Qed.
End pool_wp.

(** [w'] is [w] but for the contents of the blocks in [ps]. *)
Definition only_at (ps : list Z) (w w' : world) : Prop :=
  brk w' = brk w ∧ glob w' = glob w ∧ trace w' = trace w ∧
  ∀ q, q ∉ ps → heap w' !! q = heap w !! q.

Lemma only_at_refl ps w : only_at ps w w.
Proof. done. Qed.

Lemma only_at_put {T : Set} `{Storable T} ps p (x : T) w w' :
  p ∈ ps → only_at ps w w' → only_at ps w (put p x w').
Proof.
  intros Hp (Hb & Hg & Ht & Hh). repeat split; try done.
  intros q Hq. simpl. rewrite lookup_insert_ne by set_solver. by apply Hh.
Qed.
#[export] Hint Resolve only_at_refl : world.

Section pool_refines.
Context {E : Env}.
Implicit Types (w : world) (c : io_control) (arr free : list Z).

Lemma pool_taken w p c arr x free :
  pool w p c arr (x :: free) → pool (put p (taken c) w) p (taken c) arr free.
Proof.
  intros [Hc Harr Hl Hrep]. split; [apply has_put_eq| |done|by eapply pool_rep_taken].
  apply has_put_ne; [|done]. by eapply (has_ne w _ _ c arr).
Qed.

Lemma pool_returned w p c arr x free :
  pool w p c arr free → 0 < used c →
  pool (put p (returned c) (put (iocb_pool c) (<[Z.to_nat (iocbPut c) := x]> arr) w)) p
    (returned c) (<[Z.to_nat (iocbPut c) := x]> arr) (free ++ [x]).
Proof.
  intros [Hc Harr Hl Hrep] Hu. split; [apply has_put_eq| |done|by apply pool_rep_returned].
  apply has_put_ne; [|apply has_put_eq]. by eapply (has_ne w _ _ c arr).
Qed.

(** [getIOCB] is [PoolSpec.get] on the queue the control block implements. *)
Lemma getIOCB_spec p c arr free w :
  pool w p c arr free →
  wp (getIOCB p) (λ r w', r = (PoolSpec.get free).1 ∧
    ∃ c', pool w' p c' arr (PoolSpec.get free).2 ∧ iocb_pool c' = iocb_pool c ∧
          queueSize c' = queueSize c ∧ only_at [p] w w') w.
Proof.
  intros Hpool. destruct free as [|x free].
  - eapply wp_mono; [by eapply wp_getIOCB_empty|]. intros r w' [-> ->].
    split; [done|]. by exists c.
  - eapply wp_mono; [by eapply wp_getIOCB|]. intros r w' [-> ->].
    split; [done|]. exists (taken c). split; [by eapply pool_taken|].
    split_and!; [done|done|]. apply only_at_put; [set_solver|done].
Qed.

Lemma putIOCB_spec p c arr free x w :
  pool w p c arr free → 0 < used c →
  wp (putIOCB p x) (λ _ w',
    ∃ c' arr', pool w' p c' arr' (PoolSpec.put x free) ∧ iocb_pool c' = iocb_pool c ∧
          queueSize c' = queueSize c ∧ only_at [p; iocb_pool c] w w') w.
Proof.
  intros Hpool Hu. eapply wp_mono; [by eapply wp_putIOCB|]. intros _ w' ->.
  eexists (returned c), _. split; [by apply pool_returned|].
  split_and!; [done|done|]. apply only_at_put; [set_solver|].
  apply only_at_put; [set_solver|done].
Qed.
End pool_refines.

(** ** Clients of the pool

    A client takes iocbs and gives back those it took, in any order.  [out] is
    what it holds; a pool refines the pair of the free queue and [out]. *)
Module PoolClient.
Inductive op := Get | Put (x : Z).

(** What the specification does: the value of each [Get], and the final state. *)
Fixpoint spec (ops : list op) (free out : list Z) : option (list Z * list Z * list Z) :=
  match ops with
  | [] => Some ([], free, out)
  | Get :: ops =>
      let '(r, free') := PoolSpec.get free in
      let out' := match free with [] => out | x :: _ => x :: out end in
      match spec ops free' out' with
      | Some (rs, f, o) => Some (r :: rs, f, o)
      | None => None
      end
  | Put x :: ops =>
      if decide (x ∈ out)
      then spec ops (PoolSpec.put x free) (remove1 x out)
      else None
  end.

(** The same operations on the C pool. *)
Fixpoint code (control : Z) (ops : list op) : cprog (list Z) :=
  match ops with
  | [] => Ret []
  | Get :: ops =>
      let* r := getIOCB control in
      let* rs := code control ops in
      Ret (r :: rs)
  | Put x :: ops => putIOCB control x ;; code control ops
  end.
End PoolClient.

Section pool_client.
Context {E : Env}.

(** The specification never loses an iocb and never duplicates one. *)
Lemma client_spec_perm ops free out rs free' out' :
  NoDup (free ++ out) →
  PoolClient.spec ops free out = Some (rs, free', out') →
  free' ++ out' ≡ₚ free ++ out.
Proof.
  revert free out rs. induction ops as [|[|x] ops IH]; intros free out rs Hnd; simpl.
  - by intros [= <- <- <-].
  - destruct free as [|x free]; simpl.
    + destruct (PoolClient.spec ops [] out) as [[[rs0 f] o]|] eqn:Hs; [|done].
      intros [= <- <- <-]. by eapply (IH []).
    + destruct (PoolClient.spec ops free (x :: out)) as [[[rs0 f] o]|] eqn:Hs; [|done].
      intros [= <- <- <-]. rewrite (IH _ _ _ ltac:(by rewrite <-Permutation_middle) Hs).
      by rewrite <-Permutation_middle.
  - case_decide as Hx; [|done]. intros Hs.
    assert ((free ++ [x]) ++ remove1 x out ≡ₚ free ++ out) as Hp.
    { rewrite <-app_assoc. simpl. by rewrite remove1_perm. }
    rewrite (IH _ _ _ ltac:(by rewrite Hp) Hs). done.
Qed.

Lemma client_refines p ops :
  ∀ w c arr free out rs free' out',
  pool w p c arr free → NoDup (free ++ out) → used c = Z.of_nat (length out) →
  PoolClient.spec ops free out = Some (rs, free', out') →
  wp (PoolClient.code p ops) (λ r w', r = rs ∧
    ∃ c' arr', pool w' p c' arr' free' ∧ used c' = Z.of_nat (length out')) w.
Proof.
  induction ops as [|[|x] ops IH]; intros w c arr free out rs free' out' Hp Hnd Hu; simpl.
  - intros [= <- <- <-]. apply wp_ret. eauto.
  - destruct free as [|x free]; simpl.
    + destruct (PoolClient.spec ops [] out) as [[[rs0 f] o]|] eqn:Hs; [|done].
      intros [= <- <- <-]. eapply wp_seq; [by eapply wp_getIOCB_empty|]. intros r w' [-> ->].
      eapply wp_seq; [by eapply IH|]. intros rs' w'' [-> ?]. by apply wp_ret.
    + destruct (PoolClient.spec ops free (x :: out)) as [[[rs0 f] o]|] eqn:Hs; [|done].
      intros [= <- <- <-]. eapply wp_seq; [by eapply wp_getIOCB|]. intros r w' [-> ->].
      eapply wp_seq; [eapply IH; [by eapply pool_taken| | |done]|].
      * by rewrite <-Permutation_middle.
      * simpl. lia.
      * intros rs' w'' [-> ?]. by apply wp_ret.
  - case_decide as Hx; [|done]. intros Hs.
    pose proof (Permutation_length (remove1_perm x out Hx)) as Hl. simpl in Hl.
    eapply wp_seq; [eapply wp_putIOCB; [done|]; lia|]. intros [] w' ->.
    eapply IH; [apply pool_returned; [done|lia]| | |done].
    + rewrite <-app_assoc. simpl. by rewrite remove1_perm.
    + simpl. lia.
Qed.

(** C9.  Whatever sequence of [getIOCB] and [putIOCB] a client issues, provided
    it only gives back iocbs it holds, the pool runs it without undefined
    behaviour, returns what a FIFO queue of free iocbs returns ([NULL] exactly
    when the queue is empty), ends in a state that implements the resulting
    queue, and keeps every iocb in exactly one place: free or held. *)
Theorem pool_refines_fifo p ops w c arr free out rs free' out' :
  pool w p c arr free → NoDup (free ++ out) → used c = Z.of_nat (length out) →
  PoolClient.spec ops free out = Some (rs, free', out') →
  wp (PoolClient.code p ops) (λ r w', r = rs ∧
    free' ++ out' ≡ₚ free ++ out ∧ NoDup (free' ++ out') ∧
    ∃ c' arr', pool w' p c' arr' free' ∧ used c' = Z.of_nat (length out')) w.
Proof.
  intros Hp Hnd Hu Hs. pose proof (client_spec_perm _ _ _ _ _ _ Hnd Hs) as Hperm.
  eapply wp_mono; [by eapply client_refines|].
  intros r w' [-> ?]. split_and!; [done|done| |done]. by rewrite Hperm.
Qed.
End pool_client.
