(* ===== verification/Ring.v ===== *)
(** * Reaping completions: [ringio_get_events]

    The kernel maps its completion ring in the process.  [ringio_get_events]
    takes events from it without a system call when it can, and calls
    [io_getevents] otherwise.  The ring is shared with the kernel, which writes
    it at any time: each access of a field is a call to the environment. *)

From S2P Require Export Mem.

(** ** The code *)

Definition AIO_RING_MAGIC : Z := 0xa10a10a1.
Definition AIO_RING_INCOMPAT_FEATURES : Z := 0.
Definition RING_REAPER : Z := 1.

Section ring_code.
Context {E : Env}.

(** [ring->f] *)
Definition ring_load {A} (ring : Z) (f : aio_ring → A) : cprog A :=
  let* o := call (RingRead ring) in
  match o with
  | Some r => Ret (f r)
  | None => Ub
  end.

(** [ring->io_events[i]], a structure of four words, copied in one access.  The kernel
    writes a slot only while it is not pending, and the code copies pending slots only
    ([ring_later]): a copy word by word gives the same. *)
Definition ring_load_event (ring i : Z) : cprog io_event :=
  let* o := ring_load ring (λ r, ring_io_events r !! Z.to_nat i) in
  match o with
  | Some e => Ret e
  | None => Ub
  end.

Definition has_usable_ring (ring : Z) : cprog bool :=
  let* magic := ring_load ring ring_magic in
  if magic =? AIO_RING_MAGIC
  then let* incompat := ring_load ring ring_incompat_features in
       Ret (incompat =? AIO_RING_INCOMPAT_FEATURES)
  else Ret false.

(** [to_aio_ring]: the opaque [io_context_t] is the address of the ring. *)
Definition to_aio_ring (aio_ctx : Z) : Z := aio_ctx.

(** The loop over the events to reap; [n] iterations are left, and its value is
    the final [head]. *)
Fixpoint reap_loop (n : nat) (i head : Z) (needMod : bool) (ring nr evs : Z) : cprog Z :=
  match n with
  | O => Ret head
  | S n =>
      let* e := ring_load_event ring head in
      store_elt (A := io_event) evs i e ;;
      let* head := (if needMod
                    then if nr =? 0 then Ub else Ret (u32 (head + 1) `mod` nr)
                    else Ret (u32 (head + 1))) in
      reap_loop n (i + 1) head needMod ring nr evs
  end.

Definition zero_timeout (timeout : option (Z * Z)) : bool :=
  match timeout with
  | Some (tv_sec, tv_nsec) => (tv_sec =? 0) && (tv_nsec =? 0)
  | None => false
  end.

(** [int available]: the distance from [head] to [tail], with a wrap. *)
Definition ring_available (nr head tail : Z) : Z :=
  let available := i32 (u32 (tail - head)) in
  if available <? 0 then i32 (u32 (available + nr)) else available.

(** From the comparison of [available] with [min_nr] on: reap in user space, or
    call the kernel. *)
Definition ring_reap (aio_ctx min_nr max evs : Z) (timeout : option (Z * Z))
    (nr head tail : Z) : cprog Z :=
  let ring := to_aio_ring aio_ctx in
  let available := ring_available nr head tail in
  if (min_nr <=? available) || zero_timeout timeout then
    if available =? 0 then Ret 0
    else if max <=? available then io_getevents aio_ctx min_nr max evs timeout
    else
      let available_nr := i32 (if available <? max then available else max) in
      let needMod := nr <=? u32 (head + available_nr) in
      let* head := reap_loop (Z.to_nat available_nr) 0 head needMod ring nr evs in
      call (RingStoreHead ring head) ;;
      Ret available_nr
  else io_getevents aio_ctx min_nr max evs timeout.

Definition ringio_get_events (aio_ctx min_nr max evs : Z) (timeout : option (Z * Z)) : cprog Z :=
  let ring := to_aio_ring aio_ctx in
  let* force := load_glob forceSysCall in
  let* usable := (if negb (RING_REAPER =? 0) && (force =? 0)
                  then has_usable_ring ring else Ret false) in
  if usable then
    let* nr := ring_load ring ring_nr in
    let* head := ring_load ring ring_head in
    let* tail := ring_load ring ring_tail in
    ring_reap aio_ctx min_nr max evs timeout nr head tail
  else io_getevents aio_ctx min_nr max evs timeout.
End ring_code.

(** ** The kernel's side of the ring *)

(** A ring the kernel can have mapped.  [ring_nr] is well below 2^31: it follows
    from the number of events given to [io_setup], which is an [int]. *)
Record ring_valid (r : aio_ring) : Prop := RingValid {
  rv_nr : 0 < ring_nr r < 2 ^ 30;
  rv_head : 0 ≤ ring_head r < ring_nr r;
  rv_tail : 0 ≤ ring_tail r < ring_nr r;
  rv_events : Z.of_nat (length (ring_io_events r)) = ring_nr r
}.

(** How many completed events wait in the ring, and which, oldest first. *)
Definition ring_count (r : aio_ring) : Z := (ring_tail r - ring_head r) `mod` ring_nr r.
Definition ring_pending (r : aio_ring) : list io_event :=
  window (ring_io_events r) (Z.to_nat (ring_head r)) (Z.to_nat (ring_count r)).

Definition ring_usable (r : aio_ring) : bool :=
  (ring_magic r =? AIO_RING_MAGIC) && (ring_incompat_features r =? AIO_RING_INCOMPAT_FEATURES).

(** [r'] is the ring [r] at a later time, with no consumer in between: the
    kernel has only added events at the tail. *)
Record ring_later (r r' : aio_ring) : Prop := RingLater {
  rl_nr : ring_nr r' = ring_nr r;
  rl_head : ring_head r' = ring_head r;
  rl_magic : ring_magic r' = ring_magic r;
  rl_incompat : ring_incompat_features r' = ring_incompat_features r;
  rl_pending : ring_pending r `prefix_of` ring_pending r'
}.

#[export] Instance ring_later_preorder : PreOrder ring_later.
Proof.
  split.
  - intros r. by split.
  - intros r1 r2 r3 [] []. split; try congruence. by etrans.
Qed.

(** The contract of the kernel with the consumer of the ring of [ctx]: the ring
    is always valid; a read changes nothing the consumer relies on; and storing
    a [head] that is at most [k] events further removes exactly these. *)
Class KernelRing (E : Env) : Prop := {
  kr_valid h ctx r : answer h (RingRead ctx) = Some r → ring_valid r;
  kr_read h ctx r :
    answer h (RingRead ctx) = Some r →
    ∃ r', answer (Ev (RingRead ctx) (Some r) :: h) (RingRead ctx) = Some r' ∧ ring_later r r';
  kr_store h ctx r (k : nat) :
    answer h (RingRead ctx) = Some r →
    (k ≤ length (ring_pending r))%nat →
    let head' := (ring_head r + Z.of_nat k) `mod` ring_nr r in
    ∃ r', answer (Ev (RingStoreHead ctx head') tt :: Ev (RingRead ctx) (Some r) :: h)
            (RingRead ctx) = Some r' ∧
          ring_nr r' = ring_nr r ∧ ring_head r' = head' ∧
          ring_usable r' = ring_usable r ∧
          drop k (ring_pending r) `prefix_of` ring_pending r'
}.

Section ring_facts.
Implicit Types r : aio_ring.

Lemma ring_count_bounds r : ring_valid r → 0 ≤ ring_count r < ring_nr r.
Proof. intros []. apply Z.mod_pos_bound. lia. Qed.

Lemma length_ring_pending r :
  ring_valid r → Z.of_nat (length (ring_pending r)) = ring_count r.
Proof.
  intros Hr. pose proof (ring_count_bounds r Hr). destruct Hr.
  unfold ring_pending. rewrite window_length; lia.
Qed.

Lemma ring_pending_lookup r i :
  ring_valid r → (i < length (ring_pending r))%nat →
  ring_pending r !! i =
  ring_io_events r !! Z.to_nat ((ring_head r + Z.of_nat i) `mod` ring_nr r).
Proof.
  intros Hr Hi. pose proof (ring_count_bounds r Hr) as Hc.
  pose proof (length_ring_pending r Hr). destruct Hr.
  unfold ring_pending. rewrite window_lookup by lia. f_equal.
  rewrite Z2Nat.inj_mod, Z2Nat.inj_add by lia. by rewrite <-rv_events0, !Nat2Z.id.
Qed.

(** The unsigned subtraction and the correction after a wrap compute the
    number of pending events. *)
Lemma ring_available_count r :
  ring_valid r → ring_available (ring_nr r) (ring_head r) (ring_tail r) = ring_count r.
Proof.
  intros [Hnr Hh Ht _]. unfold ring_available, ring_count.
  rewrite i32_u32_sub by (unfold INT_MIN, INT_MAX; lia).
  destruct (Z.ltb_spec (ring_tail r - ring_head r) 0).
  - rewrite u32_small by lia. rewrite i32_small by (unfold INT_MIN, INT_MAX; lia).
    apply Z.mod_unique with (-1); lia.
  - symmetry. apply Z.mod_small. lia.
Qed.

Lemma ring_later_lookup r r' i :
  ring_valid r → ring_valid r' → ring_later r r' → (i < length (ring_pending r))%nat →
  ring_io_events r' !! Z.to_nat ((ring_head r + Z.of_nat i) `mod` ring_nr r) =
  ring_pending r !! i.
Proof.
  intros Hr Hr' [Hnr Hh _ _ [l Hl]] Hi. rewrite <-Hnr, <-Hh.
  rewrite <-ring_pending_lookup; [|done|rewrite Hl, length_app; lia].
  rewrite Hl. by rewrite lookup_app_l.
Qed.
End ring_facts.

(** ** Reads of the ring *)

Section ring_reads.
Context {E : Env}.

(** The history after [n] reads of the ring. *)
Fixpoint ring_reads (ring : Z) (n : nat) (h : history) : history :=
  match n with
  | O => h
  | S n => ring_reads ring n (Ev (RingRead ring) (answer h (RingRead ring)) :: h)
  end.

Definition with_trace (t : history) (w : world) : world :=
  World (heap w) (brk w) (glob w) t.

(** The ring as the next access finds it. *)
Definition ring_now (ring : Z) (h : history) : option aio_ring := answer h (RingRead ring).

Lemma ring_reads_S ring n h :
  ring_reads ring (S n) h =
  Ev (RingRead ring) (ring_now ring (ring_reads ring n h)) :: ring_reads ring n h.
Proof.
  revert h. induction n as [|n IH]; intros h; [done|].
  change (ring_reads ring (S (S n)) h)
    with (ring_reads ring (S n) (Ev (RingRead ring) (answer h (RingRead ring)) :: h)).
  by rewrite IH.
Qed.

Lemma ring_reads_add ring n m h :
  ring_reads ring m (ring_reads ring n h) = ring_reads ring (n + m) h.
Proof. revert h. induction n as [|n IH]; intros h; simpl; [done|]. apply IH. Qed.

Lemma wp_ring_load {A} ring (f : aio_ring → A) r (Q : A → world → Prop) w :
  ring_now ring (trace w) = Some r →
  Q (f r) (with_trace (ring_reads ring 1 (trace w)) w) →
  wp (ring_load ring f) Q w.
Proof.
  intros Hr HQ. unfold ring_load. apply wp_bind, wp_call.
  unfold ring_now in Hr. simpl in HQ. rewrite Hr in *. by apply wp_ret.
Qed.

Context {K : KernelRing E}.

Lemma ring_reads_later ring n h r :
  ring_now ring h = Some r →
  ∃ r', ring_now ring (ring_reads ring n h) = Some r' ∧ ring_later r r'.
Proof.
  revert h r. induction n as [|n IH]; intros h r Hr; simpl.
  - by exists r.
  - unfold ring_now in Hr. rewrite Hr.
    destruct (kr_read h ring r Hr) as (r1 & Hr1 & Hl1).
    destruct (IH _ _ Hr1) as (r2 & Hr2 & Hl2). exists r2. split; [done|]. by etrans.
Qed.

Lemma ring_now_valid ring h r : ring_now ring h = Some r → ring_valid r.
Proof. apply kr_valid. Qed.

(** The loop copies the pending events, oldest first, and advances [head]
    modulo the size, with or without the [%] operation. *)
Lemma wp_reap_loop ring evs needMod r0 n : ∀ i w arr rc,
  ring_valid r0 →
  ring_now ring (trace w) = Some rc → ring_later r0 rc →
  (i + n ≤ length (ring_pending r0))%nat →
  (needMod = false → ring_head r0 + Z.of_nat (i + n) < ring_nr r0) →
  w ⊨ evs ↦ arr → (i + n ≤ length arr)%nat →
  wp (reap_loop n (Z.of_nat i) ((ring_head r0 + Z.of_nat i) `mod` ring_nr r0) needMod
        ring (ring_nr r0) evs)
     (λ h w', h = (ring_head r0 + Z.of_nat (i + n)) `mod` ring_nr r0 ∧
              w' = with_trace (ring_reads ring n (trace w))
                     (put evs (list_inserts i (take n (drop i (ring_pending r0))) arr) w)) w.
Proof.
  induction n as [|n IH]; intros i w arr rc Hv Hnow Hlater Hin Hmod Harr Hlen; simpl.
  { apply wp_ret. rewrite Nat.add_0_r. split; [done|].
    rewrite (put_id _ _ _ Harr). by destruct w. }
  assert (∃ x, ring_pending r0 !! i = Some x) as [x Hx].
  { apply lookup_lt_is_Some_2. lia. }
  pose proof Hv as [Hnr Hh _ _].
  assert (Hvc : ring_valid rc) by by eapply ring_now_valid.
  apply wp_bind. unfold ring_load_event. apply wp_bind.
  eapply wp_ring_load; [done|].
  rewrite (ring_later_lookup r0 rc) by (done || lia). rewrite Hx. apply wp_ret.
  apply wp_bind. eapply wp_store_elt; [exact Harr|lia|].
  set (w1 := put evs (<[Z.to_nat (Z.of_nat i) := x]> arr) _).
  set (head := (ring_head r0 + Z.of_nat i) `mod` ring_nr r0).
  pose proof (Z.mod_pos_bound (ring_head r0 + Z.of_nat i) (ring_nr r0) ltac:(lia)).
  assert (wp (if needMod then if ring_nr r0 =? 0 then Ub else Ret (u32 (head + 1) `mod` ring_nr r0)
              else Ret (u32 (head + 1)))
            (λ h w', h = (ring_head r0 + Z.of_nat (S i)) `mod` ring_nr r0 ∧ w' = w1) w1) as Hhead.
  { unfold head. destruct needMod.
    - rewrite (proj2 (Z.eqb_neq _ _)) by lia. apply wp_ret. split; [|done].
      rewrite u32_small by lia. rewrite Z.add_mod_idemp_l by lia. f_equal. lia.
    - specialize (Hmod eq_refl). apply wp_ret. split; [|done].
      rewrite (Z.mod_small (_ + Z.of_nat i)), (Z.mod_small (_ + Z.of_nat (S i))) by lia.
      rewrite u32_small by lia. lia. }
  eapply wp_seq; [exact Hhead|]. intros h w' [-> ->].
  destruct (ring_reads_later ring 1 (trace w) rc Hnow) as (rc' & Hnow' & Hlater').
  replace (Z.of_nat i + 1) with (Z.of_nat (S i)) by lia.
  eapply wp_mono.
  { eapply (IH (S i) w1 _ rc'); [done|done|by etrans|lia| |by unfold w1; auto with world|].
    - intros Hm. specialize (Hmod Hm). lia.
    - rewrite length_insert. lia. }
  intros h w' [-> ->]. replace (S i + n)%nat with (i + S n)%nat by lia. split; [done|].
  unfold w1. rewrite put_put. unfold with_trace, put, upd_heap. simpl. f_equal.
  do 2 f_equal. rewrite Nat2Z.id.
  rewrite (drop_S _ _ _ Hx). cbn [take]. symmetry.
  rewrite <-list_insert_inserts_lt by lia. done.
Qed.
End ring_reads.

(** ** What [ringio_get_events] does *)

Section ringio.
Context {E : Env} {K : KernelRing E}.
Implicit Types (w : world) (ctx min_nr max evs : Z).

(** The world after [n] accesses of the ring. *)
Definition after_reads (ring : Z) (n : nat) (w : world) : world :=
  with_trace (ring_reads ring n (trace w)) w.

Lemma run_ring_load {A} ring (f : aio_ring → A) r w :
  ring_now ring (trace w) = Some r →
  run (ring_load ring f) w = Done (f r) (after_reads ring 1 w).
Proof. intros Hr. apply wp_done. by eapply wp_ring_load. Qed.

Lemma after_reads_add ring n m w :
  after_reads ring m (after_reads ring n w) = after_reads ring (n + m) w.
Proof. unfold after_reads, with_trace. simpl. by rewrite ring_reads_add. Qed.

(** The state after a reap of [l] in user space: the events are at the start of
    the caller's array, the ring's [head] has moved past them. *)
Definition reaped (ring evs : Z) (r : aio_ring) (arr l : list io_event) (w : world) : world :=
  log (RingStoreHead ring ((ring_head r + Z.of_nat (length l)) `mod` ring_nr r)) tt
    (put evs (l ++ drop (length l) arr) (after_reads ring (length l) w)).

Lemma list_inserts_front {A} (l arr : list A) :
  (length l ≤ length arr)%nat → list_inserts 0 l arr = l ++ drop (length l) arr.
Proof.
  intros Hl. rewrite <-(take_drop (length l) arr) at 1.
  rewrite list_inserts_0_r; [done|]. rewrite length_take. lia.
Qed.

Lemma run_ring_reap_user ctx min_nr max evs timeout rt arr w rc :
  ring_valid rt → ring_now ctx (trace w) = Some rc → ring_later rt rc →
  let l := ring_pending rt in
  (min_nr <=? Z.of_nat (length l)) || zero_timeout timeout = true →
  (0 < length l)%nat → Z.of_nat (length l) < max →
  w ⊨ evs ↦ arr → (length l ≤ length arr)%nat →
  run (ring_reap ctx min_nr max evs timeout (ring_nr rt) (ring_head rt) (ring_tail rt)) w =
  Done (Z.of_nat (length l)) (reaped ctx evs rt arr l w).
Proof.
  intros Hv Hnow Hlater l Hgo Hpos Hmax Harr Hlen. apply wp_done.
  unfold ring_reap, to_aio_ring. rewrite ring_available_count by done.
  rewrite <-length_ring_pending by done. fold l. rewrite Hgo.
  rewrite (proj2 (Z.eqb_neq _ _)), (proj2 (Z.leb_gt _ _)), (proj2 (Z.ltb_lt _ _)) by lia.
  pose proof (ring_count_bounds rt Hv) as Hc. pose proof (length_ring_pending rt Hv) as Hl.
  fold l in Hl. pose proof Hv as [Hnr Hh _ _].
  rewrite i32_small by (unfold INT_MIN, INT_MAX; lia). rewrite Nat2Z.id.
  rewrite u32_small by lia.
  assert (ring_head rt = (ring_head rt + Z.of_nat 0) `mod` ring_nr rt) as Hh0.
  { rewrite Z.add_0_r. symmetry. apply Z.mod_small. lia. }
  apply wp_bind. destruct (ring_nr rt <=? ring_head rt + Z.of_nat (length l)) eqn:Hm;
    rewrite Hh0 at 1.
  all: eapply wp_mono;
    [eapply (wp_reap_loop ctx evs _ rt (length l) 0 w arr rc); try done; simpl; lia|].
  all: intros h w' [-> ->]; apply wp_bind, wp_call, wp_ret; split; [done|].
  all: unfold reaped; rewrite drop_0, firstn_all; fold l.
  all: rewrite list_inserts_front by done; simpl; by rewrite (unit_eta (answer _ _)).
Qed.
End ringio.

Section ringio_theorems.
Context {E : Env}.

(** With the user-space reaper switched off nothing of the ring is read. *)
Lemma ringio_forced ctx min_nr max evs timeout w :
  forceSysCall (glob w) ≠ 0 →
  run (ringio_get_events ctx min_nr max evs timeout) w =
  run (io_getevents ctx min_nr max evs timeout) w.
Proof.
  intros Hf. unfold ringio_get_events.
  erewrite run_bind_done by apply run_load_glob.
  rewrite (proj2 (Z.eqb_neq (forceSysCall _) 0) Hf). simpl.
  by erewrite run_bind_done by by apply run_ret.
Qed.

Context {K : KernelRing E}.

(** A ring that is not the kernel's known one is left to the system call. *)
Lemma ringio_unusable ctx min_nr max evs timeout r0 w :
  ring_now ctx (trace w) = Some r0 → ring_usable r0 = false →
  forceSysCall (glob w) = 0 →
  run (ringio_get_events ctx min_nr max evs timeout) w =
  run (io_getevents ctx min_nr max evs timeout)
    (after_reads ctx (if ring_magic r0 =? AIO_RING_MAGIC then 2 else 1) w).
Proof.
  intros H0 Hu Hf. unfold ringio_get_events, to_aio_ring.
  erewrite run_bind_done by apply run_load_glob. rewrite Hf. simpl. unfold has_usable_ring.
  rewrite run_bind. erewrite run_bind_done by by eapply run_ring_load.
  unfold ring_usable in Hu. destruct (ring_magic r0 =? AIO_RING_MAGIC); [|done].
  destruct (ring_reads_later ctx 1 _ _ H0) as (r1 & H1 & L1).
  erewrite run_bind_done by by eapply run_ring_load.
  rewrite after_reads_add, (rl_incompat _ _ L1). simpl in Hu. by rewrite Hu.
Qed.

(** The five accesses before the decision. *)
Lemma run_ringio_prefix ctx min_nr max evs timeout r0 w :
  forceSysCall (glob w) = 0 →
  ring_now ctx (trace w) = Some r0 → ring_usable r0 = true →
  ∃ rt, ring_now ctx (ring_reads ctx 4 (trace w)) = Some rt ∧ ring_later r0 rt ∧
    run (ringio_get_events ctx min_nr max evs timeout) w =
    run (ring_reap ctx min_nr max evs timeout (ring_nr rt) (ring_head rt) (ring_tail rt))
      (after_reads ctx 5 w).
Proof.
  intros Hf H0 Hu.
  destruct (ring_reads_later ctx 1 _ _ H0) as (r1 & H1 & L1).
  destruct (ring_reads_later ctx 2 _ _ H0) as (r2 & H2 & L2).
  destruct (ring_reads_later ctx 3 _ _ H0) as (r3 & H3 & L3).
  destruct (ring_reads_later ctx 4 _ _ H0) as (rt & H4 & L4).
  exists rt. split_and!; [done|done|].
  unfold ring_usable in Hu. apply andb_true_iff in Hu as [Hmagic Hinc].
  unfold ringio_get_events, to_aio_ring. erewrite run_bind_done by apply run_load_glob. rewrite Hf. simpl.
  unfold has_usable_ring.
  assert (run (let* magic := ring_load ctx ring_magic in
               if magic =? AIO_RING_MAGIC
               then let* incompat := ring_load ctx ring_incompat_features in
                    Ret (incompat =? AIO_RING_INCOMPAT_FEATURES)
               else Ret false) w = Done true (after_reads ctx 2 w)) as Huse.
  { erewrite run_bind_done by by eapply run_ring_load. rewrite Hmagic.
    erewrite run_bind_done by by eapply run_ring_load.
    by rewrite (rl_incompat _ _ L1), Hinc. }
  rewrite (run_bind_done _ _ _ _ _ Huse). cbv beta iota.
  erewrite run_bind_done by by eapply run_ring_load. rewrite after_reads_add.
  erewrite run_bind_done by by eapply run_ring_load. rewrite after_reads_add.
  erewrite run_bind_done by by eapply run_ring_load. rewrite after_reads_add.
  by rewrite (rl_nr _ _ L2), (rl_head _ _ L3), (rl_nr _ _ L4), (rl_head _ _ L4).
Qed.

(** What [ringio_get_events] computes when the ring is usable. *)
Definition ringio_result ctx min_nr max evs timeout rt arr w : outcome world Z :=
  let n := Z.of_nat (length (ring_pending rt)) in
  if (min_nr <=? n) || zero_timeout timeout then
    if n =? 0 then Done 0 w
    else if max <=? n then run (io_getevents ctx min_nr max evs timeout) w
    else Done n (reaped ctx evs rt arr (ring_pending rt) w)
  else run (io_getevents ctx min_nr max evs timeout) w.

Lemma run_ringio ctx min_nr max evs timeout r0 arr w :
  forceSysCall (glob w) = 0 →
  ring_now ctx (trace w) = Some r0 → ring_usable r0 = true → w ⊨ evs ↦ arr →
  ∃ rt, ring_now ctx (ring_reads ctx 4 (trace w)) = Some rt ∧ ring_later r0 rt ∧
    let n := length (ring_pending rt) in
    ((Z.of_nat n < max → (n ≤ length arr)%nat) →
     run (ringio_get_events ctx min_nr max evs timeout) w =
     ringio_result ctx min_nr max evs timeout rt arr (after_reads ctx 5 w)).
Proof.
  intros Hf H0 Hu Harr.
  destruct (run_ringio_prefix ctx min_nr max evs timeout r0 w Hf H0 Hu) as (rt & Hrt & Hl & Hrun).
  exists rt. split_and!; [done|done|]. intros n Hn. rewrite Hrun. clear Hrun.
  assert (ring_valid rt) as Hv by by eapply ring_now_valid.
  destruct (ring_reads_later ctx 5 _ _ H0) as (r5 & H5 & _).
  destruct (ring_reads_later ctx 1 _ _ Hrt) as (r5' & H5' & L5).
  rewrite ring_reads_add in H5'. simpl in H5, H5'. rewrite H5 in H5'. injection H5' as <-.
  unfold ringio_result. fold n.
  destruct ((min_nr <=? Z.of_nat n) || zero_timeout timeout) eqn:Hgo.
  - destruct (Z.eqb_spec (Z.of_nat n) 0) as [Hz|Hz].
    { unfold ring_reap, to_aio_ring. rewrite ring_available_count by done.
      rewrite <-length_ring_pending by done. fold n. by rewrite Hgo, (proj2 (Z.eqb_eq _ _) Hz). }
    destruct (Z.leb_spec max (Z.of_nat n)) as [Hm|Hm].
    { unfold ring_reap, to_aio_ring. rewrite ring_available_count by done.
      rewrite <-length_ring_pending by done. fold n.
      by rewrite Hgo, (proj2 (Z.eqb_neq _ _) Hz), (proj2 (Z.leb_le _ _) Hm). }
    apply (run_ring_reap_user ctx min_nr max evs timeout rt arr (after_reads ctx 5 w) r5);
      try done; [subst n; lia|subst n; by apply Hn].
  - unfold ring_reap, to_aio_ring. rewrite ring_available_count by done.
    rewrite <-length_ring_pending by done. fold n. by rewrite Hgo.
Qed.

(** After a reap in user space the ring holds the events that came since. *)
Lemma reaped_next ctx evs rt arr w rc :
  ring_now ctx (trace w) = Some rc → ring_later rt rc →
  (0 < length (ring_pending rt))%nat →
  let w' := reaped ctx evs rt arr (ring_pending rt) w in
  ∃ rlast rest r',
    ring_now ctx (ring_reads ctx (length (ring_pending rt) - 1) (trace w)) = Some rlast ∧
    ring_pending rlast = ring_pending rt ++ rest ∧
    ring_now ctx (trace w') = Some r' ∧
    ring_head r' = (ring_head rt + Z.of_nat (length (ring_pending rt))) `mod` ring_nr rt ∧
    rest `prefix_of` ring_pending r'.
Proof.
  intros Hc Hlater Hpos w'. set (n := length (ring_pending rt)) in *.
  destruct (ring_reads_later ctx (n - 1) _ _ Hc) as (rl & Hrl & Hl).
  assert (ring_later rt rl) as [Hnr Hh _ _ [rest Hrest]] by by etrans.
  destruct (kr_store _ ctx rl n Hrl) as (r' & Hr' & Hnr' & Hh' & _ & Hpre).
  { rewrite Hrest, length_app. lia. }
  exists rl, rest, r'. split_and!; [done|done| | |].
  - assert (ring_reads ctx n (trace w) = Ev (RingRead ctx) (Some rl) :: ring_reads ctx (n - 1) (trace w)) as Hn.
    { replace n with (S (n - 1)) at 1 by lia. by rewrite ring_reads_S, Hrl. }
    unfold ring_now. change (trace w') with
      (Ev (RingStoreHead ctx ((ring_head rt + Z.of_nat n) `mod` ring_nr rt)) tt :: ring_reads ctx n (trace w)).
    rewrite Hn. by rewrite Hh, Hnr in Hr'.
  - by rewrite Hh', Hh, Hnr.
  - rewrite Hrest, drop_app_length' in Hpre by done. done.
Qed.

(** C13.  [ringio_get_events] on a usable ring, as a function of the ring [rt] it
    sees at its last read of the header - a later state of the ring it first
    looked at: enough pending events, or a zero timeout, and fewer than [max]
    mean that exactly the pending ones are copied, in order, and the ring's
    [head] moves past them; nothing pending and a zero timeout mean 0 and no
    change; in every other case the result is that of [io_getevents].  Unsigned
    wrap-around and the modulo that is skipped when it is not needed do not
    matter. *)
Theorem ringio_get_events_correct ctx min_nr max evs timeout r0 arr w :
  forceSysCall (glob w) = 0 →
  ring_now ctx (trace w) = Some r0 → ring_usable r0 = true → w ⊨ evs ↦ arr →
  ∃ rt, ring_now ctx (ring_reads ctx 4 (trace w)) = Some rt ∧ ring_later r0 rt ∧
    let n := length (ring_pending rt) in
    ((Z.of_nat n < max → (n ≤ length arr)%nat) →
     run (ringio_get_events ctx min_nr max evs timeout) w =
     ringio_result ctx min_nr max evs timeout rt arr (after_reads ctx 5 w)).
Proof. apply run_ringio. Qed.

(** C8.  A reap in user space takes each event exactly once, whatever the kernel
    adds meanwhile: the events [l] that were pending go to the start of the
    caller's array, the [head] moves on by their number modulo the size of the
    ring, and the events that were behind them in the ring are the first ones of
    the next look: none is lost, none is left for a second reap. *)
Theorem ring_reap_exactly_once ctx min_nr max evs timeout rt rc arr w :
  ring_valid rt → ring_now ctx (trace w) = Some rc → ring_later rt rc →
  let l := ring_pending rt in
  (min_nr <=? Z.of_nat (length l)) || zero_timeout timeout = true →
  (0 < length l)%nat → Z.of_nat (length l) < max →
  w ⊨ evs ↦ arr → (length l ≤ length arr)%nat →
  ∃ w' rlast rest r',
    run (ring_reap ctx min_nr max evs timeout (ring_nr rt) (ring_head rt) (ring_tail rt)) w =
      Done (Z.of_nat (length l)) w' ∧
    w' ⊨ evs ↦ (l ++ drop (length l) arr) ∧
    ring_now ctx (ring_reads ctx (length l - 1) (trace w)) = Some rlast ∧
    ring_pending rlast = l ++ rest ∧
    ring_now ctx (trace w') = Some r' ∧
    ring_head r' = (ring_head rt + Z.of_nat (length l)) `mod` ring_nr rt ∧
    rest `prefix_of` ring_pending r'.
Proof.
  intros Hv Hc Hlater l Hgo Hpos Hmax Harr Hlen.
  destruct (reaped_next ctx evs rt arr w rc Hc Hlater Hpos) as (rl & rest & r' & H1 & H2 & H3 & H4 & H5).
  eexists (reaped ctx evs rt arr l w), rl, rest, r'. split_and!; [|apply has_put_eq|done..].
  by eapply run_ring_reap_user.
Qed.
End ringio_theorems.
