(* ===== verification/Threads.v ===== *)
(** * Threads

    Several programs on one state, interleaved action by action, and the reasoning
    about a critical section: what a thread does between a lock and its unlock on
    the control block and the array it protects, whatever the other threads do
    elsewhere. *)

From S2P Require Export IocbPool.

Section interleaving.
Context {S A : Type}.
Implicit Types (q : prog S A) (qs : list (prog S A)) (s : S).

(** The next state of a thread that runs its first action, if it can. *)
Definition advance q s : option (prog S A * S) :=
  match q with
  | Act f k => match f s with Next b s' => Some (k b, s') | _ => None end
  | _ => None
  end.

(** A thread whose next action is undefined, or a loop without fuel. *)
Definition faulty q s : Prop :=
  match q with
  | Act f k => f s = Undef
  | Ret _ => False
  | _ => True
  end.

Definition finished q : Prop := match q with Ret _ => True | _ => False end.
#[export] Instance finished_dec q : Decision (finished q).
Proof. destruct q; apply _. Defined.

(** One action of one thread. *)
Inductive tstep : list (prog S A) * S → list (prog S A) * S → Prop :=
  | tstep_thread qs s i q q' s' :
      qs !! i = Some q → advance q s = Some (q', s') → tstep (qs, s) (<[i := q']> qs, s').

(** Running the threads in a given order; a thread that cannot move is skipped. *)
Fixpoint schedule (order : list nat) (cfg : list (prog S A) * S) : list (prog S A) * S :=
  match order with
  | [] => cfg
  | i :: order =>
      schedule order match cfg.1 !! i with
        | Some q => match advance q cfg.2 with
                    | Some (q', s') => (<[i := q']> cfg.1, s')
                    | None => cfg
                    end
        | None => cfg
        end
  end.

Lemma schedule_steps order cfg : rtc tstep cfg (schedule order cfg).
Proof.
  revert cfg. induction order as [|i order IH]; intros [qs s]; simpl; [apply rtc_refl|].
  destruct (qs !! i) as [q|] eqn:Hq; simpl; [|apply IH].
  destruct (advance q s) as [[q' s']|] eqn:Ha; [|apply IH].
  eapply rtc_l; [exact (tstep_thread _ _ _ _ _ _ Hq Ha)|apply IH].
Qed.
End interleaving.

(** ** Critical sections of the pool

    The lock of the control block at [p] protects the block and the array at
    [a].  [section q Q c arr]: started with [c] and [arr] there, the program [q]
    holds the lock at each of its actions, touches nothing else, and ends with
    [Q] of its value and of the contents of the two blocks. *)
Section sections.
Context (p a : Z).
Implicit Types (w : world) (c : io_control) (arr : list Z).

Definition at_lock w c arr : Prop := w ⊨ p ↦ c ∧ w ⊨ a ↦ arr ∧ iocb_pool c = a.

(** [f], in a state with [c] and [arr], gives [b] and leaves [c'] and [arr']. *)
Definition acts {B : Set} (f : world → act world B) c arr (b : B) c' arr' : Prop :=
  ∀ w, at_lock w c arr → ∃ w', f w = Next b w' ∧ at_lock w' c' arr' ∧ only_at [p; a] w w'.

Fixpoint section {A} (q : cprog A) (Q : A → io_control → list Z → Prop) c arr : Prop :=
  match q with
  | Ret x => Q x c arr
  | Act f k => iocbLock c = MLocked ∧ ∃ b c' arr', acts f c arr b c' arr' ∧ section (k b) Q c' arr'
  | _ => False
  end.

Lemma section_bind {A B} (q : cprog A) (k : A → cprog B) Q c arr :
  section q (λ x c' arr', section (k x) Q c' arr') c arr → section (bind q k) Q c arr.
Proof.
  revert c arr. induction q as [x|C f k' IH| |]; intros c arr; simpl; try done.
  intros (Hl & b & c' & arr' & Hf & Hk). split; [done|]. exists b, c', arr'. auto.
Qed.

Lemma section_mono {A} (q : cprog A) (P Q : A → io_control → list Z → Prop) c arr :
  section q P c arr → (∀ x c' arr', P x c' arr' → Q x c' arr') → section q Q c arr.
Proof.
  intros Hq HPQ. revert c arr Hq. induction q as [x|C f k IH| |]; intros c arr; simpl; try done; auto.
  intros (Hl & b & c' & arr' & Hf & Hk). split; [done|]. exists b, c', arr'. auto.
Qed.

(** The first action of a section that is not at its end. *)
Lemma section_advance {A B} (q : cprog A) (K : A → cprog B) (Q : A → io_control → list Z → Prop) c arr w :
  section q Q c arr → ¬ finished q → at_lock w c arr →
  iocbLock c = MLocked ∧ ¬ faulty (bind q K) w ∧ ∃ q' w' c' arr',
    advance (bind q K) w = Some (bind q' K, w') ∧ section q' Q c' arr' ∧ at_lock w' c' arr'.
Proof.
  destruct q as [x|C f k| |]; simpl; try done.
  intros (Hl & b & c' & arr' & Hf & Hk) _ Hw. destruct (Hf w Hw) as (w' & Hw' & Hat & _).
  split_and!; [done|by rewrite Hw'|]. exists (k b), w', c', arr'. by rewrite Hw'.
Qed.

Lemma section_load {T : Set} (f : io_control → T) (Q : T → io_control → list Z → Prop) c arr :
  iocbLock c = MLocked → Q (f c) c arr → section (load p f) Q c arr.
Proof.
  intros Hl HQ. split; [done|]. exists (f c), c, arr. split; [|done].
  intros w Hw. exists w. destruct Hw as [Hc Hw]. rewrite (has_of_block _ _ _ Hc). by split_and!.
Qed.

Lemma section_store (g : io_control → io_control) (Q : unit → io_control → list Z → Prop) c arr :
  p ≠ a → iocbLock c = MLocked → iocb_pool (g c) = iocb_pool c → Q tt (g c) arr →
  section (store p g) Q c arr.
Proof.
  intros Hpa Hl Hg HQ. split; [done|]. exists tt, (g c), arr. split; [|done].
  intros w (Hc & Ha & Hp). rewrite (has_of_block _ _ _ Hc). eexists. split; [done|].
  split; [|apply only_at_put; [set_solver|done]].
  split_and!; [apply has_put_eq|by apply has_put_ne|congruence].
Qed.

Lemma section_load_elt i x (Q : Z → io_control → list Z → Prop) c arr :
  iocbLock c = MLocked → 0 ≤ i → arr !! Z.to_nat i = Some x → Q x c arr →
  section (load_elt a i) Q c arr.
Proof.
  intros Hl Hi Hx HQ. split; [done|]. exists x, c, arr. split; [|done].
  intros w (Hc & Ha & Hp). exists w. rewrite (has_of_block _ _ _ Ha), (proj2 (Z.leb_le _ _) Hi), Hx.
  by split_and!.
Qed.

Lemma section_store_elt i x (Q : unit → io_control → list Z → Prop) c arr :
  p ≠ a → iocbLock c = MLocked → 0 ≤ i < Z.of_nat (length arr) →
  Q tt c (<[Z.to_nat i := x]> arr) → section (store_elt a i x) Q c arr.
Proof.
  intros Hpa Hl Hi HQ. split; [done|]. exists tt, c, (<[Z.to_nat i := x]> arr). split; [|done].
  intros w (Hc & Ha & Hp). rewrite (has_of_block _ _ _ Ha).
  destruct Hi. rewrite (proj2 (Z.leb_le 0 i)), (proj2 (Z.ltb_lt i _)) by done. eexists. split; [done|].
  split; [|apply only_at_put; [set_solver|done]].
  split_and!; [by apply has_put_ne|apply has_put_eq|done].
Qed.

Lemma section_unlock (Q : unit → io_control → list Z → Prop) c arr :
  p ≠ a → iocbLock c = MLocked → Q tt (set_iocbLock MFree c) arr →
  section (pthread_mutex_unlock (IocbLock p)) Q c arr.
Proof.
  intros Hpa Hl HQ. split; [done|]. exists tt, (set_iocbLock MFree c), arr. split; [|done].
  intros w (Hc & Ha & Hp). rewrite (focus_iocbLock _ _ _ Hc), Hl. eexists. split; [done|].
  split; [|apply only_at_put; [set_solver|done]].
  split_and!; [apply has_put_eq|by apply has_put_ne|done].
Qed.

Lemma section_ret {A} (x : A) (Q : A → io_control → list Z → Prop) c arr :
  Q x c arr → section (Ret x) Q c arr.
Proof. done. Qed.

Lemma section_int z (Q : Z → io_control → list Z → Prop) c arr :
  INT_MIN ≤ z ≤ INT_MAX → Q z c arr → section (int_ z) Q c arr.
Proof. intros Hz HQ. unfold int_. by rewrite (proj2 (is_i32_spec z) Hz). Qed.

Lemma section_if {A} (b : bool) (q1 q2 : cprog A) Q c arr :
  (b = true → section q1 Q c arr) → (b = false → section q2 Q c arr) →
  section (if b then q1 else q2) Q c arr.
Proof. destruct b; auto. Qed.
End sections.

#[global] Arguments section p a {A} q Q c arr : simpl never.

(** [section_step] runs one action of a critical section. *)
Ltac section_step :=
  lazymatch goal with
  | |- section _ _ (bind _ _) _ _ _ => apply section_bind; section_step
  | |- section _ _ (Ret _) _ _ _ => apply section_ret
  | |- section _ _ (load _ _) _ _ _ => apply section_load; [done|]
  | |- section _ _ (store _ _) _ _ _ => apply section_store; [done|done|done|]
  | |- section _ _ (load_elt _ _) _ _ _ => eapply section_load_elt; [done|lia|eassumption|]
  | |- section _ _ (store_elt _ _ _) _ _ _ => apply section_store_elt; [done|done|lia|]
  | |- section _ _ (int_ _) _ _ _ => apply section_int; [unfold INT_MIN, INT_MAX in *; lia|]
  | |- section _ _ (pthread_mutex_unlock _) _ _ _ => apply section_unlock; [done|done|]
  | |- section _ _ (match ?b with true => _ | false => _ end) _ _ _ =>
      let H := fresh "Hif" in apply section_if; intros H; try (exfalso; lia)
  end; cbv beta; wp_fields.
Ltac section_steps := repeat section_step.
