(* ===== verification/PoolThreads.v ===== *)
(** * Threads that share the pool

    The pool under any interleaving of any number of threads: [iocbLock] makes
    [getIOCB] and [putIOCB] atomic, as the comment of [struct io_control] asks
    ("to make sure we don't return IOCB while something else is using them"). *)

From S2P Require Export Threads.

(** What a thread does with the pool: it takes iocbs, gives back, decides on what
    it gets, and does other things in between. *)
Inductive client : Type :=
  | CStop
  | CGet (k : Z → client)
  | CPut (x : Z) (k : client)
  | CLocal {B : Set} (f : world → act world B) (k : B → client).

Fixpoint client_code (p : Z) (c : client) : cprog unit :=
  match c with
  | CStop => Ret tt
  | CGet k => let* r := getIOCB p in client_code p (k r)
  | CPut x k => putIOCB p x ;; client_code p k
  | CLocal f k => Act f (λ b, client_code p (k b))
  end.

Section critical.
Context {E : Env} (p a : Z) (Hpa : p ≠ a).
Implicit Types (w : world) (c : io_control) (arr free : list Z).

(** The contents of the two blocks when a critical section ends, with the queue
    [free]. *)
Definition released (free : list Z) (n : Z) c arr : Prop :=
  iocbLock c = MFree ∧ pool_rep c arr free ∧ used c = n.

Lemma pool_rep_ext c c' arr free :
  queueSize c' = queueSize c → used c' = used c → iocbGet c' = iocbGet c → iocbPut c' = iocbPut c →
  pool_rep c arr free → pool_rep c' arr free.
Proof. intros Hq Hu Hg Hp []. split; by rewrite ?Hq, ?Hu, ?Hg, ?Hp. Qed.

Lemma section_get c arr free :
  iocbLock c = MLocked → iocb_pool c = a → pool_rep c arr free →
  section p a (get_locked p) (λ r c' arr', match free with
    | [] => r = NULL ∧ released [] (used c) c' arr'
    | x :: free' => r = x ∧ released free' (used c + 1) c' arr'
    end) c arr.
Proof.
  intros Hl Hp Hrep. unfold get_locked, released. destruct free as [|x free].
  - pose proof Hrep as [Hsz Hlen Hu Hup Hg Hput Hw]. simpl in *. section_steps.
    split_and!; [done|done| |done]. by apply (pool_rep_ext c).
  - pose proof (pool_rep_head _ _ _ _ Hrep) as Hx. pose proof (pool_rep_taken _ _ _ _ Hrep) as Ht.
    destruct Hrep as [Hsz Hlen Hu Hup Hg Hput Hw]. simpl in *. subst a.
    section_steps; (split_and!; [done|done| |done]).
    all: apply (pool_rep_ext (taken c)); try done; simpl; rewrite <-wrap_next by lia.
    + by rewrite (proj2 (Z.leb_le _ _)) by lia.
    + by rewrite (proj2 (Z.leb_gt _ _)) by lia.
Qed.

Lemma section_put c arr free x :
  iocbLock c = MLocked → iocb_pool c = a → pool_rep c arr free → 0 < used c →
  section p a (put_locked p x) (λ _ c' arr', released (free ++ [x]) (used c - 1) c' arr') c arr.
Proof.
  intros Hl Hp Hrep Hpos. unfold put_locked, released. pose proof (pool_rep_put_bounds _ _ _ Hrep).
  pose proof (pool_rep_returned _ _ _ x Hrep Hpos) as Ht.
  destruct Hrep as [Hsz Hlen Hu Hup Hg Hput Hw]. simpl in *. subst a.
  section_steps; (split_and!; [done| |done]).
  all: apply (pool_rep_ext (returned c)); try done; simpl; rewrite <-wrap_next by lia.
  - by rewrite (proj2 (Z.leb_le _ _)) by lia.
  - by rewrite (proj2 (Z.leb_gt _ _)) by lia.
Qed.

(** [f] always runs, and leaves the pool alone. *)
Definition elsewhere {B : Set} (f : world → act world B) : Prop :=
  ∀ w, ∃ b w', f w = Next b w' ∧ heap w' !! p = heap w !! p ∧ heap w' !! a = heap w !! a.

(** A client that holds [held] only gives back what it holds. *)
Fixpoint valid (held : list Z) (c : client) : Prop :=
  match c with
  | CStop => True
  | CGet k => valid held (k NULL) ∧ ∀ x, x ≠ NULL → valid (x :: held) (k x)
  | CPut x k => x ∈ held ∧ valid (remove1 x held) k
  | CLocal f k => elsewhere f ∧ ∀ b, valid held (k b)
  end.

(** The rest of a thread that holds [held] and is outside the pool. *)
Definition outside (held : list Z) (q : cprog unit) : Prop :=
  ∃ k : client, q = client_code p k ∧ valid held k.

Lemma advance_lock {A B} (q : cprog A) (K : A → cprog B) w :
  advance (let* r := (pthread_mutex_lock (IocbLock p) ;; q) in K r) w =
  match focus (IocbLock p) w with
  | Some (MFree, upd) => Some (let* r := q in K r, upd MLocked)
  | _ => None
  end.
Proof.
  unfold pthread_mutex_lock. simpl. by destruct (_ <$> _) as [[[] upd]|].
Qed.

Lemma faulty_lock {A B} (q : cprog A) (K : A → cprog B) w c arr :
  at_lock p a w c arr → iocbLock c = MFree ∨ iocbLock c = MLocked →
  ¬ faulty (let* r := (pthread_mutex_lock (IocbLock p) ;; q) in K r) w.
Proof.
  intros (Hc & _ & _) Hl Hf.
  change (match focus (IocbLock p) w with
          | Some (MFree, upd) => Next tt (upd MLocked)
          | Some (MLocked, _) => Block
          | _ => Undef
          end = Undef) in Hf.
  rewrite (focus_iocbLock _ _ _ Hc) in Hf. by destruct Hl as [Hl|Hl]; rewrite Hl in Hf.
Qed.

Lemma at_lock_elsewhere {B : Set} (f : world → act world B) b w w' c arr :
  elsewhere f → f w = Next b w' → at_lock p a w c arr → at_lock p a w' c arr.
Proof.
  intros Hf Hw (Hc & Ha & Hp). destruct (Hf w) as (b' & w'' & Hw' & H1 & H2).
  rewrite Hw in Hw'. injection Hw' as <- <-. unfold at_lock, has in *. by rewrite H1, H2.
Qed.

(** ** The invariant of the interleaved threads *)

Context (all : list Z) (Hnull : NULL ∉ all).

(** Between two critical sections: every iocb is free or held by one thread. *)
Definition shared (helds : list (list Z)) c arr : Prop :=
  ∃ free, released free (Z.of_nat (length (concat helds))) c arr ∧ free ++ concat helds ≡ₚ all.

(** No thread is in the pool. *)
Definition unlocked (helds : list (list Z)) (qs : list (cprog unit)) w : Prop :=
  Forall2 outside helds qs ∧ ∃ c arr, at_lock p a w c arr ∧ shared helds c arr.

(** Thread [i] is in the pool, and the others are not. *)
Record locked (helds : list (list Z)) (qs : list (cprog unit)) w (i : nat) : Prop := Locked {
  lk_length : length helds = length qs;
  lk_others j h q : j ≠ i → helds !! j = Some h → qs !! j = Some q → outside h q;
  lk_owner : ∃ (A : Type) (q : cprog A) K c arr, qs !! i = Some (bind q K) ∧ ¬ finished q ∧
    at_lock p a w c arr ∧
    section p a q (λ r c' arr', ∃ h, outside h (K r) ∧ shared (<[i := h]> helds) c' arr') c arr
}.

Definition threads_inv (qs : list (cprog unit)) w : Prop :=
  ∃ helds, unlocked helds qs w ∨ ∃ i, locked helds qs w i.

Lemma concat_at (helds : list (list Z)) i h :
  helds !! i = Some h → concat helds ≡ₚ h ++ concat (delete i helds).
Proof.
  intros Hi. rewrite <-(take_drop_middle helds i h Hi) at 1.
  rewrite delete_take_drop, !concat_app. simpl. by rewrite app_swap, <-app_assoc.
Qed.

Lemma concat_insert (helds : list (list Z)) i h h' :
  helds !! i = Some h → concat (<[i := h']> helds) ≡ₚ h' ++ concat (delete i helds).
Proof.
  intros Hi. rewrite (insert_take_drop _ _ _ (lookup_lt_Some _ _ _ Hi)).
  rewrite delete_take_drop, !concat_app. simpl. by rewrite app_swap, <-app_assoc.
Qed.

(** What thread [i] does in the pool, with the others fixed. *)
Lemma section_get_shared helds i h k c arr :
  helds !! i = Some h → valid h (CGet k) → shared helds c arr → iocb_pool c = a →
  section p a (get_locked p)
    (λ r c' arr', ∃ h', outside h' (client_code p (k r)) ∧ shared (<[i := h']> helds) c' arr')
    (set_iocbLock MLocked c) arr.
Proof.
  intros Hi [Hv0 Hvx] (free & (_ & Hrep & Hu) & Hall) Hp.
  eapply section_mono; [apply (section_get _ _ free); [done|done|by apply (pool_rep_ext c)]|].
  intros r c' arr'. pose proof (concat_at _ _ _ Hi) as Hc. destruct free as [|x free].
  - intros [-> Hr]. exists h. split; [by exists (k NULL)|]. rewrite list_insert_id by done.
    exists []. simpl in Hr. by rewrite Hu in Hr.
  - intros [-> Hr]. exists (x :: h). split.
    + exists (k x). split; [done|]. apply Hvx. intros ->. apply Hnull. rewrite <-Hall. apply list_elem_of_here.
    + pose proof (concat_insert _ _ _ (x :: h) Hi) as Hc'. exists free. simpl in Hr. split.
      * rewrite Hu, (Permutation_length Hc) in Hr. rewrite (Permutation_length Hc').
        cbn [app length]. by rewrite Nat2Z.inj_succ.
      * rewrite Hc', <-Hall, Hc. simpl. by rewrite <-Permutation_middle.
Qed.

Lemma section_put_shared helds i h x k c arr :
  helds !! i = Some h → valid h (CPut x k) → shared helds c arr → iocb_pool c = a →
  section p a (put_locked p x)
    (λ _ c' arr', ∃ h', outside h' (client_code p k) ∧ shared (<[i := h']> helds) c' arr')
    (set_iocbLock MLocked c) arr.
Proof.
  intros Hi [Hx Hv] (free & (_ & Hrep & Hu) & Hall) Hp. pose proof (concat_at _ _ _ Hi) as Hc.
  pose proof (Permutation_length (remove1_perm x h Hx)) as Hlen. simpl in Hlen.
  pose proof (Permutation_length Hc) as Hl. rewrite length_app in Hl.
  eapply section_mono; [apply (section_put _ _ free); [done|done|by apply (pool_rep_ext c)|simpl; lia]|].
  intros [] c' arr' Hr. exists (remove1 x h). split; [by exists k|].
  pose proof (concat_insert _ _ _ (remove1 x h) Hi) as Hc'. exists (free ++ [x]). simpl in Hr. split.
  - rewrite (Permutation_length Hc'), length_app.
    replace (Z.of_nat _) with (used c - 1); [done|lia].
  - rewrite Hc', <-Hall, Hc, <-app_assoc. f_equiv. simpl. rewrite app_comm_cons. by rewrite remove1_perm.
Qed.

(** The next action of a thread outside the pool: it stays outside, or it takes
    the lock. *)
Lemma outside_step h q w c arr q' w' :
  outside h q → at_lock p a w c arr → advance q w = Some (q', w') →
  (outside h q' ∧ at_lock p a w' c arr) ∨
  (iocbLock c = MFree ∧ at_lock p a w' (set_iocbLock MLocked c) arr ∧
   ∃ (A : Type) (q0 : cprog A) K, q' = bind q0 K ∧ ¬ finished q0 ∧
     ∀ helds i, helds !! i = Some h → shared helds c arr →
       section p a q0 (λ r c' arr', ∃ h', outside h' (K r) ∧ shared (<[i := h']> helds) c' arr')
         (set_iocbLock MLocked c) arr).
Proof.
  intros [k [-> Hv]] Hat Hadv. pose proof Hat as (Hc & Ha & Hp).
  assert (∀ w1, w1 = put p (set_iocbLock MLocked c) w → at_lock p a w1 (set_iocbLock MLocked c) arr) as Hlock.
  { intros w1 ->. split_and!; [apply has_put_eq|by apply has_put_ne|done]. }
  destruct k as [|k|x k|B f k]; cbn [client_code] in Hadv.
  - done.
  - unfold getIOCB in Hadv. rewrite advance_lock, (focus_iocbLock _ _ _ Hc) in Hadv.
    destruct (iocbLock c) eqn:Hl; try done. injection Hadv as <- <-. right.
    split_and!; [done|by apply Hlock|]. do 3 eexists. split_and!; [done|by intros []|].
    intros helds i Hi Hsh. by eapply section_get_shared.
  - unfold putIOCB in Hadv. rewrite (advance_lock (put_locked p x)), (focus_iocbLock _ _ _ Hc) in Hadv.
    destruct (iocbLock c) eqn:Hl; try done. injection Hadv as <- <-. right.
    split_and!; [done|by apply Hlock|]. do 3 eexists. split_and!; [done|by intros []|].
    intros helds i Hi Hsh. by eapply section_put_shared.
  - simpl in Hadv. destruct (f w) as [b w1| | |] eqn:Hf; try done. injection Hadv as <- <-.
    destruct Hv as [He Hv]. left. split; [by exists (k b)|]. by eapply at_lock_elsewhere.
Qed.

Lemma outside_not_faulty h q w c arr :
  outside h q → at_lock p a w c arr → iocbLock c = MFree ∨ iocbLock c = MLocked → ¬ faulty q w.
Proof.
  intros [k [-> Hv]] Hat Hl. destruct k as [|k|x k|B f k]; cbn [client_code].
  - by intros [].
  - by eapply faulty_lock.
  - by eapply (faulty_lock (put_locked p x)).
  - destruct Hv as [He _]. destruct (He w) as (b & w' & Hf & _). simpl. by rewrite Hf.
Qed.

Lemma outside_progress h q w c arr :
  outside h q → at_lock p a w c arr → iocbLock c = MFree → ¬ finished q →
  ∃ q' w', advance q w = Some (q', w').
Proof.
  intros [k [-> Hv]] (Hc & _ & _) Hl Hfin. destruct k as [|k|x k|B f k]; cbn [client_code].
  - by destruct Hfin.
  - unfold getIOCB. rewrite advance_lock, (focus_iocbLock _ _ _ Hc), Hl. eauto.
  - unfold putIOCB. rewrite (advance_lock (put_locked p x)), (focus_iocbLock _ _ _ Hc), Hl. eauto.
  - destruct Hv as [He _]. destruct (He w) as (b & w' & Hf & _). simpl. rewrite Hf. eauto.
Qed.

Lemma unlocked_step helds qs w i q q' w' :
  unlocked helds qs w → qs !! i = Some q → advance q w = Some (q', w') →
  threads_inv (<[i := q']> qs) w'.
Proof.
  intros [Hall2 (c & arr & Hat & Hsh)] Hq Hadv.
  destruct (Forall2_lookup_r _ _ _ _ _ Hall2 Hq) as (h & Hh & Ho).
  destruct (outside_step _ _ _ _ _ _ _ Ho Hat Hadv)
    as [[Ho' Hat']|(Hl & Hat' & A & q0 & K & -> & Hfin & Hsec)].
  - exists helds. left. split; [|by eauto]. rewrite <-(list_insert_id helds i h Hh).
    by apply Forall2_insert.
  - exists helds. right. exists i. split.
    + rewrite length_insert. by eapply Forall2_length.
    + intros j h' q1 Hj Hh' Hq1. rewrite list_lookup_insert_ne in Hq1 by done.
      destruct (Forall2_lookup_r _ _ _ _ _ Hall2 Hq1) as (h2 & Hh2 & Ho2). congruence.
    + exists A, q0, K, (set_iocbLock MLocked c), arr.
      rewrite list_lookup_insert_eq by (by eapply lookup_lt_Some). split_and!; [done|done|done|]. by apply Hsec.
Qed.

Lemma locked_step helds qs w i j q q' w' :
  locked helds qs w i → qs !! j = Some q → advance q w = Some (q', w') →
  threads_inv (<[j := q']> qs) w'.
Proof.
  intros [Hlen Hoth (A & q0 & K & c & arr & Hi & Hfin & Hat & Hsec)] Hq Hadv.
  destruct (section_advance p a q0 K _ c arr w Hsec Hfin Hat)
    as (Hl & _ & q1 & w1 & c1 & arr1 & Hadv1 & Hsec1 & Hat1).
  pose proof (lookup_lt_Some _ _ _ Hq) as Hj. destruct (decide (j = i)) as [->|Hji].
  - rewrite Hi in Hq. injection Hq as <-. rewrite Hadv1 in Hadv. injection Hadv as <- <-.
    assert (∀ j h q2, j ≠ i → helds !! j = Some h → <[i := bind q1 K]> qs !! j = Some q2 → outside h q2) as Hoth'.
    { intros j h q2 Hji Hh. rewrite list_lookup_insert_ne by done. by apply Hoth. }
    destruct q1 as [r|C f k| |]; [|exists helds; right; exists i|done|done].
    + destruct Hsec1 as (h' & Ho' & Hsh'). exists (<[i := h']> helds). left. split; [|by eauto].
      apply Forall2_same_length_lookup_2; [by rewrite !length_insert|]. intros j h q2 Hh Hq2.
      destruct (decide (j = i)) as [->|Hji]; [|rewrite list_lookup_insert_ne in Hh by done; by eapply Hoth'].
      rewrite list_lookup_insert_eq in Hh by lia. rewrite list_lookup_insert_eq in Hq2 by done.
      injection Hh as <-. by injection Hq2 as <-.
    + split; [by rewrite length_insert|done|].
      exists A, (Act f k), K, c1, arr1. rewrite list_lookup_insert_eq by done. by split_and!; [|intros []|..].
  - destruct (lookup_lt_is_Some_2 helds j) as [h Hh]; [lia|]. pose proof (Hoth j h q Hji Hh Hq) as Ho.
    destruct (outside_step _ _ _ _ _ _ _ Ho Hat Hadv) as [[Ho' Hat']|(Hl' & _)]; [|congruence].
    exists helds. right. exists i. split; [by rewrite length_insert| |].
    + intros j' h2 q2 Hj' Hh2 Hq2. destruct (decide (j' = j)) as [->|?].
      * rewrite list_lookup_insert_eq in Hq2 by done. injection Hq2 as <-. congruence.
      * rewrite list_lookup_insert_ne in Hq2 by done. by eapply Hoth.
    + exists A, q0, K, c, arr. rewrite list_lookup_insert_ne by done. by split_and!.
Qed.

Lemma reachable_threads_inv cfg cfg' :
  rtc tstep cfg cfg' → threads_inv cfg.1 cfg.2 → threads_inv cfg'.1 cfg'.2.
Proof.
  induction 1 as [|cfg1 cfg2 cfg3 Hstep _ IH]; [done|]. intros Hinv. apply IH. clear IH.
  destruct Hstep as [qs s i q q' s' Hq Hadv]. simpl in *.
  destruct Hinv as [helds [Hu|[j Hl]]]; [by eapply unlocked_step|by eapply locked_step].
Qed.

(** In a state of the invariant no thread is faulty, and one can move unless all
    are finished. *)
Lemma threads_inv_safe qs w :
  threads_inv qs w →
  Forall (λ q, ¬ faulty q w) qs ∧ (Forall finished qs ∨ ∃ cfg, tstep (qs, w) cfg).
Proof.
  intros [helds [[Hall2 (c & arr & Hat & free & (Hl & _) & _)]|[i [Hlen Hoth Hown]]]].
  - split.
    + apply Forall_lookup. intros i q Hq. destruct (Forall2_lookup_r _ _ _ _ _ Hall2 Hq) as (h & Hh & Ho).
      eapply outside_not_faulty; eauto.
    + destruct (decide (Forall finished qs)) as [Hfin|Hfin]; [by left|right].
      apply not_Forall_Exists, Exists_exists in Hfin as (q & Hin & Hfin); [|apply _].
      apply list_elem_of_In, list_elem_of_lookup_1 in Hin as [i Hq]. destruct (Forall2_lookup_r _ _ _ _ _ Hall2 Hq) as (h & Hh & Ho).
      destruct (outside_progress _ _ _ _ _ Ho Hat Hl Hfin) as (q' & w' & Hadv).
      eexists. by eapply tstep_thread.
  - destruct Hown as (A & q0 & K & c & arr & Hi & Hfin & Hat & Hsec).
    destruct (section_advance p a q0 K _ c arr w Hsec Hfin Hat) as (Hl & Hnf & q1 & w1 & c1 & arr1 & Hadv & _).
    split; [|right; eexists; by eapply tstep_thread].
    apply Forall_lookup. intros j q Hq. destruct (decide (j = i)) as [->|Hji]; [congruence|].
    destruct (lookup_lt_is_Some_2 helds j) as [h Hh]; [by rewrite Hlen; eapply lookup_lt_Some|].
    eapply outside_not_faulty; eauto.
Qed.

(** When the lock is free, no thread is in the pool. *)
Lemma threads_inv_unlocked qs w c arr :
  threads_inv qs w → at_lock p a w c arr → iocbLock c = MFree →
  ∃ helds, Forall2 outside helds qs ∧ shared helds c arr.
Proof.
  intros [helds [[Ho (c' & arr' & (Hc' & Ha' & _) & Hsh)]|[i [_ _ (A & q0 & K & c' & arr' & _ & Hfin & Hat & Hsec)]]]]
    (Hc & Ha & _) Hl.
  - exists helds. pose proof (has_inj _ _ _ _ Hc Hc') as ->. by pose proof (has_inj _ _ _ _ Ha Ha') as ->.
  - destruct (section_advance p a q0 K _ c' arr' w Hsec Hfin Hat) as (Hl' & _).
    destruct Hat as (Hc' & _). pose proof (has_inj _ _ _ _ Hc Hc') as ->. congruence.
Qed.
End critical.

Section pool_threads.
Context {E : Env}.

(** C10.  The pool is safe under concurrency.  Any number of threads share it; each
    takes iocbs, gives back iocbs it holds, decides on what it gets, and does
    anything else in between that always runs and does not write the control block
    or the array.  In every state of every interleaving of their atomic actions:
    no thread has undefined behaviour; the threads are not deadlocked; and
    whenever [iocbLock] is free, the pool implements a queue, and every iocb is
    either in that queue or held by exactly one thread, which can only give back
    what it holds. *)
Theorem pool_threads_safe p a w c arr free helds qs qs' w' :
  pool w p c arr free → iocb_pool c = a → NULL ∉ free ++ concat helds → NoDup (free ++ concat helds) →
  used c = Z.of_nat (length (concat helds)) → Forall2 (outside p a) helds qs →
  rtc tstep (qs, w) (qs', w') →
  Forall (λ q, ¬ faulty q w') qs' ∧
  (Forall finished qs' ∨ ∃ cfg, tstep (qs', w') cfg) ∧
  (∀ c' arr', at_lock p a w' c' arr' → iocbLock c' = MFree → ∃ free' helds',
     pool w' p c' arr' free' ∧ Forall2 (outside p a) helds' qs' ∧
     free' ++ concat helds' ≡ₚ free ++ concat helds ∧ NoDup (free' ++ concat helds')).
Proof.
  intros [Hc Ha Hl Hrep] <- Hnull Hnd Hu Hall2 Hsteps. set (a := iocb_pool c) in *.
  assert (p ≠ a) as Hpa by (by eapply (has_ne w _ _ c arr)).
  assert (threads_inv p a (free ++ concat helds) qs w) as Hinv.
  { exists helds. left. split; [done|]. exists c, arr. split; [done|]. by exists free. }
  apply (reachable_threads_inv p a Hpa (free ++ concat helds) Hnull _ _ Hsteps) in Hinv. simpl in Hinv.
  destruct (threads_inv_safe p a (free ++ concat helds) qs' w' Hinv) as [Hnf Hprog]. split_and!; [done|done|].
  intros c' arr' Hat Hl'.
  destruct (threads_inv_unlocked p a (free ++ concat helds) _ _ _ _ Hinv Hat Hl') as (helds' & Ho & free' & (_ & Hrep' & _) & Hperm).
  destruct Hat as (Hc' & Ha' & Hp'). exists free', helds'. split_and!; [|done|done|by rewrite Hperm].
  split; [done|by rewrite Hp'|done|done].
Qed.
End pool_threads.
