(* ===== verification/Trace.v ===== *)
(** * Reading the trace

    What the history says about the resources outside the heap: the iocbs the
    kernel holds, the JNI global references that are alive, the AIO contexts that
    exist, the exceptions thrown.  The classes at the end state what the kernel,
    libaio and the JVM promise, in these terms. *)

From S2P Require Export Ring.

(** [(void * ) -1], the [data] of the write that wakes the poller. *)
Definition MINUS_ONE : Z := 2 ^ 64 - 1.

(** Is this [data] a global reference that was created for the request? *)
Definition is_ref (d : Z) : bool := negb (d =? NULL) && negb (d =? MINUS_ONE).

(** ** Effects of one event *)

(** The global reference an event creates or deletes. *)
Definition ref_created (e : event) : option Z :=
  match e with
  | @Ev T c r =>
      match c in syscall T return T → option Z with
      | NewGlobalRef _ => λ r, if r =? NULL then None else Some r
      | _ => λ _, None
      end r
  end.
Definition ref_deleted (e : event) : option Z :=
  match ev_call e with
  | DeleteGlobalRef ref => Some ref
  | _ => None
  end.

(** Global references that were created and not deleted. *)
Fixpoint live_refs (h : history) : list Z :=
  match h with
  | [] => []
  | e :: h =>
      match ref_created e, ref_deleted e with
      | Some r, _ => r :: live_refs h
      | _, Some r => remove1 r (live_refs h)
      | _, _ => live_refs h
      end
  end.

(** The AIO context an event creates or releases. *)
Definition ctx_created (e : event) : option Z :=
  match e with
  | @Ev T c r =>
      match c in syscall T return T → option Z with
      | IoQueueInit _ => λ r, if r.1 =? 0 then r.2 else None
      | _ => λ _, None
      end r
  end.
Definition ctx_released (e : event) : option Z :=
  match ev_call e with
  | IoQueueRelease ctx => Some ctx
  | _ => None
  end.

Fixpoint live_ctxs (h : history) : list Z :=
  match h with
  | [] => []
  | e :: h =>
      match ctx_created e, ctx_released e with
      | Some r, _ => r :: live_ctxs h
      | _, Some r => remove1 r (live_ctxs h)
      | _, _ => live_ctxs h
      end
  end.

(** The descriptor an event opens or closes.  Linux releases the descriptor in
    close(2) even when it reports an error. *)
Definition fd_opened (e : event) : option Z :=
  match e with
  | @Ev T c r =>
      match c in syscall T return T → option Z with
      | Open _ _ _ => λ r, if r <? 0 then None else Some r
      | Mkstemp _ => λ r, if r.1 <? 0 then None else Some r.1
      | _ => λ _, None
      end r
  end.
Definition fd_closed (e : event) : option Z :=
  match ev_call e with
  | Close fd => Some fd
  | _ => None
  end.

(** The descriptors that were opened and not closed, latest first. *)
Fixpoint open_fds (h : history) : list Z :=
  match h with
  | [] => []
  | e :: h =>
      match fd_opened e, fd_closed e with
      | Some fd, _ => fd :: open_fds h
      | _, Some fd => remove1 fd (open_fds h)
      | _, _ => open_fds h
      end
  end.

(** The Java strings whose characters are held: taken by [GetStringUTFChars] and
    not released. *)
Definition chars_taken (e : event) : option Z :=
  match e with
  | @Ev T c r =>
      match c in syscall T return T → option Z with
      | GetStringUTFChars jstr => λ r, match r with Some _ => Some jstr | None => None end
      | _ => λ _, None
      end r
  end.
Definition chars_released (e : event) : option Z :=
  match ev_call e with
  | ReleaseStringUTFChars jstr (Some _) => Some jstr
  | _ => None
  end.
Fixpoint held_chars (h : history) : list Z :=
  match h with
  | [] => []
  | e :: h =>
      match chars_taken e, chars_released e with
      | Some j, _ => j :: held_chars h
      | _, Some j => remove1 j (held_chars h)
      | _, _ => held_chars h
      end
  end.

(** The exception an event throws. *)
Definition thrown (e : event) : option (Z * option string) :=
  match ev_call e with
  | ThrowNew cls msg => Some (cls, msg)
  | _ => None
  end.
Definition exceptions (h : history) : list (Z * option string) := omap thrown h.

(** ** What Java and the files see

    The calls into Java - [onError(errno, message)] and [done(callback)], told
    apart by their arguments -, the callbacks stored in Java arrays, the references
    deleted, the exceptions and the file syncs, in their order. *)
Inductive effect : Set :=
  | EError (obj method errno : Z)
  | EDone (obj method callback : Z)
  | ESlot (array i obj : Z)
  | EDrop (ref : Z)
  | EThrow (cls : Z) (msg : option string)
  | ESync (fd : Z).

Definition effect_of (e : event) : option effect :=
  match ev_call e with
  | CallVoidMethod obj m [errno; _] => Some (EError obj m errno)
  | CallVoidMethod obj m [x] => Some (EDone obj m x)
  | SetObjectArrayElement arr i obj => Some (ESlot arr i obj)
  | DeleteGlobalRef ref => Some (EDrop ref)
  | ThrowNew cls msg => Some (EThrow cls msg)
  | Fdatasync fd => Some (ESync fd)
  | _ => None
  end.

(** Latest first, as the history. *)
Definition effects (h : history) : list effect := omap effect_of h.

Lemma effects_cons e h :
  effects (e :: h) = match effect_of e with Some x => x :: effects h | None => effects h end.
Proof. done. Qed.

(** ** The iocbs the kernel holds *)

(** The latest contents of the ring of [ctx] that the program saw. *)
Fixpoint last_ring (ctx : Z) (h : history) : option aio_ring :=
  match h with
  | [] => None
  | e :: h =>
      match e with
      | @Ev T c r =>
          match c in syscall T return T → option aio_ring with
          | RingRead ctx' => λ r, if ctx' =? ctx then r else last_ring ctx h
          | _ => λ _, last_ring ctx h
          end r
      end
  end.

(** The iocb an event hands to the kernel. *)
Definition submitted (ctx : Z) (e : event) : list Z :=
  match e with
  | @Ev T c r =>
      match c in syscall T return T → list Z with
      | IoSubmit ctx' p _ => λ r, if (ctx' =? ctx) && (0 <=? r) then [p] else []
      | _ => λ _, []
      end r
  end.

(** The completions an event, after history [h], reports to the program: those
    that [io_getevents] returns, or that a new [head] of the ring skips. *)
Definition reported (ctx : Z) (h : history) (e : event) : list io_event :=
  match e with
  | @Ev T c r =>
      match c in syscall T return T → list io_event with
      | IoGetevents ctx' _ _ _ => λ r,
          match r with
          | GeEvents l => if ctx' =? ctx then l else []
          | _ => []
          end
      | RingStoreHead ctx' head => λ _,
          match (if ctx' =? ctx then last_ring ctx h else None) with
          | Some r => window (ring_io_events r) (Z.to_nat (ring_head r))
                        (Z.to_nat ((head - ring_head r) `mod` ring_nr r))
          | None => []
          end
      | _ => λ _, []
      end r
  end.

(** The iocbs it takes back. *)
Definition completed (ctx : Z) (h : history) (e : event) : list Z := ev_obj <$> reported ctx h e.

Fixpoint owned (ctx : Z) (h : history) : list Z :=
  match h with
  | [] => []
  | e :: h => submitted ctx e ++ remove_all (completed ctx h e) (owned ctx h)
  end.

(** The reports of the kernel: the batches of completions it has handed out, the
    latest batch first, each in its order. *)
Definition batch {A} (l : list A) : list (list A) := match l with [] => [] | _ => [l] end.
Fixpoint reports (ctx : Z) (h : history) : list (list io_event) :=
  match h with
  | [] => []
  | e :: h => batch (reported ctx h e) ++ reports ctx h
  end.

(** The latest call is one of [io_getevents] that has failed with the errno [- r]. *)
Definition kernel_error (ctx r : Z) (h : history) : Prop :=
  -4096 < r < 0 ∧ ∃ min_nr max timeout h',
    h = Ev (IoGetevents ctx min_nr max timeout) (GeError r) :: h'.

(** ** What the environment promises *)

(** The result of a completed request is a byte count that fits an [int], or a
    negative errno. *)
Definition event_ok (e : io_event) : Prop := -4096 < i32 (ev_res e).

(** io_getevents(2) and the ring: an event is the completion of an iocb that was
    submitted to this context and not reported before; at most [max] events are
    returned; an error is a negative errno; the ring of a live context is mapped.
    A call waits until [min_nr] requests have completed, and every request in
    flight completes: it waits for ever only without timeout and when fewer than
    [min_nr] are in flight. *)
Class KernelEvents (E : Env) : Prop := {
  ke_events h ctx min_nr max timeout l :
    answer h (IoGetevents ctx min_nr max timeout) = GeEvents l →
    Z.of_nat (length l) ≤ Z.max 0 max ∧ (ev_obj <$> l) ⊆+ owned ctx h ∧ Forall event_ok l;
  ke_error h ctx min_nr max timeout e :
    answer h (IoGetevents ctx min_nr max timeout) = GeError e → -4096 < e < 0;
  ke_wait h ctx min_nr max timeout :
    answer h (IoGetevents ctx min_nr max timeout) = GeWait →
    timeout = None ∧ Z.of_nat (length (owned ctx h)) < min_nr;
  ke_ring h ctx r :
    answer h (RingRead ctx) = Some r →
    (ev_obj <$> ring_pending r) ⊆+ owned ctx h ∧ Forall event_ok (ring_pending r);
  ke_mapped h ctx : ctx ∈ live_ctxs h → is_Some (answer h (RingRead ctx))
}.

(** Calls of [io_getevents] that a signal interrupted. *)
Definition interrupted (e : event) : bool :=
  match e with
  | @Ev T c r =>
      match c in syscall T return T → bool with
      | IoGetevents _ _ _ _ => λ r, match r with GeError e => e =? -4 | _ => false end
      | _ => λ _, false
      end r
  end.
Fixpoint interrupts (h : history) : nat :=
  match h with
  | [] => 0
  | e :: h => (if interrupted e then 1 else 0) + interrupts h
  end%nat.

(** io_getevents(2) without timeout: it waits for [min_nr] events, when as many
    requests are in flight (none twice); and at most [bound] calls are interrupted. *)
Class KernelProgress (E : Env) (bound : nat) : Prop := {
  kp_wait h ctx min_nr max l :
    answer h (IoGetevents ctx min_nr max None) = GeEvents l →
    NoDup (owned ctx h) → min_nr ≤ Z.of_nat (length (owned ctx h)) → min_nr ≤ max →
    min_nr ≤ Z.of_nat (length l);
  kp_interrupts h ctx min_nr max timeout :
    answer h (IoGetevents ctx min_nr max timeout) = GeError (-4) → (interrupts h < bound)%nat
}.

(** io_queue_init(3), on top of io_setup(2): a new context with nothing in flight, or
    a negative errno.  A non-positive size is refused before anything is stored;
    otherwise the context is null after a failure. *)
Class KernelQueue (E : Env) : Prop := {
  kq_new h n :
    (answer h (IoQueueInit n)).1 = 0 →
    ∃ ctx, (answer h (IoQueueInit n)).2 = Some ctx ∧ ctx ≠ NULL ∧ owned ctx h = [];
  kq_refused h n : n ≤ 0 → (answer h (IoQueueInit n)).1 ≠ 0;
  kq_error h n : -4096 < (answer h (IoQueueInit n)).1 ≤ 0;
  kq_null h n :
    (answer h (IoQueueInit n)).1 ≠ 0 →
    (answer h (IoQueueInit n)).2 = if n <=? 0 then None else Some NULL
}.

(** Error numbers of the C library. *)
Class PosixErrors (E : Env) : Prop := {
  pe_mutex h : 0 ≤ answer h PthreadMutexInit < 4096;
  pe_memalign h a n : 0 ≤ answer h (PosixMemalign a n) < 4096;
  pe_errno h : 0 ≤ answer h Errno < 4096
}.

(** io_submit(2) with one iocb: 1, or a negative errno. *)
Class KernelSubmit (E : Env) : Prop := {
  ks_result h ctx p cb :
    answer h (IoSubmit ctx p cb) = 1 ∨ -4096 < answer h (IoSubmit ctx p cb) < 0
}.

(** The JNI specification of global references: null for null, and a live
    reference is never handed out twice. *)
Class JniRefs (E : Env) : Prop := {
  jr_null h : answer h (NewGlobalRef NULL) = NULL;
  jr_fresh h obj : obj ≠ NULL → answer h (NewGlobalRef obj) ∉ live_refs h;
  jr_pointer h obj : answer h (NewGlobalRef obj) ≠ MINUS_ONE
}.

(** The address of the direct buffer [r], as made last. *)
Definition buffer_made (r : Z) (e : event) : option Z :=
  match e with
  | @Ev T c a =>
      match c in syscall T return T → option Z with
      | NewDirectByteBuffer addr _ => λ a, if a =? r then Some addr else None
      | _ => λ _, None
      end a
  end.
Fixpoint buffer_of (r : Z) (h : history) : option Z :=
  match h with
  | [] => None
  | e :: h => match buffer_made r e with Some a => Some a | None => buffer_of r h end
  end.

(** The JNI specification of direct buffers, on a JVM that supports them and has
    memory for them. *)
Class JniBuffers (E : Env) : Prop := {
  jb_new h addr n : answer h (NewDirectByteBuffer addr n) ≠ NULL;
  jb_address h r addr : buffer_of r h = Some addr → answer h (GetDirectBufferAddress r) = addr
}.

(** io_prep_pwrite(3) and io_prep_pread(3) fill the request. *)
Class IoPrep (E : Env) : Prop := {
  ip_pwrite x fd buf count offset :
    io_prep_pwrite_env x fd buf count offset =
    Iocb (data (io_prep_pwrite_env x fd buf count offset)) fd 1 buf count offset;
  ip_pread x fd buf count offset :
    io_prep_pread_env x fd buf count offset =
    Iocb (data (io_prep_pread_env x fd buf count offset)) fd 0 buf count offset
}.

(** ** Lemmas *)

Lemma live_refs_null h : NULL ∉ live_refs h.
Proof.
  induction h as [|e h IH]; simpl; [apply not_elem_of_nil|].
  destruct (ref_created e) as [r|] eqn:Hc.
  - apply not_elem_of_cons. split; [|done]. intros <-. destruct e as [T c a].
    destruct c; simpl in Hc; try done. destruct (Z.eqb_spec a NULL); congruence.
  - destruct (ref_deleted e) as [r|]; [|done].
    destruct (decide (r ∈ live_refs h)) as [Hin|Hin]; [|by rewrite remove1_notin].
    intros Hn. apply IH. rewrite <-(remove1_perm r (live_refs h) Hin). by apply list_elem_of_further.
Qed.

Lemma owned_quiet ctx e h :
  submitted ctx e = [] → completed ctx h e = [] → owned ctx (e :: h) = owned ctx h.
Proof. intros Hs Hc. simpl. by rewrite Hs, Hc. Qed.

Lemma owned_submit ctx p cb r h :
  owned ctx (Ev (IoSubmit ctx p cb) r :: h) = (if 0 <=? r then [p] else []) ++ owned ctx h.
Proof. simpl. rewrite Z.eqb_refl. done. Qed.

Lemma owned_getevents ctx min_nr max timeout l h :
  (ev_obj <$> l) ⊆+ owned ctx h →
  owned ctx h ≡ₚ (ev_obj <$> l) ++ owned ctx (Ev (IoGetevents ctx min_nr max timeout) (GeEvents l) :: h).
Proof.
  intros Hl. cbn [owned submitted app]. unfold completed. cbn [reported]. rewrite Z.eqb_refl.
  by apply submseteq_remove_all.
Qed.

Lemma owned_ring_reads `{Env} ctx n h : owned ctx (ring_reads ctx n h) = owned ctx h.
Proof. revert h. induction n as [|n IH]; intros h; simpl; [done|]. by rewrite IH. Qed.

Lemma reports_ring_reads `{Env} ctx n h : reports ctx (ring_reads ctx n h) = reports ctx h.
Proof. revert h. induction n as [|n IH]; intros h; simpl; [done|]. by rewrite IH. Qed.

Lemma live_refs_ring_reads `{Env} ctx n h : live_refs (ring_reads ctx n h) = live_refs h.
Proof. revert h. induction n as [|n IH]; intros h; simpl; [done|]. by rewrite IH. Qed.

Lemma reported_store_head ctx r (k : nat) h u :
  ring_valid r → last_ring ctx h = Some r → (k ≤ length (ring_pending r))%nat →
  reported ctx h (Ev (RingStoreHead ctx ((ring_head r + Z.of_nat k) `mod` ring_nr r)) u) =
  take k (ring_pending r).
Proof.
  intros Hv Hlast Hk. cbn [reported]. rewrite Z.eqb_refl, Hlast.
  pose proof (ring_count_bounds r Hv) as Hc. pose proof (length_ring_pending r Hv) as Hl.
  rewrite Zminus_mod_idemp_l.
  replace (ring_head r + Z.of_nat k - ring_head r) with (Z.of_nat k) by lia.
  rewrite Z.mod_small, Nat2Z.id by lia.
  unfold ring_pending. rewrite window_take; [done|]. lia.
Qed.

Lemma completed_store_head ctx r (k : nat) h u :
  ring_valid r → last_ring ctx h = Some r → (k ≤ length (ring_pending r))%nat →
  completed ctx h (Ev (RingStoreHead ctx ((ring_head r + Z.of_nat k) `mod` ring_nr r)) u) =
  ev_obj <$> take k (ring_pending r).
Proof. intros. unfold completed. by rewrite reported_store_head. Qed.

(** Storing the [head] after [k] of the events pending at the last read. *)
Lemma owned_store_head `{Env} ctx r (k : nat) h :
  ring_valid r → last_ring ctx h = Some r → (k ≤ length (ring_pending r))%nat →
  (ev_obj <$> ring_pending r) ⊆+ owned ctx h →
  owned ctx h ≡ₚ (ev_obj <$> take k (ring_pending r)) ++
    owned ctx (Ev (RingStoreHead ctx ((ring_head r + Z.of_nat k) `mod` ring_nr r)) tt :: h).
Proof.
  intros Hv Hlast Hk Hsub. cbn [owned submitted].
  rewrite (completed_store_head ctx r k) by done. apply submseteq_remove_all.
  etrans; [|exact Hsub]. rewrite fmap_take. apply sublist_submseteq, sublist_take.
Qed.

Lemma interrupts_ring_reads `{Env} ctx n h : interrupts (ring_reads ctx n h) = interrupts h.
Proof.
  revert h. induction n as [|n IH]; intros h; simpl; [done|]. by rewrite IH.
Qed.

(** The events of [ringio_get_events]. *)
Definition reap_event (e : event) : Prop :=
  match ev_call e with
  | RingRead _ | RingStoreHead _ _ | IoGetevents _ _ _ _ => True
  | _ => False
  end.

Lemma ring_reads_app `{Env} ctx n h :
  ∃ es, ring_reads ctx n h = es ++ h ∧ Forall reap_event es.
Proof.
  revert h. induction n as [|n IH]; intros h; simpl; [by exists []|].
  destruct (IH (Ev (RingRead ctx) (answer h (RingRead ctx)) :: h)) as (es & -> & Hes).
  eexists (es ++ [_]). rewrite <-app_assoc. split; [done|]. apply Forall_app. split; [done|]. by constructor.
Qed.

Lemma last_ring_reads `{Env} ctx n h r :
  ring_now ctx (ring_reads ctx n h) = Some r → last_ring ctx (ring_reads ctx (S n) h) = Some r.
Proof. intros Hr. rewrite ring_reads_S. simpl. by rewrite Z.eqb_refl. Qed.

Lemma live_refs_reap es h : Forall reap_event es → live_refs (es ++ h) = live_refs h.
Proof. induction 1 as [|[T c r] es He _ IH]; [done|]. by destruct c. Qed.
Lemma live_ctxs_reap es h : Forall reap_event es → live_ctxs (es ++ h) = live_ctxs h.
Proof. induction 1 as [|[T c r] es He _ IH]; [done|]. by destruct c. Qed.

(** An observation of the trace that says nothing of the events of a reap. *)
Lemma omap_reap {A} (f : event → option A) es h :
  (∀ e, reap_event e → f e = None) → Forall reap_event es → omap f (es ++ h) = omap f h.
Proof.
  intros Hf. induction 1 as [|e es He _ IH]; [done|]. simpl. by rewrite Hf.
Qed.

Lemma effects_reap es h : Forall reap_event es → effects (es ++ h) = effects h.
Proof. apply omap_reap. intros [T c r] He. by destruct c. Qed.

(** [h'] extends [h] with events that touch none of the resources above. *)
Record silent (h h' : history) : Prop := Silent {
  sl_refs : live_refs h' = live_refs h;
  sl_ctxs : live_ctxs h' = live_ctxs h;
  sl_effects : effects h' = effects h;
  sl_owned ctx : owned ctx h' = owned ctx h
}.

#[export] Instance silent_preorder : PreOrder silent.
Proof.
  split; [by split|]. intros h1 h2 h3 [] []. split; congruence.
Qed.
