(* ===== verification/Sim.v ===== *)
(** * A simulated environment

    A concrete kernel and JVM, executable, on which the witnesses evaluate the
    theorems.  Every submitted request completes at once: the queue of completed
    requests is read off the history, and shows both in the answers of
    [io_getevents] and in a ring of eight slots mapped at every address.  The
    instances at the end say that it keeps the promises of [Ring] and [Trace]. *)

From S2P Require Export Trace.

(** What a witness chooses: the result of [io_submit], the result of the request
    at an address, one address for all direct buffers or none (they have the
    address they were made with), and the failing calls. *)
Record sim := SimK {
  s_submit : Z;
  s_res : Z → Z;
  s_addr : option Z;
  s_malloc : history → bool;
  s_mutex : history → Z;
  s_queue : Z;
  s_stat : option stat;
  s_fd : Z;
  s_write : history → Z → Z
}.

Class SimOk (s : sim) : Prop := {
  so_submit : s_submit s = 1 ∨ -4096 < s_submit s < 0;
  so_res p : -4096 < i32 (s_res s p);
  so_mutex h : 0 ≤ s_mutex s h < 4096;
  so_queue : -4096 < s_queue s ≤ 0
}.

Section sim.
Context (s : sim).

(** The completed requests that wait to be reported, oldest first. *)
Definition sim_queue (ctx : Z) (h : history) : list Z :=
  if decide (NoDup (owned ctx h)) then rev (owned ctx h) else [].
Definition sim_events (ctx : Z) (h : history) : list io_event :=
  (λ p, IoEvent 0 p (s_res s p) 0) <$> sim_queue ctx h.

Definition no_event : io_event := IoEvent 0 0 0 0.

Definition stored_head (ctx : Z) (e : event) : option Z :=
  match ev_call e with
  | RingStoreHead ctx' head => if ctx' =? ctx then Some (head `mod` 8) else None
  | _ => None
  end.
Fixpoint sim_head (ctx : Z) (h : history) : Z :=
  match h with
  | [] => 0
  | e :: h => match stored_head ctx e with Some v => v | None => sim_head ctx h end
  end.

(** Eight slots that hold [l] from slot [k] on. *)
Definition sim_slots (k : nat) (l : list io_event) : list io_event :=
  let l := take 8 (l ++ replicate 8 no_event) in drop (8 - k) l ++ take (8 - k) l.

Definition sim_ring (ctx : Z) (h : history) : aio_ring :=
  let l := take 7 (sim_events ctx h) in
  let head := sim_head ctx h in
  AioRing 0 8 head ((head + Z.of_nat (length l)) `mod` 8) AIO_RING_MAGIC 1
    AIO_RING_INCOMPAT_FEATURES 32 (sim_slots (Z.to_nat head) l).

(** A context above those that have had a request. *)
Definition submitted_to (e : event) : Z :=
  match ev_call e with
  | IoSubmit ctx _ _ => ctx
  | _ => 0
  end.
Definition sim_ctx (h : history) : Z := foldr Z.max 5000 (submitted_to <$> (h : list event)) + 1.

(** An even number above the live references. *)
Definition sim_ref (h : history) : Z := 2 * foldr Z.max 1000 (live_refs h) + 2.

(** A call without timeout waits when fewer than [min_nr] requests are in flight. *)
Definition sim_getevents (ctx min_nr max : Z) (timeout : option (Z * Z)) (h : history) : ge_result :=
  if bool_decide (timeout = None) && (Z.of_nat (length (owned ctx h)) <? min_nr) then GeWait
  else GeEvents (take (Z.to_nat max) (sim_events ctx h)).

Definition sim_answer (h : history) (T : Set) (c : syscall T) : T :=
  match c in syscall T return T with
  | MallocFails _ => s_malloc s h
  | PosixMemalign _ _ => if s_malloc s h then 12 else 0
  | AsprintfFails => false
  | PthreadMutexInit => s_mutex s h
  | Fprintf _ _ => tt
  | FflushStdout => tt
  | Open _ _ _ => s_fd s
  | Close _ => 0
  | Flock _ _ => 0
  | Fstat _ => s_stat s
  | Stat _ => s_stat s
  | Fallocate _ _ _ _ => 0
  | Fsync _ => 0
  | Fdatasync _ => 0
  | Lseek _ _ _ => 0
  | Write _ _ count => s_write s h count
  | Mkstemp t => (s_fd s, t)
  | Unlink _ => 0
  | Errno => 5
  | IoQueueInit n =>
      if n <=? 0 then (-22, None)
      else if s_queue s =? 0 then (0, Some (sim_ctx h)) else (s_queue s, Some NULL)
  | IoQueueRelease _ => 0
  | IoSubmit _ _ _ => s_submit s
  | IoGetevents ctx min_nr max timeout => sim_getevents ctx min_nr max timeout h
  | RingRead ctx => Some (sim_ring ctx h)
  | RingStoreHead _ _ => tt
  | GetEnv _ => 0
  | FindClass _ => 200
  | GetMethodID _ _ _ => 300
  | NewGlobalRef obj => if obj =? NULL then NULL else sim_ref h
  | DeleteGlobalRef _ => tt
  | ThrowNew _ _ => tt
  | GetDirectBufferAddress b =>
      match s_addr s with
      | Some addr => if b =? NULL then NULL else addr
      | None => default NULL (buffer_of b h)
      end
  | NewDirectByteBuffer addr _ => if addr =? NULL then 1 else addr
  | GetStringUTFChars _ => Some "/tmp/file"
  | ReleaseStringUTFChars _ _ => tt
  | NewStringUTF _ => 400
  | CallVoidMethod _ _ _ => tt
  | SetObjectArrayElement _ _ _ => tt
  end.

#[export] Instance sim_env : Env := {
  answer := sim_answer;
  strerror _ := "error";
  io_prep_pwrite_env x fd buf count offset := Iocb (data x) fd 1 buf count offset;
  io_prep_pread_env x fd buf count offset := Iocb (data x) fd 0 buf count offset;
  indet_control := IoControl 0 0 0 MUninit MUninit 0 0 0 0 0;
  indet_iocb := Iocb 0 0 0 0 0 0;
  indet_ptr := 0;
  indet_event := no_event;
  indet_byte := 7
}.

(** ** It keeps the promises *)

Lemma sim_head_bounds ctx h : 0 ≤ sim_head ctx h < 8.
Proof.
  induction h as [|e h IH]; simpl; [lia|].
  destruct (stored_head ctx e) as [v|] eqn:He; [|done].
  unfold stored_head in He. destruct (ev_call e); try done.
  destruct (_ =? _); [|done]. injection He as <-. apply Z.mod_pos_bound. lia.
Qed.

Lemma sim_slots_window k l :
  (k < 8)%nat → (length l ≤ 7)%nat →
  length (sim_slots k l) = 8%nat ∧ window (sim_slots k l) k (length l) = l.
Proof.
  intros Hk Hl. unfold sim_slots. set (l8 := take 8 (l ++ replicate 8 no_event)).
  assert (length l8 = 8%nat) as Hl8.
  { unfold l8. rewrite length_take, length_app, length_replicate. lia. }
  assert (length (drop (8 - k) l8 ++ take (8 - k) l8) = 8%nat) as Hlen.
  { rewrite length_app, length_drop, length_take. lia. }
  split; [done|]. rewrite <-(window_take _ k (length l) 8) by lia.
  replace (window _ k 8) with (window (drop (8 - k) l8 ++ take (8 - k) l8) k
    (length (drop (8 - k) l8 ++ take (8 - k) l8))) by (by rewrite Hlen).
  rewrite window_rotate by lia.
  assert (length (drop (8 - k) l8) = k) as Hk' by (rewrite length_drop; lia).
  rewrite (drop_app_length' _ _ k), (take_app_length' _ _ k) by done.
  rewrite take_drop. unfold l8. rewrite take_take, Nat.min_l by lia. by rewrite take_app_length.
Qed.

Lemma sim_ring_pending ctx h : ring_pending (sim_ring ctx h) = take 7 (sim_events ctx h).
Proof.
  unfold ring_pending, ring_count. simpl.
  pose proof (sim_head_bounds ctx h). set (l := take 7 _).
  assert (length l ≤ 7)%nat by (unfold l; rewrite length_take; lia).
  rewrite Zminus_mod_idemp_l.
  replace (sim_head ctx h + Z.of_nat (length l) - sim_head ctx h) with (Z.of_nat (length l)) by lia.
  rewrite Z.mod_small, Nat2Z.id by lia. apply (sim_slots_window _ l); lia.
Qed.

Lemma sim_ring_valid ctx h : ring_valid (sim_ring ctx h).
Proof.
  pose proof (sim_head_bounds ctx h). split; simpl; [lia|lia|apply Z.mod_pos_bound; lia|].
  rewrite (proj1 (sim_slots_window (Z.to_nat (sim_head ctx h)) (take 7 (sim_events ctx h))
    ltac:(lia) ltac:(rewrite length_take; lia))). done.
Qed.

Lemma sim_queue_sub ctx h : sim_queue ctx h ⊆+ owned ctx h.
Proof.
  unfold sim_queue. case_decide; [|apply submseteq_nil_l].
  apply Permutation_submseteq. symmetry. apply Permutation_rev.
Qed.

Lemma sim_events_obj ctx h n : ev_obj <$> take n (sim_events ctx h) = take n (sim_queue ctx h).
Proof.
  rewrite fmap_take. unfold sim_events. rewrite <-list_fmap_compose.
  f_equal. rewrite <-(list_fmap_id (sim_queue ctx h)) at 2. by apply list_fmap_ext.
Qed.

Lemma sim_events_sub ctx h n : (ev_obj <$> take n (sim_events ctx h)) ⊆+ owned ctx h.
Proof.
  rewrite sim_events_obj. etrans; [|apply sim_queue_sub].
  apply sublist_submseteq, sublist_take.
Qed.

Lemma remove_all_rev (a l1 l2 : list Z) :
  (∀ x, x ∈ a → x ∉ l1) → remove_all a (l1 ++ rev a ++ l2) = l1 ++ l2.
Proof.
  revert l2. induction a as [|x a IH]; intros l2 Ha; [done|].
  simpl. rewrite <-!app_assoc. simpl. rewrite IH by set_solver.
  assert (x ∉ l1) as Hx by set_solver. clear Ha IH.
  induction l1 as [|y l1 IH]; simpl; [by rewrite decide_True|].
  rewrite decide_False by set_solver. f_equal. apply IH. set_solver.
Qed.

Lemma remove_all_take_rev (l : list Z) k :
  NoDup l → remove_all (take k (rev l)) l = rev (drop k (rev l)).
Proof.
  intros Hl. set (m := rev l). assert (l = rev (drop k m) ++ rev (take k m) ++ []) as Hm.
  { rewrite app_nil_r, <-rev_app_distr, take_drop. unfold m. by rewrite rev_involutive. }
  rewrite Hm at 1. rewrite remove_all_rev; [by rewrite app_nil_r|].
  intros x Hx Hx'. rewrite <-Permutation_rev in Hx'.
  assert (NoDup (take k m ++ drop k m)) as Hnd.
  { rewrite take_drop. unfold m. by rewrite <-Permutation_rev. }
  apply list.NoDup_app in Hnd as (_ & Hd & _). by apply (Hd x).
Qed.

Lemma sim_queue_store ctx h k :
  (k ≤ length (ring_pending (sim_ring ctx h)))%nat →
  sim_queue ctx (Ev (RingStoreHead ctx ((sim_head ctx h + Z.of_nat k) `mod` 8)) tt
                   :: Ev (RingRead ctx) (Some (sim_ring ctx h)) :: h) =
  drop k (sim_queue ctx h).
Proof.
  intros Hk. unfold sim_queue. set (h' := Ev (RingRead ctx) _ :: h).
  assert (owned ctx h' = owned ctx h) as Ho by by apply owned_quiet.
  cbn [owned submitted]. rewrite Ho.
  assert (completed ctx h' (Ev (RingStoreHead ctx ((sim_head ctx h + Z.of_nat k) `mod` 8)) tt)
          = ev_obj <$> take k (ring_pending (sim_ring ctx h))) as ->.
  { apply (completed_store_head ctx (sim_ring ctx h) k h');
      [apply sim_ring_valid| |done]. simpl. by rewrite Z.eqb_refl. }
  rewrite sim_ring_pending in *. rewrite length_take in Hk.
  rewrite take_take, Nat.min_l by lia. rewrite sim_events_obj. cbn [app].
  unfold sim_queue. destruct (decide (NoDup (owned ctx h))) as [Hnd|Hnd].
  - rewrite remove_all_take_rev by done. rewrite decide_True.
    + by rewrite rev_involutive.
    + rewrite <-Permutation_rev. apply (sublist_NoDup _ (rev (owned ctx h)));
        [by rewrite <-Permutation_rev|apply sublist_drop].
  - rewrite take_nil. simpl. rewrite decide_False by done. by rewrite drop_nil.
Qed.

#[export] Instance sim_kernel_ring : KernelRing sim_env.
Proof.
  split.
  - intros h ctx r [= <-]. apply sim_ring_valid.
  - intros h ctx r [= <-]. eexists. split; [reflexivity|].
    by split.
  - intros h ctx r k [= <-] Hk head'. eexists. split; [reflexivity|].
    pose proof (sim_head_bounds ctx h). subst head'. simpl ring_nr. simpl ring_head.
    split_and!; [done| |done|].
    + simpl. unfold stored_head. simpl. rewrite Z.eqb_refl. by rewrite Z.mod_mod.
    + rewrite !sim_ring_pending. unfold sim_events. rewrite (sim_queue_store ctx h k Hk).
      rewrite fmap_drop. rewrite sim_ring_pending, length_take in Hk.
      rewrite skipn_firstn_comm. eexists. rewrite take_take_drop.
      instantiate (1 := k). by replace (7 - k + k)%nat with 7%nat by lia.
Qed.

Context {Ok : SimOk s}.

Lemma sim_events_ok ctx h n : Forall event_ok (take n (sim_events ctx h)).
Proof.
  apply Forall_take. unfold sim_events. apply Forall_fmap, Forall_true.
  intros p. apply so_res.
Qed.

#[export] Instance sim_kernel_events : KernelEvents sim_env.
Proof.
  split.
  - intros h ctx min_nr max timeout l. simpl. unfold sim_getevents.
    destruct (_ && _); [done|]. intros [= <-]. split_and!.
    + rewrite length_take. lia.
    + apply sim_events_sub.
    + apply sim_events_ok.
  - intros h ctx min_nr max timeout e. simpl. unfold sim_getevents. by destruct (_ && _).
  - intros h ctx min_nr max timeout. simpl. unfold sim_getevents.
    destruct (_ && _) eqn:Hw; [|done]. intros _. apply andb_true_iff in Hw as [Ht%bool_decide_eq_true Hw].
    split; [done|lia].
  - intros h ctx r [= <-]. rewrite sim_ring_pending.
    split; [apply sim_events_sub|apply sim_events_ok].
  - intros h ctx _. by eexists.
Qed.

#[export] Instance sim_kernel_progress : KernelProgress sim_env 0.
Proof.
  split.
  2:{ intros h ctx min_nr max timeout. simpl. unfold sim_getevents. by destruct (_ && _). }
  intros h ctx min_nr max l. simpl. unfold sim_getevents. destruct (_ && _); [done|].
  intros [= <-] Hnd Hmin Hmax. rewrite length_take. unfold sim_events, sim_queue. rewrite decide_True by done.
  rewrite length_fmap, length_rev. lia.
Qed.

#[export] Instance sim_kernel_submit : KernelSubmit sim_env.
Proof. split. intros h ctx p cb. apply so_submit. Qed.

Lemma sim_ref_fresh h : (sim_ref h ∉ live_refs h) ∧ 1000 < sim_ref h.
Proof.
  unfold sim_ref. assert (1000 ≤ foldr Z.max 1000 (live_refs h)) as H0.
  { induction (live_refs h); simpl; lia. }
  split; [|lia]. intros Hin.
  assert (∀ x, x ∈ live_refs h → x ≤ foldr Z.max 1000 (live_refs h)) as Hmax.
  { induction (live_refs h) as [|y l IH]; [by intros ? ?%elem_of_nil|].
    intros x [->|Hx]%elem_of_cons; simpl in *; [lia|].
    assert (1000 ≤ foldr Z.max 1000 l) by (clear; induction l; simpl; lia).
    assert (x ≤ foldr Z.max 1000 l); [|lia].
    clear -Hx. induction l as [|z l IH]; [by apply elem_of_nil in Hx|].
    apply elem_of_cons in Hx as [->|Hx]; simpl; [lia|]. specialize (IH Hx). lia. }
  apply Hmax in Hin. lia.
Qed.

#[export] Instance sim_jni_refs : JniRefs sim_env.
Proof.
  split.
  - done.
  - intros h obj Hne. simpl. rewrite (proj2 (Z.eqb_neq _ _) Hne). apply sim_ref_fresh.
  - intros h obj. simpl. case_match; [done|]. unfold sim_ref, MINUS_ONE. lia.
Qed.

#[export] Instance sim_io_prep : IoPrep sim_env.
Proof. by split. Qed.

Lemma foldr_max_le x (l : list Z) d : x ∈ l → x ≤ foldr Z.max d l.
Proof.
  induction l as [|y l IH]; [by intros ?%elem_of_nil|].
  intros [->|Hx]%elem_of_cons; simpl; [lia|]. specialize (IH Hx). lia.
Qed.

Lemma owned_never_submitted ctx h :
  (∀ e, e ∈ (h : list event) → submitted_to e ≠ ctx) → owned ctx h = [].
Proof.
  induction h as [|e h IH]; intros He; [done|]. simpl.
  rewrite IH by (intros e' Hin; apply He; by apply list_elem_of_further).
  assert (submitted ctx e = []) as ->.
  { specialize (He e (list_elem_of_here _ _)). destruct e as [T c r]. destruct c; simpl; try done.
    simpl in He.
    match goal with |- context [?a =? ctx] => by rewrite (proj2 (Z.eqb_neq a ctx) He) end. }
  simpl. induction (completed ctx h e) as [|x l IHl]; [done|]. simpl. by rewrite IHl.
Qed.

#[export] Instance sim_kernel_queue : KernelQueue sim_env.
Proof.
  pose proof so_queue as Hq. split.
  - intros h n. simpl. destruct (n <=? 0); [done|]. destruct (Z.eqb_spec (s_queue s) 0) as [?|?]; [|done].
    intros _. exists (sim_ctx h). unfold sim_ctx.
    assert (5000 ≤ foldr Z.max 5000 (submitted_to <$> (h : list event)))
      by (induction (submitted_to <$> (h : list event)); simpl; lia).
    split_and!; [done|unfold NULL; lia|]. apply owned_never_submitted. intros ev Hev.
    pose proof (foldr_max_le (submitted_to ev) (submitted_to <$> (h : list event)) 5000
      (list_elem_of_fmap_2 _ _ _ Hev)). lia.
  - intros h n Hn. simpl. by rewrite (proj2 (Z.leb_le n 0) Hn).
  - intros h n. simpl. destruct (n <=? 0); [done|]. destruct (s_queue s =? 0); simpl; lia.
  - intros h n. simpl. destruct (n <=? 0); [done|]. by destruct (s_queue s =? 0).
Qed.

#[export] Instance sim_posix_errors : PosixErrors sim_env.
Proof.
  split; [intros h; apply so_mutex|intros h a n; simpl; by case_match|done].
Qed.

Lemma sim_jni_buffers : s_addr s = None → JniBuffers sim_env.
Proof.
  intros Ha. split.
  - intros h addr n. simpl. by destruct (Z.eqb_spec addr NULL).
  - intros h r addr Hr. simpl. by rewrite Ha, Hr.
Qed.
End sim.
