(* ===== verification/System.v ===== *)
(** * A live context

    The invariant of a [struct io_control] between [newContext] and
    [deleteContext], on which the theorems of the entry points rest.

    Every iocb of the context is in exactly one place: in the queue of free ones,
    with the kernel (submitted and not yet completed, read off the trace), or out
    (taken from the pool by a running call, or completed and not yet put back).
    The JNI global references that are alive are those in the [data] of the iocbs
    that are not free, and the references [base] made elsewhere. *)

From S2P Require Export Errors IocbPool Trace.

(** The fields of a control block that no operation on a live context changes. *)
Record ctl : Set := Ctl {
  k_ctx : Z;
  k_events : Z;
  k_this : Z;
  k_pool : Z;
  k_size : Z;
  k_poll : mutex
}.
Definition ctl_of (c : io_control) : ctl :=
  Ctl (ioContext c) (events c) (thisObject c) (iocb_pool c) (queueSize c) (pollLock c).
Ltac ctl_simpl := cbn [k_ctx k_events k_this k_pool k_size k_poll ctl_of] in *.
Definition with_poll (m : mutex) (k : ctl) : ctl :=
  Ctl (k_ctx k) (k_events k) (k_this k) (k_pool k) (k_size k) m.

Record sys (w : world) (p : Z) (c : io_control) (arr : list Z) (evl : list io_event)
    (all free out : list Z) : Prop := Sys {
  sys_heap : heap_ok w;
  sys_pool : pool w p c arr free;
  sys_events : w ⊨ events c ↦ evl;
  sys_evlen : Z.of_nat (length evl) = queueSize c;
  sys_perm : free ++ out ++ owned (ioContext c) (trace w) ≡ₚ all;
  sys_nodup : NoDup all;
  sys_len : Z.of_nat (length all) = queueSize c;
  sys_iocb x : x ∈ all → x ≠ NULL ∧ ∃ b : iocb, w ⊨ x ↦ b;
  sys_ctx : ioContext c ∈ live_ctxs (trace w)
}.

(** The control block at [p] is live, with the iocbs [all], of which [free] wait
    in the pool and [out] are neither there nor with the kernel. *)
Definition system (p : Z) (k : ctl) (all free out : list Z) (w : world) : Prop :=
  ∃ c arr evl, sys w p c arr evl all free out ∧ ctl_of c = k.

(** The contents of the array of events. *)
Definition events_at (k : ctl) (evl : list io_event) (w : world) : Prop :=
  w ⊨ k_events k ↦ evl.

(** The iocb at [x], its [data] and its file. *)
Definition iocb_at (w : world) (x : Z) : option iocb := heap w !! x ≫= of_block.
Definition data_of (w : world) (x : Z) : Z := from_option data NULL (iocb_at w x).
Definition fildes_of (w : world) (x : Z) : Z := from_option aio_fildes 0 (iocb_at w x).

(** The references held in the [data] of [l]. *)
Definition refs (w : world) (l : list Z) : list Z :=
  filter (λ d, is_ref d = true) (data_of w <$> l).

Definition refs_ok (k : ctl) (out base : list Z) (w : world) : Prop :=
  live_refs (trace w) ≡ₚ refs w (out ++ owned (k_ctx k) (trace w)) ++ base.

(** [w'] differs from [w] in the bookkeeping of the pool only. *)
Record same_iocbs (w w' : world) : Prop := SameIocbs {
  si_trace : trace w' = trace w;
  si_glob : glob w' = glob w;
  si_iocb x (b : iocb) : w' ⊨ x ↦ b ↔ w ⊨ x ↦ b;
  si_events x (l : list io_event) : w' ⊨ x ↦ l ↔ w ⊨ x ↦ l
}.

#[export] Instance same_iocbs_preorder : PreOrder same_iocbs.
Proof.
  split; [by split|]. intros w1 w2 w3 [? ? H1 I1] [? ? H2 I2].
  split; [congruence|congruence|..].
  - intros x b. by rewrite H2, H1.
  - intros x l. by rewrite I2, I1.
Qed.

(** An event that moves no iocb and neither creates nor releases a context. *)
Definition quiet (ctx : Z) (h : history) (e : event) : Prop :=
  owned ctx (e :: h) = owned ctx h ∧ live_ctxs (e :: h) = live_ctxs h.

(** [GetDirectBufferAddress] of the Java object [ptr] is [p]. *)
Class DirectBuffer (E : Env) (ptr p : Z) : Prop := {
  db_address h : answer h (GetDirectBufferAddress ptr) = p
}.

Section refs.
Implicit Types (w : world) (l : list Z).

Lemma iocb_at_has w x (b : iocb) : w ⊨ x ↦ b ↔ iocb_at w x = Some b.
Proof.
  unfold iocb_at, has. destruct (heap w !! x) as [[]|]; simpl; split; congruence.
Qed.
Lemma data_of_has w x (b : iocb) : w ⊨ x ↦ b → data_of w x = data b.
Proof. unfold data_of. by intros ->%iocb_at_has. Qed.
Lemma fildes_of_has w x (b : iocb) : w ⊨ x ↦ b → fildes_of w x = aio_fildes b.
Proof. unfold fildes_of. by intros ->%iocb_at_has. Qed.

Lemma refs_app w l l' : refs w (l ++ l') = refs w l ++ refs w l'.
Proof. unfold refs. by rewrite fmap_app, list.filter_app. Qed.

Lemma refs_cons w x l :
  refs w (x :: l) = (if is_ref (data_of w x) then [data_of w x] else []) ++ refs w l.
Proof.
  unfold refs. simpl. rewrite filter_cons. destruct (is_ref (data_of w x)) eqn:Hr; [|done].
  by rewrite decide_True.
Qed.

#[export] Instance refs_perm w : Proper ((≡ₚ) ==> (≡ₚ)) (refs w).
Proof. intros l l' Hl. unfold refs. by rewrite Hl. Qed.

Lemma refs_ext w w' l : (∀ x, x ∈ l → data_of w' x = data_of w x) → refs w' l = refs w l.
Proof.
  intros Hx. unfold refs. f_equal. apply list_fmap_ext.
  intros i x Hi. apply Hx. by eapply list_elem_of_lookup_2.
Qed.

Lemma iocb_at_iocbs w w' x :
  (∀ y (b : iocb), w' ⊨ y ↦ b ↔ w ⊨ y ↦ b) → iocb_at w' x = iocb_at w x.
Proof.
  intros Hi. apply option_eq. intros b. rewrite <-!iocb_at_has. apply Hi.
Qed.
Lemma data_of_iocbs w w' x :
  (∀ y (b : iocb), w' ⊨ y ↦ b ↔ w ⊨ y ↦ b) → data_of w' x = data_of w x.
Proof. intros Hi. unfold data_of. by rewrite (iocb_at_iocbs w w'). Qed.
Lemma fildes_of_iocbs w w' x :
  (∀ y (b : iocb), w' ⊨ y ↦ b ↔ w ⊨ y ↦ b) → fildes_of w' x = fildes_of w x.
Proof. intros Hi. unfold fildes_of. by rewrite (iocb_at_iocbs w w'). Qed.

Lemma data_of_same w w' x : same_iocbs w w' → data_of w' x = data_of w x.
Proof. intros [_ _ Hi _]. by apply data_of_iocbs. Qed.

Lemma refs_same w w' l : same_iocbs w w' → refs w' l = refs w l.
Proof. intros H. apply refs_ext. intros x _. by apply data_of_same. Qed.
End refs.

(** ** What the actions of the entry points do to a live context *)
Section system.
Context {E : Env}.
Implicit Types (w : world) (p : Z) (k : ctl) (all free out base : list Z).

Lemma system_control p k all free out w :
  system p k all free out w → ∃ c, w ⊨ p ↦ c ∧ ctl_of c = k.
Proof. intros (c & arr & evl & [? [] ? ? ? ? ? ? ?] & Hk). by exists c. Qed.

Lemma system_heap_ok p k all free out w : system p k all free out w → heap_ok w.
Proof. by intros (c & arr & evl & [] & _). Qed.

Lemma system_ptr p k all free out w : system p k all free out w → p ≠ NULL.
Proof.
  intros Hs. destruct (system_control _ _ _ _ _ _ Hs) as (c & Hc & _).
  apply system_heap_ok in Hs. apply Hs in Hc. unfold NULL. lia.
Qed.

Lemma system_perm p k all free out w :
  system p k all free out w → free ++ out ++ owned (k_ctx k) (trace w) ≡ₚ all ∧ NoDup all
    ∧ Z.of_nat (length all) = k_size k.
Proof. by intros (c & arr & evl & [] & <-). Qed.

Lemma system_iocb p k all free out w x :
  system p k all free out w → x ∈ all → x ≠ NULL ∧ ∃ b : iocb, w ⊨ x ↦ b.
Proof. intros (c & arr & evl & [] & _). auto. Qed.

Lemma system_iocb_out p k all free out w x :
  system p k all free out w → x ∈ out → x ≠ NULL ∧ ∃ b : iocb, w ⊨ x ↦ b.
Proof.
  intros Hs Hx. eapply system_iocb; [done|].
  destruct (system_perm _ _ _ _ _ _ Hs) as [<- _]. set_solver.
Qed.

(** The iocb in hand is in no other place. *)
Lemma system_fresh p k all free x out w :
  system p k all free (x :: out) w → x ∈ all ∧ x ∉ out ++ owned (k_ctx k) (trace w).
Proof.
  intros Hs. destruct (system_perm _ _ _ _ _ _ Hs) as (Hperm & Hnd & _).
  split; [rewrite <-Hperm; set_solver|]. rewrite <-Hperm in Hnd.
  apply list.NoDup_app in Hnd as (_ & _ & Hnd). simpl in Hnd. by apply list.NoDup_cons in Hnd as [].
Qed.

Lemma system_owned_fresh p k all free out w :
  system p k all free out w → ∀ x, x ∈ out → x ∉ owned (k_ctx k) (trace w).
Proof.
  intros Hs. destruct (system_perm _ _ _ _ _ _ Hs) as (Hperm & Hnd & _).
  rewrite <-Hperm in Hnd. apply list.NoDup_app in Hnd as (_ & _ & Hnd).
  by apply list.NoDup_app in Hnd as (_ & Hd & _).
Qed.

Lemma system_out_perm p k all free out out' w :
  out ≡ₚ out' → system p k all free out w → system p k all free out' w.
Proof.
  intros Ho (c & arr & evl & [] & <-). exists c, arr, evl. split; [|done].
  split; try done. by rewrite <-Ho.
Qed.

Lemma system_events p k all free out w :
  system p k all free out w →
  ∃ evl, events_at k evl w ∧ Z.of_nat (length evl) = k_size k.
Proof. intros (c & arr & evl & [] & <-). by exists evl. Qed.

Lemma system_size p k all free out w : system p k all free out w → 0 < k_size k ≤ INT_MAX.
Proof. by intros (c & arr & evl & [_ [_ _ _ []] _ _ _ _ _ _ _] & <-). Qed.

Lemma system_ctx p k all free out w :
  system p k all free out w → k_ctx k ∈ live_ctxs (trace w).
Proof. by intros (c & arr & evl & [] & <-). Qed.

Lemma refs_ok_perm k out out' base w :
  out ≡ₚ out' → refs_ok k out base w → refs_ok k out' base w.
Proof. unfold refs_ok. intros Ho ->. by rewrite Ho. Qed.

(** *** Frame rules *)

Lemma system_log {T : Set} p k all free out w (e : syscall T) r :
  quiet (k_ctx k) (trace w) (Ev e r) →
  system p k all free out w → system p k all free out (log e r w).
Proof.
  intros [Ho Hc] (c & arr & evl & [Hh [Hp Ha Hl Hr] ? ? ? ? ? Hi ?] & <-).
  exists c, arr, evl. split; [|done].
  ctl_simpl. split; try done; cbn [trace log]; [by rewrite Ho|by rewrite Hc].
Qed.

Lemma refs_ok_log {T : Set} k out base w (e : syscall T) r :
  quiet (k_ctx k) (trace w) (Ev e r) →
  live_refs (Ev e r :: trace w) = live_refs (trace w) →
  refs_ok k out base w → refs_ok k out base (log e r w).
Proof. unfold refs_ok. cbn [trace log]. intros [Ho _] Hl. by rewrite Hl, Ho. Qed.

(** Memory unchanged, and only quiet events. *)
Lemma system_same p k all free out w w' :
  same_mem w w' → owned (k_ctx k) (trace w') = owned (k_ctx k) (trace w) →
  live_ctxs (trace w') = live_ctxs (trace w) →
  system p k all free out w → system p k all free out w'.
Proof.
  intros Hm Ho Hc (c & arr & evl & [Hh [Hp Ha Hl Hr] ? ? ? ? ? Hi ?] & <-).
  exists c, arr, evl. split; [|done]. pose proof Hm as [Hheap _ _]. ctl_simpl.
  split; try done; unfold has; rewrite ?Hheap; try done.
  - by eapply same_mem_heap_ok.
  - split; unfold has; rewrite ?Hheap; done.
  - by rewrite Ho.
  - by rewrite Hc.
Qed.

Lemma data_of_same_mem w w' x : same_mem w w' → data_of w' x = data_of w x.
Proof. intros [Hh _ _]. unfold data_of, iocb_at. by rewrite Hh. Qed.

Lemma refs_ok_same k out base w w' :
  same_mem w w' → owned (k_ctx k) (trace w') = owned (k_ctx k) (trace w) →
  live_refs (trace w') = live_refs (trace w) →
  refs_ok k out base w → refs_ok k out base w'.
Proof.
  unfold refs_ok. intros Hm -> ->. erewrite (refs_ext w w'); [done|].
  intros x _. by apply data_of_same_mem.
Qed.

Lemma system_glob p k all free out w g :
  system p k all free out w → system p k all free out (upd_glob g w).
Proof.
  intros (c & arr & evl & [Hh [] ? ? ? ? ? ? ?] & <-). exists c, arr, evl. by split.
Qed.

(** Writing an iocb. *)
Lemma system_put_iocb p k all free out w x (b : iocb) :
  x ∈ all → system p k all free out w → system p k all free out (put x b w).
Proof.
  intros Hx (c & arr & evl & [Hh [Hp Ha Hl Hr] He ? ? ? ? Hi ?] & <-).
  destruct (Hi x Hx) as (Hx0 & b0 & Hb0).
  assert (x ≠ p) by (by eapply (has_ne w _ _ b0 c)).
  assert (x ≠ iocb_pool c) by (by eapply (has_ne w _ _ b0 arr)).
  assert (x ≠ events c) by (by eapply (has_ne w _ _ b0 evl)).
  exists c, arr, evl. split; [|done]. split; try done.
  - by eapply heap_ok_put.
  - split; [by apply has_put_ne|by apply has_put_ne|done|done].
  - by apply has_put_ne.
  - intros y Hy. split; [by apply Hi|]. destruct (decide (x = y)) as [->|Hne].
    + exists b. apply has_put_eq.
    + destruct (Hi y Hy) as (_ & b' & Hb'). exists b'. by apply has_put_ne.
Qed.

Lemma iocb_at_put w x y (b : iocb) :
  iocb_at (put x b w) y = if decide (y = x) then Some b else iocb_at w y.
Proof.
  unfold iocb_at. simpl. case_decide as Hxy.
  - subst. by rewrite lookup_insert_eq.
  - by rewrite lookup_insert_ne.
Qed.
Lemma data_of_put w x y (b : iocb) :
  data_of (put x b w) y = if decide (y = x) then data b else data_of w y.
Proof. unfold data_of. rewrite iocb_at_put. by case_decide. Qed.
Lemma fildes_of_put w x y (b : iocb) :
  fildes_of (put x b w) y = if decide (y = x) then aio_fildes b else fildes_of w y.
Proof. unfold fildes_of. rewrite iocb_at_put. by case_decide. Qed.

Lemma refs_put_out w x (b : iocb) l : x ∉ l → refs (put x b w) l = refs w l.
Proof.
  intros Hx. apply refs_ext. intros y Hy. rewrite data_of_put.
  rewrite decide_False; [done|]. by intros ->.
Qed.
End system.

(** Writing a block of one type does not show in the blocks of another. *)
Lemma has_put_other {T U : Set} `{Storable T, Storable U} w p (x y : T) q (z : U) :
  (∀ (t : T) (u : U), to_block t ≠ to_block u) → w ⊨ p ↦ x → put p y w ⊨ q ↦ z ↔ w ⊨ q ↦ z.
Proof.
  intros Hne Hp. unfold has. simpl.
  destruct (decide (p = q)) as [<-|?]; [|by rewrite lookup_insert_ne].
  rewrite lookup_insert_eq, Hp. split; intros [= Hb]; by eapply Hne in Hb.
Qed.

Lemma same_iocbs_put {T : Set} `{Storable T} w p (x y : T) :
  (∀ (t : T) (b : iocb), to_block t ≠ to_block b) →
  (∀ (t : T) (l : list io_event), to_block t ≠ to_block l) →
  w ⊨ p ↦ x → same_iocbs w (put p y w).
Proof. intros Hb Hl Hp. split; try done; intros q z; by eapply has_put_other. Qed.

(** ** The pool of a live context *)
Section system_pool.
Context {E : Env}.
Implicit Types (w : world) (p : Z) (k : ctl) (all free out base : list Z).

Lemma sys_used w p c arr evl all free out :
  sys w p c arr evl all free out →
  used c = Z.of_nat (length out) + Z.of_nat (length (owned (ioContext c) (trace w))).
Proof.
  intros [_ [_ _ _ [? ? Hu]] _ _ Hperm _ Hlen _ _]. apply Permutation_length in Hperm.
  rewrite !length_app in Hperm. lia.
Qed.

(** Rewriting the control block or the array of the pool. *)
Lemma sys_put_pool w w' p c c' arr arr' evl all free out free' out' :
  sys w p c arr evl all free out →
  pool w' p c' arr' free' → ctl_of c' = ctl_of c → heap_ok w' →
  same_iocbs w w' → w' ⊨ events c ↦ evl →
  free' ++ out' ≡ₚ free ++ out →
  sys w' p c' arr' evl all free' out'.
Proof.
  intros [Hh Hp He Hel Hperm Hnd Hlen Hi Hc] Hp' Hctl Hh' [Ht Hg Hio _] He' Hfo.
  injection Hctl as Hx1 Hx2 Hx3 Hx4 Hx5 Hx6.
  split; rewrite ?Hx1, ?Hx2, ?Hx5, ?Ht; try done.
  - rewrite app_assoc, Hfo, <-app_assoc. done.
  - intros x Hx. destruct (Hi x Hx) as (? & b & Hb). split; [done|]. exists b. by apply Hio.
Qed.

Lemma wp_system_get p k all x free out w :
  system p k all (x :: free) out w →
  wp (getIOCB p) (λ r w', r = x ∧ system p k all free (x :: out) w' ∧ same_iocbs w w') w.
Proof.
  intros (c & arr & evl & Hs & <-). pose proof Hs as [Hh Hp He _ _ _ _ _ _].
  pose proof Hp as [Hpc Hpa _ _].
  eapply wp_mono; [by eapply wp_getIOCB|]. intros r w' [-> ->].
  assert (same_iocbs w (put p (taken c) w)) as Hsame by (by eapply (same_iocbs_put _ _ c)).
  split_and!; [done| |done]. exists (taken c), arr, evl. split; [|done].
  eapply sys_put_pool; [done|by eapply pool_taken|done|by eapply heap_ok_put|done| |].
  - apply has_put_ne; [|done]. by eapply (has_ne w _ _ c evl).
  - by rewrite <-Permutation_middle.
Qed.

Lemma wp_system_get_empty p k all out w :
  system p k all [] out w → wp (getIOCB p) (λ r w', r = NULL ∧ w' = w) w.
Proof. intros (c & arr & evl & [_ Hp _ _ _ _ _ _ _] & _). by eapply wp_getIOCB_empty. Qed.

Lemma wp_system_put p k all free x out w :
  system p k all free (x :: out) w →
  wp (putIOCB p x) (λ _ w', system p k all (free ++ [x]) out w' ∧ same_iocbs w w') w.
Proof.
  intros (c & arr & evl & Hs & <-). pose proof Hs as [Hh Hp He _ _ _ _ _ _].
  pose proof Hp as [Hpc Hpa _ _]. apply sys_used in Hs as Hu. simpl in Hu.
  assert (p ≠ events c) by (by eapply (has_ne w _ _ c evl)).
  assert (iocb_pool c ≠ events c) by (by eapply (has_ne w _ _ arr evl)).
  assert (iocb_pool c ≠ p) by (by eapply (has_ne w _ _ arr c)).
  eapply wp_mono; [eapply wp_putIOCB; [done|lia]|]. intros _ w' ->.
  set (arr' := <[_ := x]> arr). set (w1 := put (iocb_pool c) arr' w).
  assert (w1 ⊨ p ↦ c) as Hpc1 by (by apply has_put_ne).
  assert (same_iocbs w (put p (returned c) w1)) as Hsame.
  { transitivity w1.
    - by eapply (same_iocbs_put _ _ arr).
    - by eapply (same_iocbs_put _ _ c). }
  split; [|done]. exists (returned c), arr', evl. split; [|done].
  eapply sys_put_pool; [done| |done| |done| |].
  - apply pool_returned; [done|lia].
  - eapply heap_ok_put; [by eapply heap_ok_put|done].
  - by do 2 (apply has_put_ne; [done|]).
  - by rewrite <-app_assoc.
Qed.

(** The lock of the poller. *)
Lemma system_poll p k all free out w c m :
  system p k all free out w → w ⊨ p ↦ c →
  system p (with_poll m k) all free out (put p (set_pollLock m c) w) ∧
  same_iocbs w (put p (set_pollLock m c) w).
Proof.
  intros (c' & arr & evl & Hs & <-) Hc. pose proof Hs as [Hh Hp He Hl Hperm Hnd Hlen Hi Hx].
  pose proof Hp as [Hpc Hpa Hlk [? ? ? ? ? ? ?]]. pose proof (has_inj _ _ _ _ Hc Hpc) as ->.
  assert (same_iocbs w (put p (set_pollLock m c') w)) as Hsame by (by eapply (same_iocbs_put _ _ c')).
  split; [|done]. exists (set_pollLock m c'), arr, evl. split; [|done].
  split; try done.
  - by eapply heap_ok_put.
  - split; [apply has_put_eq| |done|by split].
    apply has_put_ne; [|done]. by eapply (has_ne w _ _ c' arr).
  - by apply (si_events _ _ Hsame).
  - intros x Hxa. destruct (Hi x Hxa) as (? & b & Hb). split; [done|]. exists b.
    by apply (si_iocb _ _ Hsame).
Qed.

Lemma system_poll_state p k all free out w c :
  system p k all free out w → w ⊨ p ↦ c → pollLock c = k_poll k.
Proof.
  intros (c' & arr & evl & [_ [Hpc _ _ _] _ _ _ _ _ _ _] & <-) Hc.
  by rewrite (has_inj _ _ _ _ Hc Hpc).
Qed.

Lemma wp_system_lock p k all free out w :
  system p k all free out w → k_poll k = MFree →
  wp (pthread_mutex_lock (PollLock p)) (λ _ w',
    system p (with_poll MLocked k) all free out w' ∧ same_iocbs w w') w.
Proof.
  intros Hs Hk. destruct (system_control _ _ _ _ _ _ Hs) as (c & Hc & _).
  eapply wp_pollLock_lock; [done|by rewrite (system_poll_state _ _ _ _ _ _ _ Hs Hc)|].
  by apply system_poll.
Qed.

Lemma wp_system_unlock p k all free out w :
  system p k all free out w → k_poll k = MLocked →
  wp (pthread_mutex_unlock (PollLock p)) (λ _ w',
    system p (with_poll MFree k) all free out w' ∧ same_iocbs w w') w.
Proof.
  intros Hs Hk. destruct (system_control _ _ _ _ _ _ Hs) as (c & Hc & _).
  eapply wp_pollLock_unlock; [done|by rewrite (system_poll_state _ _ _ _ _ _ _ Hs Hc)|].
  by apply system_poll.
Qed.

(** A reference goes back to the pool with an iocb whose [data] holds none. *)
Lemma refs_ok_iocbs k out base w w' :
  same_iocbs w w' → refs_ok k out base w → refs_ok k out base w'.
Proof. unfold refs_ok. intros Hs. pose proof Hs as [-> _ _ _]. by rewrite (refs_same w w'). Qed.
End system_pool.

(** ** Reaping the completions of a live context *)

(** From [w] to [w'], the events [l] were taken from the kernel: they are at the
    start of the array of events, and their iocbs are out.  They are what the
    kernel has reported meanwhile. *)
Record reap (p : Z) (k : ctl) (all free out : list Z) (l : list io_event) (w w' : world) : Prop := Reap {
  rp_system : system p k all free ((ev_obj <$> l) ++ out) w';
  rp_events : ∃ rest, events_at k (l ++ rest) w';
  rp_ok : Forall event_ok l;
  rp_owned : owned (k_ctx k) (trace w) ≡ₚ (ev_obj <$> l) ++ owned (k_ctx k) (trace w');
  rp_reports : reports (k_ctx k) (trace w') = batch l ++ reports (k_ctx k) (trace w);
  rp_glob : glob w' = glob w;
  rp_iocb x (b : iocb) : w' ⊨ x ↦ b ↔ w ⊨ x ↦ b;
  rp_heap q : q ≠ k_events k → heap w' !! q = heap w !! q;
  rp_brk : brk w' = brk w;
  rp_trace : ∃ es, trace w' = es ++ trace w ∧ Forall reap_event es
}.

(** From [w] to [w'], the program has come to a call of [io_getevents] that waits
    for ever: fewer than [min_nr] requests are in flight, and nothing was done. *)
Record waits (ctx min_nr : Z) (w w' : world) : Prop := WaitsFor {
  wt_mem : same_mem w w';
  wt_owned : owned ctx (trace w') = owned ctx (trace w);
  wt_few : Z.of_nat (length (owned ctx (trace w'))) < min_nr
}.

Section reap.
Context {E : Env} {KR : KernelRing E} {KE : KernelEvents E}.
Implicit Types (w : world) (p : Z) (k : ctl) (all free out base : list Z).

Lemma reap_refs p k all free out l base w w' :
  reap p k all free out l w w' → refs_ok k out base w →
  refs_ok k ((ev_obj <$> l) ++ out) base w'.
Proof.
  intros [_ _ _ Ho _ _ Hi _ _ (es & Ht & Hes)] Hr. unfold refs_ok in *.
  rewrite (refs_ext w w') by (intros; by apply data_of_iocbs).
  rewrite Ht, live_refs_reap, <-Ht, Hr, Ho by done. by rewrite app_swap.
Qed.

(** Storing in the array of events after quiet or completing events. *)
Lemma reap_intro p k all free out l evl es w :
  system p k all free out w → events_at k evl w →
  (ev_obj <$> l) ⊆+ owned (k_ctx k) (trace w) → Forall event_ok l →
  owned (k_ctx k) (trace w) ≡ₚ (ev_obj <$> l) ++ owned (k_ctx k) (es ++ trace w) →
  reports (k_ctx k) (es ++ trace w) = batch l ++ reports (k_ctx k) (trace w) →
  Forall reap_event es →
  reap p k all free out l w
    (with_trace (es ++ trace w) (put (k_events k) (l ++ drop (length l) evl) w)).
Proof.
  intros (c & arr & evl' & Hs & <-) Hev Hsub Hok Ho Hre Hes. ctl_simpl.
  pose proof Hs as [Hh Hp He Hel Hperm Hnd Hlen Hi Hc]. pose proof Hp as [Hpc Hpa Hl Hr].
  unfold events_at in Hev. ctl_simpl. rewrite (has_inj _ _ _ _ Hev He) in *. clear evl Hev.
  assert (events c ≠ p) by (by eapply (has_ne w _ _ evl' c)).
  assert (events c ≠ iocb_pool c) by (by eapply (has_ne w _ _ evl' arr)).
  assert (length l ≤ length evl')%nat as Hll.
  { apply submseteq_length in Hsub. rewrite length_fmap in Hsub.
    apply Permutation_length in Hperm. rewrite !length_app in Hperm. lia. }
  assert (∀ q (b : iocb), put (events c) (l ++ drop (length l) evl') w ⊨ q ↦ b ↔ w ⊨ q ↦ b) as Hio.
  { intros q b. by eapply (has_put_other _ _ evl'). }
  split; ctl_simpl; try done.
  - exists c, arr, (l ++ drop (length l) evl'). split; [|done].
    split; try done.
    + by eapply heap_ok_put.
    + split; [by apply has_put_ne|by apply has_put_ne|done|done].
    + apply has_put_eq.
    + rewrite length_app, length_drop. lia.
    + cbn [trace with_trace]. rewrite <-Hperm. f_equiv. rewrite Ho.
      by rewrite app_swap.
    + intros x Hx. destruct (Hi x Hx) as (? & b & Hb). split; [done|]. exists b. by apply Hio.
    + cbn [trace with_trace]. by rewrite live_ctxs_reap.
  - exists (drop (length l) evl'). apply has_put_eq.
  - intros q Hq. simpl. by rewrite lookup_insert_ne.
  - by exists es.
Qed.

(** No event: a negative [errno], or nothing to report. *)
Lemma reap_nil p k all free out es w :
  system p k all free out w → Forall reap_event es →
  owned (k_ctx k) (es ++ trace w) = owned (k_ctx k) (trace w) →
  reports (k_ctx k) (es ++ trace w) = reports (k_ctx k) (trace w) →
  reap p k all free out [] w (with_trace (es ++ trace w) w).
Proof.
  intros Hs Hes Ho Hre. destruct (system_events _ _ _ _ _ _ Hs) as (evl & Hev & _).
  pose proof (reap_intro p k all free out [] evl es w Hs Hev) as Hr.
  simpl in Hr. rewrite Ho, drop_0, (put_id w _ evl Hev) in Hr.
  apply Hr; [apply submseteq_nil_l|constructor|done|done|done].
Qed.

(** The result of [ringio_get_events] on a live context. *)
Definition reap_post p k all free out (max : Z) w (r : Z) w' : Prop :=
  (kernel_error (k_ctx k) r (trace w') ∧ reap p k all free out [] w w') ∨
  (∃ l, r = Z.of_nat (length l) ∧ r ≤ Z.max 0 max ∧ reap p k all free out l w w').

Lemma wp_io_getevents_system p k all free out min_nr max timeout es F w :
  system p k all free out w → Forall reap_event es →
  owned (k_ctx k) (es ++ trace w) = owned (k_ctx k) (trace w) →
  reports (k_ctx k) (es ++ trace w) = reports (k_ctx k) (trace w) →
  wp_may (io_getevents (k_ctx k) min_nr max (k_events k) timeout)
     (reap_post p k all free out max w) F (waits (k_ctx k) min_nr w) (with_trace (es ++ trace w) w).
Proof.
  intros Hs Hes Ho Hre. destruct (system_events _ _ _ _ _ _ Hs) as (evl & Hev & Hevl).
  destruct (system_perm _ _ _ _ _ _ Hs) as (Hperm & _ & Hlen).
  apply (wp_io_getevents _ _ _ _ _ evl); [done| | |]; cbn [trace with_trace].
  - intros e Ha. pose proof (ke_error _ _ _ _ _ _ Ha). left.
    split; [split; [done|by do 4 eexists]|].
    apply (reap_nil p k all free out (Ev _ (GeError e) :: es) w Hs); [by constructor| |done].
    cbn [app]. by rewrite owned_quiet.
  - intros l Ha. destruct (ke_events _ _ _ _ _ _ Ha) as (Hmax & Hsub & Hok).
    rewrite Ho in Hsub.
    assert (length l ≤ length evl)%nat as Hll.
    { apply submseteq_length in Hsub. rewrite length_fmap in Hsub.
      apply Permutation_length in Hperm. rewrite !length_app in Hperm. lia. }
    split; [done|]. right. exists l. split_and!; [done|done|].
    apply (reap_intro p k all free out l evl (Ev _ (GeEvents l) :: es) w Hs Hev Hsub Hok).
    + rewrite <-Ho. apply (owned_getevents _ _ _ _ _ (es ++ trace w)). by rewrite Ho.
    + cbn [app reports reported]. by rewrite Z.eqb_refl, Hre.
    + by constructor.
  - intros Ha. destruct (ke_wait _ _ _ _ _ Ha) as [_ Hfew].
    split; [split; simpl; [done|done|lia]|cbn [trace log]; by rewrite owned_quiet|].
    cbn [trace log with_trace]. by rewrite owned_quiet.
Qed.

Lemma with_trace_reads ctx n w :
  ∃ es, after_reads ctx n w = with_trace (es ++ trace w) w ∧ Forall reap_event es ∧
        owned ctx (es ++ trace w) = owned ctx (trace w) ∧
        reports ctx (es ++ trace w) = reports ctx (trace w).
Proof.
  destruct (ring_reads_app ctx n (trace w)) as (es & Hes & Hf). exists es.
  unfold after_reads. rewrite <-Hes, owned_ring_reads, reports_ring_reads. done.
Qed.

(** A batch taken in user space. *)
Lemma reaped_reap p k all free out rt arr n w :
  system p k all free out w → events_at k arr w →
  ring_now (k_ctx k) (ring_reads (k_ctx k) n (trace w)) = Some rt →
  (0 < length (ring_pending rt))%nat →
  reap p k all free out (ring_pending rt) w
    (reaped (k_ctx k) (k_events k) rt arr (ring_pending rt) (after_reads (k_ctx k) (n + 1) w)).
Proof.
  intros Hs Hev Hrt Hpos. set (ctx := k_ctx k) in *. set (l := ring_pending rt) in *.
  destruct (ring_reads_later ctx (length l) _ _ Hrt) as (rl & Hrl & Hlater).
  rewrite ring_reads_add in Hrl.
  assert (ring_valid rt) as Hvt by (by eapply ring_now_valid).
  assert (ring_valid rl) as Hvl by (by eapply ring_now_valid).
  pose proof Hlater as [Hnr Hhd _ _ [rest Hrest]]. fold l in Hrest.
  set (h := ring_reads ctx (n + 1 + length l) (trace w)).
  assert (last_ring ctx h = Some rl) as Hlast.
  { unfold h. replace (n + 1 + length l)%nat with (S (n + length l)) by lia.
    by apply last_ring_reads. }
  assert (owned ctx h = owned ctx (trace w)) as Hoh by apply owned_ring_reads.
  destruct (ke_ring _ _ _ Hrt) as [Hsub Hok]. rewrite owned_ring_reads in Hsub.
  destruct (ke_ring _ _ _ Hrl) as [Hsubl _]. rewrite owned_ring_reads in Hsubl.
  destruct (ring_reads_app ctx (n + 1 + length l) (trace w)) as (es & Hes & Hf).
  fold h in Hes.
  assert (reaped ctx (k_events k) rt arr l (after_reads ctx (n + 1) w) =
    with_trace (Ev (RingStoreHead ctx ((ring_head rl + Z.of_nat (length l)) `mod` ring_nr rl)) tt
                  :: es ++ trace w) (put (k_events k) (l ++ drop (length l) arr) w)) as ->.
  { unfold reaped. rewrite after_reads_add, <-Hes, Hnr, Hhd. done. }
  assert (length l ≤ length (ring_pending rl))%nat by (rewrite Hrest, length_app; lia).
  apply (reap_intro p k all free out l arr (_ :: es) w); try done; [| |by constructor].
  2:{ cbn [app reports]. fold ctx. rewrite <-Hes, (reported_store_head ctx rl) by done.
      unfold h. rewrite reports_ring_reads, Hrest, take_app_length. done. }
  cbn [app]. fold ctx. rewrite <-Hes, <-Hoh. rewrite (owned_store_head ctx rl (length l) h Hvl Hlast).
  - by rewrite Hrest, take_app_length.
  - done.
  - by rewrite Hoh.
Qed.

(** The three ways of [ringio_get_events]: the system call after some reads of
    the ring; nothing to report; a batch from the ring. *)
Lemma ringio_cases p k all free out min_nr max timeout w :
  system p k all free out w →
  let result := run (ringio_get_events (k_ctx k) min_nr max (k_events k) timeout) w in
  (∃ n, result = run (io_getevents (k_ctx k) min_nr max (k_events k) timeout)
                   (after_reads (k_ctx k) n w)) ∨
  (∃ n, result = Done 0 (after_reads (k_ctx k) n w) ∧ (min_nr ≤ 0 ∨ zero_timeout timeout = true)) ∨
  (∃ rt evl, events_at k evl w ∧
     ring_now (k_ctx k) (ring_reads (k_ctx k) 4 (trace w)) = Some rt ∧
     (0 < length (ring_pending rt))%nat ∧ Z.of_nat (length (ring_pending rt)) < max ∧
     result = Done (Z.of_nat (length (ring_pending rt)))
       (reaped (k_ctx k) (k_events k) rt evl (ring_pending rt) (after_reads (k_ctx k) 5 w))).
Proof.
  intros Hs result. destruct (system_events _ _ _ _ _ _ Hs) as (evl & Hev & Hevl).
  destruct (system_perm _ _ _ _ _ _ Hs) as (Hperm & _ & Hlen).
  destruct (ke_mapped _ _ (system_ctx _ _ _ _ _ _ Hs)) as [r0 H0].
  destruct (decide (forceSysCall (glob w) = 0)) as [Hf|Hf].
  2:{ left. exists 0%nat. unfold result. rewrite (ringio_forced _ _ _ _ _ _ Hf). by destruct w. }
  destruct (ring_usable r0) eqn:Hu.
  2:{ left. eexists. by apply (ringio_unusable _ _ _ _ _ _ _ H0 Hu Hf). }
  destruct (run_ringio (k_ctx k) min_nr max (k_events k) timeout r0 evl w Hf H0 Hu Hev)
    as (rt & Hrt & Hl & Hrun).
  destruct (ke_ring _ _ _ Hrt) as [Hsub _]. rewrite owned_ring_reads in Hsub.
  assert (length (ring_pending rt) ≤ length evl)%nat as Hle.
  { apply submseteq_length in Hsub. rewrite length_fmap in Hsub.
    apply Permutation_length in Hperm. rewrite !length_app in Hperm. lia. }
  specialize (Hrun (λ _, Hle)). fold result in Hrun. unfold ringio_result in Hrun.
  cbv zeta in Hrun. set (n := length (ring_pending rt)) in *.
  destruct ((min_nr <=? Z.of_nat n) || zero_timeout timeout) eqn:Hgo; [|left; by eexists].
  destruct (Z.eqb_spec (Z.of_nat n) 0) as [Hz|Hz].
  { right; left. exists 5%nat. split; [done|]. rewrite Hz in Hgo.
    apply orb_true_iff in Hgo as [?|?]; [left; lia|by right]. }
  destruct (Z.leb_spec max (Z.of_nat n)); [left; by eexists|].
  right; right. exists rt, evl. split_and!; [done|done|lia|lia|done].
Qed.

Lemma wp_may_ringio_system p k all free out min_nr max timeout F w :
  system p k all free out w →
  wp_may (ringio_get_events (k_ctx k) min_nr max (k_events k) timeout)
     (reap_post p k all free out max w) F (waits (k_ctx k) min_nr w) w.
Proof.
  intros Hs. unfold wp_may.
  destruct (ringio_cases p k all free out min_nr max timeout w Hs)
    as [(n & ->)|[(n & -> & _)|(rt & evl & Hev & Hrt & Hpos & Hmax & ->)]].
  - destruct (with_trace_reads (k_ctx k) n w) as (es & -> & Hes & Ho & Hre).
    by apply (wp_io_getevents_system p k all free out min_nr max timeout es F w Hs).
  - destruct (with_trace_reads (k_ctx k) n w) as (es & -> & Hes & Ho & Hre).
    right. exists []. split_and!; [done|lia|]. by apply reap_nil.
  - right. exists (ring_pending rt). split_and!; [done|lia|].
    by apply (reaped_reap p k all free out rt evl 4 w Hs Hev Hrt).
Qed.

(** With enough requests in flight the call returns. *)
Lemma wp_ringio_system p k all free out min_nr max timeout w :
  system p k all free out w → min_nr ≤ Z.of_nat (length (owned (k_ctx k) (trace w))) →
  wp (ringio_get_events (k_ctx k) min_nr max (k_events k) timeout)
     (reap_post p k all free out max w) w.
Proof.
  intros Hs Hmin. eapply wp_of_may; [by apply wp_may_ringio_system|].
  intros w' [_ Ho Hfew]. rewrite Ho in Hfew. lia.
Qed.

Lemma system_owned_nodup p k all free out w :
  system p k all free out w → NoDup (owned (k_ctx k) (trace w)).
Proof.
  intros Hs. destruct (system_perm _ _ _ _ _ _ Hs) as (Hperm & Hnd & _).
  rewrite <-Hperm in Hnd. apply list.NoDup_app in Hnd as (_ & _ & Hnd).
  by apply list.NoDup_app in Hnd as (_ & _ & Hnd).
Qed.

(** With a request in flight, the blocking call makes progress: an event, an
    error, or one of the interruptions of which there are finitely many. *)
Lemma wp_ringio_progress bound `{!KernelProgress E bound} p k all free out max w :
  system p k all free out w → 1 ≤ max → owned (k_ctx k) (trace w) ≠ [] →
  wp (ringio_get_events (k_ctx k) 1 max (k_events k) None) (λ r w',
    r = -4 ∧ interrupts (trace w') = S (interrupts (trace w)) ∧ (interrupts (trace w) < bound)%nat ∨
    r < 0 ∧ r ≠ -4 ∨
    1 ≤ r ∧ interrupts (trace w') = interrupts (trace w)) w.
Proof.
  intros Hs Hmax Hne. destruct (system_events _ _ _ _ _ _ Hs) as (evl & Hev & Hevl).
  destruct (system_perm _ _ _ _ _ _ Hs) as (Hperm & _ & Hlen).
  assert (0 < length (owned (k_ctx k) (trace w)))%nat as Hlo
    by (destruct (owned (k_ctx k) (trace w)); [done|simpl; lia]).
  apply (wp_of_may _ _ (λ _, False)); [|by intros w' []].
  unfold wp_may. destruct (ringio_cases p k all free out 1 max None w Hs)
    as [(n & ->)|[(n & -> & [?|?])|(rt & evl' & Hev' & Hrt & Hpos & Hmax' & ->)]]; [|lia|done|].
  - assert (interrupts (trace (after_reads (k_ctx k) n w)) = interrupts (trace w)) as Hi
      by apply interrupts_ring_reads.
    assert (owned (k_ctx k) (trace (after_reads (k_ctx k) n w)) = owned (k_ctx k) (trace w)) as Ho
      by apply owned_ring_reads.
    apply (wp_io_getevents _ _ _ _ _ evl); [done| | |].
    + intros e Ha. pose proof (ke_error _ _ _ _ _ _ Ha). destruct (decide (e = -4)) as [->|?].
      * left. cbn [trace log interrupts interrupted]. rewrite Hi.
        apply (kp_interrupts (bound := bound)) in Ha. rewrite Hi in Ha. done.
      * right; left. lia.
    + intros l Ha. destruct (ke_events _ _ _ _ _ _ Ha) as (_ & Hsub & _). rewrite Ho in Hsub.
      apply submseteq_length in Hsub. rewrite length_fmap in Hsub.
      split.
      * apply Permutation_length in Hperm. rewrite !length_app in Hperm. lia.
      * right; right. cbn [trace log put upd_heap interrupts interrupted]. rewrite Hi.
        split; [|done].
        eapply (kp_wait (bound := bound)); [exact Ha| | |done]; rewrite Ho; [|lia].
        by eapply system_owned_nodup.
    + intros Ha. destruct (ke_wait _ _ _ _ _ Ha) as [_ Hfew]. rewrite Ho in Hfew. lia.
  - right; right. split; [lia|]. unfold reaped. cbn [trace log interrupts interrupted Nat.add].
    cbn [put upd_heap trace after_reads with_trace]. by rewrite !interrupts_ring_reads.
Qed.
End reap.

(** ** Exceptions change neither the memory nor the resources *)
Section thrown.
Context {E : Env}.

Lemma errno_thrown_exceptions cls msg e t :
  exceptions (errno_thrown cls msg e t) =
  (cls, if answer t AsprintfFails then None else Some (msg +:+ strerror (Z.abs e))) :: exceptions t.
Proof. unfold errno_thrown. by destruct (answer t AsprintfFails). Qed.
Lemma errno_thrown_effects cls msg e t :
  effects (errno_thrown cls msg e t) =
  EThrow cls (if answer t AsprintfFails then None else Some (msg +:+ strerror (Z.abs e))) :: effects t.
Proof. unfold errno_thrown. by destruct (answer t AsprintfFails). Qed.
Lemma errno_thrown_owned ctx cls msg e t : owned ctx (errno_thrown cls msg e t) = owned ctx t.
Proof. unfold errno_thrown. by destruct (answer t AsprintfFails). Qed.
Lemma errno_thrown_reports ctx cls msg e t : reports ctx (errno_thrown cls msg e t) = reports ctx t.
Proof. unfold errno_thrown. by destruct (answer t AsprintfFails). Qed.
Lemma errno_thrown_ctxs cls msg e t : live_ctxs (errno_thrown cls msg e t) = live_ctxs t.
Proof. unfold errno_thrown. by destruct (answer t AsprintfFails). Qed.
Lemma errno_thrown_refs cls msg e t : live_refs (errno_thrown cls msg e t) = live_refs t.
Proof. unfold errno_thrown. by destruct (answer t AsprintfFails). Qed.

Lemma system_thrown p k all free out base cls msg e w w' :
  same_mem w w' → trace w' = errno_thrown cls msg e (trace w) →
  system p k all free out w → refs_ok k out base w →
  system p k all free out w' ∧ refs_ok k out base w' ∧
  owned (k_ctx k) (trace w') = owned (k_ctx k) (trace w).
Proof.
  intros Hm Ht Hs Hr. split_and!.
  - eapply system_same; [done|..|done]; by rewrite Ht, ?errno_thrown_owned, ?errno_thrown_ctxs.
  - eapply refs_ok_same; [done|..|done]; by rewrite Ht, ?errno_thrown_owned, ?errno_thrown_refs.
  - by rewrite Ht, errno_thrown_owned.
Qed.
End thrown.

(** *** References of the iocb in hand *)
Section refs_ok.
Implicit Types (w : world) (k : ctl) (out base : list Z).

Lemma refs_ok_created k out base w obj r :
  refs_ok k out base w →
  refs_ok k out ((if r =? NULL then [] else [r]) ++ base) (log (NewGlobalRef obj) r w).
Proof.
  unfold refs_ok. cbn [trace log]. rewrite owned_quiet by done. cbn [live_refs ref_created ref_deleted ev_call].
  intros Hr. change (refs (log (NewGlobalRef obj) r w)) with (refs w).
  destruct (r =? NULL); simpl; [done|]. by rewrite Hr, Permutation_middle.
Qed.

Lemma refs_ok_deleted k out base w r :
  refs_ok k out (r :: base) w → refs_ok k out base (log (DeleteGlobalRef r) tt w).
Proof.
  unfold refs_ok. cbn [trace log]. rewrite owned_quiet by done. cbn [live_refs ref_created ref_deleted ev_call].
  intros Hr. apply remove1_cons_perm. by rewrite Hr, <-Permutation_middle.
Qed.

(** Moving a reference between an iocb and the hands of the caller. *)
Lemma refs_ok_take k x out base w :
  refs_ok k (x :: out) base w ↔
  refs_ok k out ((if is_ref (data_of w x) then [data_of w x] else []) ++ base) w.
Proof.
  unfold refs_ok. cbn [app]. rewrite refs_cons.
  rewrite <-(app_assoc _ (refs w _)), (app_assoc _ _ base), (Permutation_app_comm _ (refs w _)).
  by rewrite <-app_assoc.
Qed.

(** Writing the iocb in hand. *)
Lemma refs_ok_put k x (b : iocb) out base w :
  x ∉ out ++ owned (k_ctx k) (trace w) →
  refs_ok k out base (put x b w) ↔ refs_ok k out base w.
Proof. intros Hx. unfold refs_ok. cbn [trace put upd_heap]. by rewrite (refs_put_out w x b). Qed.
End refs_ok.

(** ** The memory of a context *)

(** [w'] differs from [w] in the contents of the blocks [ps] only. *)
Record frame (ps : list Z) (w w' : world) : Prop := Frame {
  fr_heap q : q ∉ ps → heap w' !! q = heap w !! q;
  fr_glob : glob w' = glob w;
  fr_brk : brk w ≤ brk w'
}.

#[export] Instance frame_preorder ps : PreOrder (frame ps).
Proof.
  split; [by split|]. intros w1 w2 w3 [H1 G1 B1] [H2 G2 B2]. split; [|congruence|lia].
  intros q Hq. by rewrite H2, H1.
Qed.

(** The blocks of a context. *)
Definition blocks (p : Z) (k : ctl) (all : list Z) : list Z := k_events k :: all ++ [k_pool k; p].
Definition pool_at (k : ctl) (arr : list Z) (w : world) : Prop := w ⊨ k_pool k ↦ arr.

Section memory.
Context {E : Env}.
Implicit Types (w : world) (p : Z) (k : ctl) (all free out ps : list Z).

Lemma frame_log {T : Set} ps w (c : syscall T) r : frame ps w (log c r w).
Proof. split; simpl; [done|done|lia]. Qed.

Lemma frame_put {T : Set} `{Storable T} ps w p (x : T) : p ∈ ps → frame ps w (put p x w).
Proof.
  intros Hp. split; simpl; [|done|lia]. intros q Hq. rewrite lookup_insert_ne; [done|].
  by intros ->.
Qed.

Lemma frame_only_at ps qs w w' : (∀ q, q ∈ qs → q ∈ ps) → only_at qs w w' → frame ps w w'.
Proof. intros Hqs (Hb & Hg & _ & Hh). split; [auto|done|lia]. Qed.

Lemma blocks_elem p k all : k_events k ∈ blocks p k all ∧ k_pool k ∈ blocks p k all ∧
  p ∈ blocks p k all ∧ ∀ x, x ∈ all → x ∈ blocks p k all.
Proof.
  unfold blocks. split_and!; [apply list_elem_of_here|..].
  - apply list_elem_of_further, elem_of_app. right. apply list_elem_of_here.
  - apply list_elem_of_further, elem_of_app. right. apply list_elem_of_further, list_elem_of_here.
  - intros x Hx. apply list_elem_of_further, elem_of_app. by left.
Qed.

Lemma system_blocks p k all free out w q :
  system p k all free out w → q ∈ blocks p k all → is_Some (heap w !! q).
Proof.
  intros (c & arr & evl & [_ [Hc Ha _ _] He _ _ _ _ Hi _] & <-) Hq. unfold blocks in Hq. ctl_simpl.
  apply elem_of_cons in Hq as [->|Hq]; [by eexists|].
  apply elem_of_app in Hq as [Hq|Hq]; [destruct (Hi q Hq) as (_ & b & Hb); by eexists|].
  apply elem_of_cons in Hq as [->|Hq]; [by eexists|].
  apply list_elem_of_singleton in Hq as ->. by eexists.
Qed.

(** The blocks are still the ones allocated since [w0]. *)
Lemma extends_frame p k all free out w0 w w' :
  extends w0 w (blocks p k all) → frame (blocks p k all) w w' → system p k all free out w' →
  extends w0 w' (blocks p k all).
Proof.
  intros [Hok Hh Hn Hnd Hg Hb] [Fh Fg Fb] Hs. split; try done.
  - by eapply system_heap_ok.
  - intros q Hq. by rewrite Fh, Hh.
  - intros q Hq. destruct (Hn q Hq) as (? & ? & _). split_and!; [done|done|].
    by eapply system_blocks.
  - by rewrite Fg.
  - lia.
Qed.

(** When every iocb is free, the array of the pool holds each of them. *)
Lemma system_full p k all free out w :
  system p k all free out w → length free = length all →
  ∃ arr, pool_at k arr w ∧ arr ≡ₚ free.
Proof.
  intros (c & arr & evl & [_ [Hc Ha _ [Hsz Hlen Hu Hup Hg Hp Hw]] _ _ _ _ Hal _ _] & <-) Hlf.
  exists arr. split; [done|].
  replace (length free) with (length arr) in Hw by lia. rewrite <-Hw.
  symmetry. apply window_full_perm. lia.
Qed.

Lemma wp_get_frame p k all free out w :
  system p k all free out w →
  wp (getIOCB p) (λ _ w', only_at [p] w w') w.
Proof.
  intros (c & arr & evl & [_ Hp _ _ _ _ _ _ _] & _).
  eapply wp_mono; [by eapply getIOCB_spec|]. by intros r w' (_ & c' & _ & _ & _ & Ho).
Qed.

Lemma wp_put_frame p k all free x out w :
  system p k all free (x :: out) w →
  wp (putIOCB p x) (λ _ w', only_at [p; k_pool k] w w') w.
Proof.
  intros (c & arr & evl & Hs & <-). pose proof (sys_used _ _ _ _ _ _ _ _ Hs) as Hu.
  destruct Hs as [_ Hp _ _ _ _ _ _ _].
  eapply wp_mono; [eapply putIOCB_spec; [done|simpl in Hu; lia]|].
  by intros r w' (c' & arr' & _ & _ & _ & Ho).
Qed.
End memory.
