(* ===== verification/Demo.v ===== *)
(** * Two live contexts to evaluate on

    Concrete states, for the witnesses: a fresh context with a queue of two iocbs,
    and the same context with a write and the wake-up write in flight. *)

From S2P Require Export Sim System.

(** Every submission is accepted and every request completes with 512 bytes; the
    control block is the direct buffer of every Java object. *)
Definition demo_sim : sim :=
  SimK 1 (λ _, 512) (Some 10) (λ _, false) (λ _, 0) 0 None 3 (λ _ n, n).
(** The same, with requests that fail with errno 5. *)
Definition failing_sim : sim :=
  SimK 1 (λ _, -5) (Some 10) (λ _, false) (λ _, 0) 0 None 3 (λ _ n, n).
(** The same, with a kernel that refuses every submission. *)
Definition refusing_sim : sim :=
  SimK (-11) (λ _, 512) (Some 10) (λ _, false) (λ _, 0) 0 None 3 (λ _ n, n).

#[export] Instance demo_sim_ok : SimOk demo_sim.
Proof. split; simpl; [by left|done..]. Qed.
(** A JVM whose buffers have the address they were made with. *)
Definition making_sim : sim := SimK 1 (λ _, 512) None (λ _, false) (λ _, 0) 0 None 3 (λ _ n, n).
(** The same, without memory after some calls. *)
Definition starving_sim : sim :=
  SimK 1 (λ _, 512) None (λ h, (4 <=? length h)%nat) (λ _, 0) 0 None 3 (λ _ n, n).

#[export] Instance making_sim_ok : SimOk making_sim.
Proof. split; simpl; [by left|done..]. Qed.
#[export] Instance starving_sim_ok : SimOk starving_sim.
Proof. split; simpl; [by left|done..]. Qed.
#[export] Instance failing_sim_ok : SimOk failing_sim.
Proof. split; simpl; [by left|done..]. Qed.
#[export] Instance refusing_sim_ok : SimOk refusing_sim.
Proof. split; simpl; [by right|done..]. Qed.

Definition demo_globals : globals :=
  Globals 0 3 "/tmp/artemisJLHandler_000000" 0 MFree 201 301 302 303 202 203 204.

Definition demo_control : io_control := IoControl 5000 30 900 MFree MFree 20 2 0 0 0.
Definition demo_ctl : ctl := Ctl 5000 30 900 20 2 MFree.
Definition demo_heap (c : io_control) (b1 b2 : iocb) : gmap Z block :=
  {[ 10 := BControl c; 20 := BPtrs [40; 41]; 30 := BEvents [no_event; no_event];
     40 := BIocb b1; 41 := BIocb b2 ]}.
Definition demo_history : history :=
  [Ev (NewGlobalRef 1) 900; Ev (IoQueueInit 2) (0, Some 5000)].

(** A loaded library, before any context. *)
Definition start_world : world := World ∅ 100 demo_globals [].

Lemma start_heap_ok : heap_ok start_world.
Proof. by split. Qed.

Definition demo_world : world :=
  World (demo_heap demo_control (Iocb 0 0 0 0 0 0) (Iocb 0 0 0 0 0 0)) 100 demo_globals demo_history.

(** A write to file 7 with a callback, and the write that wakes the poller. *)
Definition write_iocb : iocb := Iocb 2002 7 1 10 512 0.
Definition dumb_iocb : iocb := Iocb MINUS_ONE 3 1 0 0 0.
Definition busy_world : world :=
  World (demo_heap (set_used 2 demo_control) write_iocb dumb_iocb) 100 demo_globals
    (Ev (IoSubmit 5000 41 dumb_iocb) 1 :: Ev (IoSubmit 5000 40 write_iocb) 1
       :: Ev (NewGlobalRef 77) 2002 :: demo_history).

Lemma demo_heap_ok c b1 b2 g t : heap_ok (World (demo_heap c b1 b2) 100 g t).
Proof.
  split; [done|]. intros p b Hp. simpl in *. unfold demo_heap in Hp.
  repeat (apply lookup_insert_Some in Hp as [[<- _]|[_ Hp]]; [lia|]).
  apply lookup_singleton_Some in Hp as [<- _]. lia.
Qed.

Lemma demo_iocb c b1 b2 g t x :
  x ∈ [40; 41] → x ≠ NULL ∧ ∃ b : iocb, World (demo_heap c b1 b2) 100 g t ⊨ x ↦ b.
Proof.
  intros Hx. repeat (apply elem_of_cons in Hx as [->|Hx]; [split; [done|by eexists]|]).
  by apply elem_of_nil in Hx.
Qed.

Lemma demo_system : system 10 demo_ctl [40; 41] [40; 41] [] demo_world.
Proof.
  exists demo_control, [40; 41], [no_event; no_event]. split; [|done]. split; try done.
  - apply demo_heap_ok.
  - apply (bool_decide_unpack _). by vm_compute.
  - intros x. apply demo_iocb.
  - simpl. set_solver.
Qed.

Lemma busy_system : system 10 demo_ctl [40; 41] [] [] busy_world.
Proof.
  exists (set_used 2 demo_control), [40; 41], [no_event; no_event]. split; [|done]. split; try done.
  - apply demo_heap_ok.
  - simpl. by rewrite Permutation_swap.
  - apply (bool_decide_unpack _). by vm_compute.
  - intros x. apply demo_iocb.
  - simpl. set_solver.
Qed.

Lemma demo_refs : refs_ok demo_ctl [] [900] demo_world.
Proof. unfold refs_ok. apply (bool_decide_unpack _). by vm_compute. Qed.
Lemma busy_refs : refs_ok demo_ctl [] [900] busy_world.
Proof. unfold refs_ok. apply (bool_decide_unpack _). by vm_compute. Qed.

Lemma demo_buffer s : s_addr s = Some 10 → DirectBuffer (sim_env s) 55 10.
Proof. intros Hs. split. intros h. simpl. by rewrite Hs. Qed.
