(* ===== verification/Submit.v ===== *)
(** * Submitting I/O

    [getIOControl], [submit] and the two entry points [submitWrite] and
    [submitRead] of LibaioContext. *)

From S2P Require Export Errors IocbPool Trace System Demo.

Section submit_code.
Context {E : Env}.

Definition getIOControl (pointer : Z) : cprog Z :=
  let* ioControl := call (GetDirectBufferAddress pointer) in
  (if ioControl =? NULL
   then throwRuntimeException "Controller not initialized" else Ret tt) ;;
  Ret ioControl.

Definition getBuffer (pointer : Z) : cprog Z := call (GetDirectBufferAddress pointer).

(** libaio's calls, on the [iocb] at [p]. *)
Definition io_prep_pwrite (p fd buf count offset : Z) : cprog unit :=
  store p (λ x : iocb, io_prep_pwrite_env x fd buf count offset).
Definition io_prep_pread (p fd buf count offset : Z) : cprog unit :=
  store p (λ x : iocb, io_prep_pread_env x fd buf count offset).
(** [io_submit(ctx, 1, &p)] *)
Definition io_submit (ctx p : Z) : cprog Z :=
  let* cb := load p (λ x : iocb, x) in
  call (IoSubmit ctx p cb).

Definition submit (theControl iocb : Z) : cprog Z :=
  let* ctx := theControl ->> ioContext in
  let* result := io_submit ctx iocb in
  if result <? 0 then
    let* d := iocb ->> data in
    (if is_ref d then call (DeleteGlobalRef d) else Ret tt) ;;
    putIOCB theControl iocb ;;
    let* errno := int_ (- result) in
    throwIOExceptionErrorNo "Error while submitting IO: " errno ;;
    Ret 0
  else Ret 1.

Definition submitWrite (fileHandle contextPointer position size bufferWrite callback : Z)
    : cprog unit :=
  let* theControl := getIOControl contextPointer in
  if theControl =? NULL then Ret tt else
  let* iocb := getIOCB theControl in
  if iocb =? NULL then throwIOException "Not enough space in libaio queue" else
  let* buf := getBuffer bufferWrite in
  io_prep_pwrite iocb fileHandle buf (u64 size) position ;;
  let* ref := call (NewGlobalRef callback) in
  store iocb (set_data ref) ;;
  submit theControl iocb ;;
  Ret tt.

Definition submitRead (fileHandle contextPointer position size bufferRead callback : Z)
    : cprog unit :=
  let* theControl := getIOControl contextPointer in
  if theControl =? NULL then Ret tt else
  let* iocb := getIOCB theControl in
  if iocb =? NULL then throwIOException "Not enough space in libaio queue" else
  let* buf := getBuffer bufferRead in
  io_prep_pread iocb fileHandle buf (u64 size) position ;;
  let* ref := call (NewGlobalRef callback) in
  store iocb (set_data ref) ;;
  submit theControl iocb ;;
  Ret tt.
End submit_code.

(** ** The submission of a request *)

(** [submitWrite] and [submitRead] are one program, for the two calls of libaio
    that prepare a request. *)
Definition request `{Env} (prep : iocb → Z → Z → Z → Z → iocb)
    (fileHandle contextPointer position size buffer callback : Z) : cprog unit :=
  let* theControl := getIOControl contextPointer in
  if theControl =? NULL then Ret tt else
  let* iocb := getIOCB theControl in
  if iocb =? NULL then throwIOException "Not enough space in libaio queue" else
  let* buf := getBuffer buffer in
  store iocb (λ x, prep x fileHandle buf (u64 size) position) ;;
  let* ref := call (NewGlobalRef callback) in
  store iocb (set_data ref) ;;
  submit theControl iocb ;;
  Ret tt.

Section submit_wp.
Context {E : Env}.
Implicit Types (w : world) (p : Z) (k : ctl) (all free out base : list Z).

Lemma wp_getIOControl_at ptr p (Q : Z → world → Prop) w :
  answer (trace w) (GetDirectBufferAddress ptr) = p → p ≠ NULL →
  Q p (log (GetDirectBufferAddress ptr) p w) → wp (getIOControl ptr) Q w.
Proof.
  intros Hd Hp HQ. unfold getIOControl. wp_step. rewrite Hd.
  rewrite (proj2 (Z.eqb_neq _ _) Hp). by wp_steps.
Qed.

Lemma wp_getIOControl ptr p (Q : Z → world → Prop) w :
  DirectBuffer E ptr p → p ≠ NULL →
  Q p (log (GetDirectBufferAddress ptr) p w) → wp (getIOControl ptr) Q w.
Proof. intros [Hd]. by apply wp_getIOControl_at. Qed.

(** An entry point given a null context throws and does nothing else. *)
Lemma wp_getIOControl_null ptr (Q : Z → world → Prop) w :
  answer (trace w) (GetDirectBufferAddress ptr) = NULL →
  Q NULL (log (ThrowNew (runtimeExceptionClass (glob w)) (Some "Controller not initialized"%string)) tt
            (log (GetDirectBufferAddress ptr) NULL w)) →
  wp (getIOControl ptr) Q w.
Proof.
  intros Hd HQ. unfold getIOControl. wp_step. rewrite Hd. rewrite Z.eqb_refl.
  unfold throwRuntimeException. wp_steps. by rewrite (unit_eta (answer _ _)).
Qed.

Lemma system_submitted p k all free x out b w :
  system p k all free (x :: out) w →
  system p k all free out (log (IoSubmit (k_ctx k) x b) 1 w).
Proof.
  intros (c & arr & evl & [Hh [Hpc Hpa Hl Hr] ? ? Hperm ? ? ? ?] & <-). exists c, arr, evl.
  split; [|done]. ctl_simpl. split; try done. cbn [trace log].
  rewrite owned_submit. simpl. rewrite <-Hperm. f_equiv. by rewrite <-Permutation_middle.
Qed.

Lemma refs_ok_submitted k x out base b w :
  refs_ok k (x :: out) base w →
  refs_ok k out base (log (IoSubmit (k_ctx k) x b) 1 w).
Proof.
  unfold refs_ok. cbn [trace log]. rewrite owned_submit. intros Hr.
  change (refs (log _ _ w)) with (refs w). simpl app at 2.
  etrans; [exact Hr|]. f_equiv. f_equiv. by rewrite <-Permutation_middle.
Qed.

Context {KS : KernelSubmit E}.

(** What [submit] does with an iocb that is in hand: the kernel gets it, or it
    is back in the pool, its reference is deleted and an exception is pending. *)
Definition submitted_post p k all free x out base b w (r : Z) w' : Prop :=
  glob w' = glob w ∧ refs_ok k out base w' ∧
  (r = 1 ∧ system p k all free out w' ∧ w' = log (IoSubmit (k_ctx k) x b) 1 w ∨
   r = 0 ∧ system p k all (free ++ [x]) out w' ∧
   owned (k_ctx k) (trace w') = owned (k_ctx k) (trace w) ∧
   ∃ msg, exceptions (trace w') = (ioExceptionClass (glob w), msg) :: exceptions (trace w)).

(** The reference of an iocb in hand is deleted, if there is one. *)
Lemma wp_drop_ref p k all free x out base b (Q : unit → world → Prop) w :
  system p k all free (x :: out) w → refs_ok k (x :: out) base w → w ⊨ x ↦ b →
  (∀ w', system p k all free (x :: out) w' → refs_ok k out base w' →
     glob w' = glob w → same_mem w w' →
     owned (k_ctx k) (trace w') = owned (k_ctx k) (trace w) →
     exceptions (trace w') = exceptions (trace w) → Q tt w') →
  wp (if is_ref (data b) then call (DeleteGlobalRef (data b)) else Ret tt) Q w.
Proof.
  intros Hs Hr Hb HQ. apply refs_ok_take in Hr. rewrite (data_of_has _ _ _ Hb) in Hr.
  destruct (is_ref (data b)) eqn:Hi.
  - apply wp_call. rewrite (unit_eta (answer _ _)). apply HQ; try done.
    + by apply system_log.
    + by apply refs_ok_deleted.
  - apply wp_ret. by apply HQ.
Qed.

Lemma wp_submit p k all free x out base b w :
  system p k all free (x :: out) w → refs_ok k (x :: out) base w → w ⊨ x ↦ b →
  wp (submit p x) (submitted_post p k all free x out base b w) w.
Proof.
  intros Hs Hr Hb. destruct (system_control _ _ _ _ _ _ Hs) as (c & Hc & Hk).
  assert (ioContext c = k_ctx k) as Hctx by by subst k.
  unfold submit. wp_step. rewrite Hctx. apply wp_bind. unfold io_submit. do 2 wp_step.
  set (e := answer (trace w) _) in *. apply wp_if; intros He'.
  - (* the kernel refuses *)
    destruct (ks_result (trace w) (k_ctx k) x b) as [He|He]; fold e in He; [lia|].
    assert (quiet (k_ctx k) (trace w) (Ev (IoSubmit (k_ctx k) x b) e)) as Hq.
    { split; [|done]. rewrite owned_submit. by rewrite (proj2 (Z.leb_gt 0 e)) by lia. }
    eapply wp_bind, wp_load; [by apply has_log|]. cbv beta. apply wp_bind.
    eapply (wp_drop_ref p k all free x out base b); [by apply system_log|by apply refs_ok_log|done|].
    intros w2 Hs2 Hr2 Hg2 Hm2 Ho2 Hx2. cbn [trace log] in Ho2. rewrite (proj1 Hq) in Ho2.
    eapply wp_seq; [by apply wp_system_put|]. intros [] w3 [Hs3 Hi3].
    apply wp_bind, wp_int; [unfold INT_MIN, INT_MAX; lia|].
    eapply wp_seq; [apply wp_throwIOExceptionErrorNo; [unfold INT_MIN, INT_MAX; lia|by eapply system_heap_ok]|].
    intros [] w4 [Hm4 Ht4]. apply wp_ret.
    assert (refs_ok k out base w3) as Hr3 by by eapply refs_ok_iocbs.
    destruct (system_thrown _ _ _ _ _ _ _ _ _ _ _ Hm4 Ht4 Hs3 Hr3) as (Hs4 & Hr4 & Ho4).
    pose proof Hi3 as [Ht3 Hg3 _ _]. split_and!; [|done|].
    + rewrite (same_glob _ _ Hm4), Hg3, Hg2. done.
    + right. split_and!; [done|done|by rewrite Ho4, Ht3, Ho2|].
      eexists. rewrite Ht4, errno_thrown_exceptions, Ht3, Hx2, Hg3, Hg2. done.
  - (* the kernel accepts *)
    destruct (ks_result (trace w) (k_ctx k) x b) as [He|He]; fold e in He; [|lia].
    apply wp_ret. rewrite He. split_and!; [done|by apply refs_ok_submitted|].
    left. split_and!; [done|by apply system_submitted|done].
Qed.

Context {JR : JniRefs E}.

(** What a request leaves behind.  With no free iocb: an exception.  Otherwise
    the oldest free iocb [x] is used: the kernel has it, filled for the request,
    with a new reference to the callback as its [data]; or everything is as
    before, [x] last in the queue, and an exception is pending. *)
Definition request_post (opcode fd ptr pos size buffer callback p : Z) k all free out base w w' : Prop :=
  glob w' = glob w ∧ refs_ok k out base w' ∧
  match free with
  | [] =>
      system p k all [] out w' ∧
      owned (k_ctx k) (trace w') = owned (k_ctx k) (trace w) ∧
      exceptions (trace w') = (ioExceptionClass (glob w), Some "Not enough space in libaio queue"%string)
                                :: exceptions (trace w)
  | x :: free' =>
      (∃ buf ref, let b' := Iocb ref fd opcode buf (u64 size) pos in
         system p k all free' out w' ∧ w' ⊨ x ↦ b' ∧
         trace w' = Ev (IoSubmit (k_ctx k) x b') 1 :: Ev (NewGlobalRef callback) ref
                      :: Ev (GetDirectBufferAddress buffer) buf
                      :: Ev (GetDirectBufferAddress ptr) p :: trace w) ∨
      (system p k all (free' ++ [x]) out w' ∧
       owned (k_ctx k) (trace w') = owned (k_ctx k) (trace w) ∧
       ∃ msg, exceptions (trace w') = (ioExceptionClass (glob w), msg) :: exceptions (trace w))
  end.

(** The state just before [submit]: the iocb in hand is filled, and holds the
    new reference. *)
Definition prepared (callback buffer buf ref x : Z) (b : iocb) w : world :=
  log (NewGlobalRef callback) ref (log (GetDirectBufferAddress buffer) buf (put x b w)).

Lemma request_prepared callback buffer buf ref x b p k all free out base w :
  system p k all free (x :: out) w → refs_ok k out base w →
  ref ≠ MINUS_ONE → data b = ref →
  let w' := prepared callback buffer buf ref x b w in
  w' ⊨ x ↦ b ∧ system p k all free (x :: out) w' ∧ refs_ok k (x :: out) base w'.
Proof.
  intros Hs Hr Hm Hd w'. destruct (system_fresh _ _ _ _ _ _ _ Hs) as [Hxa Hxo].
  assert (w' ⊨ x ↦ b) as Hb by apply has_put_eq. split_and!; [done|..].
  - do 2 (apply system_log; [done|]). by apply system_put_iocb.
  - apply refs_ok_take. rewrite (data_of_has _ _ _ Hb), Hd.
    assert ((if is_ref ref then [ref] else []) = (if ref =? NULL then [] else [ref])) as ->.
    { unfold is_ref. rewrite (proj2 (Z.eqb_neq ref MINUS_ONE)) by done. by destruct (ref =? NULL). }
    apply refs_ok_created, refs_ok_log; [done|done|]. by apply refs_ok_put.
Qed.

Lemma wp_request prep opcode fd ptr pos size buffer callback p k all free out base w :
  (∀ x buf n off, prep x fd buf n off = Iocb (data (prep x fd buf n off)) fd opcode buf n off) →
  DirectBuffer E ptr p → system p k all free out w → refs_ok k out base w →
  wp (request prep fd ptr pos size buffer callback)
     (λ _ w', request_post opcode fd ptr pos size buffer callback p k all free out base w w') w.
Proof.
  intros Hprep Hd Hs Hr. pose proof (system_ptr _ _ _ _ _ _ Hs) as Hp.
  unfold request. apply wp_bind, (wp_getIOControl ptr p); [done|done|].
  rewrite (proj2 (Z.eqb_neq _ _) Hp).
  set (w0 := log _ p w).
  assert (system p k all free out w0) as Hs0 by by apply system_log.
  assert (refs_ok k out base w0) as Hr0 by by apply refs_ok_log.
  destruct free as [|x free].
  { eapply wp_seq; [by eapply wp_system_get_empty|]. intros r w' [-> ->].
    rewrite Z.eqb_refl. unfold throwIOException. wp_steps.
    split_and!; [done|by apply refs_ok_log|by apply system_log|done|done]. }
  eapply wp_seq; [by eapply wp_system_get|]. intros r w1 (-> & Hs1 & Hi1).
  destruct (system_iocb_out _ _ _ _ _ _ x Hs1) as (Hx & b & Hb); [set_solver|].
  rewrite (proj2 (Z.eqb_neq _ _) Hx).
  assert (refs_ok k out base w1) as Hr1 by by eapply refs_ok_iocbs.
  unfold getBuffer. wp_step. set (buf := answer _ (GetDirectBufferAddress buffer)).
  eapply wp_bind, wp_store; [by apply has_log|]. cbv beta.
  set (b1 := prep b fd buf (u64 size) pos). wp_step. cbn [trace put upd_heap log].
  set (ref := answer _ (NewGlobalRef callback)).
  eapply wp_bind, wp_store; [apply has_log, has_put_eq|]. cbv beta.
  set (w2 := put x (set_data ref b1) _).
  assert (w2 = prepared callback buffer buf ref x (set_data ref b1) w1) as Hw2.
  { unfold w2, prepared, put, upd_heap, log. simpl. by rewrite insert_insert_eq. }
  clearbody w2. subst w2.
  edestruct (request_prepared callback buffer buf ref x (set_data ref b1)) as (Hb2 & Hs2 & Hr2);
    [done|done|exact (jr_pointer _ callback)|done|].
  set (w2 := prepared _ _ _ _ _ _ w1) in *.
  eapply wp_seq; [by apply (wp_submit p k all free x out base)|].
  intros r w3 (Hg3 & Hr3 & [(-> & Hs3 & ->)|(-> & Hs3 & Ho3 & msg & Hx3)]); apply wp_ret.
  - split_and!; [by rewrite Hg3; apply (si_glob _ _ Hi1)|done|].
    left. exists buf, ref.
    assert (set_data ref b1 = Iocb ref fd opcode buf (u64 size) pos) as <- by (unfold b1; by rewrite Hprep).
    split_and!; [done|done|]. simpl. by rewrite (si_trace _ _ Hi1).
  - assert (glob w2 = glob w) as Hg2 by apply (si_glob _ _ Hi1).
    assert (trace w1 = trace w0) as Ht1 by apply (si_trace _ _ Hi1).
    split_and!; [by rewrite Hg3|done|]. right. rewrite Hg2 in Hx3.
    split_and!; [done| |exists msg]; [rewrite Ho3|rewrite Hx3]; simpl; by rewrite Ht1.
Qed.

Context {IP : IoPrep E}.

(** C4.  [submitWrite] on a live context.  With no free iocb it throws
    "Not enough space in libaio queue" and changes nothing.  Otherwise it uses
    the oldest free iocb: either the kernel has accepted it, as a write of
    [size] bytes of the buffer at [position] of the file whose [data] is a new
    global reference to the callback; or [io_submit] has failed, the reference
    is deleted again, the iocb is back in the pool and exactly one IOException
    is pending.  In each case every iocb is in one place and the live references
    are those of the requests in flight. *)
Theorem submitWrite_correct fd ptr pos size buffer callback p k all free out base w :
  DirectBuffer E ptr p → system p k all free out w → refs_ok k out base w →
  wp (submitWrite fd ptr pos size buffer callback)
     (λ _ w', request_post 1 fd ptr pos size buffer callback p k all free out base w w') w.
Proof. apply (wp_request io_prep_pwrite_env). intros. apply ip_pwrite. Qed.

(** C14.  The same for [submitRead], with a read. *)
Theorem submitRead_correct fd ptr pos size buffer callback p k all free out base w :
  DirectBuffer E ptr p → system p k all free out w → refs_ok k out base w →
  wp (submitRead fd ptr pos size buffer callback)
     (λ _ w', request_post 0 fd ptr pos size buffer callback p k all free out base w w') w.
Proof. apply (wp_request io_prep_pread_env). intros. apply ip_pread. Qed.
End submit_wp.

(** A write on a fresh context, and the refusal of one by the kernel. *)
Lemma submitWrite_witness :
  wp (submitWrite (E := sim_env demo_sim) 7 55 0 512 66 77)
    (λ _ w', request_post 1 7 55 0 512 66 77 10 demo_ctl [40; 41] [40; 41] [] [900] demo_world w')
    demo_world.
Proof.
  exact (submitWrite_correct (E := sim_env demo_sim) 7 55 0 512 66 77 10 demo_ctl [40; 41] [40; 41]
    [] [900] demo_world (demo_buffer demo_sim eq_refl) demo_system demo_refs).
Defined.

Lemma submitRead_witness :
  wp (submitRead (E := sim_env refusing_sim) 7 55 0 512 66 77)
    (λ _ w', request_post 0 7 55 0 512 66 77 10 demo_ctl [40; 41] [40; 41] [] [900] demo_world w')
    demo_world.
Proof.
  exact (submitRead_correct (E := sim_env refusing_sim) 7 55 0 512 66 77 10 demo_ctl [40; 41] [40; 41]
    [] [900] demo_world (demo_buffer refusing_sim eq_refl) demo_system demo_refs).
Defined.
