(* ===== verification/Poll.v ===== *)
(** * Polling for completions

    The two pollers of LibaioContext: [poll], which returns the callbacks of the
    events it finds, and [blockedPoll], the loop of the polling thread. *)

From S2P Require Export Ring Submit.

Definition EINTR : Z := 4.
Definition JNI_FALSE : Z := 0.
Definition JNI_TRUE : Z := 1.

Section poll_code.
Context {E : Env}.

(** The body of the loop of [poll], for the event [i]. *)
Definition poll_event (theControl callbacks i : Z) : cprog unit :=
  let* evs := theControl ->> events in
  let* event := load_elt (A := io_event) evs i in
  let iocbp := ev_obj event in
  let eventResult := i32 (ev_res event) in
  (if eventResult <? 0 then
     let* d := iocbp ->> data in
     if is_ref d then
       let* errno := int_ (- eventResult) in
       let* jstrError := call (NewStringUTF (strerror errno)) in
       let* d := iocbp ->> data in
       let* m := load_glob errorMethod in
       call (CallVoidMethod d m [errno; jstrError])
     else Ret tt
   else Ret tt) ;;
  let* d := iocbp ->> data in
  (if is_ref d then
     let* d := iocbp ->> data in
     call (SetObjectArrayElement callbacks i d) ;;
     let* d := iocbp ->> data in
     call (DeleteGlobalRef d)
   else Ret tt) ;;
  putIOCB theControl iocbp.

Definition poll (contextPointer callbacks min max : Z) : cprog Z :=
  let* theControl := getIOControl contextPointer in
  if theControl =? NULL then Ret 0 else
  let* ctx := theControl ->> ioContext in
  let* evs := theControl ->> events in
  let* result := ringio_get_events ctx min max evs None in
  for_ 0 result (poll_event theControl callbacks) ;;
  Ret result.

(** The warning printed on a record with no callback. *)
Definition duplicate_warning : string :=
  "Warning from ActiveMQ Artemis Native Layer: Your system is hitting duplicate / invalid records from libaio, which is a bug on the Linux Kernel you are using." +:+ nl +:+
  "You should set property org.apache.activemq.artemis.native.jlibaio.FORCE_SYSCALL=1" +:+ nl +:+
  "or upgrade to a kernel version that contains a fix".

(** The body of the loop of [blockedPoll] over a batch, for the event [i]: [None]
    is the [break] of the wake-up write, otherwise the value is [lastFile]. *)
Definition blocked_event (theControl useFdatasync i lastFile : Z) : cprog (option Z) :=
  let* evs := theControl ->> events in
  let* event := load_elt (A := io_event) evs i in
  let iocbp := ev_obj event in
  let* fildes := iocbp ->> aio_fildes in
  let* dumb := load_glob dumbWriteHandler in
  if fildes =? dumb then putIOCB theControl iocbp ;; Ret None else
  let* lastFile :=
    (if negb (useFdatasync =? 0) && negb (lastFile =? fildes)
     then call (Fdatasync fildes) ;; Ret fildes
     else Ret lastFile) in
  let eventResult := i32 (ev_res event) in
  (if eventResult <? 0 then
     let* errno := int_ (- eventResult) in
     let* jstrError := call (NewStringUTF (strerror errno)) in
     let* d := iocbp ->> data in
     if negb (d =? NULL) then
       let* m := load_glob errorMethod in
       call (CallVoidMethod d m [errno; jstrError])
     else Ret tt
   else Ret tt) ;;
  let* obj := iocbp ->> data in
  store iocbp (set_data NULL) ;;
  (if negb (obj =? NULL) then
     putIOCB theControl iocbp ;;
     let* this := theControl ->> thisObject in
     let* m := load_glob libaioContextDone in
     call (CallVoidMethod this m [obj]) ;;
     call (DeleteGlobalRef obj)
   else
     let* force := load_glob forceSysCall in
     (if force =? 0
      then call (Fprintf false duplicate_warning) ;; call FflushStdout
      else Ret tt) ;;
     store_glob (set_forceSysCall JNI_TRUE)) ;;
  Ret (Some lastFile).

(** The loop over a batch of which [n] events are left, from event [i]; its value
    is [running]. *)
Fixpoint blocked_events (n : nat) (i lastFile : Z) (theControl useFdatasync : Z) : cprog bool :=
  match n with
  | O => Ret true
  | S n =>
      let* o := blocked_event theControl useFdatasync i lastFile in
      match o with
      | None => Ret false
      | Some lastFile => blocked_events n (i + 1) lastFile theControl useFdatasync
      end
  end.

(** [while (running)]; [fuel] bounds the number of calls of [ringio_get_events]. *)
Fixpoint blocked_loop (fuel : nat) (theControl max useFdatasync : Z) : cprog unit :=
  match fuel with
  | O => NoFuel
  | S fuel =>
      let* ctx := theControl ->> ioContext in
      let* evs := theControl ->> events in
      let* result := ringio_get_events ctx 1 max evs None in
      if result =? - EINTR then blocked_loop fuel theControl max useFdatasync
      else if result <? 0 then
        let* errno := int_ (- result) in
        throwIOExceptionErrorNo "Error while calling io_getevents IO: " errno
      else
        let* running := blocked_events (Z.to_nat result) 0 (-1) theControl useFdatasync in
        if running then blocked_loop fuel theControl max useFdatasync else Ret tt
  end.

Definition blockedPoll (fuel : nat) (contextPointer useFdatasync : Z) : cprog unit :=
  let* theControl := getIOControl contextPointer in
  if theControl =? NULL then Ret tt else
  let* max := theControl ->> queueSize in
  pthread_mutex_lock (PollLock theControl) ;;
  blocked_loop fuel theControl max useFdatasync ;;
  pthread_mutex_unlock (PollLock theControl).
End poll_code.

(** ** What [poll] delivers *)

(** The effects of treating the event [e] as number [i]: [d] gives the [data] of an
    iocb, and [m] is the method [onError]. *)
Definition poll_effect (callbacks m : Z) (d : Z → Z) (i : Z) (e : io_event) : list effect :=
  let ref := d (ev_obj e) in
  let r := i32 (ev_res e) in
  if is_ref ref
  then (if r <? 0 then [EError ref m (- r)] else []) ++ [ESlot callbacks i ref; EDrop ref]
  else [].

(** The effects of treating [l], whose first event has number [i]. *)
Fixpoint poll_effects (callbacks m : Z) (d : Z → Z) (i : Z) (l : list io_event) : list effect :=
  match l with
  | [] => []
  | e :: l => poll_effect callbacks m d i e ++ poll_effects callbacks m d (i + 1) l
  end.

Section poll_wp.
Context {E : Env}.
Implicit Types (w : world) (p : Z) (k : ctl) (all free out base : list Z).

(** [w'] follows [w] with nothing changed but the pool, the references, and the
    new effects [es], latest first. *)
Record polled k (es : list effect) w w' : Prop := Polled {
  po_glob : glob w' = glob w;
  po_owned : owned (k_ctx k) (trace w') = owned (k_ctx k) (trace w);
  po_events evl : events_at k evl w → events_at k evl w';
  po_iocb x (b : iocb) : w' ⊨ x ↦ b ↔ w ⊨ x ↦ b;
  po_interrupts : interrupts (trace w') = interrupts (trace w);
  po_reports : reports (k_ctx k) (trace w') = reports (k_ctx k) (trace w);
  po_effects : effects (trace w') = es ++ effects (trace w)
}.

Lemma polled_trans k e1 e2 w1 w2 w3 :
  polled k e1 w1 w2 → polled k e2 w2 w3 → polled k (e2 ++ e1) w1 w3.
Proof.
  intros [? ? ? D1 ? ? He1] [? ? ? D2 ? ? He2].
  split; try congruence; [auto|..].
  - intros x b. etrans; [apply D2|apply D1].
  - by rewrite He2, He1, app_assoc.
Qed.

Lemma polled_refl k w : polled k [] w w.
Proof. by split. Qed.

Lemma polled_iocbs k w w' : same_iocbs w w' → polled k [] w w'.
Proof.
  intros Hs. pose proof Hs as [Ht Hg Hi He]. split; try done; try (by rewrite Ht).
  intros evl. apply He.
Qed.

Lemma polled_data k es w w' x : polled k es w w' → data_of w' x = data_of w x.
Proof. intros Hp. apply data_of_iocbs, (po_iocb _ _ _ _ Hp). Qed.

(** The [onError] call of [poll]. *)
Lemma wp_poll_error p k all free out base x b r (Q : unit → world → Prop) w :
  system p k all free (x :: out) w → refs_ok k (x :: out) base w → w ⊨ x ↦ b →
  -4096 < r →
  (∀ w', system p k all free (x :: out) w' → refs_ok k (x :: out) base w' → w' ⊨ x ↦ b →
     polled k (if is_ref (data b) && (r <? 0)
               then [EError (data b) (errorMethod (glob w)) (- r)] else []) w w' → Q tt w') →
  wp (if r <? 0 then
        let* d := x ->> data in
        if is_ref d then
          let* errno := int_ (- r) in
          let* jstrError := call (NewStringUTF (strerror errno)) in
          let* d := x ->> data in
          let* m := load_glob errorMethod in
          call (CallVoidMethod d m [errno; jstrError])
        else Ret tt
      else Ret tt) Q w.
Proof.
  intros Hs Hr Hb Hlo HQ. destruct (Z.ltb_spec r 0) as [Hneg|Hpos].
  2:{ rewrite andb_false_r in HQ. by apply wp_ret, HQ. }
  rewrite andb_true_r in HQ.
  wp_step. destruct (is_ref (data b)) eqn:Hi; [|by apply wp_ret, HQ].
  apply wp_bind, wp_int; [unfold INT_MIN, INT_MAX; lia|]. do 4 wp_step.
  rewrite (unit_eta (answer _ _)). apply HQ.
  - by do 2 (apply system_log; [done|]).
  - by do 2 (apply refs_ok_log; [done|done|]).
  - done.
  - split; try done.
Qed.

(** The array element and the deletion of the reference. *)
Lemma wp_poll_deliver p k all free out base x b callbacks i (Q : unit → world → Prop) w :
  system p k all free (x :: out) w → refs_ok k (x :: out) base w → w ⊨ x ↦ b →
  (∀ w', system p k all free (x :: out) w' → refs_ok k out base w' →
     polled k (if is_ref (data b) then [EDrop (data b); ESlot callbacks i (data b)] else []) w w' →
     Q tt w') →
  wp (if is_ref (data b) then
        let* d := x ->> data in
        call (SetObjectArrayElement callbacks i d) ;;
        let* d := x ->> data in
        call (DeleteGlobalRef d)
      else Ret tt) Q w.
Proof.
  intros Hs Hr Hb HQ.
  apply refs_ok_take in Hr. rewrite (data_of_has _ _ _ Hb) in Hr.
  destruct (is_ref (data b)) eqn:Hi; [|by apply wp_ret, HQ].
  do 3 wp_step. wp_step. rewrite (unit_eta (answer (trace w) _)), (unit_eta (answer _ _)). apply HQ.
  - by do 2 (apply system_log; [done|]).
  - apply refs_ok_deleted. by apply refs_ok_log.
  - split; try done.
Qed.

Lemma wp_poll_event p k all free out base callbacks i e evl w :
  system p k all free (ev_obj e :: out) w → refs_ok k (ev_obj e :: out) base w →
  events_at k evl w → evl !! i = Some e → event_ok e →
  wp (poll_event p callbacks (Z.of_nat i)) (λ _ w',
    system p k all (free ++ [ev_obj e]) out w' ∧ refs_ok k out base w' ∧
    polled k (rev (poll_effect callbacks (errorMethod (glob w)) (data_of w) (Z.of_nat i) e)) w w') w.
Proof.
  intros Hs Hr He Hi Hok. destruct (system_control _ _ _ _ _ _ Hs) as (c & Hc & <-).
  destruct (system_iocb_out _ _ _ _ _ _ (ev_obj e) Hs) as (Hx & b & Hb); [set_solver|].
  unfold poll_effect. rewrite (data_of_has _ _ _ Hb).
  unfold poll_event. wp_step. apply wp_bind. eapply wp_load_elt; [done|lia|by rewrite Nat2Z.id|].
  apply wp_bind. eapply (wp_poll_error p (ctl_of c)); [done..|]. intros w1 Hs1 Hr1 Hb1 Hp1.
  wp_step. apply wp_bind. eapply (wp_poll_deliver p (ctl_of c)); [done..|]. intros w2 Hs2 Hr2 Hp2.
  eapply wp_mono; [by apply wp_system_put|]. intros [] w3 [Hs3 Hi3].
  split_and!; [done|by eapply refs_ok_iocbs|].
  pose proof (polled_trans _ _ _ _ _ _ (polled_trans _ _ _ _ _ _ Hp1 Hp2)
    (polled_iocbs (ctl_of c) _ _ Hi3)) as Hp. simpl in Hp.
  by destruct (is_ref (data b)), (_ <? 0).
Qed.

(** The specification only looks at the [data]. *)
Lemma poll_effects_ext cb m d d' l : (∀ x, d' x = d x) →
  ∀ i, poll_effects cb m d' i l = poll_effects cb m d i l.
Proof.
  intros Hd. induction l as [|e l IH]; intros i; simpl; [done|].
  unfold poll_effect. by rewrite Hd, IH.
Qed.

Lemma wp_poll_events p k all out base callbacks l : ∀ pre rest free w,
  system p k all free ((ev_obj <$> l) ++ out) w →
  refs_ok k ((ev_obj <$> l) ++ out) base w →
  events_at k (pre ++ l ++ rest) w → Forall event_ok l →
  wp (for_loop (length l) (Z.of_nat (length pre)) (poll_event p callbacks)) (λ _ w',
    system p k all (free ++ (ev_obj <$> l)) out w' ∧ refs_ok k out base w' ∧
    polled k (rev (poll_effects callbacks (errorMethod (glob w)) (data_of w)
                     (Z.of_nat (length pre)) l)) w w') w.
Proof.
  induction l as [|e l IH]; intros pre rest free w Hs Hr He Hok; cbn [for_loop length].
  { apply wp_ret. simpl. rewrite app_nil_r. auto using polled_refl. }
  apply Forall_cons_1 in Hok as [Hoke Hok].
  eapply wp_seq.
  { apply (wp_poll_event p k all free ((ev_obj <$> l) ++ out) base callbacks (length pre) e
      (pre ++ (e :: l) ++ rest)); [done|done|done| |done].
    by rewrite lookup_app_r, Nat.sub_diag by done. }
  intros [] w1 (Hs1 & Hr1 & Hp1). pose proof Hp1 as [Hg1 _ He1 _ _ _ _].
  replace (Z.of_nat (length pre) + 1) with (Z.of_nat (length (pre ++ [e])))
    by (rewrite length_app; simpl; lia).
  eapply wp_mono.
  { eapply (IH (pre ++ [e]) rest); [done|done| |done]. rewrite <-app_assoc. by apply He1. }
  intros [] w2 (Hs2 & Hr2 & Hp2). split_and!; [by rewrite <-app_assoc in Hs2|done|].
  cbn [poll_effects]. rewrite rev_app_distr.
  rewrite (poll_effects_ext _ _ (data_of w)), Hg1 in Hp2
    by (intros; by eapply polled_data).
  rewrite length_app in Hp2. simpl length in Hp2. rewrite Nat2Z.inj_add in Hp2.
  by eapply polled_trans.
Qed.

Context {KR : KernelRing E} {KE : KernelEvents E}.

(** What [poll] leaves behind, when it takes the events [l], which are those that
    the kernel has reported meanwhile, in one batch. *)
Record poll_post (callbacks : Z) p k all free out base (l : list io_event) w w' : Prop := PollPost {
  pp_reports : reports (k_ctx k) (trace w') = batch l ++ reports (k_ctx k) (trace w);
  pp_effects : effects (trace w') =
    rev (poll_effects callbacks (errorMethod (glob w)) (data_of w) 0 l) ++ effects (trace w);
  pp_system : system p k all (free ++ (ev_obj <$> l)) out w';
  pp_refs : refs_ok k out base w';
  pp_owned : owned (k_ctx k) (trace w) ≡ₚ (ev_obj <$> l) ++ owned (k_ctx k) (trace w');
  pp_glob : glob w' = glob w
}.

Lemma waits_after ctx min_nr w w1 w2 :
  same_mem w w1 → owned ctx (trace w1) = owned ctx (trace w) →
  waits ctx min_nr w1 w2 → waits ctx min_nr w w2.
Proof. intros Hm Ho [Hm2 Ho2 Hf]. split; [by etrans|by rewrite Ho2|done]. Qed.

Lemma wp_poll ptr p callbacks min max k all free out base w :
  DirectBuffer E ptr p → system p k all free out w → refs_ok k out base w →
  wp_may (poll ptr callbacks min max) (λ r w', ∃ l,
    poll_post callbacks p k all free out base l w w' ∧
    (l = [] ∧ kernel_error (k_ctx k) r (trace w') ∨ r = Z.of_nat (length l) ∧ r ≤ Z.max 0 max))
    False (waits (k_ctx k) min w) w.
Proof.
  intros Hd Hs Hr. pose proof (system_ptr _ _ _ _ _ _ Hs) as Hp.
  unfold poll. set (w0 := log (GetDirectBufferAddress ptr) p w).
  eapply (wp_may_seq _ _ (λ a s', a = p ∧ s' = w0)); [by apply (wp_getIOControl ptr p)|].
  intros ? ? [-> ->]. rewrite (proj2 (Z.eqb_neq _ _) Hp).
  assert (system p k all free out w0) as Hs0 by by apply system_log.
  assert (refs_ok k out base w0) as Hr0 by by apply refs_ok_log.
  destruct (system_control _ _ _ _ _ _ Hs0) as (c & Hc & Hk).
  eapply (wp_may_seq _ _ (λ a s', a = k_ctx k ∧ s' = w0)); [by eapply wp_load; [done|subst k]|].
  intros ? ? [-> ->].
  eapply (wp_may_seq _ _ (λ a s', a = k_events k ∧ s' = w0)); [by eapply wp_load; [done|subst k]|].
  intros ? ? [-> ->].
  eapply wp_may_bind.
  { eapply wp_may_mono; [by apply (wp_may_ringio_system p k all free out)|intros r w1 H; exact H|].
    intros w'. by apply waits_after; [apply same_mem_log|]. }
  intros r w1 Hpost. apply wp_may_of_wp.
  assert (∃ l, reap p k all free out l w0 w1 ∧
    (l = [] ∧ kernel_error (k_ctx k) r (trace w1) ∨ r = Z.of_nat (length l) ∧ r ≤ Z.max 0 max)) as (l & Hl & Hrl).
  { destruct Hpost as [[? ?]|(l & ? & ? & ?)]; [exists []; auto|exists l; auto]. }
  assert (Z.to_nat (r - 0) = length l) as Hn by (destruct Hrl as [[-> [? _]]|[-> ?]]; simpl; lia).
  pose proof (reap_refs _ _ _ _ _ _ _ _ _ Hl Hr0) as Hr1.
  destruct Hl as [Hs1 (rest & He1) Hok Ho1 Hre1 Hg1 Hi1 _ _ (es & Ht1 & Hes)].
  unfold for_. rewrite Hn.
  assert (wp (for_loop (length l) 0 (poll_event p callbacks)) (λ _ w2, l = [] → w2 = w1) w1) as Hnil.
  { destruct l; [by apply wp_ret|]. eapply wp_mono; [by apply (wp_poll_events p k all out base callbacks _ [] rest free w1)|done]. }
  eapply wp_seq; [exact (wp_and _ _ _ _ (wp_poll_events p k all out base callbacks l [] rest free w1
    Hs1 Hr1 He1 Hok) Hnil)|].
  intros [] w2 [(Hs2 & Hr2 & [Hg2 Ho2 _ _ _ Hre2 He2]) Hw2]. apply wp_ret. exists l.
  split; [|destruct Hrl as [[Hl Hke]|?]; [left; by rewrite (Hw2 Hl)|by right]].
  assert (∀ x, data_of w1 x = data_of w x) as Hd1 by (intros; by rewrite (data_of_iocbs w0 w1)).
  split; [by rewrite Hre2| |done|done|by rewrite Ho2|by rewrite Hg2, Hg1].
  rewrite He2, Ht1, effects_reap, Hg1 by done. by rewrite (poll_effects_ext _ _ (data_of w)).
Qed.

(** C3.  [poll] on a live context, when it returns, returns the negative error of
    the call of [io_getevents] it has just made and has changed nothing, or the number [r ≤ max] of the completed requests it has
    taken; these, [l], are the completions that the kernel has reported during
    the call, with the results and in the order of the report.  Each is treated
    once, in that order: [onError] is called on its callback, with the negated
    result, exactly when the result is negative; element [i] of the array gets
    the callback of the [i]-th request; its reference is deleted, and its iocb
    goes to the back of the free queue; a request without callback only gives
    its iocb back.  Nothing else changes hands.  The call waits for ever
    only when fewer than [min] requests are in flight, and then has changed
    nothing. *)
Theorem poll_correct ptr p callbacks min max k all free out base w :
  DirectBuffer E ptr p → system p k all free out w → refs_ok k out base w →
  wp_may (poll ptr callbacks min max) (λ r w', ∃ l,
    poll_post callbacks p k all free out base l w w' ∧
    (l = [] ∧ kernel_error (k_ctx k) r (trace w') ∨ r = Z.of_nat (length l) ∧ r ≤ Z.max 0 max))
    False (waits (k_ctx k) min w) w.
Proof. apply wp_poll. Qed.
End poll_wp.

Lemma poll_witness :
  wp_may (poll (E := sim_env failing_sim) 55 88 1 2) (λ r w', ∃ l,
    poll_post 88 10 demo_ctl [40; 41] [] [] [900] l busy_world w' ∧
    (l = [] ∧ kernel_error 5000 r (trace w') ∨ r = Z.of_nat (length l) ∧ r ≤ Z.max 0 2))
    False (waits 5000 1 busy_world) busy_world.
Proof.
  exact (poll_correct (E := sim_env failing_sim) 55 10 88 1 2 demo_ctl [40; 41] [] [] [900] busy_world
    (demo_buffer failing_sim eq_refl) busy_system busy_refs).
Defined.

(** ** What [blockedPoll] delivers *)

(** The effects of treating one event that is not a wake-up: the file is synced
    first, when asked and unless the event before was of the same file; then come
    [onError], if the request failed, [done], and the deletion of the reference. *)
Definition blocked_effect (this done m : Z) (d fil : Z → Z) (fsync : bool) (last : Z) (e : io_event)
    : list effect :=
  let ref := d (ev_obj e) in
  let r := i32 (ev_res e) in
  (if fsync && negb (last =? fil (ev_obj e)) then [ESync (fil (ev_obj e))] else []) ++
  (if ref =? NULL then []
   else (if r <? 0 then [EError ref m (- r)] else []) ++ [EDone this done ref; EDrop ref]).
Definition blocked_last (fil : Z → Z) (fsync : bool) (last : Z) (e : io_event) : Z :=
  if fsync then fil (ev_obj e) else last.

Fixpoint blocked_effects (this done m : Z) (d fil : Z → Z) (fsync : bool) (last : Z) (l : list io_event)
    : list effect :=
  match l with
  | [] => []
  | e :: l => blocked_effect this done m d fil fsync last e
                ++ blocked_effects this done m d fil fsync (blocked_last fil fsync last e) l
  end.

(** The iocbs of [l] with a callback, and those without. *)
Definition with_callback (d : Z → Z) (l : list io_event) : list Z :=
  filter (λ x, d x ≠ NULL) (ev_obj <$> l).
Definition without_callback (d : Z → Z) (l : list io_event) : list Z :=
  filter (λ x, d x = NULL) (ev_obj <$> l).

(** The requests in flight that wake the poller are those with [MINUS_ONE]. *)
Definition wakes (w : world) (l : list Z) : Prop :=
  ∀ x, x ∈ l → fildes_of w x = dumbWriteHandler (glob w) ↔ data_of w x = MINUS_ONE.

Section blocked_wp.
Context {E : Env}.
Implicit Types (w : world) (p : Z) (k : ctl) (all free out base : list Z).

(** [w'] follows [w]: the requests [xs] were treated, with the effects [es], the
    latest first; [force] says that the system call is forced from now on. *)
Record handled k (xs : list Z) (force : bool) (es : list effect) w w' : Prop := Handled {
  hd_owned : owned (k_ctx k) (trace w') = owned (k_ctx k) (trace w);
  hd_glob : glob w' = if force then set_forceSysCall JNI_TRUE (glob w) else glob w;
  hd_events evl : events_at k evl w → events_at k evl w';
  hd_fildes x : fildes_of w' x = fildes_of w x;
  hd_data x : x ∉ xs → data_of w' x = data_of w x;
  hd_interrupts : interrupts (trace w') = interrupts (trace w);
  hd_reports : reports (k_ctx k) (trace w') = reports (k_ctx k) (trace w);
  hd_effects : effects (trace w') = es ++ effects (trace w)
}.

Lemma polled_handled k es w w' : polled k es w w' → handled k [] false es w w'.
Proof.
  intros [Hg Ho He Hi Hin Hre Hes]. split; try done.
  - intros x. by apply fildes_of_iocbs.
  - intros x _. by apply data_of_iocbs.
Qed.

Lemma handled_trans k xs1 xs2 f1 f2 e1 e2 w1 w2 w3 :
  handled k xs1 f1 e1 w1 w2 → handled k xs2 f2 e2 w2 w3 →
  handled k (xs1 ++ xs2) (f1 || f2) (e2 ++ e1) w1 w3.
Proof.
  intros [O1 G1 V1 F1 D1 I1 R1 E1] [O2 G2 V2 F2 D2 I2 R2 E2]. split.
  - congruence.
  - rewrite G2, G1. by destruct f1, f2.
  - auto.
  - intros x. by rewrite F2.
  - intros x Hx. rewrite D2, D1 by set_solver. done.
  - congruence.
  - congruence.
  - by rewrite E2, E1, app_assoc.
Qed.

Lemma handled_after k xs f es w1 w2 w3 :
  handled k [] false [] w1 w2 → handled k xs f es w2 w3 → handled k xs f es w1 w3.
Proof.
  intros H1 H2. pose proof (handled_trans _ _ _ _ _ _ _ _ _ _ H1 H2) as H.
  by rewrite app_nil_r in H.
Qed.

(** The [fdatasync] before the callbacks. *)
Lemma wp_blocked_sync p k all free out base (fsync last f : Z) (Q : Z → world → Prop) w :
  system p k all free out w → refs_ok k out base w →
  (∀ w', system p k all free out w' → refs_ok k out base w' →
     polled k (if negb (fsync =? 0) && negb (last =? f) then [ESync f] else []) w w' →
     Q (if negb (fsync =? 0) then f else last) w') →
  wp (if negb (fsync =? 0) && negb (last =? f)
      then call (Fdatasync f) ;; Ret f else Ret last) Q w.
Proof.
  intros Hs Hr HQ. destruct (fsync =? 0); simpl; [apply wp_ret; by apply HQ|].
  destruct (Z.eqb_spec last f) as [->|Hne]; simpl in *; [apply wp_ret; by apply HQ|].
  wp_steps. apply HQ; [by apply system_log|by apply refs_ok_log|]. by split.
Qed.

(** The [onError] call of [blockedPoll]. *)
Lemma wp_blocked_error p k all free out base x b r (Q : unit → world → Prop) w :
  system p k all free (x :: out) w → refs_ok k (x :: out) base w → w ⊨ x ↦ b →
  -4096 < r →
  (∀ w', system p k all free (x :: out) w' → refs_ok k (x :: out) base w' → w' ⊨ x ↦ b →
     polled k (if negb (data b =? NULL) && (r <? 0)
               then [EError (data b) (errorMethod (glob w)) (- r)] else []) w w' → Q tt w') →
  wp (if r <? 0 then
        let* errno := int_ (- r) in
        let* jstrError := call (NewStringUTF (strerror errno)) in
        let* d := x ->> data in
        if negb (d =? NULL) then
          let* m := load_glob errorMethod in
          call (CallVoidMethod d m [errno; jstrError])
        else Ret tt
      else Ret tt) Q w.
Proof.
  intros Hs Hr Hb Hlo HQ. destruct (Z.ltb_spec r 0) as [Hneg|Hpos].
  2:{ rewrite andb_false_r in HQ. by apply wp_ret, HQ. }
  rewrite andb_true_r in HQ.
  apply wp_bind, wp_int; [unfold INT_MIN, INT_MAX; lia|]. do 2 wp_step.
  destruct (data b =? NULL) eqn:Hi; simpl in *.
  - apply wp_ret, HQ; [by apply system_log|by apply refs_ok_log|done|by split].
  - do 2 wp_step. rewrite (unit_eta (answer _ _)). apply HQ.
    + by do 2 (apply system_log; [done|]).
    + by do 2 (apply refs_ok_log; [done|done|]).
    + done.
    + by split.
Qed.

(** [iocbp->data = NULL]: the reference is in the hands of the poller. *)
Lemma clear_data p k all free out base x b w :
  system p k all free (x :: out) w → refs_ok k (x :: out) base w → w ⊨ x ↦ b →
  let w' := put x (set_data NULL b) w in
  let base' := if is_ref (data b) then data b :: base else base in
  system p k all free (x :: out) w' ∧ refs_ok k out base' w' ∧ refs_ok k (x :: out) base' w' ∧
  handled k [x] false [] w w'.
Proof.
  intros Hs Hr Hb w' base'. destruct (system_fresh _ _ _ _ _ _ _ Hs) as [Hxa Hxo].
  assert (refs_ok k out base' w') as Hr'.
  { apply refs_ok_put; [done|]. apply refs_ok_take in Hr. rewrite (data_of_has _ _ _ Hb) in Hr.
    unfold base'. by destruct (is_ref (data b)). }
  split_and!; [by apply system_put_iocb|done| |].
  - apply refs_ok_take. unfold w'. rewrite data_of_put, decide_True by done. done.
  - split; try done.
    + intros evl He. destruct (system_iocb _ _ _ _ _ _ x Hs Hxa) as (_ & b0 & Hb0).
      apply has_put_ne; [|done]. by eapply (has_ne w _ _ b0 evl).
    + intros y. unfold w'. rewrite fildes_of_put. case_decide; subst; [|done].
      by rewrite (fildes_of_has _ _ _ Hb).
    + intros y Hy. unfold w'. rewrite data_of_put. rewrite decide_False; [done|]. set_solver.
Qed.

(** What is done with the reference: [done] is called and it is deleted; or, if
    there is none, the poller takes the event for a duplicate. *)
Lemma wp_blocked_done p k all free out base x d (Q : unit → world → Prop) w :
  system p k all free (x :: out) w → d ≠ MINUS_ONE →
  refs_ok k out (if is_ref d then d :: base else base) w →
  refs_ok k (x :: out) (if is_ref d then d :: base else base) w →
  (∀ w', (if d =? NULL then system p k all free (x :: out) w' ∧ refs_ok k (x :: out) base w'
          else system p k all (free ++ [x]) out w' ∧ refs_ok k out base w') →
     handled k [] (d =? NULL)
       (if d =? NULL then [] else [EDrop d; EDone (k_this k) (libaioContextDone (glob w)) d]) w w' →
     Q tt w') →
  wp (if negb (d =? NULL) then
        putIOCB p x ;;
        let* this := p ->> thisObject in
        let* m := load_glob libaioContextDone in
        call (CallVoidMethod this m [d]) ;;
        call (DeleteGlobalRef d)
      else
        let* force := load_glob forceSysCall in
        (if force =? 0
         then call (Fprintf false duplicate_warning) ;; call FflushStdout
         else Ret tt) ;;
        store_glob (set_forceSysCall JNI_TRUE)) Q w.
Proof.
  intros Hs Hm Hr Hrx HQ. unfold is_ref in *. rewrite (proj2 (Z.eqb_neq _ _) Hm), andb_true_r in *.
  destruct (d =? NULL); simpl in *.
  - wp_step. destruct (forceSysCall (glob w) =? 0).
    + do 3 wp_step. apply HQ.
      * split; [by apply system_glob; do 2 (apply system_log; [done|])|].
        by do 2 (apply (refs_ok_log k (x :: out)); [done|done|]).
      * by split.
    + do 2 wp_step. apply HQ; [|by split]. split; [by apply system_glob|done].
  - eapply wp_seq; [by apply wp_system_put|]. intros [] w1 [Hs1 Hi1].
    destruct (system_control _ _ _ _ _ _ Hs1) as (c & Hc & Hk).
    eapply wp_bind, wp_load; [done|]. cbv beta. do 3 wp_step.
    replace (thisObject c) with (k_this k) by by subst k.
    rewrite (unit_eta (answer (trace w1) _)), (unit_eta (answer _ _)).
    pose proof (polled_handled _ _ _ _ (polled_iocbs k _ _ Hi1)) as Hh1.
    rewrite (si_glob _ _ Hi1). apply HQ.
    + split; [by do 2 (apply system_log; [done|])|].
      apply refs_ok_deleted, refs_ok_log; [done|done|]. by eapply refs_ok_iocbs.
    + apply (handled_after k _ _ _ w w1); [done|]. by split.
Qed.

(** The treatment of an event that is not a wake-up. *)
Lemma wp_blocked_event p k all free out base fsync i last e evl w :
  system p k all free (ev_obj e :: out) w → refs_ok k (ev_obj e :: out) base w →
  events_at k evl w → evl !! i = Some e → event_ok e →
  fildes_of w (ev_obj e) ≠ dumbWriteHandler (glob w) → data_of w (ev_obj e) ≠ MINUS_ONE →
  wp (blocked_event p fsync (Z.of_nat i) last) (λ r w',
    r = Some (blocked_last (fildes_of w) (negb (fsync =? 0)) last e) ∧
    (if data_of w (ev_obj e) =? NULL
     then system p k all free (ev_obj e :: out) w' ∧ refs_ok k (ev_obj e :: out) base w'
     else system p k all (free ++ [ev_obj e]) out w' ∧ refs_ok k out base w') ∧
    handled k [ev_obj e] (data_of w (ev_obj e) =? NULL)
      (rev (blocked_effect (k_this k) (libaioContextDone (glob w)) (errorMethod (glob w))
              (data_of w) (fildes_of w) (negb (fsync =? 0)) last e)) w w') w.
Proof.
  intros Hs Hr He Hi Hok Hdumb Hm. destruct (system_control _ _ _ _ _ _ Hs) as (c & Hc & <-).
  destruct (system_iocb_out _ _ _ _ _ _ (ev_obj e) Hs) as (Hx & b & Hb); [set_solver|].
  unfold blocked_effect, blocked_last. rewrite (data_of_has _ _ _ Hb), (fildes_of_has _ _ _ Hb) in *.
  unfold blocked_event. wp_step. apply wp_bind. eapply wp_load_elt; [done|lia|by rewrite Nat2Z.id|].
  eapply wp_bind, wp_load; [done|]. cbv beta. wp_step. rewrite (proj2 (Z.eqb_neq _ _) Hdumb).
  apply wp_bind. eapply (wp_blocked_sync p (ctl_of c)); [done..|]. intros w1 Hs1 Hr1 Hp1.
  assert (w1 ⊨ ev_obj e ↦ b) as Hb1 by by apply (po_iocb _ _ _ _ Hp1).
  apply wp_bind. eapply (wp_blocked_error p (ctl_of c)); [done..|]. intros w2 Hs2 Hr2 Hb2 Hp2.
  eapply wp_bind, wp_load; [done|]. cbv beta. eapply wp_bind, wp_store; [done|].
  destruct (clear_data _ _ _ _ _ _ _ _ _ Hs2 Hr2 Hb2) as (Hs3 & Hr3 & Hr3' & Hh3).
  apply wp_bind. eapply (wp_blocked_done p (ctl_of c)); [done..|]. intros w4 Hs4 Hh4.
  apply wp_ret. split_and!; [done|done|].
  pose proof (handled_trans _ _ _ _ _ _ _ _ _ _
    (handled_trans _ _ _ _ _ _ _ _ _ _
      (polled_handled _ _ _ _ (polled_trans _ _ _ _ _ _ Hp1 Hp2)) Hh3) Hh4) as Hh.
  rewrite (hd_glob _ _ _ _ _ _ Hh3), (po_glob _ _ _ _ Hp2), (po_glob _ _ _ _ Hp1) in Hh.
  cbn [app orb] in Hh. by destruct (data b =? NULL), (_ <? 0), (negb (_ =? _) && negb _).
Qed.

(** The event of a wake-up write: its iocb goes back, and nothing else happens. *)
Lemma wp_blocked_wake p k all free out base fsync i last e evl w :
  system p k all free (ev_obj e :: out) w → refs_ok k (ev_obj e :: out) base w →
  events_at k evl w → evl !! i = Some e →
  fildes_of w (ev_obj e) = dumbWriteHandler (glob w) → data_of w (ev_obj e) = MINUS_ONE →
  wp (blocked_event p fsync (Z.of_nat i) last) (λ r w',
    r = None ∧ system p k all (free ++ [ev_obj e]) out w' ∧ refs_ok k out base w' ∧
    handled k [] false [] w w') w.
Proof.
  intros Hs Hr He Hi Hdumb Hm. destruct (system_control _ _ _ _ _ _ Hs) as (c & Hc & <-).
  destruct (system_iocb_out _ _ _ _ _ _ (ev_obj e) Hs) as (Hx & b & Hb); [set_solver|].
  rewrite (fildes_of_has _ _ _ Hb) in *.
  unfold blocked_event. wp_step. apply wp_bind. eapply wp_load_elt; [done|lia|by rewrite Nat2Z.id|].
  eapply wp_bind, wp_load; [done|]. cbv beta. wp_step. rewrite Hdumb, Z.eqb_refl.
  eapply wp_seq; [by apply wp_system_put|]. intros [] w1 [Hs1 Hi1]. apply wp_ret.
  apply refs_ok_take in Hr. rewrite Hm in Hr.
  split_and!; [done|done|by eapply refs_ok_iocbs|by apply polled_handled, polled_iocbs].
Qed.

Lemma blocked_effects_ext this done m d d' fil fil' fsync l :
  (∀ x, x ∈ ev_obj <$> l → d' x = d x ∧ fil' x = fil x) →
  ∀ last, blocked_effects this done m d' fil' fsync last l =
          blocked_effects this done m d fil fsync last l.
Proof.
  intros Hd. induction l as [|e l IH]; intros last; simpl; [done|].
  destruct (Hd (ev_obj e)) as [Hde Hfe]; [apply list_elem_of_here|].
  unfold blocked_effect, blocked_last. rewrite Hde, Hfe, IH; [done|]. intros x Hx. apply Hd. by apply list_elem_of_further.
Qed.

Lemma with_callback_cons d e l :
  with_callback d (e :: l) = (if d (ev_obj e) =? NULL then [] else [ev_obj e]) ++ with_callback d l ∧
  without_callback d (e :: l) = (if d (ev_obj e) =? NULL then [ev_obj e] else []) ++ without_callback d l.
Proof.
  unfold with_callback, without_callback. cbn [fmap list_fmap]. rewrite !filter_cons.
  destruct (Z.eqb_spec (d (ev_obj e)) NULL) as [->|Hne].
  - by rewrite decide_False by (intros []; done); rewrite decide_True by done.
  - by rewrite decide_True by done; rewrite decide_False by done.
Qed.

Lemma with_callback_ext d d' l :
  (∀ x, x ∈ ev_obj <$> l → d' x = d x) →
  with_callback d' l = with_callback d l ∧ without_callback d' l = without_callback d l.
Proof.
  induction l as [|e l IH]; intros Hd; [done|].
  destruct (with_callback_cons d e l) as [-> ->], (with_callback_cons d' e l) as [-> ->].
  destruct IH as [-> ->]; [intros x Hx; apply Hd; by apply list_elem_of_further|].
  by rewrite (Hd (ev_obj e)) by apply list_elem_of_here.
Qed.

(** The system call is forced from the first event without callback on. *)
Definition forces (d : Z → Z) (l : list io_event) : bool := negb (bool_decide (without_callback d l = [])).

(** An iocb without callback stays out, another goes back to the pool. *)
Lemma regroup p k all free x l base (null : bool) w out :
  (if null then system p k all free (x :: l ++ out) w ∧ refs_ok k (x :: l ++ out) base w
   else system p k all (free ++ [x]) (l ++ out) w ∧ refs_ok k (l ++ out) base w) →
  let out' := (if null then [x] else []) ++ out in
  system p k all (free ++ (if null then [] else [x])) (l ++ out') w ∧ refs_ok k (l ++ out') base w.
Proof.
  destruct null; simpl; [|done]. rewrite app_nil_r. intros [Hs Hr].
  split; [eapply system_out_perm; [|done]|eapply refs_ok_perm; [|done]]; by rewrite Permutation_middle.
Qed.

(** The batch [a ++ b] was treated up to [b], whose first event, if any, is a
    wake-up; the value [r] is [running]. *)
Definition treated p k all base fsync (a b : list io_event) free out last w (r : bool) w' : Prop :=
  let out' := without_callback (data_of w) a ++ (ev_obj <$> drop 1 b) ++ out in
  r = match b with [] => true | _ => false end ∧
  system p k all (free ++ with_callback (data_of w) a ++ (ev_obj <$> take 1 b)) out' w' ∧
  refs_ok k out' base w' ∧
  handled k (ev_obj <$> a) (forces (data_of w) a)
    (rev (blocked_effects (k_this k) (libaioContextDone (glob w)) (errorMethod (glob w))
            (data_of w) (fildes_of w) (negb (fsync =? 0)) last a)) w w'.

(** What treating one event leaves of what the loop looks at. *)
Lemma handled_globals k xs f es w w' :
  handled k xs f es w w' →
  dumbWriteHandler (glob w') = dumbWriteHandler (glob w) ∧
  libaioContextDone (glob w') = libaioContextDone (glob w) ∧ errorMethod (glob w') = errorMethod (glob w).
Proof. intros [_ -> _ _ _ _ _ _]. by destruct f. Qed.

(** One event more, in front of a batch. *)
Lemma treated_cons p k all base fsync e a b free out last w w1 r w2 :
  let x := ev_obj e in let d := data_of w in
  handled k [x] (d x =? NULL)
    (rev (blocked_effect (k_this k) (libaioContextDone (glob w)) (errorMethod (glob w))
            d (fildes_of w) (negb (fsync =? 0)) last e)) w w1 →
  (∀ y, y ∈ ev_obj <$> a → data_of w1 y = d y) →
  treated p k all base fsync a b (free ++ (if d x =? NULL then [] else [x]))
    ((if d x =? NULL then [x] else []) ++ out)
    (blocked_last (fildes_of w) (negb (fsync =? 0)) last e) w1 r w2 →
  treated p k all base fsync (e :: a) b free out last w r w2.
Proof.
  intros x d Hh1 Hda. unfold treated. cbv zeta. fold d.
  destruct (handled_globals _ _ _ _ _ _ Hh1) as (_ & -> & ->).
  destruct (with_callback_ext d (data_of w1) a Hda) as [-> Hwe]. unfold forces at 1. rewrite Hwe.
  rewrite (blocked_effects_ext _ _ _ d _ (fildes_of w))
    by (intros y Hy; split; [by apply Hda|by apply (hd_fildes _ _ _ _ _ _ Hh1)]).
  intros (-> & Hs2 & Hr2 & Hh2).
  destruct (with_callback_cons d e a) as [-> Hwo]. rewrite Hwo. fold x in Hwo |- *.
  assert (without_callback d a ++ (ev_obj <$> drop 1 b) ++ (if d x =? NULL then [x] else []) ++ out
    ≡ₚ ((if d x =? NULL then [x] else []) ++ without_callback d a) ++ (ev_obj <$> drop 1 b) ++ out) as Hp.
  { rewrite (app_swap (ev_obj <$> drop 1 b)), <-!app_assoc. by rewrite app_swap, <-!app_assoc. }
  split_and!; [done| | |].
  - eapply system_out_perm; [exact Hp|]. by rewrite <-!app_assoc in Hs2 |- *.
  - by eapply refs_ok_perm.
  - cbn [blocked_effects]. rewrite rev_app_distr.
    assert (forces d (e :: a) = (d x =? NULL) || negb (bool_decide (without_callback d a = []))) as ->.
    { unfold forces. rewrite Hwo. by destruct (d x =? NULL). }
    exact (handled_trans _ _ _ _ _ _ _ _ _ _ Hh1 Hh2).
Qed.

Lemma wp_blocked_events p k all base fsync b rest : ∀ a pre free out last w,
  system p k all free ((ev_obj <$> a ++ b) ++ out) w →
  refs_ok k ((ev_obj <$> a ++ b) ++ out) base w →
  events_at k (pre ++ (a ++ b) ++ rest) w → Forall event_ok (a ++ b) →
  (∀ x, x ∈ ev_obj <$> a → fildes_of w x ≠ dumbWriteHandler (glob w) ∧ data_of w x ≠ MINUS_ONE) →
  (∀ e b', b = e :: b' → fildes_of w (ev_obj e) = dumbWriteHandler (glob w) ∧
                         data_of w (ev_obj e) = MINUS_ONE) →
  wp (blocked_events (length (a ++ b)) (Z.of_nat (length pre)) last p fsync)
     (treated p k all base fsync a b free out last w) w.
Proof.
  induction a as [|e a IH]; intros pre free out last w Hs Hr He Hok Ha Hb.
  { destruct b as [|e b]; cbn [app length blocked_events].
    - apply wp_ret. unfold treated. simpl. rewrite app_nil_r. split_and!; [done|done|done|by split].
    - destruct (Hb e b eq_refl) as [Hf Hm].
      eapply wp_seq.
      { apply (wp_blocked_wake p k all free ((ev_obj <$> b) ++ out) base fsync (length pre) last e
          (pre ++ (e :: b) ++ rest)); [done|done|done| |done|done].
        by rewrite lookup_app_r, Nat.sub_diag by done. }
      intros r w1 (-> & Hs1 & Hr1 & Hh1). apply wp_ret. unfold treated. simpl. by rewrite drop_0. }
  cbn [app length blocked_events]. apply Forall_cons_1 in Hok as [Hoke Hok].
  destruct (Ha (ev_obj e)) as [Hf Hm]; [simpl; apply list_elem_of_here|].
  assert (ev_obj e ∉ ((ev_obj <$> a ++ b) ++ out) ++ owned (k_ctx k) (trace w)) as Hfresh
    by (eapply system_fresh; exact Hs).
  eapply wp_seq.
  { apply (wp_blocked_event p k all free ((ev_obj <$> a ++ b) ++ out) base fsync (length pre) last e
      (pre ++ (e :: a ++ b) ++ rest)); [done|done|done| |done|done|done].
    by rewrite lookup_app_r, Nat.sub_diag by done. }
  intros r w1 (-> & Hsr1 & Hh1). apply (regroup _ _ _ _ _ _ _ _ _ out) in Hsr1 as [Hs1 Hr1].
  replace (Z.of_nat (length pre) + 1) with (Z.of_nat (length (pre ++ [e])))
    by (rewrite length_app; simpl; lia).
  assert (∀ y, y ∈ (ev_obj <$> a ++ b) → data_of w1 y = data_of w y) as Hd1.
  { intros y Hy. apply (hd_data _ _ _ _ _ _ Hh1). intros Hyx%list_elem_of_singleton.
    apply Hfresh. rewrite <-Hyx, !elem_of_app. auto. }
  assert (∀ y, y ∈ ev_obj <$> a → data_of w1 y = data_of w y) as Hda
    by (intros y Hy; apply Hd1; rewrite fmap_app, elem_of_app; auto).
  destruct (handled_globals _ _ _ _ _ _ Hh1) as (Hgd & _ & _).
  eapply wp_mono; [|intros r w2; by apply treated_cons].
  eapply (IH (pre ++ [e])); [exact Hs1|exact Hr1| |done|..].
  - rewrite <-app_assoc. by apply (hd_events _ _ _ _ _ _ Hh1).
  - intros y Hy. rewrite (hd_fildes _ _ _ _ _ _ Hh1), Hgd, Hda by done.
    apply Ha. by apply list_elem_of_further.
  - intros e' b' ->. rewrite (hd_fildes _ _ _ _ _ _ Hh1), Hgd, Hd1; [by eapply Hb|].
    rewrite fmap_app, elem_of_app. right. apply list_elem_of_here.
Qed.
End blocked_wp.

(** ** The loop of the polling thread *)

Section blocked_loop.
Context {E : Env} {KR : KernelRing E} {KE : KernelEvents E}.
Implicit Types (w : world) (p : Z) (k : ctl) (all free out base : list Z).

(** A batch is treated up to its first wake-up. *)
Lemma split_wake (fil : Z → Z) (dumb : Z) (l : list io_event) : ∃ a b, l = a ++ b ∧
  (∀ x, x ∈ ev_obj <$> a → fil x ≠ dumb) ∧ (∀ e b', b = e :: b' → fil (ev_obj e) = dumb).
Proof.
  induction l as [|e l (a & b & -> & Ha & Hb)].
  { exists [], []. split_and!; [done| |done]. by intros x ?%elem_of_nil. }
  destruct (decide (fil (ev_obj e) = dumb)) as [Heq|Hne].
  - exists [], (e :: a ++ b). split_and!; [done| |by intros ? ? [= <- <-]].
    by intros x ?%elem_of_nil.
  - exists (e :: a), b. split_and!; [done| |done].
    intros x [->|Hx]%elem_of_cons; [done|by apply Ha].
Qed.

(** [w] is a state of the loop: [d] and [fil] give the [data] and the file of
    the requests in flight, the wake-ups are those with [MINUS_ONE], and the
    globals are [g] but for [forceSysCall]. *)
Record poller_inv (d fil : Z → Z) (g : globals) p k all free out base w : Prop := PollerInv {
  pi_system : system p k all free out w;
  pi_refs : refs_ok k out base w;
  pi_glob : glob w = g ∨ glob w = set_forceSysCall JNI_TRUE g;
  pi_data x : x ∈ owned (k_ctx k) (trace w) →
    data_of w x = d x ∧ fildes_of w x = fil x ∧ (fil x = dumbWriteHandler g ↔ d x = MINUS_ONE)
}.

(** The effects of the batches [bs]; the file synced last is forgotten between
    two batches. *)
Definition batches_effects (d fil : Z → Z) (g : globals) k (fsync : Z) (bs : list (list io_event))
    : list effect :=
  concat (blocked_effects (k_this k) (libaioContextDone g) (errorMethod g) d fil
            (negb (fsync =? 0)) (-1) <$> bs).

(** The batches as the kernel reported them, of which the poller treated [bs]: the
    last one goes on with [b]. *)
Fixpoint whole {A} (bs : list (list A)) (b : list A) : list (list A) :=
  match bs with
  | [] => [b]
  | [a] => [a ++ b]
  | a :: bs => a :: whole bs b
  end.
Definition nonempty {A} (bs : list (list A)) : list (list A) := concat (batch <$> bs).

(** What the poller leaves behind when it has treated the batches [bs] and then
    either met a wake-up, the head of [b], or failed, with [b] empty.  Together
    they are the completions the kernel has reported meanwhile. *)
Record poller_post (d fil : Z → Z) (g : globals) (bs : list (list io_event)) (b : list io_event)
    p k all free out base fsync w w' : Prop := PollerPost {
  pl_reports : reports (k_ctx k) (trace w') =
                 rev (nonempty (whole bs b)) ++ reports (k_ctx k) (trace w);
  pl_last : b = [] ∨ bs ≠ [];
  pl_treated x : x ∈ ev_obj <$> concat bs → d x ≠ MINUS_ONE;
  pl_end : let es := rev (batches_effects d fil g k fsync bs) ++ effects (trace w) in
    (∃ e b', b = e :: b' ∧ d (ev_obj e) = MINUS_ONE ∧ effects (trace w') = es) ∨
    (b = [] ∧ ∃ r h, kernel_error (k_ctx k) r h ∧ r ≠ - EINTR ∧ effects h = es ∧
       trace w' = errno_thrown (ioExceptionClass g) "Error while calling io_getevents IO: " (- r) h);
  pl_owned : owned (k_ctx k) (trace w) ≡ₚ
               (ev_obj <$> concat bs ++ b) ++ owned (k_ctx k) (trace w');
  pl_system : let out' := without_callback d (concat bs) ++ (ev_obj <$> drop 1 b) ++ out in
    system p k all (free ++ with_callback d (concat bs) ++ (ev_obj <$> take 1 b)) out' w' ∧
    refs_ok k out' base w';
  pl_glob : glob w' = if forces d (concat bs) then set_forceSysCall JNI_TRUE (glob w) else glob w
}.

Lemma nonempty_whole_cons {A} (a : list A) bs b :
  b = [] ∨ bs ≠ [] → nonempty (whole (a :: bs) b) = batch a ++ nonempty (whole bs b).
Proof.
  destruct bs as [|a' bs]; [|done]. intros [->|?]; [|done]. unfold nonempty. simpl.
  by rewrite !app_nil_r.
Qed.
Lemma rev_batch {A} (l : list A) : rev (batch l) = batch l.
Proof. by destruct l. Qed.

(** Enough fuel: a wake-up is in flight, and every turn of the loop takes one
    request or one of the interruptions that are left. *)
Definition enough_fuel (fil : Z → Z) (g : globals) (bound fuel : nat) k w : Prop :=
  (∃ x, x ∈ owned (k_ctx k) (trace w) ∧ fil x = dumbWriteHandler g) ∧
  (length (owned (k_ctx k) (trace w)) + (bound - interrupts (trace w)) < fuel)%nat.

(** The state after a reap keeps what the poller relies on. *)
Lemma poller_inv_reap d fil g p k all free out base l w w1 :
  poller_inv d fil g p k all free out base w → reap p k all free out l w w1 →
  poller_inv d fil g p k all free ((ev_obj <$> l) ++ out) base w1 ∧
  (∀ x, x ∈ ev_obj <$> l → data_of w1 x = d x ∧ fildes_of w1 x = fil x ∧
     (fil x = dumbWriteHandler g ↔ d x = MINUS_ONE)) ∧
  effects (trace w1) = effects (trace w).
Proof.
  intros [Hs Hr Hg Hd] Hreap. pose proof (reap_refs _ _ _ _ _ _ _ _ _ Hreap Hr) as Hr1.
  destruct Hreap as [Hs1 _ _ Ho1 _ Hg1 Hi1 _ _ (es & Ht1 & Hes)].
  assert (∀ x, x ∈ owned (k_ctx k) (trace w) → data_of w1 x = d x ∧ fildes_of w1 x = fil x ∧
     (fil x = dumbWriteHandler g ↔ d x = MINUS_ONE)) as Hd1.
  { intros x Hx. rewrite (data_of_iocbs w w1), (fildes_of_iocbs w w1) by done. by apply Hd. }
  split_and!.
  - split; [done|done|by rewrite Hg1|]. intros x Hx. apply Hd1. rewrite Ho1, elem_of_app. auto.
  - intros x Hx. apply Hd1. rewrite Ho1, elem_of_app. auto.
  - by rewrite Ht1, effects_reap.
Qed.

(** A turn that ends in an error. *)
Lemma poller_error d fil g p k all free out base fsync r w w1 w2 :
  poller_inv d fil g p k all free out base w → reap p k all free out [] w w1 →
  kernel_error (k_ctx k) r (trace w1) → r ≠ - EINTR → same_mem w1 w2 →
  trace w2 = errno_thrown (ioExceptionClass (glob w1)) "Error while calling io_getevents IO: " (- r)
               (trace w1) →
  poller_post d fil g [] [] p k all free out base fsync w w2.
Proof.
  intros Hinv Hreap Hke Hr Hm Ht.
  destruct (poller_inv_reap _ _ _ _ _ _ _ _ _ _ _ _ Hinv Hreap) as ([Hs1 Hr1 _ _] & _ & He1).
  destruct Hreap as [_ _ _ Ho1 Hre1 Hg1 _ _ _ _].
  destruct (system_thrown _ _ _ _ _ _ _ _ _ _ _ Hm Ht Hs1 Hr1) as (Hs2 & Hr2 & Ho2).
  split; simpl.
  - by rewrite Ht, errno_thrown_reports.
  - by left.
  - by intros x ?%elem_of_nil.
  - right. split; [done|]. exists r, (trace w1). split_and!; [done|done|done|]. rewrite Ht, Hg1.
    by destruct (pi_glob _ _ _ _ _ _ _ _ _ _ Hinv) as [-> | ->].
  - rewrite Ho2. exact Ho1.
  - by rewrite app_nil_r.
  - by rewrite (same_glob _ _ Hm).
Qed.

Lemma with_callback_app d a c :
  with_callback d (a ++ c) = with_callback d a ++ with_callback d c ∧
  without_callback d (a ++ c) = without_callback d a ++ without_callback d c.
Proof.
  unfold with_callback, without_callback. by rewrite fmap_app, !list.filter_app.
Qed.

Lemma forces_app d a c : forces d (a ++ c) = forces d a || forces d c.
Proof.
  unfold forces. rewrite (proj2 (with_callback_app d a c)).
  by destruct (without_callback d a), (without_callback d c).
Qed.

(** A turn before the rest of the loop: the batch [a] was treated on the way from
    [w] to [w2], without a wake-up. *)
Lemma poller_turn d fil g a bs b p k all free out base fsync w w2 w' :
  owned (k_ctx k) (trace w) ≡ₚ (ev_obj <$> a) ++ owned (k_ctx k) (trace w2) →
  reports (k_ctx k) (trace w2) = batch a ++ reports (k_ctx k) (trace w) →
  (∀ x, x ∈ ev_obj <$> a → d x ≠ MINUS_ONE) →
  effects (trace w2) = rev (batches_effects d fil g k fsync [a]) ++ effects (trace w) →
  glob w2 = (if forces d a then set_forceSysCall JNI_TRUE (glob w) else glob w) →
  poller_post d fil g bs b p k all (free ++ with_callback d a) (without_callback d a ++ out) base
    fsync w2 w' →
  poller_post d fil g (a :: bs) b p k all free out base fsync w w'.
Proof.
  intros Ho Hre Ha He Hg [Hre' Hl' Ha' Hend Ho' [Hs Hr] Hg'].
  assert (rev (batches_effects d fil g k fsync (a :: bs)) ++ effects (trace w) =
          rev (batches_effects d fil g k fsync bs) ++ effects (trace w2)) as Hes.
  { rewrite He. unfold batches_effects. simpl. by rewrite app_nil_r, rev_app_distr, app_assoc. }
  split.
  - by rewrite Hre', Hre, nonempty_whole_cons, rev_app_distr, rev_batch, app_assoc.
  - by right.
  - cbn [concat]. intros x. rewrite fmap_app, elem_of_app. intros [?|?]; auto.
  - by rewrite Hes.
  - rewrite Ho, Ho'. cbn [concat]. by rewrite !fmap_app, !app_assoc.
  - cbn [concat]. destruct (with_callback_app d a (concat bs)) as [-> ->]. cbv zeta.
    assert (without_callback d (concat bs) ++ (ev_obj <$> drop 1 b) ++ without_callback d a ++ out ≡ₚ
      (without_callback d a ++ without_callback d (concat bs)) ++ (ev_obj <$> drop 1 b) ++ out) as Hp.
    { rewrite (app_swap (ev_obj <$> drop 1 b)), <-app_assoc. by rewrite app_swap. }
    split; [|by eapply refs_ok_perm].
    eapply system_out_perm; [exact Hp|]. by rewrite <-!app_assoc in *.
  - cbn [concat]. rewrite Hg', Hg, forces_app. by destruct (forces d a), (forces d (concat bs)).
Qed.

(** The batch [a ++ b] was treated up to [b], from [w] to [w2]. *)
Record batch_post d fil g a b p k all free out base fsync w w2 : Prop := BatchPost {
  bt_owned : owned (k_ctx k) (trace w) ≡ₚ (ev_obj <$> a ++ b) ++ owned (k_ctx k) (trace w2);
  bt_reports : reports (k_ctx k) (trace w2) = batch (a ++ b) ++ reports (k_ctx k) (trace w);
  bt_effects : effects (trace w2) = rev (batches_effects d fil g k fsync [a]) ++ effects (trace w);
  bt_glob : glob w2 = (if forces d a then set_forceSysCall JNI_TRUE (glob w) else glob w);
  bt_wake e b' : b = e :: b' → fil (ev_obj e) = dumbWriteHandler g ∧ d (ev_obj e) = MINUS_ONE;
  bt_treated x : x ∈ ev_obj <$> a → fil x ≠ dumbWriteHandler g ∧ d x ≠ MINUS_ONE;
  bt_inv : poller_inv d fil g p k all (free ++ with_callback d a ++ (ev_obj <$> take 1 b))
             (without_callback d a ++ (ev_obj <$> drop 1 b) ++ out) base w2
}.

Lemma forces_ext d d' a :
  (∀ x, x ∈ ev_obj <$> a → d' x = d x) → forces d' a = forces d a.
Proof. intros Hd. unfold forces. by rewrite (proj2 (with_callback_ext d d' a Hd)). Qed.

Lemma wp_poller_batch d fil g p k all free out base l fsync w w1 :
  poller_inv d fil g p k all free out base w → reap p k all free out l w w1 →
  wp (blocked_events (length l) 0 (-1) p fsync) (λ r w2, ∃ a b, l = a ++ b ∧
    r = match b with [] => true | _ => false end ∧ interrupts (trace w2) = interrupts (trace w1) ∧
    batch_post d fil g a b p k all free out base fsync w w2) w1.
Proof.
  intros Hinv Hreap.
  destruct (poller_inv_reap _ _ _ _ _ _ _ _ _ _ _ _ Hinv Hreap) as ([Hs1 Hr1 Hg1 Hd1] & Hl & He1).
  pose proof Hreap as [_ [rest Hev] Hok Ho Hre _ _ _ _ _].
  destruct (split_wake fil (dumbWriteHandler g) l) as (a & b & -> & Ha & Hb).
  assert (∀ x, x ∈ ev_obj <$> a → data_of w1 x = d x) as Hda.
  { intros x Hx. apply Hl. rewrite fmap_app, elem_of_app. auto. }
  assert (dumbWriteHandler (glob w1) = dumbWriteHandler g ∧
          libaioContextDone (glob w1) = libaioContextDone g ∧
          errorMethod (glob w1) = errorMethod g) as (Hgd & Hgl & Hge) by (by destruct Hg1 as [-> | ->]).
  eapply wp_mono.
  { eapply (wp_blocked_events p k all base fsync b rest a [] free out (-1) w1);
      [exact Hs1|exact Hr1|exact Hev|exact Hok|..].
    - intros x Hx. destruct (Hl x) as (-> & -> & Hw); [rewrite fmap_app, elem_of_app; auto|].
      rewrite Hgd. split; [by apply Ha|]. rewrite <-Hw. by apply Ha.
    - intros e b' ->. destruct (Hl (ev_obj e)) as (-> & -> & Hw).
      { rewrite fmap_app, elem_of_app. right. apply list_elem_of_here. }
      rewrite Hgd, <-Hw. split; by eapply Hb. }
  intros r w2. unfold treated. cbv zeta. rewrite (proj1 (with_callback_ext d _ a Hda)), (proj2 (with_callback_ext d _ a Hda)).
  rewrite (forces_ext d _ a Hda), Hgl, Hge.
  rewrite (blocked_effects_ext _ _ _ d _ fil)
    by (intros x Hx; destruct (Hl x) as (? & ? & _); [rewrite fmap_app, elem_of_app; auto|done]).
  intros (-> & Hs2 & Hr2 & Hh2). exists a, b.
  pose proof Hh2 as [Ho2 Hg2 _ Hf2 Hd2 Hi2 Hre2 He2].
  split_and!; [done|done|done|]. split.
  - by rewrite Ho2.
  - by rewrite Hre2.
  - unfold batches_effects. simpl. by rewrite app_nil_r, He2, He1.
  - rewrite Hg2. by destruct Hreap as [_ _ _ _ _ -> _ _ _ _].
  - intros e b' Hbe. destruct (Hl (ev_obj e)) as (_ & _ & Hw).
    { rewrite Hbe, fmap_app, elem_of_app. right. apply list_elem_of_here. }
    rewrite <-Hw. split; by eapply Hb.
  - intros x Hx. destruct (Hl x) as (_ & _ & Hw); [rewrite fmap_app, elem_of_app; auto|].
    rewrite <-Hw. split; by apply Ha.
  - split; [done|done| |].
    + rewrite Hg2. destruct (forces d a), Hg1 as [-> | ->]; auto.
    + intros x Hx. rewrite Ho2 in Hx. destruct (Hd1 x Hx) as (Hdx & Hfx & Hw).
      rewrite Hf2, Hd2; [done|]. intros Hxa.
      apply (system_owned_fresh _ _ _ _ _ _ Hs1 x); [|done]. rewrite fmap_app, !elem_of_app. auto.
Qed.

(** What one call of [ringio_get_events] in the loop gives; without [R], the call
    makes progress. *)
Definition turn_post (R : Prop) bound p k all free out w (r : Z) w1 : Prop :=
  (kernel_error (k_ctx k) r (trace w1) ∧ reap p k all free out [] w w1 ∨
   ∃ l, r = Z.of_nat (length l) ∧ reap p k all free out l w w1) ∧
  (R ∨ r = -4 ∧ interrupts (trace w1) = Datatypes.S (interrupts (trace w)) ∧ (interrupts (trace w) < bound)%nat
     ∨ r < 0 ∧ r ≠ -4 ∨ 1 ≤ r ∧ interrupts (trace w1) = interrupts (trace w)).

(** The poller waits for ever only when nothing is in flight. *)
Definition idle (R : Prop) k (w' : world) : Prop := R ∧ owned (k_ctx k) (trace w') = [].

Lemma wp_poller_reap (R : Prop) bound p k all free out max w :
  system p k all free out w → 1 ≤ max →
  (R ∨ KernelProgress E bound ∧ owned (k_ctx k) (trace w) ≠ []) →
  wp_may (ringio_get_events (k_ctx k) 1 max (k_events k) None)
    (turn_post R bound p k all free out w) R (idle R k) w.
Proof.
  intros Hs Hmax [HR|[HP Hne]].
  - eapply wp_may_mono; [by apply (wp_may_ringio_system p k all free out)| |].
    + intros r w1 [[? ?]|(l & ? & ? & ?)]; unfold turn_post; eauto 10.
    + intros w' [_ _ Hfew]. split; [done|]. destruct (owned _ _); [done|]. simpl in Hfew. lia.
  - assert (1 ≤ Z.of_nat (length (owned (k_ctx k) (trace w))))
      by (destruct (owned (k_ctx k) (trace w)); [done|simpl; lia]).
    apply wp_may_of_wp. eapply wp_mono.
    + apply (wp_and _ _ _ _ (wp_ringio_system p k all free out 1 max None w Hs ltac:(done))
        (wp_ringio_progress bound p k all free out max w Hs Hmax Hne)).
    + intros r w1 [[[? ?]|(l & ? & ? & ?)] ?]; split; eauto.
Qed.

Lemma enough_fuel_turn fil g bound fuel k w w2 (xs : list Z) :
  enough_fuel fil g bound (S fuel) k w →
  owned (k_ctx k) (trace w) ≡ₚ xs ++ owned (k_ctx k) (trace w2) →
  (∀ x, x ∈ xs → fil x ≠ dumbWriteHandler g) →
  (interrupts (trace w) ≤ interrupts (trace w2))%nat →
  (interrupts (trace w) < bound ∧ interrupts (trace w) < interrupts (trace w2) ∨ 0 < length xs)%nat →
  enough_fuel fil g bound fuel k w2.
Proof.
  intros [(x & Hx & Hf) Hn] Ho Hxs Hi Hor. split.
  - exists x. split; [|done]. rewrite Ho, elem_of_app in Hx. destruct Hx as [Hx|Hx]; [|done].
    by apply Hxs in Hx.
  - apply Permutation_length in Ho. rewrite length_app in Ho. lia.
Qed.

(** An interrupted turn: the loop goes on from [w1]. *)
Lemma poller_retry d fil g bs b p k all free out base fsync w w1 w' :
  poller_inv d fil g p k all free out base w → reap p k all free out [] w w1 →
  poller_post d fil g bs b p k all free out base fsync w1 w' →
  poller_post d fil g ([] :: bs) b p k all free out base fsync w w'.
Proof.
  intros Hinv Hreap Hpost.
  destruct (poller_inv_reap _ _ _ _ _ _ _ _ _ _ _ _ Hinv Hreap) as (_ & _ & He1).
  destruct Hreap as [_ _ _ Ho1 Hre1 Hg1 _ _ _ _].
  apply (poller_turn d fil g [] bs b p k all free out base fsync w w1 w'); try done.
  - by intros x ?%elem_of_nil.
  - simpl. by rewrite app_nil_r.
Qed.

(** A turn that met a wake-up is the last one. *)
Lemma poller_stop d fil g a e b p k all free out base fsync w w2 :
  batch_post d fil g a (e :: b) p k all free out base fsync w w2 →
  poller_post d fil g [a] (e :: b) p k all free out base fsync w w2.
Proof.
  intros [Ho2 Hre2 He2 Hg2 Hw2 Ha2 Hinv2]. destruct (Hw2 e b eq_refl) as [_ Hm].
  split; simpl concat; rewrite ?app_nil_r.
  - rewrite Hre2. unfold nonempty. simpl. by rewrite app_nil_r, rev_batch.
  - by right.
  - intros x Hx. by apply Ha2.
  - left. by exists e, b.
  - done.
  - by destruct Hinv2.
  - done.
Qed.

(** The end of the loop on an error. *)
Lemma wp_poller_error d fil g p k all free out base fsync r w w1 :
  poller_inv d fil g p k all free out base w → reap p k all free out [] w w1 →
  kernel_error (k_ctx k) r (trace w1) → r ≠ - EINTR →
  wp (let* errno := int_ (- r) in
      throwIOExceptionErrorNo "Error while calling io_getevents IO: " errno)
     (λ _ w', ∃ bs b, poller_post d fil g bs b p k all free out base fsync w w') w1.
Proof.
  intros Hinv Hreap Hke Hr. pose proof Hke as [Hb _].
  destruct (poller_inv_reap _ _ _ _ _ _ _ _ _ _ _ _ Hinv Hreap) as (Hinv1 & _ & _).
  apply wp_bind, wp_int; [unfold INT_MIN, INT_MAX; lia|].
  eapply wp_mono; [apply wp_throwIOExceptionErrorNo; [unfold INT_MIN, INT_MAX; lia|]|].
  { by eapply system_heap_ok, (pi_system _ _ _ _ _ _ _ _ _ _ Hinv1). }
  intros [] w2 [Hm Ht]. exists [], []. by eapply poller_error.
Qed.

(** The first three actions of a turn. *)
Lemma wp_poller_call {A} (R : Prop) bound d fil g p k all free out base w (K : Z → cprog A) Q :
  poller_inv d fil g p k all free out base w →
  (R ∨ KernelProgress E bound ∧ owned (k_ctx k) (trace w) ≠ []) →
  (∀ r w1, turn_post R bound p k all free out w r w1 → wp_may (K r) Q R (idle R k) w1) →
  wp_may (let* ctx := p ->> ioContext in
          let* evs := p ->> events in
          let* result := ringio_get_events ctx 1 (k_size k) evs None in K result) Q R (idle R k) w.
Proof.
  intros Hinv HR HK. pose proof (pi_system _ _ _ _ _ _ _ _ _ _ Hinv) as Hs.
  pose proof (system_size _ _ _ _ _ _ Hs) as Hsize.
  destruct (system_control _ _ _ _ _ _ Hs) as (c & Hc & Hk).
  eapply (wp_may_seq _ _ (λ a s', a = k_ctx k ∧ s' = w)); [by eapply wp_load; [done|subst k]|].
  intros ? ? [-> ->].
  eapply (wp_may_seq _ _ (λ a s', a = k_events k ∧ s' = w)); [by eapply wp_load; [done|subst k]|].
  intros ? ? [-> ->].
  eapply wp_may_bind; [by apply (wp_poller_reap R bound p k all free out); [|lia|]|]. done.
Qed.

Lemma wp_blocked_loop (R : Prop) bound d fil g p k all base fsync fuel : ∀ free out w,
  poller_inv d fil g p k all free out base w →
  (R ∨ KernelProgress E bound ∧ enough_fuel fil g bound fuel k w) →
  wp_may (blocked_loop fuel p (k_size k) fsync) (λ _ w', ∃ bs b,
    poller_post d fil g bs b p k all free out base fsync w w') R (idle R k) w.
Proof.
  induction fuel as [|fuel IH]; intros free out w Hinv HR; cbn [blocked_loop].
  { destruct HR as [HR|[_ [_ HR]]]; [done|lia]. }
  eapply (wp_poller_call R bound); [done| |].
  { destruct HR as [HR|[HP [(x & Hx & _) _]]]; [by left|right]. split; [done|].
    intros Hnil. rewrite Hnil in Hx. by apply elem_of_nil in Hx. }
  intros r w1 [Hreap HR1].
  destruct (Z.eqb_spec r (- EINTR)) as [->|Hr].
  { destruct Hreap as [[_ Hreap]|(l & Hl & _)]; [|unfold EINTR in Hl; lia].
    destruct (poller_inv_reap _ _ _ _ _ _ _ _ _ _ _ _ Hinv Hreap) as (Hinv1 & _ & _).
    eapply wp_may_mono; [apply (IH free out w1 Hinv1)| |done].
    - destruct HR as [HR|[HP Hf]]; [by left|].
      destruct HR1 as [HR|[(_ & Hi & Hb)|Hx]]; [by left| |unfold EINTR in Hx; lia].
      right. split; [done|]. eapply (enough_fuel_turn _ _ _ _ _ w w1 []);
        [done|apply (rp_owned _ _ _ _ _ _ _ _ Hreap)|by intros x ?%elem_of_nil|lia|lia].
    - intros _ w' (bs & b & Hpost). exists ([] :: bs), b. by eapply poller_retry. }
  destruct (Z.ltb_spec r 0) as [Hneg|Hpos].
  { destruct Hreap as [[Hb Hreap]|(l & Hl & _)]; [|lia]. by eapply wp_may_of_wp, wp_poller_error. }
  destruct Hreap as [[[? _] ?]|(l & -> & Hreap)]; [lia|].
  rewrite Nat2Z.id. eapply wp_may_seq; [by eapply wp_poller_batch|].
  intros r w2 (a & [|e b] & -> & -> & Hi2 & Hbatch).
  - destruct Hbatch as [Ho2 Hre2 He2 Hg2 _ Ha2 Hinv2].
    rewrite !app_nil_r in Ho2, Hre2. simpl in Hinv2. rewrite app_nil_r in Hinv2.
    eapply wp_may_mono; [apply (IH _ _ w2 Hinv2)| |done].
    + destruct HR as [HR|[HP Hf]]; [by left|]. destruct HR1 as [HR|[(? & _)|[?|(Hlen & Hi1)]]];
        [by left|lia|lia|].
      right. split; [done|]. rewrite app_nil_r in Hlen.
      eapply enough_fuel_turn; [done|exact Ho2|intros x Hx; by apply Ha2|rewrite Hi2; lia|].
      right. rewrite length_fmap. lia.
    + intros _ w' (bs & b & Hpost). exists (a :: bs), b.
      eapply poller_turn; [done|done|intros x Hx; by apply Ha2|done..].
  - apply wp_may_of_wp, wp_ret. exists [a], (e :: b). by apply poller_stop.
Qed.

Lemma wp_blockedPoll (R : Prop) bound fuel ptr p k all free out base fsync w :
  DirectBuffer E ptr p → system p k all free out w → refs_ok k out base w →
  k_poll k = MFree → wakes w (owned (k_ctx k) (trace w)) →
  (R ∨ KernelProgress E bound ∧ enough_fuel (fildes_of w) (glob w) bound fuel k w) →
  wp_may (blockedPoll fuel ptr fsync) (λ _ w', ∃ bs b,
    poller_post (data_of w) (fildes_of w) (glob w) bs b p k all free out base fsync w w') R (idle R k) w.
Proof.
  intros Hd Hs Hr Hk Hw HR. pose proof (system_ptr _ _ _ _ _ _ Hs) as Hp.
  unfold blockedPoll. set (w0 := log (GetDirectBufferAddress ptr) p w).
  eapply (wp_may_seq _ _ (λ a s', a = p ∧ s' = w0)); [by apply (wp_getIOControl ptr p)|].
  intros ? ? [-> ->]. rewrite (proj2 (Z.eqb_neq _ _) Hp).
  assert (system p k all free out w0) as Hs0 by by apply system_log.
  assert (refs_ok k out base w0) as Hr0 by by apply refs_ok_log.
  destruct (system_control _ _ _ _ _ _ Hs0) as (c & Hc & Hkc).
  eapply (wp_may_seq _ _ (λ a s', a = k_size k ∧ s' = w0)); [by eapply wp_load; [done|subst k]|].
  intros ? ? [-> ->].
  eapply wp_may_seq; [by apply (wp_system_lock p k all free out)|]. intros [] w1 [Hs1 Hi1].
  pose proof Hi1 as [Ht1 Hg1 Hb1 _].
  eapply wp_may_bind.
  - apply (wp_blocked_loop R bound (data_of w) (fildes_of w) (glob w) p (with_poll MLocked k) all base
      fsync fuel free out w1).
    + split; [done| |by left|].
      * exact (refs_ok_iocbs k out base w0 w1 Hi1 Hr0).
      * rewrite Ht1. intros x Hx. rewrite (data_of_iocbs w0 w1), (fildes_of_iocbs w0 w1) by done.
        split_and!; [done|done|]. by apply Hw.
    + destruct HR as [HR|[HP Hf]]; [by left|right]. split; [done|].
      unfold enough_fuel in *. by rewrite Ht1.
  - intros [] w2 (bs & b & [Hre Hla Htr Hend Ho [Hs2 Hr2] Hg2]). apply wp_may_of_wp.
    eapply wp_mono; [by apply wp_system_unlock|]. intros [] w3 [Hs3 Hi3]. exists bs, b.
    pose proof Hi3 as [Ht3 Hg3 _ _]. rewrite Ht1 in Ho, Hend, Hre.
    split; rewrite ?Ht3; [done|done|done|done|done| |].
    + assert (with_poll MFree (with_poll MLocked k) = k) as <- by by destruct k; simpl in *; subst.
      split; [done|]. by eapply (refs_ok_iocbs k) in Hi3.
    + by rewrite Hg3, Hg2, Hg1.
Qed.

(** C2.  [blockedPoll] is safe on a live context whose wake-ups are exactly the
    requests with [MINUS_ONE]: for every kernel and any number of turns it never
    has undefined behaviour and never blocks on a lock it holds; it waits for ever
    only when nothing is in flight.  When it returns, it has met a wake-up, or
    [io_getevents] has failed, other than by an interruption, and the error is
    thrown as an IOException.  The batches it treated, [bs], and the rest
    [b] of the last one, which starts with the wake-up, are the completions that
    the kernel has reported during the call, with their results and in their
    order.  Each completion before the wake-up was treated once, in that order:
    its file synced first if asked ([fdatasync] once per run of events of the same
    file in a batch), [onError] called with the negated result exactly when the
    result is negative, [done] called once, its reference deleted and its
    iocb put back.  A request without callback keeps its iocb out of the
    pool and forces the system call from then on; the requests of the batch
    after the wake-up are dropped; [pollLock] is released. *)
Theorem blockedPoll_safe fuel ptr p k all free out base fsync w :
  DirectBuffer E ptr p → system p k all free out w → refs_ok k out base w →
  k_poll k = MFree → wakes w (owned (k_ctx k) (trace w)) →
  wp_may (blockedPoll fuel ptr fsync) (λ _ w', ∃ bs b,
    poller_post (data_of w) (fildes_of w) (glob w) bs b p k all free out base fsync w w')
    True (λ w', owned (k_ctx k) (trace w') = []) w.
Proof.
  intros. eapply wp_may_mono; [by apply (wp_blockedPoll True 0); [..|by left]|done|by intros w' []].
Qed.

(** C7.  [blockedPoll] stops: when a wake-up is in flight, the kernel reports at
    least one event per call while requests are in flight, and signals interrupt
    at most [bound] calls, the loop ends after at most one turn per request in
    flight and per interruption ([-EINTR] is retried), with the result of
    [blockedPoll_safe]. *)
Theorem blockedPoll_terminates bound fuel ptr p k all free out base fsync w :
  KernelProgress E bound →
  DirectBuffer E ptr p → system p k all free out w → refs_ok k out base w →
  k_poll k = MFree → wakes w (owned (k_ctx k) (trace w)) →
  enough_fuel (fildes_of w) (glob w) bound fuel k w →
  wp (blockedPoll fuel ptr fsync) (λ _ w', ∃ bs b,
    poller_post (data_of w) (fildes_of w) (glob w) bs b p k all free out base fsync w w') w.
Proof. intros. eapply wp_of_may; [by eapply (wp_blockedPoll False bound); [..|by right]|by intros w' []]. Qed.
End blocked_loop.

Lemma busy_wakes : wakes busy_world (owned 5000 (trace busy_world)).
Proof.
  intros x Hx. vm_compute in Hx.
  repeat (apply elem_of_cons in Hx as [->|Hx]; [by vm_compute|]). by apply elem_of_nil in Hx.
Qed.

Lemma blockedPoll_safe_witness :
  wp_may (blockedPoll (E := sim_env failing_sim) 1 55 1) (λ _ w', ∃ bs b,
    poller_post (E := sim_env failing_sim) (data_of busy_world) (fildes_of busy_world) (glob busy_world) bs b
      10 demo_ctl [40; 41] [] [] [900] 1 busy_world w')
    True (λ w', owned 5000 (trace w') = []) busy_world.
Proof.
  exact (blockedPoll_safe (E := sim_env failing_sim) 1 55 10 demo_ctl [40; 41] [] [] [900] 1 busy_world
    (demo_buffer failing_sim eq_refl) busy_system busy_refs eq_refl busy_wakes).
Defined.

Lemma blockedPoll_terminates_witness :
  wp (blockedPoll (E := sim_env demo_sim) 3 55 1) (λ _ w', ∃ bs b,
    poller_post (E := sim_env demo_sim) (data_of busy_world) (fildes_of busy_world) (glob busy_world) bs b
      10 demo_ctl [40; 41] [] [] [900] 1 busy_world w') busy_world.
Proof.
  apply (blockedPoll_terminates (E := sim_env demo_sim) 0 3 55 10 demo_ctl [40; 41] [] [] [900] 1 busy_world
    (sim_kernel_progress demo_sim) (demo_buffer demo_sim eq_refl) busy_system busy_refs eq_refl busy_wakes).
  split; [exists 41; split; [|done]; vm_compute; apply list_elem_of_here|]. vm_compute. lia.
Defined.
