(* ===== verification/Context.v ===== *)
(** * Contexts: [newContext] and [deleteContext]

    The life cycle of a [struct io_control]: its allocation step by step with the
    clean-up of each failure, and its destruction. *)

From S2P Require Export Poll.

(** Sizes of the C types on LP64. *)
Definition sizeof_io_control : Z := 128.
Definition sizeof_iocb : Z := 64.
Definition sizeof_ptr : Z := 8.
Definition sizeof_io_event : Z := 32.

Section context_code.
Context {E : Env}.

(** [io_queue_init(maxevents, &p->ioContext)] *)
Definition io_queue_init (maxevents p : Z) : cprog Z :=
  let* r := call (IoQueueInit maxevents) in
  (match r.2 with
   | Some ctx => store p (set_ioContext ctx)
   | None => Ret tt
   end) ;;
  Ret r.1.

Definition io_queue_release (ctx : Z) : cprog unit :=
  call (IoQueueRelease ctx) ;; Ret tt.

Definition iocb_destroy_members (theControl upperBound : Z) : cprog unit :=
  for_ 0 upperBound (λ i,
    let* pool := theControl ->> iocb_pool in
    let* p := load_elt (A := Z) pool i in
    free p).

Definition iocb_destroy_bounded (theControl upperBound : Z) : cprog unit :=
  iocb_destroy_members theControl upperBound ;;
  let* pool := theControl ->> iocb_pool in
  free pool.

Definition iocb_destroy (theControl : Z) : cprog unit :=
  let* qs := theControl ->> queueSize in
  iocb_destroy_bounded theControl qs.

(** The end of every failure path: [io_queue_release] and [free(theControl)]. *)
Definition release_control (theControl : Z) : cprog unit :=
  let* ctx := theControl ->> ioContext in
  io_queue_release ctx ;;
  free theControl.

(** The body of the loop that allocates the iocbs: [Some tt] is the early
    [return NULL]. *)
Definition alloc_iocb (theControl i : Z) : cprog (option unit) :=
  let* p := malloc sizeof_iocb indet_iocb in
  let* pool := theControl ->> iocb_pool in
  store_elt (A := Z) pool i p ;;
  let* pool := theControl ->> iocb_pool in
  let* p := load_elt (A := Z) pool i in
  if p =? NULL then
    iocb_destroy_bounded theControl i ;;
    release_control theControl ;;
    throwOutOfMemoryError ;;
    Ret (Some tt)
  else Ret None.

(** [newContext] after the allocation of the pool: the locks, the array of events
    and the fields. *)
Definition init_context (theControl thisObj queue_size : Z) : cprog Z :=
  store theControl (set_queueSize queue_size) ;;
  let* res := pthread_mutex_init (IocbLock theControl) in
  if negb (res =? 0) then
    iocb_destroy theControl ;;
    release_control theControl ;;
    throwRuntimeExceptionErrorNo "Can't initialize mutext:" res ;;
    Ret NULL
  else
  let* res := pthread_mutex_init (PollLock theControl) in
  if negb (res =? 0) then
    iocb_destroy theControl ;;
    release_control theControl ;;
    throwRuntimeExceptionErrorNo "Can't initialize mutext:" res ;;
    Ret NULL
  else
  let size := u64 (sizeof_io_event * u64 queue_size) in
  let* evs := malloc size (replicate (Z.to_nat (size / sizeof_io_event)) indet_event) in
  store theControl (set_events evs) ;;
  let* evs := theControl ->> events in
  if evs =? NULL then
    iocb_destroy theControl ;;
    release_control theControl ;;
    throwRuntimeExceptionErrorNo
      "Can't initialize mutext (not enough memory for the events member): " res ;;
    Ret NULL
  else
  store theControl (set_iocbPut 0) ;;
  store theControl (set_iocbGet 0) ;;
  store theControl (set_used 0) ;;
  let* ref := call (NewGlobalRef thisObj) in
  store theControl (set_thisObject ref) ;;
  call (NewDirectByteBuffer theControl sizeof_io_control).

Definition newContext (thisObj queue_size : Z) : cprog Z :=
  let* theControl := malloc sizeof_io_control indet_control in
  if theControl =? NULL then throwOutOfMemoryError ;; Ret NULL else
  let* res := io_queue_init queue_size theControl in
  if negb (res =? 0) then
    release_control theControl ;;
    throwRuntimeExceptionErrorNo "Cannot initialize queue:" res ;;
    Ret NULL
  else
  let size := u64 (sizeof_ptr * u64 queue_size) in
  let* pool := malloc size (replicate (Z.to_nat (size / sizeof_ptr)) indet_ptr) in
  store theControl (set_iocb_pool pool) ;;
  let* pool := theControl ->> iocb_pool in
  if pool =? NULL then
    release_control theControl ;;
    throwOutOfMemoryError ;;
    Ret NULL
  else
  let* failed := for_exit 0 queue_size (alloc_iocb theControl) in
  match failed with
  | Some _ => Ret NULL
  | None => init_context theControl thisObj queue_size
  end.

(** The body of the loop of [deleteContext] that returns pending iocbs. *)
Definition return_event (theControl i : Z) : cprog unit :=
  let* evs := theControl ->> events in
  let* event := load_elt (A := io_event) evs i in
  putIOCB theControl (ev_obj event).

(** [deleteContext] from the release of the AIO context on. *)
Definition tear_down (theControl : Z) : cprog unit :=
  let* ctx := theControl ->> ioContext in
  io_queue_release ctx ;;
  pthread_mutex_destroy (PollLock theControl) ;;
  pthread_mutex_destroy (IocbLock theControl) ;;
  iocb_destroy theControl ;;
  let* this := theControl ->> thisObject in
  call (DeleteGlobalRef this) ;;
  let* evs := theControl ->> events in
  free evs ;;
  free theControl.

Definition deleteContext (contextPointer : Z) : cprog unit :=
  let* theControl := getIOControl contextPointer in
  if theControl =? NULL then Ret tt else
  let* iocb := getIOCB theControl in
  if iocb =? NULL then throwIOException "Not enough space in libaio queue" else
  let* dumb := load_glob dumbWriteHandler in
  io_prep_pwrite iocb dumb 0 0 0 ;;
  store iocb (set_data MINUS_ONE) ;;
  let* ok := submit theControl iocb in
  if ok =? 0 then Ret tt else
  pthread_mutex_lock (PollLock theControl) ;;
  pthread_mutex_unlock (PollLock theControl) ;;
  let* ctx := theControl ->> ioContext in
  let* evs := theControl ->> events in
  let* result := ringio_get_events ctx 0 1 evs None in
  for_ 0 result (return_event theControl) ;;
  tear_down theControl.
End context_code.

(** ** Destruction of the pool *)
Section destroy.
Context {E : Env}.
Implicit Types (w : world) (p : Z) (arr iocbs ps : list Z).

Lemma has_delete_ne {T : Set} `{Storable T} w p q (x : T) :
  p ≠ q → w ⊨ q ↦ x → upd_heap (delete p) w ⊨ q ↦ x.
Proof. intros Hne Hq. unfold has. simpl. by rewrite lookup_delete_ne. Qed.

(** The first [length iocbs] members of the array are freed. *)
Lemma wp_destroy_members w0 p c iocbs rest ps w :
  extends w0 w (iocbs ++ ps) → p ∈ ps → iocb_pool c ∈ ps →
  w ⊨ p ↦ c → w ⊨ iocb_pool c ↦ (iocbs ++ rest) →
  wp (iocb_destroy_members p (Z.of_nat (length iocbs))) (λ _ w',
    extends w0 w' ps ∧ w' ⊨ p ↦ c ∧ w' ⊨ iocb_pool c ↦ (iocbs ++ rest) ∧ trace w' = trace w) w.
Proof.
  intros Hx Hp Hpool Hc Ha. unfold iocb_destroy_members.
  apply (wp_for (λ i w', extends w0 w' (drop (Z.to_nat i) iocbs ++ ps) ∧ w' ⊨ p ↦ c ∧
    w' ⊨ iocb_pool c ↦ (iocbs ++ rest) ∧ trace w' = trace w)); [lia|done| |].
  - intros i w' Hi (Hx' & Hc' & Ha' & Ht').
    destruct (lookup_lt_is_Some_2 iocbs (Z.to_nat i)) as [x Hxi]; [lia|].
    rewrite (drop_S _ _ _ Hxi) in Hx'. pose proof (ex_nodup _ _ _ Hx') as Hnd.
    apply list.NoDup_cons in Hnd as [Hnx _]. rewrite not_elem_of_app in Hnx. destruct Hnx as [_ Hnx].
    assert (x ≠ p ∧ x ≠ iocb_pool c) as [? ?] by (split; congruence).
    wp_step. apply wp_bind. eapply wp_load_elt; [done|lia|by apply lookup_app_l_Some|].
    eapply wp_extends_free; [exact Hx'|]. intros Hx''.
    rewrite Z2Nat.inj_add, Nat.add_1_r by lia.
    split_and!; [done|by apply has_delete_ne|by apply has_delete_ne|done].
  - intros w' (Hx' & ?). rewrite Nat2Z.id, drop_all in Hx'. done.
Qed.

Lemma wp_destroy_bounded w0 p c iocbs rest ps n w :
  extends w0 w (iocbs ++ iocb_pool c :: ps) → p ∈ ps → n = Z.of_nat (length iocbs) →
  w ⊨ p ↦ c → w ⊨ iocb_pool c ↦ (iocbs ++ rest) →
  wp (iocb_destroy_bounded p n) (λ _ w',
    extends w0 w' ps ∧ w' ⊨ p ↦ c ∧ trace w' = trace w) w.
Proof.
  intros Hx Hp -> Hc Ha. unfold iocb_destroy_bounded. eapply wp_seq.
  { eapply (wp_destroy_members w0 p c iocbs rest); [exact Hx|set_solver|set_solver|done|done]. }
  intros [] w1 (Hx1 & Hc1 & _ & Ht1). wp_step.
  pose proof (ex_nodup _ _ _ Hx1) as Hnd. apply list.NoDup_cons in Hnd as [Hnp _].
  eapply wp_extends_free; [exact Hx1|]. intros Hx2.
  split_and!; [done| |done]. apply has_delete_ne; [|done]. intros Heq. apply Hnp. by rewrite Heq.
Qed.

(** The end of a failure path gives back what [newContext] has allocated. *)
Lemma wp_release_control w0 p c w (Q : unit → world → Prop) :
  extends w0 w [p] → w ⊨ p ↦ c →
  (∀ r w', same_mem w0 w' → heap_ok w' →
     trace w' = Ev (IoQueueRelease (ioContext c)) r :: trace w → Q tt w') →
  wp (release_control p) Q w.
Proof.
  intros Hx Hc HQ. unfold release_control, io_queue_release. do 3 wp_step.
  eapply wp_extends_free; [apply extends_log; exact Hx|]. intros Hx'.
  eapply HQ; [by apply extends_nil|apply Hx'|done].
Qed.

Lemma throwOutOfMemory_run w :
  ∃ cls, run throwOutOfMemoryError w =
    Done tt (log (ThrowNew cls (Some ""%string)) tt (log (FindClass "java/lang/OutOfMemoryError") cls w)).
Proof. eexists. unfold run. simpl. by rewrite (unit_eta (answer _ _)). Qed.
End destroy.

(** ** Creation *)
Section create.
Context {E : Env}.
Implicit Types (w : world) (p : Z) (arr iocbs ps : list Z).

(** Since [h0], the context [ctx] was created, and nothing else of note. *)
Record opened (ctx : Z) (h0 h : history) : Prop := Opened {
  op_refs : live_refs h = live_refs h0;
  op_ctxs : live_ctxs h = ctx :: live_ctxs h0;
  op_effects : effects h = effects h0;
  op_owned c : owned c h = owned c h0
}.

Lemma opened_silent ctx h0 h h' : opened ctx h0 h → silent h h' → opened ctx h0 h'.
Proof. intros [] []. split; congruence. Qed.

(** A failed [newContext]: the memory, the contexts and the references are as
    before, and one exception is pending. *)
Record failed w w' : Prop := Failed {
  fd_mem : same_mem w w';
  fd_ok : heap_ok w';
  fd_ctxs : live_ctxs (trace w') = live_ctxs (trace w);
  fd_refs : live_refs (trace w') = live_refs (trace w);
  fd_effects : ∃ cls msg, effects (trace w') = EThrow cls msg :: effects (trace w)
}.

Lemma wp_fail_memory w0 p c w :
  extends w0 w [p] → w ⊨ p ↦ c → opened (ioContext c) (trace w0) (trace w) →
  wp (release_control p ;; throwOutOfMemoryError) (λ _ w', failed w0 w') w.
Proof.
  intros Hx Hc [Hr Hcx He _]. apply wp_bind. eapply wp_release_control; [done..|].
  intros r w1 Hm Hok Ht. destruct (throwOutOfMemory_run w1) as [cls Hrun].
  eapply wp_of_run; [exact Hrun|]. split.
  - by destruct Hm.
  - done.
  - simpl. rewrite Ht. simpl. rewrite Hcx. simpl. by rewrite decide_True.
  - simpl. by rewrite Ht.
  - do 2 eexists. cbn [trace log]. rewrite Ht, !effects_cons. cbn. by rewrite He.
Qed.

Lemma wp_fail_errno w0 p c w msg e :
  extends w0 w [p] → w ⊨ p ↦ c → INT_MIN < e ≤ INT_MAX →
  live_ctxs (Ev (IoQueueRelease (ioContext c)) 0 :: trace w) = live_ctxs (trace w0) →
  live_refs (trace w) = live_refs (trace w0) → effects (trace w) = effects (trace w0) →
  wp (release_control p ;; throwRuntimeExceptionErrorNo msg e) (λ _ w', failed w0 w') w.
Proof.
  intros Hx Hc He Hcx Hr Hf. apply wp_bind. eapply wp_release_control; [done..|].
  intros r w1 Hm Hok Ht. eapply wp_mono; [by apply wp_throwRuntimeExceptionErrorNo|].
  intros [] w2 [Hm2 Ht2]. split.
  - by etrans.
  - by eapply same_mem_heap_ok.
  - by rewrite Ht2, errno_thrown_ctxs, Ht.
  - by rewrite Ht2, errno_thrown_refs, Ht.
  - do 2 eexists. rewrite Ht2, errno_thrown_effects, Ht, effects_cons. cbn. by rewrite Hf.
Qed.

(** The pool while it is built: [iocbs] are allocated, [rest] is still to come. *)
Record building w0 p c (q : Z) iocbs w : Prop := Building {
  bd_extends : extends w0 w (iocbs ++ [iocb_pool c; p]);
  bd_control : w ⊨ p ↦ c;
  bd_arr : ∃ rest, w ⊨ iocb_pool c ↦ (iocbs ++ rest) ∧ Z.of_nat (length (iocbs ++ rest)) = q;
  bd_iocbs x : x ∈ iocbs → ∃ b : iocb, w ⊨ x ↦ b;
  bd_opened : opened (ioContext c) (trace w0) (trace w)
}.

Lemma building_destroyed {A} w0 p c q iocbs n w (k : cprog A) (Q : A → world → Prop) :
  building w0 p c q iocbs w → n = Z.of_nat (length iocbs) →
  (∀ w', extends w0 w' [p] → w' ⊨ p ↦ c → opened (ioContext c) (trace w0) (trace w') →
     wp k Q w') →
  wp (iocb_destroy_bounded p n ;; k) Q w.
Proof.
  intros [Hx Hc (rest & Ha & _) _ Ho] Hn Hk. eapply wp_seq.
  { eapply (wp_destroy_bounded w0 p c iocbs rest [p]); [exact Hx|set_solver|done|done|done]. }
  intros [] w' (Hx' & Hc' & Ht'). apply Hk; [done|done|]. by rewrite Ht'.
Qed.

(** One turn of the loop that allocates the iocbs. *)
Lemma wp_alloc_iocb w0 p c q iocbs w :
  building w0 p c q iocbs w → Z.of_nat (length iocbs) < q →
  wp (alloc_iocb p (Z.of_nat (length iocbs))) (λ o w',
    match o with
    | Some _ => failed w0 w'
    | None => ∃ x, building w0 p c q (iocbs ++ [x]) w'
    end) w.
Proof.
  intros [Hx Hc (rest & Ha & Hlen) Hi Ho] Hq.
  destruct rest as [|y rest]; [rewrite app_nil_r in Hlen; lia|].
  assert (p ≠ iocb_pool c) as Hne by (by eapply (has_ne w _ _ c (iocbs ++ y :: rest))).
  assert (∀ x, <[Z.to_nat (Z.of_nat (length iocbs)) := x]> (iocbs ++ y :: rest) = iocbs ++ x :: rest)
    as Hins by (intros x; by rewrite Nat2Z.id, insert_app_r_alt, Nat.sub_diag by done).
  assert (∀ x, (iocbs ++ x :: rest) !! Z.to_nat (Z.of_nat (length iocbs)) = Some x)
    as Hget by (intros x; by rewrite Nat2Z.id, lookup_app_r, Nat.sub_diag by done).
  unfold alloc_iocb. apply wp_bind, wp_malloc; [apply Hx| |].
  - intros _. eapply wp_bind, wp_load; [done|]. cbv beta.
    apply wp_bind. eapply wp_store_elt; [by apply has_log|rewrite length_app in *; simpl in *; lia|].
    rewrite Hins. eapply wp_bind, wp_load; [by apply has_put_ne|]. cbv beta.
    apply wp_bind. eapply wp_load_elt; [apply has_put_eq|lia|apply Hget|].
    rewrite Z.eqb_refl.
    eapply (building_destroyed w0 p c q iocbs); [|done|].
    { split.
      - eapply extends_put; [apply extends_log; exact Hx|set_solver|done].
      - by apply has_put_ne.
      - eexists. split; [apply has_put_eq|]. by rewrite length_app in *.
      - intros x Hxi. destruct (Hi x Hxi) as [b Hb]. exists b.
        apply has_put_ne; [|done]. by eapply (has_ne w _ _ (iocbs ++ y :: rest) b).
      - by eapply opened_silent. }
    intros w1 Hx1 Hc1 Ho1. apply wp_bind_assoc. eapply wp_seq; [by eapply wp_fail_memory|].
    intros [] w2 Hf2. by apply wp_ret.
  - intros _ x Hbx H0 Hfr. set (w1 := bump _ _ _ _).
    assert (x ∉ iocbs ++ [iocb_pool c; p]) as Hxn.
    { intros Hin. destruct (ex_new _ _ _ Hx x Hin) as (_ & _ & [b Hb]). congruence. }
    assert (w1 ⊨ p ↦ c ∧ w1 ⊨ iocb_pool c ↦ (iocbs ++ y :: rest)) as [Hc1 Ha1]
      by (split; by apply has_bump).
    assert (extends w0 w1 (x :: iocbs ++ [iocb_pool c; p])) as Hx1
      by (apply extends_bump; [by apply extends_log|done|done]).
    eapply wp_bind, wp_load; [done|]. cbv beta.
    apply wp_bind. eapply wp_store_elt; [done|rewrite length_app in *; simpl in *; lia|].
    rewrite Hins. eapply wp_bind, wp_load; [by apply has_put_ne|]. cbv beta.
    apply wp_bind. eapply wp_load_elt; [apply has_put_eq|lia|apply Hget|].
    rewrite (proj2 (Z.eqb_neq _ _)) by (unfold NULL; lia). apply wp_ret. exists x.
    split.
    + rewrite <-app_assoc. eapply extends_perm; [apply Permutation_middle|].
      eapply extends_put; [exact Hx1|set_solver|done].
    + by apply has_put_ne.
    + exists rest. rewrite <-app_assoc. split; [apply has_put_eq|]. by rewrite length_app in *.
    + intros z Hz. apply elem_of_app in Hz as [Hz|Hz%list_elem_of_singleton].
      * destruct (Hi z Hz) as [b Hb]. exists b.
        apply has_put_ne; [by eapply (has_ne w _ _ (iocbs ++ y :: rest) b)|by apply has_bump].
      * subst z. exists indet_iocb. apply has_put_ne; [|apply has_bump_eq].
        intros Heq. apply Hxn. rewrite <-Heq. set_solver.
    + by eapply opened_silent.
Qed.

Lemma wp_alloc_loop w0 p c q w :
  building w0 p c q [] w → 0 ≤ q →
  wp (for_exit 0 q (alloc_iocb p)) (λ o w',
    match o with
    | Some _ => failed w0 w'
    | None => ∃ iocbs, building w0 p c q iocbs w' ∧ q = Z.of_nat (length iocbs)
    end) w.
Proof.
  intros Hb Hq.
  apply (wp_for_exit (λ i w', ∃ iocbs, building w0 p c q iocbs w' ∧ i = Z.of_nat (length iocbs)));
    [done|by exists []| |].
  - intros i w' Hi (iocbs & Hb' & ->). eapply wp_mono; [apply (wp_alloc_iocb w0 p c q); [done|lia]|].
    intros [r|] w''; [done|]. intros [x Hx]. exists (iocbs ++ [x]). split; [done|].
    rewrite length_app. simpl. lia.
  - intros w' H. exact H.
Qed.

(** Assignments to the other fields of the control block. *)
Lemma building_put w0 p c c' q iocbs w :
  building w0 p c q iocbs w → iocb_pool c' = iocb_pool c → ioContext c' = ioContext c →
  building w0 p c' q iocbs (put p c' w).
Proof.
  intros [Hx Hc (rest & Ha & Hlen) Hi Ho] Hp Hctx. split; rewrite ?Hp, ?Hctx; try done.
  - eapply extends_put; [exact Hx|set_solver|done].
  - apply has_put_eq.
  - exists rest. split; [|done]. apply has_put_ne; [|done].
    by eapply (has_ne w _ _ c (iocbs ++ rest)).
  - intros x Hxi. destruct (Hi x Hxi) as [b Hb]. exists b. apply has_put_ne; [|done].
    by eapply (has_ne w _ _ c b).
Qed.

Lemma building_log {T : Set} w0 p c q iocbs w (e : syscall T) r :
  building w0 p c q iocbs w → silent (trace w) (Ev e r :: trace w) →
  building w0 p c q iocbs (log e r w).
Proof.
  intros [Hx Hc Ha Hi Ho] Hs. split; try done; [by apply extends_log|by eapply opened_silent].
Qed.

(** A failure with an error number, when the pool is complete. *)
Lemma wp_fail_built w0 p c q iocbs w msg e :
  building w0 p c q iocbs w → queueSize c = Z.of_nat (length iocbs) → INT_MIN < e ≤ INT_MAX →
  wp (iocb_destroy p ;; release_control p ;; throwRuntimeExceptionErrorNo msg e ;; Ret NULL)
     (λ r w', r = NULL ∧ failed w0 w') w.
Proof.
  intros Hb Hn He. unfold iocb_destroy. eapply wp_bind, wp_bind, wp_load; [apply Hb|]. cbv beta.
  apply wp_bind_inv. rewrite Hn.
  eapply (building_destroyed w0 p c q iocbs); [done|done|]. intros w1 Hx1 Hc1 [Hr Hcx Hf _].
  apply wp_bind_assoc. eapply wp_seq.
  { eapply (wp_fail_errno w0 p c); [done|done|done| |done|done].
    simpl. rewrite Hcx. simpl. by rewrite decide_True. }
  intros [] w2 Hf2. by apply wp_ret.
Qed.

(** All the blocks of a context are allocated. *)
Record ready w0 p c iocbs (evl : list io_event) w : Prop := Ready {
  rd_extends : extends w0 w (events c :: iocbs ++ [iocb_pool c; p]);
  rd_control : w ⊨ p ↦ c;
  rd_arr : w ⊨ iocb_pool c ↦ iocbs;
  rd_events : w ⊨ events c ↦ evl;
  rd_iocbs x : x ∈ iocbs → ∃ b : iocb, w ⊨ x ↦ b
}.

Lemma ready_put w0 p c c' iocbs evl w :
  ready w0 p c iocbs evl w → iocb_pool c' = iocb_pool c → events c' = events c →
  ready w0 p c' iocbs evl (put p c' w).
Proof.
  intros [Hx Hc Ha He Hi] Hp Hv. split; rewrite ?Hp, ?Hv.
  - eapply extends_put; [exact Hx|set_solver|done].
  - apply has_put_eq.
  - apply has_put_ne; [|done]. by eapply (has_ne w _ _ c iocbs).
  - apply has_put_ne; [|done]. by eapply (has_ne w _ _ c evl).
  - intros x Hxi. destruct (Hi x Hxi) as [b Hb]. exists b. apply has_put_ne; [|done].
    by eapply (has_ne w _ _ c b).
Qed.

Lemma ready_log {T : Set} w0 p c iocbs evl w (e : syscall T) r :
  ready w0 p c iocbs evl w → ready w0 p c iocbs evl (log e r w).
Proof. intros [Hx Hc Ha He Hi]. split; try done. by apply extends_log. Qed.

(** The state of a new context: every iocb is free, nothing is in flight. *)
Lemma ready_system w0 p c iocbs evl w :
  ready w0 p c iocbs evl w →
  iocbLock c = MFree → queueSize c = Z.of_nat (length iocbs) → 0 < queueSize c ≤ INT_MAX →
  iocbPut c = 0 → iocbGet c = 0 → used c = 0 → Z.of_nat (length evl) = queueSize c →
  owned (ioContext c) (trace w) = [] → ioContext c ∈ live_ctxs (trace w) →
  system p (ctl_of c) iocbs iocbs [] w.
Proof.
  intros [Hx Hc Ha He Hi] Hl Hq Hsz Hp Hg Hu Hel Ho Hlive. exists c, iocbs, evl. split; [|done].
  pose proof (ex_nodup _ _ _ Hx) as Hnd. apply list.NoDup_cons in Hnd as [_ Hnd].
  apply list.NoDup_app in Hnd as (Hnd & _ & _).
  split; try done; [apply Hx| | |].
  - split; [done|done|done|].
    split; try done; rewrite ?Hp, ?Hg, ?Hu; try lia.
    + rewrite <-Hq. symmetry. apply Z_mod_same_full.
    + apply window_full.
  - rewrite Ho, !app_nil_r. done.
  - intros x Hxi. split; [|by apply Hi].
    apply (ex_new _ _ _ Hx x), list_elem_of_further, elem_of_app. by left.
Qed.

(** The blocks, the context and the reference that [newContext] makes for a control
    block at [p], when all allocations succeed; [r] is the JVM's answer when asked for a
    buffer at [p].  The reference is null when the JVM could not make one: the code
    does not look. *)
Record built w p (q thisObj : Z) all k (r : Z) w' : Prop := Built {
  cr_system : system p k all all [] w';
  cr_poll : k_poll k = MFree;
  cr_size : k_size k = q;
  cr_refs : live_refs (trace w') = (if k_this k =? NULL then [] else [k_this k]) ++ live_refs (trace w);
  cr_ctxs : live_ctxs (trace w') = k_ctx k :: live_ctxs (trace w);
  cr_owned : owned (k_ctx k) (trace w') = [];
  cr_effects : effects (trace w') = effects (trace w);
  cr_memory : extends w w' (k_events k :: all ++ [k_pool k; p]);
  cr_answer : ∃ h, r = answer h (NewDirectByteBuffer p sizeof_io_control);
  cr_trace : ∃ t, trace w' = Ev (NewDirectByteBuffer p sizeof_io_control) r
                               :: Ev (NewGlobalRef thisObj) (k_this k) :: t
}.

(** A [newContext] that has succeeded. *)
Definition created w p (q thisObj : Z) all k (r : Z) w' : Prop :=
  r ≠ NULL ∧ built w p q thisObj all k r w'.

(** The JVM had no buffer: the caller gets [NULL] and can never reach what was
    built.  No exception is thrown here. *)
Definition orphaned w (q thisObj : Z) w' : Prop :=
  ∃ p all k, built w p q thisObj all k NULL w'.

(** [io_queue_init] has refused the size: the memory and the references are as before
    and one exception is pending, but the context released is whatever the memory
    of the control block held. *)
Record refused w w' : Prop := Refused {
  rf_mem : same_mem w w';
  rf_ok : heap_ok w';
  rf_ctxs : live_ctxs (trace w') = remove1 (ioContext indet_control) (live_ctxs (trace w));
  rf_refs : live_refs (trace w') = live_refs (trace w);
  rf_effects : ∃ cls msg, effects (trace w') = EThrow cls msg :: effects (trace w)
}.

Lemma built_intro w0 p c iocbs evl thisObj ref r w c' :
  ready w0 p c iocbs evl w → opened (ioContext c) (trace w0) (trace w) →
  owned (ioContext c) (trace w0) = [] →
  queueSize c = Z.of_nat (length iocbs) → 0 < queueSize c ≤ INT_MAX →
  Z.of_nat (length evl) = queueSize c →
  c' = IoControl (ioContext c) (events c) ref MFree MFree (iocb_pool c) (queueSize c) 0 0 0 →
  (∃ h, r = answer h (NewDirectByteBuffer p sizeof_io_control)) →
  built w0 p (queueSize c) thisObj iocbs (ctl_of c') r
    (log (NewDirectByteBuffer p sizeof_io_control) r (put p c' (log (NewGlobalRef thisObj) ref w))).
Proof.
  intros Hrd [Hor Hoc Hoe Hoo] Hfresh Hq Hsz Hel -> Hans. set (c' := IoControl _ _ _ _ _ _ _ _ _ _).
  set (w' := log (NewDirectByteBuffer _ _) r _).
  assert (ready w0 p c' iocbs evl w') as Hrd'.
  { apply ready_log. eapply ready_put; [by apply ready_log|done|done]. }
  assert (owned (ioContext c') (trace w') = []) as Ho.
  { change (owned (ioContext c) (trace w) = []). by rewrite Hoo. }
  split; try done.
  - eapply ready_system; try done. simpl. rewrite Hoc. apply list_elem_of_here.
  - simpl. rewrite Hor. by destruct (ref =? NULL).
  - apply (rd_extends _ _ _ _ _ _ Hrd').
  - by exists (trace w).
Qed.

Lemma put_log_put {T : Set} p (c c' : io_control) (e : syscall T) r w :
  put p c (log e r (put p c' w)) = put p c (log e r w).
Proof. unfold put, upd_heap, log. simpl. by rewrite insert_insert_eq. Qed.

(** The last assignments of [newContext]. *)
Lemma wp_init_fields w0 p c iocbs evl thisObj w :
  ready w0 p c iocbs evl w → opened (ioContext c) (trace w0) (trace w) →
  owned (ioContext c) (trace w0) = [] → iocbLock c = MFree → pollLock c = MFree →
  queueSize c = Z.of_nat (length iocbs) → 0 < queueSize c ≤ INT_MAX →
  Z.of_nat (length evl) = queueSize c →
  wp (store p (set_iocbPut 0) ;;
      store p (set_iocbGet 0) ;;
      store p (set_used 0) ;;
      let* ref := call (NewGlobalRef thisObj) in
      store p (set_thisObject ref) ;;
      call (NewDirectByteBuffer p sizeof_io_control))
     (λ r w', ∃ k, built w0 p (queueSize c) thisObj iocbs k r w') w.
Proof.
  intros Hrd Ho Hfresh Hl Hpl Hq Hsz Hel. pose proof (rd_control _ _ _ _ _ _ Hrd) as Hc.
  do 6 wp_step. rewrite put_log_put, !put_put, put_log_put.
  eexists. eapply built_intro; try done; [|by eexists]. clear -Hl Hpl. destruct c. simpl in *. by subst.
Qed.

(** The array of events completes the allocation. *)
Lemma building_ready w0 p c q iocbs evl e size w :
  q = Z.of_nat (length iocbs) → brk w ≤ e → 0 < e → heap w !! e = None →
  building w0 p c q iocbs w →
  ready w0 p (set_events e c) iocbs evl (put p (set_events e c) (bump e size (BEvents evl) w)).
Proof.
  intros Hq Hbe H0 Hfr [Hx Hc (rest & Ha & Hlen) Hi Ho].
  assert (rest = []) as -> by (destruct rest; [done|rewrite length_app in Hlen; simpl in Hlen; lia]).
  rewrite app_nil_r in Ha. set (w1 := bump _ _ _ _).
  assert (w1 ⊨ p ↦ c ∧ w1 ⊨ iocb_pool c ↦ iocbs ∧ w1 ⊨ e ↦ evl) as (Hc1 & Ha1 & He1).
  { split_and!; [by apply has_bump|by apply has_bump|]. exact (has_bump_eq (T := list io_event) _ _ _ _). }
  split.
  - eapply extends_put; [by apply extends_bump| |done].
    apply list_elem_of_further, elem_of_app. right. set_solver.
  - apply has_put_eq.
  - apply has_put_ne; [|done]. by eapply (has_ne w1 _ _ c iocbs).
  - apply has_put_ne; [|done]. by eapply (has_ne w1 _ _ c evl).
  - intros x Hxi. destruct (Hi x Hxi) as [b Hb]. exists b. apply has_put_ne.
    + by eapply (has_ne w _ _ c b).
    + by apply has_bump.
Qed.

Context {PE : PosixErrors E}.

Lemma silent_quiet {T : Set} (e : syscall T) r h :
  live_refs (Ev e r :: h) = live_refs h → live_ctxs (Ev e r :: h) = live_ctxs h →
  effect_of (Ev e r) = None → (∀ c, owned c (Ev e r :: h) = owned c h) → silent h (Ev e r :: h).
Proof. intros. split; try done. rewrite effects_cons. by destruct (effect_of _). Qed.

(** [pthread_mutex_init] of one of the locks. *)
Lemma wp_init_lock w0 p c (set : mutex → io_control → io_control) (m : mref) q iocbs w
    (Q : Z → world → Prop) :
  building w0 p c q iocbs w →
  (∀ w, w ⊨ p ↦ c → ∃ v, focus m w = Some (v, λ v, put p (set v c) w)) →
  iocb_pool (set MFree c) = iocb_pool c → ioContext (set MFree c) = ioContext c →
  (∀ w', building w0 p (set MFree c) q iocbs w' → Q 0 w') →
  (∀ r w', r ≠ 0 → 0 ≤ r < 4096 → building w0 p c q iocbs w' → Q r w') →
  wp (pthread_mutex_init m) Q w.
Proof.
  intros Hb Hf Hp Hx H0 Hr.
  assert (∀ r, building w0 p c q iocbs (log PthreadMutexInit r w)) as Hl
    by (intros r; apply building_log; [done|by apply silent_quiet]).
  destruct (Hf (log PthreadMutexInit 0 w)) as [v Hv]; [apply Hb|].
  eapply wp_mutex_init; [exact Hv| |].
  - intros _. apply H0. by eapply building_put.
  - intros r Hne Ha. apply Hr; [done| |done]. rewrite <-Ha. apply pe_mutex.
Qed.

Lemma wp_init_context w0 p c thisObj q iocbs w :
  building w0 p c q iocbs w → q = Z.of_nat (length iocbs) → 0 < q ≤ INT_MAX →
  owned (ioContext c) (trace w0) = [] →
  wp (init_context p thisObj q) (λ r w',
    r = NULL ∧ failed w0 w' ∨ ∃ k, built w0 p q thisObj iocbs k r w') w.
Proof.
  intros Hb Hq Hsz Hfresh. unfold init_context.
  eapply wp_bind, wp_store; [apply Hb|].
  eapply (building_put _ _ _ (set_queueSize q c)) in Hb; [|done|done].
  set (c1 := set_queueSize q c) in *. apply wp_bind.
  eapply (wp_init_lock w0 p c1 set_iocbLock (IocbLock p)); [exact Hb| |done|done|..].
  { intros w1 Hc1. eexists. by apply focus_iocbLock. }
  2:{ intros r w1 Hr Hr' Hb1. rewrite (proj2 (Z.eqb_neq _ _) Hr). simpl.
      eapply wp_mono; [eapply wp_fail_built; [done|done|unfold INT_MIN, INT_MAX; lia]|]. by left. }
  clear w Hb. intros w Hb. simpl negb. cbv iota. set (c2 := set_iocbLock MFree c1) in *.
  apply wp_bind. eapply (wp_init_lock w0 p c2 set_pollLock (PollLock p)); [exact Hb| |done|done|..].
  { intros w1 Hc1. eexists. by apply focus_pollLock. }
  2:{ intros r w1 Hr Hr' Hb1. rewrite (proj2 (Z.eqb_neq _ _) Hr). simpl.
      eapply wp_mono; [eapply wp_fail_built; [done|done|unfold INT_MIN, INT_MAX; lia]|]. by left. }
  clear w Hb. intros w Hb. simpl negb. cbv iota. set (c3 := set_pollLock MFree c2) in *.
  assert (Z.to_nat (u64 (sizeof_io_event * u64 q) / sizeof_io_event) = Z.to_nat q) as Hn.
  { unfold sizeof_io_event, INT_MAX in *. rewrite (u64_small q), u64_small by lia.
    by rewrite Z.mul_comm, Z.div_mul. }
  apply wp_bind, wp_malloc; [apply (ex_ok _ _ _ (bd_extends _ _ _ _ _ _ Hb))| |].
  - intros _. eapply wp_bind, wp_store; [apply has_log, Hb|].
    eapply wp_bind, wp_load; [apply has_put_eq|]. cbv beta. simpl.
    eapply wp_mono.
    { eapply (wp_fail_built w0 p (set_events NULL c3)); [|done|unfold INT_MIN, INT_MAX; lia].
      apply (building_put _ _ c3); [|done|done]. apply building_log; [exact Hb|by apply silent_quiet]. }
    by left.
  - intros _ e Hbe H0 Hfr. set (evl := replicate _ indet_event). set (w1 := bump _ _ _ _).
    assert (ready w0 p (set_events e c3) iocbs evl (put p (set_events e c3) w1)) as Hrd.
    { apply (building_ready _ _ _ q); [done..|apply building_log; [done|by apply silent_quiet]]. }
    eapply wp_bind, wp_store; [apply has_bump; [done|apply has_log, Hb]|].
    eapply wp_bind, wp_load; [apply has_put_eq|]. cbv beta. simpl events.
    rewrite (proj2 (Z.eqb_neq _ _)) by (unfold NULL; lia).
    eapply wp_mono; [eapply (wp_init_fields w0 p (set_events e c3) iocbs evl); try done|].
    + eapply opened_silent; [apply Hb|]. by apply silent_quiet.
    + unfold evl. rewrite Hn, length_replicate. simpl. lia.
    + intros r w' Hk. by right.
Qed.

Context {KQ : KernelQueue E}.

(** The array of pointers, and all that follows it. *)
Lemma wp_newContext_pool w0 p c thisObj q w :
  extends w0 w [p] → w ⊨ p ↦ c → opened (ioContext c) (trace w0) (trace w) →
  0 < q ≤ INT_MAX → owned (ioContext c) (trace w0) = [] →
  wp (let size := u64 (sizeof_ptr * u64 q) in
      let* pool := malloc size (replicate (Z.to_nat (size / sizeof_ptr)) indet_ptr) in
      store p (set_iocb_pool pool) ;;
      let* pool := p ->> iocb_pool in
      if pool =? NULL then
        release_control p ;;
        throwOutOfMemoryError ;;
        Ret NULL
      else
      let* failed := for_exit 0 q (alloc_iocb p) in
      match failed with
      | Some _ => Ret NULL
      | None => init_context p thisObj q
      end) (λ r w', r = NULL ∧ failed w0 w' ∨ ∃ all k, built w0 p q thisObj all k r w') w.
Proof.
  intros Hx Hc Ho Hq Hfresh. cbv zeta.
  assert (Z.to_nat (u64 (sizeof_ptr * u64 q) / sizeof_ptr) = Z.to_nat q) as Hn.
  { unfold sizeof_ptr, INT_MAX in *. rewrite (u64_small q), u64_small by lia.
    by rewrite Z.mul_comm, Z.div_mul. }
  apply wp_bind, wp_malloc; [apply Hx| |].
  - intros _. eapply wp_bind, wp_store; [by apply has_log|].
    eapply wp_bind, wp_load; [apply has_put_eq|]. cbv beta. simpl.
    apply wp_bind_assoc. eapply wp_seq.
    { eapply (wp_fail_memory w0 p (set_iocb_pool NULL c)); [|apply has_put_eq|].
      - eapply extends_put; [by apply extends_log|apply list_elem_of_here|by apply has_log].
      - eapply opened_silent; [exact Ho|]. by apply silent_quiet. }
    intros [] w1 Hf. apply wp_ret. by left.
  - intros _ pool Hbp H0 Hfr. set (arr := replicate _ indet_ptr). set (w1 := bump _ _ _ _).
    assert (w1 ⊨ p ↦ c ∧ w1 ⊨ pool ↦ arr) as [Hc1 Ha1].
    { split; [by apply has_bump|]. exact (has_bump_eq (T := list Z) _ _ _ _). }
    assert (p ≠ pool) as Hne by (by eapply (has_ne w1 _ _ c arr)).
    eapply wp_bind, wp_store; [done|]. eapply wp_bind, wp_load; [apply has_put_eq|]. cbv beta.
    cbn [iocb_pool set_iocb_pool]. rewrite (proj2 (Z.eqb_neq _ _)) by (unfold NULL; lia).
    eapply wp_seq.
    { apply (wp_alloc_loop w0 p (set_iocb_pool pool c)); [|lia]. split; simpl.
      - eapply extends_put; [by apply extends_bump; [apply extends_log|..]|apply list_elem_of_further, list_elem_of_here|done].
      - apply has_put_eq.
      - exists arr. split; [by apply has_put_ne|]. unfold arr. rewrite Hn, length_replicate. lia.
      - by intros x ?%elem_of_nil.
      - eapply opened_silent; [exact Ho|]. by apply silent_quiet. }
    intros [r|] w2; [intros Hf; apply wp_ret; by left|]. intros (iocbs & Hb & Hl).
    eapply wp_mono; [by eapply wp_init_context|]. intros r w3 [?|[k ?]]; [by left|right; eauto].
Qed.

Lemma wp_newContext thisObj q w :
  heap_ok w → 0 < q ≤ INT_MAX → NULL ∉ live_ctxs (trace w) →
  wp (newContext thisObj q) (λ r w',
    r = NULL ∧ failed w w' ∨ ∃ p all k, built w p q thisObj all k r w') w.
Proof.
  intros Hok Hq Hnull. unfold newContext. apply wp_bind, wp_malloc; [done| |].
  - intros _. rewrite Z.eqb_refl. destruct (throwOutOfMemory_run (log (MallocFails sizeof_io_control) true w))
      as [cls Hrun].
    eapply wp_seq; [exact (proj2 (wp_done _ _ _ _) Hrun)|].
    intros [] w1 [_ ->]. apply wp_ret. left. split; [done|]. split; try done. by do 2 eexists.
  - intros _ p Hbp H0 Hfr. set (w1 := bump _ _ _ _).
    rewrite (proj2 (Z.eqb_neq p NULL)) by (unfold NULL; lia).
    assert (extends w w1 [p]) as Hx1
      by (apply extends_bump; [apply extends_log, extends_refl; done|done|done]).
    assert (w1 ⊨ p ↦ indet_control) as Hc1 by exact (has_bump_eq (T := io_control) _ _ _ _).
    apply wp_bind. unfold io_queue_init. apply wp_bind, wp_call.
    change (trace w1) with (trace (log (MallocFails sizeof_io_control) false w)).
    set (h := trace (log _ false w)). set (res := answer h (IoQueueInit q)).
    destruct (decide (res.1 = 0)) as [Hr|Hr].
    + destruct (kq_new h q Hr) as (ctx & Hctx & Hn0 & Hown). fold res in Hctx. rewrite Hctx.
      eapply wp_bind, wp_store; [by apply has_log|]. apply wp_ret. rewrite Hr. simpl negb. cbv iota.
      eapply wp_mono; [apply (wp_newContext_pool w p (set_ioContext ctx indet_control)); try done|].
      * eapply extends_put; [by apply extends_log|apply list_elem_of_here|by apply has_log].
      * apply has_put_eq.
      * split; try done; cbn [trace put upd_heap log live_ctxs ctx_created]; by rewrite ?Hr, ?Hctx.
      * intros r w' [?|(all & k & ?)]; [by left|right; eauto].
    + pose proof (kq_error h q) as He. fold res in He. pose proof (kq_null h q Hr) as Ho. fold res in Ho.
      rewrite Ho. destruct (Z.leb_spec q 0); [lia|].
      eapply wp_bind, wp_store; [by apply has_log|]. apply wp_ret.
      rewrite (proj2 (Z.eqb_neq _ _) Hr). simpl negb. cbv iota.
      apply wp_bind_assoc. eapply wp_seq.
      { eapply (wp_fail_errno w p (set_ioContext NULL indet_control));
          [|apply has_put_eq|unfold INT_MIN, INT_MAX; lia| |done|done].
        - eapply extends_put; [by apply extends_log|apply list_elem_of_here|by apply has_log].
        - cbn. rewrite (proj2 (Z.eqb_neq res.1 0) Hr). by rewrite remove1_notin. }
      intros [] w2 Hf. apply wp_ret. by left.
Qed.

(** A queue size that the library refuses. *)
Lemma wp_newContext_refused thisObj q w :
  heap_ok w → q ≤ 0 →
  wp (newContext thisObj q) (λ r w', r = NULL ∧ (failed w w' ∨ refused w w')) w.
Proof.
  intros Hok Hq. unfold newContext. apply wp_bind, wp_malloc; [done| |].
  - intros _. rewrite Z.eqb_refl. destruct (throwOutOfMemory_run (log (MallocFails sizeof_io_control) true w))
      as [cls Hrun].
    eapply wp_seq; [exact (proj2 (wp_done _ _ _ _) Hrun)|].
    intros [] w1 [_ ->]. apply wp_ret. split; [done|]. left. split; try done. by do 2 eexists.
  - intros _ p Hbp H0 Hfr. set (w1 := bump _ _ _ _).
    rewrite (proj2 (Z.eqb_neq p NULL)) by (unfold NULL; lia).
    assert (extends w w1 [p]) as Hx1
      by (apply extends_bump; [apply extends_log, extends_refl; done|done|done]).
    assert (w1 ⊨ p ↦ indet_control) as Hc1 by exact (has_bump_eq (T := io_control) _ _ _ _).
    apply wp_bind. unfold io_queue_init. apply wp_bind, wp_call.
    change (trace w1) with (trace (log (MallocFails sizeof_io_control) false w)).
    set (h := trace (log _ false w)).
    pose proof (kq_refused h q Hq) as Hr. pose proof (kq_error h q) as He.
    pose proof (kq_null h q Hr) as Ho. set (res := answer h (IoQueueInit q)) in *.
    rewrite Ho, (proj2 (Z.leb_le _ _) Hq). apply wp_bind, wp_ret. apply wp_ret.
    rewrite (proj2 (Z.eqb_neq _ _) Hr). simpl negb. cbv iota.
    apply wp_bind. eapply wp_release_control; [by apply extends_log|by apply has_log|].
    intros x w2 Hm Hok2 Ht. eapply wp_seq; [by apply wp_throwRuntimeExceptionErrorNo; [unfold INT_MIN, INT_MAX; lia|]|].
    intros [] w3 [Hm3 Ht3]. apply wp_ret. split; [done|]. right. split.
    + by etrans.
    + by eapply same_mem_heap_ok.
    + rewrite Ht3, errno_thrown_ctxs, Ht. cbn. by rewrite (proj2 (Z.eqb_neq _ _) Hr).
    + by rewrite Ht3, errno_thrown_refs, Ht.
    + do 2 eexists. by rewrite Ht3, errno_thrown_effects, Ht.
Qed.

(** C12.  [newContext] of any size, whatever allocation, lock or system call fails
    on the way, ends in one of four ways.  It returns [NULL] with the memory, the
    AIO contexts and the global references exactly as before and one exception
    pending.  Or it returns a buffer, which is not null, of a control block
    of which every iocb is free and distinct, with one new AIO context, at most
    one new global reference, and no exception.  Or all this was made but the JVM
    answers [NULL] to [NewDirectByteBuffer]: then [NULL] is returned and all of it
    stays allocated.  Or the size is not positive: then [NULL] is returned, the
    memory and the references are as before, one exception is pending, and the AIO
    context found in memory that was never written is released. *)
Theorem newContext_correct thisObj q w :
  heap_ok w → q ≤ INT_MAX → NULL ∉ live_ctxs (trace w) →
  wp (newContext thisObj q) (λ r w',
    r = NULL ∧ failed w w' ∨
    0 < q ∧ (∃ p all k, created w p q thisObj all k r w') ∨
    0 < q ∧ r = NULL ∧ orphaned w q thisObj w' ∨
    q ≤ 0 ∧ r = NULL ∧ refused w w') w.
Proof.
  intros Hok Hq Hnull. destruct (decide (0 < q)) as [Hpos|Hneg].
  - eapply wp_mono; [by apply wp_newContext|]. intros r w' [?|(p & all & k & Hb)]; [by left|].
    right. destruct (decide (r = NULL)) as [->|Hr]; [right; left|left].
    + split_and!; [done|done|]. by exists p, all, k.
    + split; [done|]. by exists p, all, k.
  - eapply wp_mono; [apply wp_newContext_refused; [done|lia]|].
    intros r w' [-> [?|?]]; [by left|]. do 3 right. split_and!; [lia|done|done].
Qed.
End create.

(** The allocation of the second iocb fails. *)
Lemma newContext_witness :
  wp (newContext (E := sim_env starving_sim) 1 2) (λ r w',
    r = NULL ∧ failed start_world w' ∨
    0 < 2 ∧ (∃ p all k, created (E := sim_env starving_sim) start_world p 2 1 all k r w') ∨
    0 < 2 ∧ r = NULL ∧ orphaned (E := sim_env starving_sim) start_world 2 1 w' ∨
    2 ≤ 0 ∧ r = NULL ∧ refused (E := sim_env starving_sim) start_world w') start_world.
Proof.
  apply (newContext_correct (E := sim_env starving_sim)); [exact start_heap_ok|by vm_compute|apply not_elem_of_nil].
Defined.

(** ** [newContext] with a queue that the library refuses *)

(** C34.  When [io_queue_init] fails without writing a context, as it does for a
    queue that is not positive, [newContext] releases the context it finds in the
    memory that [malloc] returned. *)
Theorem newContext_releases_indeterminate `{Env} thisObj q e w :
  heap_ok w → answer (trace w) (MallocFails sizeof_io_control) = false →
  answer (Ev (MallocFails sizeof_io_control) false :: trace w) (IoQueueInit q) = (e, None) →
  e ≠ 0 → INT_MIN < e ≤ INT_MAX →
  wp (newContext thisObj q) (λ r w', r = NULL ∧
    ∃ x, Ev (IoQueueRelease (ioContext indet_control)) x ∈ (trace w' : list event)) w.
Proof.
  intros Hok Hm Hq He Hb. unfold newContext. apply wp_bind, wp_malloc; [done|by rewrite Hm|].
  intros _ p Hbp Hp0 Hfr. rewrite (proj2 (Z.eqb_neq p NULL)) by (unfold NULL; lia).
  unfold io_queue_init. apply wp_bind, wp_bind, wp_call. cbn [trace bump log]. rewrite Hq. cbn [fst snd].
  apply wp_bind, wp_ret. apply wp_ret. rewrite (proj2 (Z.eqb_neq e 0) He). simpl negb. cbv iota.
  set (w1 := log _ _ _). assert (w1 ⊨ p ↦ indet_control) as Hp by apply has_bump_eq.
  assert (heap_ok w1) as Hok1 by (apply heap_ok_bump; [done|simpl; lia]).
  clearbody w1. unfold release_control. apply wp_bind. eapply wp_bind, wp_load; [exact Hp|]. cbv beta.
  apply wp_bind. unfold io_queue_release. do 2 wp_step. eapply wp_free; [exact Hp|unfold NULL; lia|].
  eapply wp_seq; [apply wp_throwRuntimeExceptionErrorNo; [done|by apply heap_ok_delete]|].
  intros [] w2 [_ Ht]. apply wp_ret. split; [done|]. rewrite Ht. unfold errno_thrown.
  eexists. case_match; repeat (apply list_elem_of_here || apply list_elem_of_further).
Qed.

Lemma newContext_releases_indeterminate_witness :
  wp (newContext (E := sim_env demo_sim) 1 0) (λ r w', r = NULL ∧
    ∃ x, Ev (IoQueueRelease 0) x ∈ (trace w' : list event)) start_world.
Proof.
  apply (newContext_releases_indeterminate (H := sim_env demo_sim) 1 0 (-22));
    [exact start_heap_ok|done|done|done|by vm_compute].
Defined.
