(* ===== verification/Lifecycle.v ===== *)
(** * The life of a context

    [deleteContext] gives back everything [newContext] made: the theorems on the
    two, and on the one after the other. *)

From S2P Require Export Context.

(** The state of [w'] after the deletion of the context [k], allocated since [w0]. *)
Record deleted (w0 : world) (k : ctl) (w w' : world) : Prop := Deleted {
  dl_mem : same_mem w0 w';
  dl_ctxs : live_ctxs (trace w') = remove1 (k_ctx k) (live_ctxs (trace w));
  dl_refs : live_refs (trace w') = remove1 (k_this k) (live_refs (trace w));
  dl_exceptions : exceptions (trace w') = exceptions (trace w)
}.

Section tear_down.
Context {E : Env}.
Implicit Types (w : world) (p : Z) (k : ctl) (all fr out : list Z).

Lemma blocks_perm p k all arr :
  arr ≡ₚ all → blocks p k all ≡ₚ arr ++ k_pool k :: [p; k_events k].
Proof.
  intros ->. unfold blocks. rewrite Permutation_cons_append. by rewrite <-app_assoc.
Qed.

Lemma wp_mutex_destroy_poll p c (Q : unit → world → Prop) w :
  w ⊨ p ↦ c → pollLock c = MFree → Q tt (put p (set_pollLock MDestroyed c) w) →
  wp (pthread_mutex_destroy (PollLock p)) Q w.
Proof. intros Hc Hl HQ. eapply wp_destroy; [by rewrite (focus_pollLock _ _ _ Hc), Hl|done]. Qed.

Lemma wp_mutex_destroy_iocb p c (Q : unit → world → Prop) w :
  w ⊨ p ↦ c → iocbLock c = MFree → Q tt (put p (set_iocbLock MDestroyed c) w) →
  wp (pthread_mutex_destroy (IocbLock p)) Q w.
Proof. intros Hc Hl HQ. eapply wp_destroy; [by rewrite (focus_iocbLock _ _ _ Hc), Hl|done]. Qed.

(** The end of [deleteContext], when the array of the pool holds every iocb. *)
Lemma wp_tear_down p k all fr out arr w0 w :
  extends w0 w (blocks p k all) → system p k all fr out w → pool_at k arr w → arr ≡ₚ all →
  k_poll k = MFree →
  wp (tear_down p) (λ _ w', deleted w0 k w w') w.
Proof.
  intros Hx Hs Ha Harr Hpoll. pose proof Hs as (c & arr' & evl & [_ [Hc Ha' Hl _] He _ _ _ Hlen _ _] & <-).
  unfold tear_down, pool_at in *. ctl_simpl. pose proof (has_inj _ _ _ _ Ha' Ha) as ->. clear Ha'.
  wp_step. unfold io_queue_release. do 2 wp_step.
  apply wp_bind. eapply wp_mutex_destroy_poll; [by apply has_log|done|].
  apply wp_bind. eapply wp_mutex_destroy_iocb; [apply has_put_eq|done|].
  rewrite put_put. set (c1 := set_iocbLock _ _). set (w1 := put p c1 _).
  assert (p ∈ blocks p (ctl_of c) all) as Hpin by exact (proj1 (proj2 (proj2 (blocks_elem p (ctl_of c) all)))).
  assert (extends w0 w1 (arr ++ iocb_pool c :: [p; events c])) as Hx1.
  { eapply extends_perm; [exact (blocks_perm p (ctl_of c) all arr Harr)|].
    eapply extends_put; [by apply extends_log|done|by apply has_log]. }
  assert (w1 ⊨ p ↦ c1) as Hc1 by apply has_put_eq.
  assert (w1 ⊨ iocb_pool c1 ↦ (arr ++ [])) as Ha1.
  { rewrite app_nil_r. apply has_put_ne; [|done]. by eapply (has_ne w _ _ c arr). }
  unfold iocb_destroy. eapply wp_bind, wp_bind, wp_load; [done|]. cbv beta. simpl queueSize.
  eapply wp_mono.
  { eapply (wp_destroy_bounded w0 p c1 arr [] [p; events c]); [exact Hx1|apply list_elem_of_here| |done|done].
    rewrite (Permutation_length Harr). simpl. lia. }
  intros [] w2 (Hx2 & Hc2 & Ht2). do 3 wp_step. simpl thisObject. simpl events.
  eapply wp_bind, wp_extends_free.
  { apply extends_log. eapply extends_perm; [apply Permutation_swap|exact Hx2]. }
  intros Hx3. eapply wp_extends_free; [exact Hx3|]. intros Hx4. apply extends_nil in Hx4.
  split; [done|..]; simpl; by rewrite Ht2.
Qed.
End tear_down.

Section delete.
Context {E : Env} {KR : KernelRing E} {KE : KernelEvents E} {KS : KernelSubmit E}.
Implicit Types (w : world) (p : Z) (k : ctl) (all fr out : list Z).

(** [pthread_mutex_lock] and [pthread_mutex_unlock] of a free lock: nothing changes. *)
Lemma wp_lock_unlock {A} p k all fr out (K : cprog A) (Q : A → world → Prop) w :
  system p k all fr out w → k_poll k = MFree → wp K Q w →
  wp (pthread_mutex_lock (PollLock p) ;; pthread_mutex_unlock (PollLock p) ;; K) Q w.
Proof.
  intros Hs Hk HQ. destruct (system_control _ _ _ _ _ _ Hs) as (c & Hc & _).
  pose proof (system_poll_state _ _ _ _ _ _ _ Hs Hc) as Hpc. rewrite Hk in Hpc.
  apply wp_bind. eapply wp_pollLock_lock; [done|done|].
  apply wp_bind. eapply wp_pollLock_unlock; [apply has_put_eq|done|].
  rewrite put_put. replace (set_pollLock MFree (set_pollLock MLocked c)) with c
    by (destruct c; simpl in *; by subst). by rewrite (put_id _ _ _ Hc).
Qed.

Lemma system_pool_ne p k all fr out w x :
  system p k all fr out w → x ∈ all → k_pool k ∉ [p; x; k_events k].
Proof.
  intros (c & arr & evl & [_ [Hc Ha _ _] He _ _ _ _ Hi _] & <-) Hx. ctl_simpl.
  destruct (Hi x Hx) as (_ & b & Hb). rewrite !not_elem_of_cons.
  split_and!; [by eapply (has_ne w _ _ arr c)|by eapply (has_ne w _ _ arr b)
              |by eapply (has_ne w _ _ arr evl)|apply not_elem_of_nil].
Qed.

Lemma frame_weaken ps ps' w w' : (∀ q, q ∈ ps → q ∈ ps') → frame ps w w' → frame ps' w w'.
Proof. intros Hps [Fh Fg Fb]. split; [|done|done]. intros q Hq. apply Fh. auto. Qed.

(** The state between the submission of the wake-up and the tear-down: at most one
    iocb, [x], is not in the pool, and the array still holds all of them. *)
Record closing p k all w w1 : Prop := Closing {
  cl_system : ∃ fr out, system p k all fr out w1;
  cl_arr : ∃ arr, pool_at k arr w1 ∧ arr ≡ₚ all;
  cl_frame : frame (blocks p k all) w w1;
  cl_trace : ∃ es x b, trace w1 = es ++ Ev (IoSubmit (k_ctx k) x b) 1 :: trace w ∧
               Forall reap_event es
}.

(** The events of the last call of [ringio_get_events]: at most one. *)
Lemma wp_return_events p k all fr x l arr w w1 :
  reap p k all fr [] l w w1 → (length l ≤ 1)%nat →
  x ∈ all → owned (k_ctx k) (trace w) = [x] → pool_at k arr w → arr ≡ₚ all →
  wp (for_ 0 (Z.of_nat (length l)) (return_event p)) (λ _ w2,
    (∃ fr' out', system p k all fr' out' w2) ∧ (∃ arr, pool_at k arr w2 ∧ arr ≡ₚ all) ∧
    frame (blocks p k all) w w2 ∧ trace w2 = trace w1) w1.
Proof.
  intros [Hs1 (rest & He1) Hok Ho _ Hg Hi Hh Hb Ht] Hl Hx Ho1 Ha Harr.
  destruct (blocks_elem p k all) as (Hbe & Hbp & Hbc & Hba).
  assert (frame (blocks p k all) w w1) as Hf1.
  { split; [|done|lia]. intros q Hq. apply Hh. intros ->. by apply Hq. }
  destruct l as [|e [|]]; [| |simpl in Hl; lia].
  - apply wp_for_empty; [done|]. split_and!; [by do 2 eexists| |done|done].
    exists arr. split; [|done]. unfold pool_at, has. rewrite Hh; [done|].
    pose proof (system_pool_ne _ _ _ _ _ _ x Hs1 Hx) as Hne. rewrite !not_elem_of_cons in Hne. tauto.
  - destruct (system_control _ _ _ _ _ _ Hs1) as (c & Hc & Hk).
    unfold for_. simpl. eapply wp_bind. unfold return_event. eapply wp_bind, wp_load; [done|].
    cbv beta. replace (events c) with (k_events k) by by subst k.
    apply wp_bind. eapply wp_load_elt; [done|done|done|].
    eapply wp_mono; [exact (wp_and _ _ _ _ (wp_system_put _ _ _ _ _ _ _ Hs1) (wp_put_frame _ _ _ _ _ _ _ Hs1))|].
    intros [] w2 [[Hs2 Hi2] Hf2]. apply wp_ret.
    destruct (system_perm _ _ _ _ _ _ Hs2) as (Hperm & _ & _).
    assert (owned (k_ctx k) (trace w2) = []) as Ho2.
    { rewrite (si_trace _ _ Hi2). apply Permutation_length in Ho. rewrite Ho1 in Ho. simpl in Ho.
      by destruct (owned (k_ctx k) (trace w1)). }
    rewrite Ho2, !app_nil_r in Hperm.
    destruct (system_full _ _ _ _ _ _ Hs2 (Permutation_length Hperm)) as (arr2 & Ha2 & Harr2).
    split_and!; [by do 2 eexists|exists arr2; split; [done|by rewrite Harr2]| |by rewrite (si_trace _ _ Hi2)].
    etrans; [exact Hf1|]. eapply frame_only_at; [|exact Hf2].
    intros q [->|[->|[]%elem_of_nil]%elem_of_cons]%elem_of_cons; done.
Qed.

(** A [deleteContext] that could not wake the poller: the context is as before, and
    an exception is pending. *)
Record kept p k all w w' : Prop := Kept {
  kp_system : ∃ fr, system p k all fr [] w' ∧ fr ≡ₚ all;
  kp_owned : owned (k_ctx k) (trace w') = [];
  kp_refs : live_refs (trace w') ≡ₚ live_refs (trace w);
  kp_exceptions : ∃ msg, exceptions (trace w') = (ioExceptionClass (glob w), msg) :: exceptions (trace w)
}.

Lemma idle_refs p k all fr w :
  system p k all fr [] w → owned (k_ctx k) (trace w) = [] → refs_ok k [] (live_refs (trace w)) w.
Proof. intros _ Ho. unfold refs_ok. by rewrite Ho. Qed.

(** From the wake-up write to the last call of [ringio_get_events]. *)
Lemma wp_delete_events {A} p k all fr x b (K : cprog A) (Q : A → world → Prop) w w1 :
  system p k all fr [] w1 → owned (k_ctx k) (trace w1) = [x] → x ∈ all →
  (∃ arr, pool_at k arr w1 ∧ arr ≡ₚ all) → frame (blocks p k all) w w1 →
  trace w1 = Ev (IoSubmit (k_ctx k) x b) 1 :: trace w →
  (∀ w2, closing p k all w w2 → wp K Q w2) →
  wp (let* ctx := p ->> ioContext in
      let* evs := p ->> events in
      let* result := ringio_get_events ctx 0 1 evs None in
      for_ 0 result (return_event p) ;; K) Q w1.
Proof.
  intros Hs Ho Hx (arr & Ha & Harr) Hf Ht HQ.
  destruct (system_control _ _ _ _ _ _ Hs) as (c & Hc & Hk).
  eapply wp_bind, wp_load; [done|]. cbv beta. eapply wp_bind, wp_load; [done|]. cbv beta.
  replace (ioContext c) with (k_ctx k) by by subst k.
  replace (events c) with (k_events k) by by subst k.
  eapply wp_seq; [by apply (wp_ringio_system p k all fr []); [|lia]|]. intros r w2 Hr.
  assert (∃ l, reap p k all fr [] l w1 w2 ∧ (length l ≤ 1)%nat ∧ (r ≤ 0 ∧ l = [] ∨ r = Z.of_nat (length l)))
    as (l & Hreap & Hl & Hrl).
  { destruct Hr as [[[? _] ?]|(l & -> & ? & ?)]; [exists []|exists l];
      (split_and!; [done|simpl; lia|]); [left; split; [lia|done]|by right]. }
  eapply wp_seq with (P := λ _ w3, closing p k all w w3); [|by intros [] w3; apply HQ].
  replace (for_ 0 r) with (for_ (S := world) 0 (Z.of_nat (length l))).
  2:{ destruct Hrl as [[? ->]| ->]; [|done]. unfold for_. simpl. by replace (Z.to_nat (r - 0)) with 0%nat by lia. }
  eapply wp_mono; [by eapply wp_return_events|]. intros [] w3 (Hs3 & Ha3 & Hf3 & Ht3).
  split; [done|done|by etrans|].
  destruct (rp_trace _ _ _ _ _ _ _ _ Hreap) as (es & Hes & Hall).
  exists es, x, b. rewrite Ht3, Hes, Ht. done.
Qed.

(** Once the kernel has accepted the wake-up write of the iocb [x]. *)
Lemma wp_delete_accepted p k all fr x b w0 w w3 :
  extends w0 w (blocks p k all) → frame [p; x; k_events k] w w3 → x ∈ all →
  system p k all fr [] w3 → owned (k_ctx k) (trace w3) = [x] → k_poll k = MFree →
  (∃ arr, pool_at k arr w ∧ arr ≡ₚ all) →
  trace w3 = Ev (IoSubmit (k_ctx k) x b) 1 :: trace w →
  wp (pthread_mutex_lock (PollLock p) ;;
      pthread_mutex_unlock (PollLock p) ;;
      let* ctx := p ->> ioContext in
      let* evs := p ->> events in
      let* result := ringio_get_events ctx 0 1 evs None in
      for_ 0 result (return_event p) ;;
      tear_down p) (λ _ w', deleted w0 k w w') w3.
Proof.
  intros Hx Hf Hxa Hs Ho Hpoll (arr & Ha & Harr) Ht.
  destruct (blocks_elem p k all) as (Hbe & _ & Hbc & Hba).
  eapply (wp_lock_unlock p k); [done|done|].
  eapply (wp_delete_events p k all fr x b _ _ w w3); [done|done|done| | |done|].
  { exists arr. split; [|done]. unfold pool_at, has. rewrite (fr_heap _ _ _ Hf); [done|].
    by eapply system_pool_ne. }
  { eapply frame_weaken; [|exact Hf].
    intros q [->|[->|[->|[]%elem_of_nil]%elem_of_cons]%elem_of_cons]%elem_of_cons; [done|by apply Hba|done]. }
  intros w4 [(fr4 & out4 & Hs4) (arr4 & Ha4 & Harr4) Hf4 (es & y & by_ & Ht4 & Hes)].
  eapply wp_mono; [eapply (wp_tear_down p k all fr4 out4 arr4 w0 w4); try done; by eapply extends_frame|].
  intros [] w5 [Hm5 Hc5 Hr5 Hx5]. split; [done|..].
  - rewrite Hc5, Ht4. by rewrite live_ctxs_reap.
  - rewrite Hr5, Ht4. by rewrite live_refs_reap.
  - rewrite Hx5, Ht4. unfold exceptions. rewrite omap_reap; [done| |done].
    intros [T cc rr] He. by destruct cc.
Qed.

Lemma wp_deleteContext ptr p k all fr w0 w :
  answer (trace w) (GetDirectBufferAddress ptr) = p →
  system p k all fr [] w → owned (k_ctx k) (trace w) = [] →
  extends w0 w (blocks p k all) → k_poll k = MFree →
  wp (deleteContext ptr) (λ _ w', deleted w0 k w w' ∨ kept p k all w w') w.
Proof.
  intros Hd Hs Ho Hx Hpoll. pose proof (system_ptr _ _ _ _ _ _ Hs) as Hp.
  destruct (system_perm _ _ _ _ _ _ Hs) as (Hperm & _ & Hlen).
  rewrite Ho, !app_nil_r in Hperm. pose proof (system_size _ _ _ _ _ _ Hs) as Hsize.
  destruct (system_full _ _ _ _ _ _ Hs (Permutation_length Hperm)) as (arr & Ha & Harr).
  rewrite Hperm in Harr.
  destruct fr as [|x fr]; [apply Permutation_length in Hperm; simpl in Hperm; lia|].
  unfold deleteContext. apply wp_bind, (wp_getIOControl_at ptr p); [done|done|].
  rewrite (proj2 (Z.eqb_neq _ _) Hp). set (wl := log _ p w).
  assert (system p k all (x :: fr) [] wl) as Hsl by by apply system_log.
  eapply wp_seq; [exact (wp_and _ _ _ _ (wp_system_get _ _ _ _ _ _ _ Hsl) (wp_get_frame _ _ _ _ _ _ Hsl))|].
  intros r w1 [(-> & Hs1 & Hi1) Hf1].
  destruct (system_iocb_out _ _ _ _ _ _ x Hs1) as (Hx0 & b & Hb); [apply list_elem_of_here|].
  rewrite (proj2 (Z.eqb_neq _ _) Hx0). destruct (system_fresh _ _ _ _ _ _ _ Hs1) as [Hxa Hxo].
  wp_step. unfold io_prep_pwrite. eapply wp_bind, wp_store; [done|].
  eapply wp_bind, wp_store; [apply has_put_eq|]. rewrite put_put.
  set (b2 := set_data MINUS_ONE _). set (w2 := put x b2 w1).
  assert (system p k all fr [x] w2) as Hs2 by by apply system_put_iocb.
  assert (w2 ⊨ x ↦ b2) as Hb2 by apply has_put_eq.
  assert (refs_ok k [x] (live_refs (trace w)) w2) as Hr2.
  { apply refs_ok_take. rewrite (data_of_has _ _ _ Hb2). simpl.
    apply refs_ok_put; [exact Hxo|]. apply (refs_ok_iocbs k [] _ wl w1 Hi1).
    apply refs_ok_log; [done|done|]. by eapply idle_refs. }
  eapply wp_seq; [by apply (wp_submit p k all fr x [] (live_refs (trace w)))|].
  intros r w3 (Hg3 & Hr3 & [(-> & Hs3 & ->)|(-> & Hs3 & Ho3 & msg & Hx3)]).
  - assert (trace w2 = trace wl) as Ht2 by apply (si_trace _ _ Hi1).
    simpl.
    set (w3 := log (IoSubmit (k_ctx k) x b2) 1 w2) in *.
    assert (owned (k_ctx k) (trace w3) = [x]) as Ho3.
    { unfold w3. cbn [trace log]. rewrite owned_submit, Ht2. simpl. by rewrite Ho. }
    eapply wp_mono; [eapply (wp_delete_accepted p k all fr x b2 w0 wl w3); try done|].
    { by apply extends_log. }
    { transitivity w2; [|apply frame_log]. transitivity w1; [|by apply frame_put, list_elem_of_further, list_elem_of_here].
      apply (frame_only_at _ [p] _ _); [|exact Hf1]. intros q ->%list_elem_of_singleton. apply list_elem_of_here. }
    { by exists arr. }
    { unfold w3. cbn [trace log]. by rewrite Ht2. }
    intros [] w5 [Hm5 Hc5 Hr5 Hx5]. by left.
  - simpl. apply wp_ret. right. split.
    + eexists. split; [exact Hs3|]. rewrite <-Hperm. by rewrite <-Permutation_cons_append.
    + rewrite Ho3. change (trace w2) with (trace w1). rewrite (si_trace _ _ Hi1). done.
    + unfold refs_ok in Hr3. rewrite Ho3 in Hr3. change (trace w2) with (trace w1) in Hr3.
      rewrite (si_trace _ _ Hi1) in Hr3. change (owned (k_ctx k) (trace wl)) with (owned (k_ctx k) (trace w)) in Hr3.
      rewrite Ho in Hr3. done.
    + exists msg. rewrite Hx3. change (trace w2) with (trace w1). change (glob w2) with (glob w1).
      by rewrite (si_trace _ _ Hi1), (si_glob _ _ Hi1).
Qed.
End delete.

Section lifecycle.
Context {E : Env} {KR : KernelRing E} {KE : KernelEvents E} {KS : KernelSubmit E}.
Context {KQ : KernelQueue E} {PE : PosixErrors E}.
Implicit Types (w : world) (p : Z) (k : ctl) (all fr out : list Z).

(** C11.  [deleteContext] of a context with nothing in flight, allocated since
    [w0]: the memory is that of [w0] again - every iocb, the pool, the events and
    the control block are freed, each once -, the AIO context is released and
    the reference to the Java object is deleted; or the kernel has refused the
    wake-up write, an IOException is pending and the context is as before. *)
Theorem deleteContext_correct ptr p k all fr w0 w :
  answer (trace w) (GetDirectBufferAddress ptr) = p →
  system p k all fr [] w → owned (k_ctx k) (trace w) = [] →
  extends w0 w (blocks p k all) → k_poll k = MFree →
  wp (deleteContext ptr) (λ _ w', deleted w0 k w w' ∨ kept p k all w w') w.
Proof. apply wp_deleteContext. Qed.

(** A Java client that makes a context and deletes it. *)
Definition new_and_delete (thisObj q : Z) : cprog bool :=
  let* r := newContext thisObj q in
  if r =? NULL then Ret false else deleteContext r ;; Ret true.

Context {JB : JniBuffers E}.

(** C5.  Making a context and deleting it leaks nothing: when [newContext] has
    succeeded and the wake-up write is accepted, the memory, the AIO contexts
    and the global references are those of the start. *)
Theorem new_and_delete_roundtrip thisObj q w :
  heap_ok w → 0 < q ≤ INT_MAX → NULL ∉ live_ctxs (trace w) →
  wp (new_and_delete thisObj q) (λ ok w',
    if ok then
      same_mem w w' ∧ live_ctxs (trace w') = live_ctxs (trace w) ∧
        live_refs (trace w') = live_refs (trace w) ∨
      ∃ p all k r w1, created w p q thisObj all k r w1 ∧ kept p k all w1 w'
    else failed w w') w.
Proof.
  intros Hok Hq Hnull. unfold new_and_delete. eapply wp_seq; [by apply wp_newContext|].
  intros r w1 [[-> Hf]|(p & all & k & Hcr)]; [by apply wp_ret|].
  pose proof Hcr as [Hs Hpoll Hsz Hrefs Hctxs Ho He Hx (h & Hans) (t & Ht)].
  assert (r ≠ NULL) as Hr.
  { rewrite Hans. apply jb_new. }
  rewrite (proj2 (Z.eqb_neq _ _) Hr).
  assert (answer (trace w1) (GetDirectBufferAddress r) = p) as Hd.
  { apply jb_address. rewrite Ht. cbn [buffer_of buffer_made]. by rewrite Z.eqb_refl. }
  eapply wp_seq; [by eapply wp_deleteContext|]. intros [] w2 [Hdel|Hkept]; apply wp_ret.
  - left. destruct Hdel as [Hm Hc2 Hr2 _]. split_and!; [done| |].
    + rewrite Hc2, Hctxs. simpl. by rewrite decide_True.
    + rewrite Hr2, Hrefs. destruct (Z.eqb_spec (k_this k) NULL) as [->|Hne].
      * rewrite remove1_notin by apply live_refs_null. done.
      * simpl. by rewrite decide_True.
  - right. exists p, all, k, r, w1. exact (conj (conj Hr Hcr) Hkept).
Qed.
End lifecycle.

Lemma new_and_delete_witness :
  wp (new_and_delete (E := sim_env making_sim) 1 2) (λ ok w',
    if ok then
      same_mem start_world w' ∧ live_ctxs (trace w') = [] ∧ live_refs (trace w') = [] ∨
      ∃ p all k r w1, created (E := sim_env making_sim) start_world p 2 1 all k r w1 ∧ kept p k all w1 w'
    else failed start_world w') start_world.
Proof.
  apply (new_and_delete_roundtrip (JB := sim_jni_buffers making_sim eq_refl));
    [exact start_heap_ok|by vm_compute|apply not_elem_of_nil].
Defined.

(** The context of [Demo], whose blocks are the only ones. *)
Definition bare_world : world := World ∅ 1 demo_globals [].

Lemma demo_extends : extends bare_world demo_world (blocks 10 demo_ctl [40; 41]).
Proof.
  split; try done.
  - apply demo_heap_ok.
  - intros q Hq. simpl. unfold demo_heap. unfold blocks in Hq. simpl in Hq.
    rewrite !not_elem_of_cons in Hq. destruct Hq as (? & ? & ? & ? & ? & _).
    rewrite !lookup_insert_ne, lookup_singleton_ne by done. done.
  - intros q Hq. split; [done|]. unfold blocks in Hq. simpl in Hq.
    repeat (apply elem_of_cons in Hq as [->|Hq]; [split; [done|by eexists]|]). by apply elem_of_nil in Hq.
  - apply (bool_decide_unpack _). by vm_compute.
Qed.

Lemma deleteContext_witness :
  wp (deleteContext (E := sim_env demo_sim) 55) (λ _ w',
    deleted bare_world demo_ctl demo_world w' ∨ kept 10 demo_ctl [40; 41] demo_world w') demo_world.
Proof.
  exact (deleteContext_correct (E := sim_env demo_sim) 55 10 demo_ctl [40; 41] [40; 41] bare_world demo_world
    eq_refl demo_system eq_refl demo_extends eq_refl).
Defined.
