(* ===== verification/Session.v ===== *)
(** * Sessions on a live context

    What a Java client can do between [newContext] and [deleteContext] when it
    polls from its own thread: requests and polls in any order.  The states it can
    reach, and what holds in all of them. *)

From S2P Require Export Poll Demo.

(** The calls of the client on the context of the Java object [ptr]. *)
Inductive op : Set :=
  | OpWrite (fd pos size buffer callback : Z)
  | OpRead (fd pos size buffer callback : Z)
  | OpPoll (callbacks min max : Z).

Section session.
Context {E : Env}.
Implicit Types (w : world) (p : Z) (k : ctl) (all free base : list Z).

Definition exec (ptr : Z) (o : op) : cprog unit :=
  match o with
  | OpWrite fd pos size buffer callback => submitWrite fd ptr pos size buffer callback
  | OpRead fd pos size buffer callback => submitRead fd ptr pos size buffer callback
  | OpPoll callbacks min max => poll ptr callbacks min max ;; Ret tt
  end.

(** One call of the client. *)
Inductive client_step (ptr : Z) : world → world → Prop :=
  | client_call o w w' : run (exec ptr o) w = Done tt w' → client_step ptr w w'.

(** The states a client can reach. *)
Inductive reachable (ptr : Z) (w : world) : world → Prop :=
  | reach_start : reachable ptr w w
  | reach_step w1 w2 : reachable ptr w w1 → client_step ptr w1 w2 → reachable ptr w w2.

(** The state after the calls [ops]; one that does not return is left out. *)
Definition after (ptr : Z) (ops : list op) (w : world) : world :=
  foldl (λ w o, match run (exec ptr o) w with Done _ w' => w' | _ => w end) w ops.

Lemma reachable_after ptr ops w0 w :
  reachable ptr w0 w → reachable ptr w0 (after ptr ops w).
Proof.
  revert w. induction ops as [|o ops IH]; intros w Hw; [done|]. simpl. apply IH.
  destruct (run (exec ptr o) w) as [[] w'| | | |] eqn:Hrun; try done.
  eapply reach_step; [exact Hw|]. by apply (client_call ptr o).
Qed.

Context {KR : KernelRing E} {KE : KernelEvents E} {KS : KernelSubmit E}
        {JR : JniRefs E} {IP : IoPrep E}.

(** Between two calls no iocb is out of place. *)
Definition session_inv p k all base w : Prop :=
  ∃ free, system p k all free [] w ∧ refs_ok k [] base w.

Lemma request_inv opcode fd ptr pos size buffer callback p k all free base w w' :
  request_post opcode fd ptr pos size buffer callback p k all free [] base w w' → session_inv p k all base w'.
Proof.
  intros (_ & Hr & Hp). destruct free as [|x free].
  - destruct Hp as (Hs & _). by exists [].
  - destruct Hp as [(buf & ref & Hs & _)|(Hs & _)]; eauto using ex_intro.
    + by exists free.
    + by exists (free ++ [x]).
Qed.

(** A poll that waits for more completions than there are requests in flight. *)
Definition starved k (o : op) w w' : Prop :=
  match o with OpPoll _ min _ => waits (k_ctx k) min w w' | _ => False end.

Lemma wp_exec ptr p k all base o w :
  DirectBuffer E ptr p → session_inv p k all base w →
  wp_may (exec ptr o) (λ _ w', session_inv p k all base w') False (starved k o w) w.
Proof.
  intros Hd (free & Hs & Hr).
  destruct o as [fd pos size buffer callback|fd pos size buffer callback|callbacks min max].
  - apply wp_may_of_wp. eapply wp_mono; [apply (wp_request io_prep_pwrite_env 1); [intros; apply ip_pwrite|done..]|].
    intros [] w'. apply request_inv.
  - apply wp_may_of_wp. eapply wp_mono; [apply (wp_request io_prep_pread_env 0); [intros; apply ip_pread|done..]|].
    intros [] w'. apply request_inv.
  - eapply wp_may_bind; [by eapply wp_poll|]. intros r w' (l & [_ _ Hs' Hr' _ _] & _).
    by apply wp_may_of_wp, wp_ret; eexists.
Qed.

Lemma reachable_inv ptr p k all base w w' :
  DirectBuffer E ptr p → session_inv p k all base w → reachable ptr w w' → session_inv p k all base w'.
Proof.
  intros Hd Hw. induction 1 as [|w1 w2 _ IH Hstep]; [done|]. inversion Hstep as [o ? ? Hrun]; subst.
  pose proof (wp_exec ptr p k all base o _ Hd IH) as Hwp. unfold wp_may in Hwp. by rewrite Hrun in Hwp.
Qed.

(** C1.  A client is always safe.  In every state it can reach by writes, reads
    and polls of any arguments and in any order, whatever the kernel answers:
    the next call returns, with no undefined behaviour and no deadlock, or it is a
    poll for more completions than there are requests in flight, which waits in
    the kernel with nothing changed; the context is intact, and every iocb is in
    exactly one place, in the pool's queue or with the kernel; and the live global
    references are those of the requests in flight. *)
Theorem client_always_safe ptr p k all base w w' :
  DirectBuffer E ptr p → session_inv p k all base w → reachable ptr w w' →
  (∀ o, (∃ w'', run (exec ptr o) w' = Done tt w'') ∨
        (∃ w'', run (exec ptr o) w' = Waiting w'' ∧ starved k o w' w'')) ∧
  (∃ free, system p k all free [] w' ∧ free ++ owned (k_ctx k) (trace w') ≡ₚ all) ∧
  live_refs (trace w') ≡ₚ refs w' (owned (k_ctx k) (trace w')) ++ base.
Proof.
  intros Hd Hw Hreach. pose proof (reachable_inv _ _ _ _ _ _ _ Hd Hw Hreach) as Hinv.
  split_and!.
  - intros o. pose proof (wp_exec ptr p k all base o _ Hd Hinv) as Hwp. unfold wp_may in Hwp.
    destruct (run (exec ptr o) w') as [[] w''| | |w''|]; [left|done|done|right|done]; by exists w''.
  - destruct Hinv as (free & Hs & _). exists free. split; [done|].
    by destruct (system_perm _ _ _ _ _ _ Hs).
  - by destruct Hinv as (free & _ & Hr).
Qed.

(** C6.  Nothing is lost on the way: a client that has taken the completions of
    all its requests has the whole pool free again and holds no reference to a
    callback, after any history of successes and failures. *)
Theorem drained_client_owns_nothing ptr p k all base w w' :
  DirectBuffer E ptr p → session_inv p k all base w → reachable ptr w w' →
  owned (k_ctx k) (trace w') = [] →
  (∃ free, system p k all free [] w' ∧ free ≡ₚ all) ∧ live_refs (trace w') ≡ₚ base.
Proof.
  intros Hd Hw Hreach Ho. destruct (reachable_inv _ _ _ _ _ _ _ Hd Hw Hreach) as (free & Hs & Hr).
  unfold refs_ok in Hr. rewrite Ho in Hr. split; [|done]. exists free. split; [done|].
  pose proof (system_perm _ _ _ _ _ _ Hs) as [Hp _]. by rewrite Ho, !app_nil_r in Hp.
Qed.
End session.

(** ** A session to evaluate *)

Lemma demo_session : session_inv 10 demo_ctl [40; 41] [900] demo_world.
Proof. exists [40; 41]. split; [exact demo_system|exact demo_refs]. Qed.

(** A write, a read, a third request that finds no free iocb, and a poll that
    takes the two completions. *)
Definition demo_ops : list op :=
  [OpWrite 7 0 512 66 77; OpRead 7 512 512 66 78; OpWrite 7 0 512 66 79; OpPoll 88 1 8].

(** The state at its end. *)
Definition drained : world := after (E := sim_env demo_sim) 55 demo_ops demo_world.

Lemma drained_reachable : reachable (E := sim_env demo_sim) 55 demo_world drained.
Proof. apply reachable_after. constructor. Qed.

(** The poll that would take a third completion waits. *)
Example demo_poll_waits :
  match run (exec (E := sim_env demo_sim) 55 (OpPoll 88 1 8)) drained with
  | Waiting _ => True
  | _ => False
  end.
Proof. by vm_compute. Qed.

Lemma client_always_safe_witness :
  (∀ o, (∃ w'', run (exec (E := sim_env demo_sim) 55 o) drained = Done tt w'') ∨
        (∃ w'', run (exec (E := sim_env demo_sim) 55 o) drained = Waiting w'' ∧
           starved demo_ctl o drained w'')) ∧
  (∃ free, system 10 demo_ctl [40; 41] free [] drained ∧
     free ++ owned 5000 (trace drained) ≡ₚ [40; 41]) ∧
  live_refs (trace drained) ≡ₚ
    refs drained (owned 5000 (trace drained)) ++ [900].
Proof.
  apply (client_always_safe (E := sim_env demo_sim) 55 10 demo_ctl [40; 41] [900] demo_world);
    [by apply demo_buffer|exact demo_session|].
  exact drained_reachable.
Defined.

Lemma drained_client_witness :
  (∃ free, system 10 demo_ctl [40; 41] free [] drained ∧ free ≡ₚ [40; 41]) ∧
  live_refs (trace drained) ≡ₚ [900].
Proof.
  apply (drained_client_owns_nothing (E := sim_env demo_sim) 55 10 demo_ctl [40; 41] [900] demo_world);
    [by apply demo_buffer|exact demo_session| |by vm_compute].
  exact drained_reachable.
Defined.
