(* ===== verification/Library.v ===== *)
(** * Loading and unloading the library

    [JNI_OnLoad], [JNI_OnUnload], the temporary file of the wake-up write
    ([closeDumbHandlers], [shutdownHook]), and the switch between the user-space
    reaper and the system call. *)

From stdpp Require Import pretty.
From S2P Require Export Ring Errors Poll Demo.

Definition JNI_OK : Z := 0.
Definition JNI_ERR : Z := -1.
Definition JNI_VERSION_1_6 : Z := 0x00010006.
Definition P_tmpdir : string := "/tmp".
Definition EXPECTED_NATIVE_VERSION : Z := 200.

Section library_code.
Context {E : Env}.

Definition setForceSyscall (_forceSysCall : Z) : cprog unit :=
  store_glob (set_forceSysCall _forceSysCall).

(** [forceSysCall | !RING_REAPER] *)
Definition isForceSyscall : cprog Z :=
  let* f := load_glob forceSysCall in
  Ret (Z.lor f (if RING_REAPER =? 0 then 1 else 0)).

Definition getNativeVersion : cprog Z := Ret EXPECTED_NATIVE_VERSION.

Definition JNI_OnLoad : cprog Z :=
  let* st := call (GetEnv JNI_VERSION_1_6) in
  if negb (st =? JNI_OK) then Ret JNI_ERR else
  let* res := pthread_mutex_init OneMegaMutex in
  if negb (res =? 0) then
    call (Fprintf true ("could not initialize mutex on on_load, " +:+ pretty res)) ;; Ret JNI_ERR
  else
  store_glob (set_dumbPath (P_tmpdir +:+ "/artemisJLHandler_XXXXXX")) ;;
  let* template := load_glob dumbPath in
  let* fd_path := call (Mkstemp template) in
  store_glob (set_dumbPath fd_path.2) ;;
  store_glob (set_dumbWriteHandler fd_path.1) ;;
  let* fd := load_glob dumbWriteHandler in
  if fd <? 0 then
    let* path := load_glob dumbPath in
    call (Fprintf true ("couldn't create stop file handler " +:+ path +:+ nl)) ;; Ret JNI_ERR
  else
  let* localRuntimeExceptionClass := call (FindClass "java/lang/RuntimeException") in
  if localRuntimeExceptionClass =? NULL then Ret JNI_ERR else
  let* ref := call (NewGlobalRef localRuntimeExceptionClass) in
  store_glob (set_runtimeExceptionClass ref) ;;
  if ref =? NULL then throwOutOfMemoryError ;; Ret JNI_ERR else
  let* localIoExceptionClass := call (FindClass "java/io/IOException") in
  if localIoExceptionClass =? NULL then Ret JNI_ERR else
  let* ref := call (NewGlobalRef localIoExceptionClass) in
  store_glob (set_ioExceptionClass ref) ;;
  if ref =? NULL then throwOutOfMemoryError ;; Ret JNI_ERR else
  let* cls := call (FindClass "org/apache/activemq/artemis/nativo/jlibaio/SubmitInfo") in
  store_glob (set_submitClass cls) ;;
  if cls =? NULL then Ret JNI_ERR else
  let* ref := call (NewGlobalRef cls) in
  store_glob (set_submitClass ref) ;;
  let* m := call (GetMethodID ref "onError" "(ILjava/lang/String;)V") in
  store_glob (set_errorMethod m) ;;
  if m =? NULL then Ret JNI_ERR else
  let* submitCls := load_glob submitClass in
  let* m := call (GetMethodID submitCls "done" "()V") in
  store_glob (set_doneMethod m) ;;
  if m =? NULL then Ret JNI_ERR else
  let* cls := call (FindClass "org/apache/activemq/artemis/nativo/jlibaio/LibaioContext") in
  store_glob (set_libaioContextClass cls) ;;
  if cls =? NULL then Ret JNI_ERR else
  let* ref := call (NewGlobalRef cls) in
  store_glob (set_libaioContextClass ref) ;;
  let* m := call (GetMethodID ref "done" "(Lorg/apache/activemq/artemis/nativo/jlibaio/SubmitInfo;)V") in
  store_glob (set_libaioContextDone m) ;;
  if m =? NULL then Ret JNI_ERR else
  Ret JNI_VERSION_1_6.

(** Note the order of the first two statements: the file that is closed is 0. *)
Definition closeDumbHandlers : cprog unit :=
  let* h := load_glob dumbWriteHandler in
  if negb (h =? 0) then
    store_glob (set_dumbWriteHandler 0) ;;
    let* h := load_glob dumbWriteHandler in
    call (Close h) ;;
    let* path := load_glob dumbPath in
    call (Unlink path) ;;
    Ret tt
  else Ret tt.

Definition delete_class_ref (cls : globals → Z) : cprog unit :=
  let* c := load_glob cls in
  if negb (c =? NULL) then call (DeleteGlobalRef c) else Ret tt.

Definition JNI_OnUnload : cprog unit :=
  let* st := call (GetEnv JNI_VERSION_1_6) in
  if negb (st =? JNI_OK) then Ret tt else
  closeDumbHandlers ;;
  let* b := load_glob oneMegaBuffer in
  (if negb (b =? NULL) then
     free b ;; store_glob (set_oneMegaBuffer NULL)
   else Ret tt) ;;
  pthread_mutex_destroy OneMegaMutex ;;
  delete_class_ref runtimeExceptionClass ;;
  delete_class_ref ioExceptionClass ;;
  delete_class_ref submitClass ;;
  delete_class_ref libaioContextClass.

Definition shutdownHook : cprog unit := closeDumbHandlers.
End library_code.

(** ** The life of the library *)

Definition class_refs (g : globals) : list Z :=
  [libaioContextClass g; submitClass g; ioExceptionClass g; runtimeExceptionClass g].
Definition some_refs (l : list Z) : list Z := filter (λ r, r ≠ NULL) l.

Section library.
Context {E : Env}.
Implicit Types (w : world).

(** The answers that [JNI_OnLoad] gets from the calls it makes: the temporary file,
    and for each class the class and the global reference to it. *)
Record load_answers : Set := LoadAnswers {
  la_file : Z * string;
  la_runtime : Z * Z;
  la_io : Z * Z;
  la_submit : Z * Z;
  la_onError : Z;
  la_submitDone : Z;
  la_context : Z * Z;
  la_contextDone : Z
}.

(** The calls of a [JNI_OnLoad] that goes to its end, latest first. *)
Definition load_trace (a : load_answers) (h : history) : history :=
  Ev (GetMethodID (la_context a).2 "done" "(Lorg/apache/activemq/artemis/nativo/jlibaio/SubmitInfo;)V")
       (la_contextDone a)
    :: Ev (NewGlobalRef (la_context a).1) (la_context a).2
    :: Ev (FindClass "org/apache/activemq/artemis/nativo/jlibaio/LibaioContext") (la_context a).1
    :: Ev (GetMethodID (la_submit a).2 "done" "()V") (la_submitDone a)
    :: Ev (GetMethodID (la_submit a).2 "onError" "(ILjava/lang/String;)V") (la_onError a)
    :: Ev (NewGlobalRef (la_submit a).1) (la_submit a).2
    :: Ev (FindClass "org/apache/activemq/artemis/nativo/jlibaio/SubmitInfo") (la_submit a).1
    :: Ev (NewGlobalRef (la_io a).1) (la_io a).2
    :: Ev (FindClass "java/io/IOException") (la_io a).1
    :: Ev (NewGlobalRef (la_runtime a).1) (la_runtime a).2
    :: Ev (FindClass "java/lang/RuntimeException") (la_runtime a).1
    :: Ev (Mkstemp "/tmp/artemisJLHandler_XXXXXX") (la_file a)
    :: Ev PthreadMutexInit 0 :: Ev (GetEnv JNI_VERSION_1_6) JNI_OK :: h.

Definition load_globals (a : load_answers) (g : globals) : globals :=
  Globals (forceSysCall g) (la_file a).1 (la_file a).2 (oneMegaBuffer g) MFree
    (la_submit a).2 (la_onError a) (la_submitDone a) (la_contextDone a) (la_context a).2
    (la_runtime a).2 (la_io a).2.

(** What it has checked of the answers: all but the references to [SubmitInfo] and to
    [LibaioContext]. *)
Record load_good (a : load_answers) : Prop := LoadGood {
  lg_file : 0 ≤ (la_file a).1;
  lg_classes : (la_runtime a).1 ≠ NULL ∧ (la_io a).1 ≠ NULL ∧ (la_submit a).1 ≠ NULL ∧ (la_context a).1 ≠ NULL;
  lg_throws : (la_runtime a).2 ≠ NULL ∧ (la_io a).2 ≠ NULL;
  lg_methods : la_onError a ≠ NULL ∧ la_submitDone a ≠ NULL ∧ la_contextDone a ≠ NULL
}.

(** A call that has failed, and what is done about it before [JNI_ERR] is returned:
    a message, an [OutOfMemoryError], or nothing. *)
Definition load_failure (e : event) (diagnosis : history) : Prop :=
  match e with
  | @Ev T c r =>
      match c in syscall T return T → Prop with
      | GetEnv _ => λ r, r ≠ JNI_OK ∧ diagnosis = []
      | PthreadMutexInit => λ r, r ≠ 0 ∧
          diagnosis = [Ev (Fprintf true ("could not initialize mutex on on_load, " +:+ pretty r)) tt]
      | Mkstemp _ => λ r, r.1 < 0 ∧
          diagnosis = [Ev (Fprintf true ("couldn't create stop file handler " +:+ r.2 +:+ nl)) tt]
      | FindClass _ => λ r, r = NULL ∧ diagnosis = []
      | GetMethodID _ _ _ => λ r, r = NULL ∧ diagnosis = []
      | NewGlobalRef _ => λ r, r = NULL ∧ ∃ cls,
          diagnosis = [Ev (ThrowNew cls (Some ""%string)) tt; Ev (FindClass "java/lang/OutOfMemoryError") cls]
      | _ => λ _, False
      end r
  end.

(** [JNI_OnLoad] went to its end, or stopped at the call [e], after the calls of [h]
    that threw nothing. *)
Definition load_post w (r : Z) w' : Prop :=
  r = JNI_VERSION_1_6 ∧ (∃ a, load_good a ∧
    w' = World (heap w) (brk w) (load_globals a (glob w)) (load_trace a (trace w))) ∨
  r = JNI_ERR ∧ heap w' = heap w ∧ brk w' = brk w ∧ (∃ e h diagnosis,
    trace w' = diagnosis ++ e :: h ∧ load_failure e diagnosis ∧
    trace w `suffix_of` h ∧ effects h = effects (trace w)).

Lemma some_refs_cons c l : some_refs (c :: l) = (if c =? NULL then [] else [c]) ++ some_refs l.
Proof.
  unfold some_refs. rewrite filter_cons. destruct (Z.eqb_spec c NULL).
  - by rewrite decide_False by auto.
  - by rewrite decide_True.
Qed.

Lemma wp_call_any {T : Set} (c : syscall T) (Q : T → world → Prop) w :
  (∀ r, Q r (log c r w)) → wp (call c) Q w.
Proof. intros HQ. apply wp_call, HQ. Qed.

(** The end of [JNI_OnLoad] after a failed call, with the diagnosis [d]. *)
Ltac on_load_failed d :=
  repeat wp_step; right; split_and!; [done|done|done|]; eexists _, _, d; split; [reflexivity|];
  split; [cbn [load_failure]; rewrite ?(unit_eta (answer _ _)); split; first [done | by eexists]|];
  split; [repeat apply suffix_cons_r; reflexivity|reflexivity].
Ltac on_load_call r := apply wp_bind, wp_call_any; intros r; cbv beta.
Ltac on_load_store := apply wp_bind, wp_store_glob; cbv beta.
Ltac on_load_glob := apply wp_bind, wp_load_glob; wp_simpl.
Ltac on_load_check H :=
  match goal with |- wp (if ?b =? NULL then _ else _) _ _ =>
    destruct (Z.eqb_spec b NULL) as [H|H];
      [first [on_load_failed (@nil event)|on_load_failed uconstr:([_; _])]|] end.

Lemma wp_JNI_OnLoad w : wp JNI_OnLoad (load_post w) w.
Proof.
  unfold JNI_OnLoad, load_post, throwOutOfMemoryError. on_load_call st.
  destruct (Z.eqb_spec st JNI_OK) as [Hst|Hst]; simpl negb; cbv iota; [|on_load_failed (@nil event)].
  apply wp_bind. eapply (wp_mutex_init OneMegaMutex); [reflexivity| |].
  2:{ intros r Hr _. rewrite (proj2 (Z.eqb_neq r 0) Hr). simpl negb. cbv iota. on_load_failed uconstr:([_]). }
  intros _. simpl negb. cbv iota. on_load_store. on_load_glob. on_load_call tmp. do 2 on_load_store.
  on_load_glob. destruct (Z.ltb_spec tmp.1 0) as [Hfd|Hfd]; [on_load_glob; on_load_failed uconstr:([_])|].
  on_load_call c1. on_load_check H1. on_load_call r1. on_load_store. on_load_check Hr1.
  on_load_call c2. on_load_check H2. on_load_call r2. on_load_store. on_load_check Hr2.
  on_load_call c3. on_load_store. on_load_check H3. on_load_call r3. on_load_store.
  on_load_call m1. on_load_store. on_load_check Hm1. on_load_glob.
  on_load_call m2. on_load_store. on_load_check Hm2.
  on_load_call c4. on_load_store. on_load_check H4. on_load_call r4. on_load_store.
  on_load_call m3. on_load_store. on_load_check Hm3.
  apply wp_ret. left. split; [done|].
  exists (LoadAnswers tmp (c1, r1) (c2, r2) (c3, r3) m1 m2 (c4, r4) m3).
  split; [by split|]. by rewrite Hst.
Qed.

(** The references and the descriptors of a loaded library. *)
Lemma load_trace_refs a g h :
  load_good a → live_refs (load_trace a h) = some_refs (class_refs (load_globals a g)) ++ live_refs h.
Proof.
  intros [_ _ [H1 H2] _]. unfold class_refs. rewrite !some_refs_cons.
  change (some_refs []) with (@nil Z). cbn -[NULL].
  rewrite (proj2 (Z.eqb_neq _ NULL) H1), (proj2 (Z.eqb_neq _ NULL) H2).
  by destruct ((la_context a).2 =? NULL), ((la_submit a).2 =? NULL).
Qed.

Lemma load_trace_fds a h :
  load_good a → open_fds (load_trace a h) = (la_file a).1 :: open_fds h.
Proof. intros [H _ _ _]. cbn. by rewrite (proj2 (Z.ltb_ge (la_file a).1 0) H). Qed.

(** C17.  [JNI_OnLoad], on every answer of the JVM and of the system.  When it
    returns the version, it has made the calls of [load_trace] and no other, in
    this order, and each of those it checks has succeeded: the lock is
    ready, a temporary file is open for the wake-up write, the two exception
    classes are referenced, the three callback methods were found; the globals
    hold exactly these answers, and the heap is as it was.  The references to
    [SubmitInfo] and [LibaioContext] are what the JVM answered, unchecked.  When
    it returns [JNI_ERR], the last call but its diagnosis is one that has failed,
    an [OutOfMemoryError] is pending exactly when that call is [NewGlobalRef], and
    the heap is as it was.  It returns nothing else. *)
Theorem JNI_OnLoad_correct w : wp JNI_OnLoad (load_post w) w.
Proof. apply wp_JNI_OnLoad. Qed.

Lemma wp_closeDumbHandlers w :
  wp closeDumbHandlers (λ _ w', if dumbWriteHandler (glob w) =? 0 then w' = w
    else ∃ r r', w' = log (Unlink (dumbPath (glob w))) r
           (log (Close 0) r' (upd_glob (set_dumbWriteHandler 0) w))) w.
Proof.
  unfold closeDumbHandlers. apply wp_bind, wp_load_glob. cbv beta.
  destruct (Z.eqb_spec (dumbWriteHandler (glob w)) 0) as [H|H]; [by apply wp_ret|].
  simpl negb. cbv iota. on_load_store. on_load_glob. on_load_call r'. on_load_glob. on_load_call r.
  apply wp_ret. eauto.
Qed.

(** C29.  [closeDumbHandlers], with a handler that was opened: the handler is
    forgotten and its path is unlinked, but the descriptor that is closed is 0
    and not the handler's; so a descriptor 0 that was open is closed, and the
    handler's own stays open. *)
Theorem closeDumbHandlers_closes_stdin w :
  dumbWriteHandler (glob w) ≠ 0 →
  wp closeDumbHandlers (λ _ w',
    dumbWriteHandler (glob w') = 0 ∧ heap w' = heap w ∧
    open_fds (trace w') = remove1 0 (open_fds (trace w)) ∧
    (dumbWriteHandler (glob w) ∈ open_fds (trace w) → dumbWriteHandler (glob w) ∈ open_fds (trace w'))) w.
Proof.
  intros Hd. eapply wp_mono; [apply wp_closeDumbHandlers|]. intros [] w'.
  rewrite (proj2 (Z.eqb_neq _ _) Hd). intros (r & r' & ->). split_and!; [done|done|done|].
  intros Hin. cbn. by apply elem_of_remove1_ne.
Qed.

(** The thread that unloads the library is attached to the JVM. *)
Class JniAttached : Prop := {
  ja_env h : answer h (GetEnv JNI_VERSION_1_6) = JNI_OK
}.

(** [delete_class_ref] deletes a reference it finds. *)
Lemma wp_delete_class_ref (cls : globals → Z) rest w :
  live_refs (trace w) ≡ₚ some_refs [cls (glob w)] ++ rest →
  wp (delete_class_ref cls) (λ _ w', heap w' = heap w ∧ brk w' = brk w ∧ glob w' = glob w ∧
    open_fds (trace w') = open_fds (trace w) ∧ live_refs (trace w') ≡ₚ rest) w.
Proof.
  intros Hl. unfold delete_class_ref. apply wp_bind, wp_load_glob. cbv beta.
  rewrite some_refs_cons in Hl. destruct (Z.eqb_spec (cls (glob w)) NULL); simpl negb; cbv iota.
  - by apply wp_ret.
  - apply wp_call_any. intros []. split_and!; try done. cbn. by apply remove1_cons_perm.
Qed.

(** What [JNI_OnUnload] does to a loaded library with the buffer of zeros at
    [b], if any. *)
Lemma wp_JNI_OnUnload rest w :
  JniAttached → oneMegaMutex (glob w) = MFree →
  (oneMegaBuffer (glob w) ≠ NULL → is_Some (heap w !! oneMegaBuffer (glob w))) →
  live_refs (trace w) ≡ₚ some_refs (class_refs (glob w)) ++ rest →
  wp JNI_OnUnload (λ _ w',
    heap w' = (if oneMegaBuffer (glob w) =? NULL then heap w else delete (oneMegaBuffer (glob w)) (heap w)) ∧
    open_fds (trace w') = (if dumbWriteHandler (glob w) =? 0 then id else remove1 0) (open_fds (trace w)) ∧
    live_refs (trace w') ≡ₚ rest) w.
Proof.
  intros HA Hm Hb Hl. unfold JNI_OnUnload. apply wp_bind, wp_call. rewrite ja_env. simpl negb. cbv iota.
  eapply wp_seq; [apply wp_closeDumbHandlers|]. intros [] w1 Hw1.
  assert (heap w1 = heap w ∧ live_refs (trace w1) = live_refs (trace w) ∧
    (∃ d, glob w1 = set_dumbWriteHandler d (glob w)) ∧
    open_fds (trace w1) = (if dumbWriteHandler (glob w) =? 0 then id else remove1 0) (open_fds (trace w)))
    as (Hh1 & Hr1 & [d Hg1] & Hf1).
  { cbn [glob log] in Hw1. destruct (dumbWriteHandler (glob w) =? 0) eqn:Hd.
    - rewrite Hw1. split_and!; try done. exists (dumbWriteHandler (glob w)). simpl. by destruct (glob w).
    - destruct Hw1 as (r & r' & ->). split_and!; try done. by exists 0. }
  clear Hw1. apply wp_bind, wp_load_glob. rewrite Hg1. cbn [oneMegaBuffer set_dumbWriteHandler].
  set (b := oneMegaBuffer (glob w)) in *.
  apply (wp_seq _ _ (λ _ w2, heap w2 = (if b =? NULL then heap w else delete b (heap w)) ∧
    trace w2 = trace w1 ∧ oneMegaMutex (glob w2) = MFree ∧ class_refs (glob w2) = class_refs (glob w))).
  { destruct (Z.eqb_spec b NULL) as [Hn|Hn]; simpl negb; cbv iota.
    - apply wp_ret. by rewrite Hg1.
    - apply wp_bind. destruct (Hb Hn) as [x Hx]. eapply wp_free; [by rewrite Hh1|done|].
      apply wp_store_glob. cbn [heap trace glob upd_glob upd_heap]. by rewrite Hh1, Hg1. }
  intros [] w2 (Hh2 & Ht2 & Hm2 & Hc2). apply wp_bind.
  eapply wp_destroy; [simpl; by rewrite Hm2|]. cbv beta. set (w3 := upd_glob _ _).
  assert (class_refs (glob w3) = class_refs (glob w)) as Hc3 by done.
  assert (live_refs (trace w3) ≡ₚ
    some_refs [runtimeExceptionClass (glob w3)] ++ some_refs [ioExceptionClass (glob w3)] ++
    some_refs [submitClass (glob w3)] ++ some_refs [libaioContextClass (glob w3)] ++ rest) as Hl3.
  { cbn [trace w3 upd_glob]. rewrite Ht2, Hr1, Hl, <-Hc3. unfold class_refs. generalize (glob w3). intros g.
    rewrite !some_refs_cons. change (some_refs []) with (@nil Z). rewrite !app_nil_r.
    rewrite <-!app_assoc. solve_Permutation. }
  eapply wp_seq; [by apply wp_delete_class_ref|]. intros [] w4 (Hh4 & _ & Hg4 & Hf4 & Hl4).
  eapply wp_seq; [apply wp_delete_class_ref; by rewrite Hg4|]. intros [] w5 (Hh5 & _ & Hg5 & Hf5 & Hl5).
  eapply wp_seq; [apply wp_delete_class_ref; by rewrite Hg5, Hg4|]. intros [] w6 (Hh6 & _ & Hg6 & Hf6 & Hl6).
  eapply wp_mono; [apply wp_delete_class_ref; by rewrite Hg6, Hg5, Hg4|]. intros [] w7 (Hh7 & _ & _ & Hf7 & Hl7).
  split_and!; [by rewrite Hh7, Hh6, Hh5, Hh4| |done]. rewrite Hf7, Hf6, Hf5, Hf4. cbn [w3 trace upd_glob].
  by rewrite Ht2.
Qed.

(** The JVM loads the library and unloads it. *)
Definition load_and_unload : cprog bool :=
  let* r := JNI_OnLoad in
  if r =? JNI_VERSION_1_6 then JNI_OnUnload ;; Ret true else Ret false.

(** C16.  Loading the library and unloading it gives back every global reference
    and leaves the heap as it was.  The descriptor of the wake-up file is not
    given back: it stays open, and unless it is 0 itself a descriptor 0 that was
    open is closed in its place. *)
Theorem load_unload_roundtrip w :
  JniAttached → oneMegaBuffer (glob w) = NULL →
  wp load_and_unload (λ ok w', heap w' = heap w ∧
    (ok = true → live_refs (trace w') ≡ₚ live_refs (trace w) ∧
       ∃ fd, open_fds (trace w') =
         fd :: (if fd =? 0 then open_fds (trace w) else remove1 0 (open_fds (trace w))))) w.
Proof.
  intros HA Hb. unfold load_and_unload. eapply wp_seq; [apply wp_JNI_OnLoad|].
  intros r w1 [[-> (a & Hg & ->)]|(-> & Hh & _)].
  2:{ apply wp_ret. done. }
  rewrite Z.eqb_refl.
  eapply wp_seq; [eapply wp_JNI_OnUnload; [done|done| |cbn [trace glob]; by rewrite (load_trace_refs a (glob w))]|].
  { cbn. by rewrite Hb. }
  intros [] w2 (Hh2 & Hf2 & Hr2). apply wp_ret. cbn [glob load_globals oneMegaBuffer] in Hh2. rewrite Hb in Hh2.
  split; [by rewrite Hh2|]. intros _. split; [done|]. exists (la_file a).1.
  rewrite Hf2. cbn [trace glob dumbWriteHandler load_globals]. rewrite load_trace_fds by done.
  destruct (Z.eqb_spec (la_file a).1 0); [done|].
  simpl. by rewrite decide_False by auto.
Qed.

(** C28.  The switch: after [setForceSyscall] with a Java boolean,
    [isForceSyscall] returns that boolean (this library is built with the ring
    reaper), and a poll then goes to the system call without a look at the ring. *)
Theorem setForceSyscall_forces b ctx min_nr max evs timeout w :
  b = JNI_FALSE ∨ b = JNI_TRUE →
  run (setForceSyscall b ;; isForceSyscall) w = Done b (upd_glob (set_forceSysCall b) w) ∧
  (b = JNI_TRUE →
   run (setForceSyscall b ;; ringio_get_events ctx min_nr max evs timeout) w =
   run (io_getevents ctx min_nr max evs timeout) (upd_glob (set_forceSysCall b) w)).
Proof.
  intros Hb. split; [by destruct Hb as [-> | ->]|]. intros ->. rewrite run_bind.
  simpl. apply ringio_forced. done.
Qed.
End library.

(** ** Witnesses *)

#[export] Instance sim_attached s : JniAttached (E := sim_env s).
Proof. by split. Qed.

Lemma closeDumbHandlers_witness :
  wp (closeDumbHandlers (E := sim_env demo_sim)) (λ _ w',
    dumbWriteHandler (glob w') = 0 ∧ heap w' = heap start_world ∧
    open_fds (trace w') = remove1 0 [] ∧ (3 ∈ ([] : list Z) → 3 ∈ open_fds (trace w'))) start_world.
Proof. apply (closeDumbHandlers_closes_stdin (E := sim_env demo_sim) start_world). done. Defined.

Lemma load_unload_witness :
  wp (load_and_unload (E := sim_env making_sim)) (λ ok w', heap w' = heap start_world ∧
    (ok = true → live_refs (trace w') ≡ₚ [] ∧
       ∃ fd, open_fds (trace w') = fd :: (if fd =? 0 then [] else remove1 0 []))) start_world.
Proof. apply (load_unload_roundtrip (E := sim_env making_sim) start_world); [apply _|done]. Defined.

Lemma setForceSyscall_witness :
  run (setForceSyscall 1 ;; isForceSyscall) start_world = Done 1 (upd_glob (set_forceSysCall 1) start_world) ∧
  (1 = JNI_TRUE →
   run (setForceSyscall 1 ;; ringio_get_events (E := sim_env demo_sim) 5000 1 8 30 None) start_world =
   run (io_getevents (E := sim_env demo_sim) 5000 1 8 30 None) (upd_glob (set_forceSysCall 1) start_world)).
Proof. apply (setForceSyscall_forces (E := sim_env demo_sim)). by right. Defined.
