(* ===== verification/Files.v ===== *)
(** * Files

    The file entry points of LibaioContext: [open], [close], [lock], [getSize],
    [getBlockSizeFD], [getBlockSize], [fallocate]. *)

From S2P Require Export System Demo.

Definition O_RDWR : Z := 2.
Definition O_CREAT : Z := 64.
Definition O_DIRECT : Z := 16384.
Definition LOCK_EX : Z := 2.
Definition LOCK_NB : Z := 4.
Definition SEEK_SET : Z := 0.
(** The permissions 0666 of a created file. *)
Definition MODE_0666 : Z := 438.

Section files_code.
Context {E : Env}.

Definition lock (handle : Z) : cprog bool :=
  let* r := call (Flock handle (Z.lor LOCK_EX LOCK_NB)) in
  Ret (r =? 0).

Definition close (fd : Z) : cprog unit :=
  let* r := call (Close fd) in
  if r <? 0 then
    let* errno := call Errno in
    throwIOExceptionErrorNo "Error closing file:" errno
  else Ret tt.

Definition open (path direct : Z) : cprog Z :=
  let* f_path := call (GetStringUTFChars path) in
  let* res :=
    (if negb (direct =? 0)
     then call (Open f_path (Z.lor (Z.lor O_RDWR O_CREAT) O_DIRECT) MODE_0666)
     else call (Open f_path (Z.lor O_RDWR O_CREAT) MODE_0666)) in
  call (ReleaseStringUTFChars path f_path) ;;
  (if res <? 0 then
     let* errno := call Errno in
     throwIOExceptionErrorNo "Cannot open file:" errno
   else Ret tt) ;;
  Ret res.

Definition getSize (fd : Z) : cprog Z :=
  let* st := call (Fstat fd) in
  match st with
  | None =>
      let* errno := call Errno in
      throwIOExceptionErrorNo "Cannot determine file size:" errno ;;
      Ret (-1)
  | Some s => Ret (st_size s)
  end.

(** [st_blksize] is a [long] returned as a [jint]. *)
Definition getBlockSizeFD (fd : Z) : cprog Z :=
  let* st := call (Fstat fd) in
  match st with
  | None =>
      let* errno := call Errno in
      throwIOExceptionErrorNo "Cannot determine file size:" errno ;;
      Ret (-1)
  | Some s => Ret (i32 (st_blksize s))
  end.

Definition getBlockSize (path : Z) : cprog Z :=
  let* f_path := call (GetStringUTFChars path) in
  let* st := call (Stat f_path) in
  match st with
  | None =>
      let* errno := call Errno in
      throwIOExceptionErrorNo "Cannot determine file size:" errno ;;
      Ret (-1)
  | Some s =>
      call (ReleaseStringUTFChars path f_path) ;;
      Ret (i32 (st_blksize s))
  end.

Definition fallocate (fd size : Z) : cprog unit :=
  let* r := call (Fallocate fd 0 0 size) in
  (if r <? 0 then
     let* errno := call Errno in
     throwIOExceptionErrorNo "Could not preallocate file" errno
   else Ret tt) ;;
  call (Fsync fd) ;;
  call (Lseek fd 0 SEEK_SET) ;;
  Ret tt.
End files_code.

(** What an entry point without a context can change: the pending exceptions, the
    open descriptors, the characters held. *)
Record observed : Set := Observed {
  ob_exceptions : list (Z * option string);
  ob_fds : list Z;
  ob_chars : list Z
}.
Definition observe (h : history) : observed := Observed (exceptions h) (open_fds h) (held_chars h).

Section files.
Context {E : Env} `{!PosixErrors E}.
Implicit Types (w : world) (fd : Z).

(** A failure that is reported: the memory is as before and there is one more
    exception, an IOException with [msg] and the text of some [errno], or
    without a message when there is no memory for it. *)
Definition io_failed (msg : string) w w' : Prop :=
  same_mem w w' ∧ ∃ m, observe (trace w') =
    Observed ((ioExceptionClass (glob w), m) :: exceptions (trace w)) (open_fds (trace w)) (held_chars (trace w)) ∧
    (m = None ∨ ∃ e, m = Some (msg +:+ strerror e)).

Definition unchanged w w' : Prop := same_mem w w' ∧ observe (trace w') = observe (trace w).

Lemma errno_thrown_observe cls msg e t :
  observe (errno_thrown cls msg e t) =
  Observed ((cls, if answer t AsprintfFails then None else Some (msg +:+ strerror (Z.abs e))) :: exceptions t)
    (open_fds t) (held_chars t).
Proof. unfold observe, errno_thrown. by destruct (answer t AsprintfFails). Qed.

Lemma wp_io_failed msg w :
  heap_ok w →
  wp (let* errno := call Errno in throwIOExceptionErrorNo msg errno) (λ _, io_failed msg w) w.
Proof.
  intros Hok. apply wp_bind, wp_call. set (e := answer _ _).
  assert (0 ≤ e < 4096) as He by apply pe_errno.
  eapply wp_mono; [apply wp_throwIOExceptionErrorNo; [unfold INT_MIN, INT_MAX; lia|done]|].
  intros [] w' [Hm Ht]. split; [by etrans; [apply (same_mem_log Errno e)|]|].
  rewrite Ht, errno_thrown_observe. eexists. split; [done|]. case_match; eauto.
Qed.

(** The same with what the caller does next. *)
Lemma wp_io_failed_then {A} msg (K : cprog A) (Q : A → world → Prop) w :
  heap_ok w → (∀ w', io_failed msg w w' → wp K Q w') →
  wp (let* errno := call Errno in throwIOExceptionErrorNo msg errno ;; K) Q w.
Proof.
  intros Hok HQ. unfold wp. rewrite run_bind.
  pose proof (wp_io_failed msg w Hok) as Hw. unfold wp in Hw. rewrite run_bind in Hw.
  destruct (run (call Errno) w); try done. rewrite run_bind. destruct (run (throwIOExceptionErrorNo msg a) s); try done.
  by apply HQ.
Qed.

Lemma io_failed_log {T : Set} msg (c : syscall T) r w w' :
  observe (trace (log c r w)) = observe (trace w) → io_failed msg (log c r w) w' → io_failed msg w w'.
Proof.
  intros Ho (Hm & m & Hob & Hmsg).
  pose proof (f_equal ob_exceptions Ho : exceptions (trace (log c r w)) = exceptions (trace w)) as Hx.
  pose proof (f_equal ob_fds Ho : open_fds (trace (log c r w)) = open_fds (trace w)) as Hf.
  pose proof (f_equal ob_chars Ho : held_chars (trace (log c r w)) = held_chars (trace w)) as Hc.
  split; [by etrans; [apply (same_mem_log c r)|]|]. exists m. split; [|done].
  rewrite Hob, Hx, Hf, Hc. done.
Qed.

(** The flags of [open]: [O_DIRECT] is added when it is asked for. *)
Definition open_flags (direct : Z) : Z :=
  if direct =? 0 then Z.lor O_RDWR O_CREAT else Z.lor (Z.lor O_RDWR O_CREAT) O_DIRECT.
Definition opened (path direct : Z) w : Z :=
  let chars := answer (trace w) (GetStringUTFChars path) in
  answer (Ev (GetStringUTFChars path) chars :: trace w) (Open chars (open_flags direct) MODE_0666).

Lemma release_chars path (c : option string) h r :
  held_chars (Ev (ReleaseStringUTFChars path c) r :: Ev (GetStringUTFChars path) c :: h) = held_chars h.
Proof. cbn. destruct c; simpl; [|done]. by rewrite decide_True. Qed.

Lemma open_call chars direct :
  (if negb (direct =? 0)
   then call (Open chars (Z.lor (Z.lor O_RDWR O_CREAT) O_DIRECT) MODE_0666)
   else call (Open chars (Z.lor O_RDWR O_CREAT) MODE_0666)) =
  call (Open chars (open_flags direct) MODE_0666).
Proof. unfold open_flags. by destruct (direct =? 0). Qed.

Definition open_post (path direct : Z) w (r : Z) w' : Prop :=
  r = opened path direct w ∧
  if r <? 0 then io_failed "Cannot open file:" w w'
  else same_mem w w' ∧
       observe (trace w') = Observed (exceptions (trace w)) (r :: open_fds (trace w)) (held_chars (trace w)).

Lemma wp_open path direct w : heap_ok w → wp (open path direct) (open_post path direct w) w.
Proof.
  intros Hok. unfold open, open_post, opened. apply wp_bind. wp_step. set (chars := answer _ _).
  rewrite open_call. apply wp_bind, wp_call. cbn [trace log].
  set (r := answer _ (Open _ _ _)). clearbody r. wp_step.
  set (w1 := log (ReleaseStringUTFChars path chars) _ _).
  assert (same_mem w w1) as Hm1 by (split; simpl; [done|done|lia]).
  assert (observe (trace w1) = Observed (exceptions (trace w))
    ((if r <? 0 then [] else [r]) ++ open_fds (trace w)) (held_chars (trace w))) as Ho1.
  { unfold observe, w1. cbn [trace log]. f_equal; [cbn; by destruct (r <? 0)|].
    exact (release_chars path chars (trace w) tt). }
  assert (glob w1 = glob w) as Hg1 by done. clearbody w1.
  destruct (r <? 0) eqn:Hr.
  - apply wp_bind. eapply wp_mono; [apply wp_io_failed; by eapply same_mem_heap_ok|].
    intros [] w' (Hm & m & Ho & Hmsg). apply wp_ret. split; [done|]. rewrite Hr.
    split; [by etrans|]. exists m. split; [|done]. injection Ho1 as Hx Hf Hc.
    by rewrite Ho, Hx, Hf, Hc, Hg1.
  - apply wp_bind, wp_ret, wp_ret. by rewrite Hr.
Qed.

Definition close_post fd w w' : Prop :=
  let h := trace w in
  if answer h (Close fd) <? 0
  then ∃ w1, w1 = log (Close fd) (answer h (Close fd)) w ∧ io_failed "Error closing file:" w1 w'
  else same_mem w w' ∧ observe (trace w') = Observed (exceptions h) (remove1 fd (open_fds h)) (held_chars h).

Lemma wp_close fd w : heap_ok w → wp (close fd) (λ _, close_post fd w) w.
Proof.
  intros Hok. unfold close, close_post. apply wp_bind. wp_step. set (r := answer _ _). destruct (r <? 0).
  - eapply wp_mono; [by apply wp_io_failed|]. intros [] w' Hw. by exists (log (Close fd) r w).
  - apply wp_ret. split; [|done]. apply (same_mem_log (Close fd)).
Qed.

(** A query of the file that fails, with what the caller does next. *)
Lemma wp_query_failed {A} msg (x : A) (c : syscall (option stat)) r w :
  heap_ok w → observe (trace (log c r w)) = observe (trace w) →
  wp (let* errno := call Errno in throwIOExceptionErrorNo msg errno ;; Ret x)
     (λ y w', y = x ∧ io_failed msg w w') (log c r w).
Proof.
  intros Hok Ho. apply wp_io_failed_then; [done|]. intros w' Hf. apply wp_ret.
  split; [done|]. by eapply io_failed_log.
Qed.

Definition query_post (st : option stat) (f : stat → Z) w (r : Z) w' : Prop :=
  match st with
  | Some s => r = f s ∧ unchanged w w'
  | None => r = -1 ∧ io_failed "Cannot determine file size:" w w'
  end.

Lemma wp_getSize fd w :
  heap_ok w → wp (getSize fd) (query_post (answer (trace w) (Fstat fd)) st_size w) w.
Proof.
  intros Hok. unfold getSize, query_post. apply wp_bind. wp_step. destruct (answer _ _) as [s|].
  - apply wp_ret. split; [done|]. split; [apply (same_mem_log (Fstat fd))|done].
  - by apply wp_query_failed.
Qed.

Lemma wp_getBlockSizeFD fd w :
  heap_ok w →
  wp (getBlockSizeFD fd) (query_post (answer (trace w) (Fstat fd)) (λ s, i32 (st_blksize s)) w) w.
Proof.
  intros Hok. unfold getBlockSizeFD, query_post. apply wp_bind. wp_step. destruct (answer _ _) as [s|].
  - apply wp_ret. split; [done|]. split; [apply (same_mem_log (Fstat fd))|done].
  - by apply wp_query_failed.
Qed.

(** The failure path of [getBlockSize] keeps the characters of the path. *)
Definition blockSize_post (path : Z) w (r : Z) w' : Prop :=
  let h := trace w in
  let chars := answer h (GetStringUTFChars path) in
  let held := Ev (GetStringUTFChars path) chars :: h in
  match answer held (Stat chars) with
  | Some s => r = i32 (st_blksize s) ∧ unchanged w w'
  | None => r = -1 ∧ io_failed "Cannot determine file size:" (log (GetStringUTFChars path) chars w) w'
  end.

Lemma wp_getBlockSize path w :
  heap_ok w → wp (getBlockSize path) (blockSize_post path w) w.
Proof.
  intros Hok. unfold getBlockSize, blockSize_post. apply wp_bind. wp_step. set (chars := answer _ _).
  apply wp_bind. wp_step. destruct (answer _ (Stat chars)) as [s|].
  - apply wp_bind. wp_step. apply wp_ret. split; [done|]. split; [split; simpl; [done|done|lia]|].
    unfold observe. f_equal. exact (release_chars path chars (trace w) tt).
  - by apply wp_query_failed.
Qed.

(** [fallocate] goes on after the exception: the file is synchronised and
    rewound in both cases. *)
Definition fallocate_post (fd size : Z) w w' : Prop :=
  ∃ t r1 r2, trace w' = Ev (Lseek fd 0 SEEK_SET) r1 :: Ev (Fsync fd) r2 :: t ∧
    (if answer (trace w) (Fallocate fd 0 0 size) <? 0
     then io_failed "Could not preallocate file" w w'
     else unchanged w w').

Lemma wp_fallocate fd size w :
  heap_ok w → wp (fallocate fd size) (λ _, fallocate_post fd size w) w.
Proof.
  intros Hok. unfold fallocate, fallocate_post. apply wp_bind. wp_step. set (r := answer _ _).
  apply (wp_seq _ _ (λ _ w1, if r <? 0 then io_failed "Could not preallocate file" w w1 else unchanged w w1)).
  - destruct (r <? 0).
    + eapply wp_mono; [by apply wp_io_failed|]. intros [] w1. by apply io_failed_log.
    + apply wp_ret. split; [apply (same_mem_log (Fallocate fd 0 0 size))|done].
  - intros [] w1 H1. do 3 wp_step. do 3 eexists. split; [done|]. destruct (r <? 0).
    + destruct H1 as ([Hh Hg Hb] & m & Ho & Hm). split; [by split|]. eauto.
    + destruct H1 as ([Hh Hg Hb] & Ho). split; [by split|done].
Qed.

(** A Java client that opens a file and closes it. *)
Definition open_and_close (path direct : Z) : cprog unit :=
  let* fd := open path direct in
  if fd <? 0 then Ret tt else close fd.

(** C20.  Opening a file and closing it leaves no descriptor and no characters of
    the path behind, whether or not either call fails, and the memory as it was;
    each call that fails is one exception more. *)
Theorem open_close_roundtrip path direct w :
  heap_ok w →
  wp (open_and_close path direct) (λ _ w',
    same_mem w w' ∧ open_fds (trace w') = open_fds (trace w) ∧
    held_chars (trace w') = held_chars (trace w) ∧
    ∃ failures, exceptions (trace w') = failures ++ exceptions (trace w) ∧ (length failures ≤ 1)%nat) w.
Proof.
  intros Hok. unfold open_and_close. eapply wp_seq; [by apply wp_open|]. intros r w1 [_ H1].
  destruct (r <? 0).
  - destruct H1 as (Hm & m & Ho & _). injection Ho as Hx Hf Hc. apply wp_ret.
    split_and!; [done..|]. exists [(ioExceptionClass (glob w), m)]. by split.
  - destruct H1 as [Hm Ho]. injection Ho as Hx Hf Hc.
    eapply wp_mono; [apply wp_close; by eapply same_mem_heap_ok|]. intros [] w'. unfold close_post.
    assert (remove1 r (open_fds (trace w1)) = open_fds (trace w)) as Hfd.
    { rewrite Hf. simpl. by rewrite decide_True. }
    set (c := answer _ _). clearbody c. destruct (c <? 0).
    + intros (w2 & -> & Hm2 & m & Ho2 & _). injection Ho2 as Hx2 Hf2 Hc2. split_and!.
      * etrans; [exact Hm|]. etrans; [apply (same_mem_log (Close r) c)|done].
      * rewrite Hf2. cbn. done.
      * rewrite Hc2. cbn. done.
      * eexists [_]. split; [|simpl; lia]. rewrite Hx2. cbn. by rewrite Hx.
    + intros [Hm2 Ho2]. injection Ho2 as Hx2 Hf2 Hc2. split_and!.
      * by etrans.
      * by rewrite Hf2.
      * by rewrite Hc2.
      * exists []. split; [by rewrite Hx2, Hx|simpl; lia].
Qed.

(** C23.  [open]: the result is that of open(2) with [O_DIRECT] exactly when it is
    asked for; a descriptor that is returned is open and there is no exception; a
    failure is one IOException with the text of [errno].  The characters of the
    path are released on both paths. *)
Theorem open_correct path direct w : heap_ok w → wp (open path direct) (open_post path direct w) w.
Proof. apply wp_open. Qed.

(** C26.  [getBlockSize]: the block size of the file as a 32-bit integer, with
    nothing else changed; or -1 and an IOException - and then, unlike on the
    other path, the characters of the path stay held: [io_failed] is relative to
    the state in which they have been taken. *)
Theorem getBlockSize_correct path w :
  heap_ok w → wp (getBlockSize path) (blockSize_post path w) w.
Proof. apply wp_getBlockSize. Qed.

(** C27.  [getSize] and [getBlockSizeFD] return the same query of the descriptor:
    its [st_size], or its [st_blksize] as a 32-bit integer, or each -1 and an
    IOException. *)
Theorem file_queries_correct fd w :
  heap_ok w →
  wp (getSize fd) (query_post (answer (trace w) (Fstat fd)) st_size w) w ∧
  wp (getBlockSizeFD fd) (query_post (answer (trace w) (Fstat fd)) (λ s, i32 (st_blksize s)) w) w.
Proof. split; [by apply wp_getSize|by apply wp_getBlockSizeFD]. Qed.

(** C25.  [fallocate] ends with the file synchronised and at position 0 in any
    case, and throws one IOException exactly when fallocate(2) fails. *)
Theorem fallocate_correct fd size w :
  heap_ok w → wp (fallocate fd size) (λ _, fallocate_post fd size w) w.
Proof. apply wp_fallocate. Qed.
End files.

(** ** Witnesses *)

Lemma open_close_witness :
  wp (open_and_close (E := sim_env demo_sim) 5 1) (λ _ w',
    same_mem start_world w' ∧ open_fds (trace w') = [] ∧ held_chars (trace w') = [] ∧
    ∃ failures, exceptions (trace w') = failures ++ [] ∧ (length failures ≤ 1)%nat) start_world.
Proof. apply (open_close_roundtrip (E := sim_env demo_sim) 5 1 start_world), start_heap_ok. Defined.

Lemma open_witness :
  wp (open (E := sim_env demo_sim) 5 1) (open_post (E := sim_env demo_sim) 5 1 start_world) start_world.
Proof. apply open_correct, start_heap_ok. Defined.

(** No file is there: the characters stay held. *)
Lemma getBlockSize_witness :
  wp (getBlockSize (E := sim_env demo_sim) 5) (blockSize_post (E := sim_env demo_sim) 5 start_world) start_world.
Proof. apply getBlockSize_correct, start_heap_ok. Defined.

Lemma file_queries_witness :
  wp (getSize (E := sim_env demo_sim) 7) (query_post (E := sim_env demo_sim) None st_size start_world) start_world ∧
  wp (getBlockSizeFD (E := sim_env demo_sim) 7)
     (query_post (E := sim_env demo_sim) None (λ s, i32 (st_blksize s)) start_world) start_world.
Proof. apply (file_queries_correct (E := sim_env demo_sim) 7 start_world), start_heap_ok. Defined.

Lemma fallocate_witness :
  wp (fallocate (E := sim_env demo_sim) 7 4096) (λ _, fallocate_post (E := sim_env demo_sim) 7 4096 start_world)
     start_world.
Proof. apply fallocate_correct, start_heap_ok. Defined.
