(* ===== verification/Fill.v ===== *)
(** * Filling a file with zeros

    [fill] and the buffer of zeros it shares between calls ([verifyBuffer]), with
    a file as POSIX describes it for what the writes amount to. *)

From S2P Require Export Files.

Definition ONE_MEGA : Z := 1048576.

Section fill_code.
Context {E : Env}.

(** The shared buffer of zeros, allocated at the first use. *)
Definition verifyBuffer (alignment : Z) : cprog Z :=
  pthread_mutex_lock OneMegaMutex ;;
  let* b := load_glob oneMegaBuffer in
  if b =? 0 then
    let* r := posix_memalign (u64 alignment) ONE_MEGA in
    if negb (r.1 =? 0) then
      call (Fprintf true ("Could not allocate the 1 Mega Buffer for initializing files" +:+ nl)) ;;
      pthread_mutex_unlock OneMegaMutex ;;
      Ret (-1)
    else
      store_glob (set_oneMegaBuffer r.2) ;;
      let* b := load_glob oneMegaBuffer in
      memset b 0 ONE_MEGA ;;
      pthread_mutex_unlock OneMegaMutex ;;
      Ret 0
  else
    pthread_mutex_unlock OneMegaMutex ;;
    Ret 0.

(** [write(fd, oneMegaBuffer, count)] *)
Definition write_zeros (fd count : Z) : cprog Z :=
  let* b := load_glob oneMegaBuffer in
  let* bytes := bytes_at b in
  call (Write fd bytes (u64 count)).

Definition fill (fd alignment size : Z) : cprog unit :=
  let blocks := i32 (Z.quot size ONE_MEGA) in
  let rest := i32 (Z.rem size ONE_MEGA) in
  verifyBuffer alignment ;;
  call (Lseek fd 0 SEEK_SET) ;;
  let* failed := for_exit 0 blocks (λ _,
    let* r := write_zeros fd ONE_MEGA in
    if r <? 0
    then throwIOException "Cannot initialize file" ;; Ret (Some tt)
    else Ret None) in
  match failed with
  | Some _ => Ret tt
  | None =>
      let* failed :=
        (if negb (rest =? 0) then
           let* r := write_zeros fd rest in
           if r <? 0
           then throwIOException "Cannot initialize file with final rest" ;; Ret true
           else Ret false
         else Ret false) in
      if failed then Ret tt else
      call (Lseek fd 0 SEEK_SET) ;;
      Ret tt
  end.
End fill_code.

(** ** The file on the other side

    A regular file as POSIX describes it, and what the calls of a history do to
    it: the reference for [fill]. *)
Record file : Set := File { f_bytes : list Z; f_pos : nat }.

(** [write(2)] at the position: past the end, the gap reads as zeros. *)
Definition file_write (f : file) (bytes : list Z) : file :=
  let pad := replicate (f_pos f - length (f_bytes f)) 0 in
  File (take (f_pos f) (f_bytes f ++ pad) ++ bytes ++ drop (f_pos f + length bytes) (f_bytes f))
       (f_pos f + length bytes).

Definition file_step (fd : Z) (e : event) (f : file) : file :=
  match e with
  | @Ev T c r =>
      match c in syscall T return T → file with
      | Write fd' (Some bytes) _ => λ r,
          if (fd' =? fd) && (0 <=? r) then file_write f (take (Z.to_nat r) bytes) else f
      | Lseek fd' off whence => λ r,
          if (fd' =? fd) && (whence =? SEEK_SET) then File (f_bytes f) (Z.to_nat off) else f
      | _ => λ _, f
      end r
  end.

(** The file after the history [h], if it was [f] at the start. *)
Fixpoint file_of (fd : Z) (h : history) (f : file) : file :=
  match h with
  | [] => f
  | e :: h => file_step fd e (file_of fd h f)
  end.

(** The writes to the file in a history, with the count that was asked and the
    answer, latest first. *)
Definition write_of (fd : Z) (e : event) : option (Z * Z) :=
  match e with
  | @Ev T c r =>
      match c in syscall T return T → option (Z * Z) with
      | Write fd' _ count => λ r, if fd' =? fd then Some (count, r) else None
      | _ => λ _, None
      end r
  end.
Definition writes (fd : Z) (h : history) : list (Z * Z) := omap (write_of fd) h.

(** The bytes that a list of writes has written. *)
Definition written (ws : list (Z * Z)) : nat := sum_list (Z.to_nat <$> ws.*2).

Section file_facts.
Open Scope nat_scope.

(** Zeros written after [n] zeros. *)
Lemma file_write_zeros bs n m :
  file_write (File (replicate n 0%Z ++ drop n bs) n) (replicate m 0%Z) =
  File (replicate (n + m) 0%Z ++ drop (n + m) bs) (n + m).
Proof.
  unfold file_write. simpl. rewrite length_replicate. f_equal.
  rewrite length_app, length_replicate. replace (n - (n + length (drop n bs))) with 0 by lia.
  simpl. rewrite app_nil_r, take_app_length' by (by rewrite length_replicate).
  rewrite drop_app_ge by (rewrite length_replicate; lia).
  rewrite length_replicate, drop_drop, replicate_add, app_assoc. do 2 f_equal. lia.
Qed.
End file_facts.

Lemma written_snoc ws c r : written (ws ++ [(c, r)]) = (written ws + Z.to_nat r)%nat.
Proof. unfold written. rewrite !fmap_app, sum_list_with_app. simpl. lia. Qed.

(** ** The buffer of zeros and [fill] *)

Lemma mega_pos : 0 < ONE_MEGA.
Proof. done. Qed.
Lemma mega_value : ONE_MEGA = 2 ^ 20.
Proof. done. Qed.
Lemma mega_nat : Z.of_nat (Z.to_nat ONE_MEGA) = ONE_MEGA.
Proof. apply Z2Nat.id, Z.lt_le_incl, mega_pos. Qed.
(** A mega of zeros is not a list to compute with. *)
#[global] Opaque ONE_MEGA.

Section fill.
Context {E : Env}.
Implicit Types (w : world) (fd : Z) (f : file).

(** The state of the shared buffer between two calls: not allocated yet, or
    a mega of zeros. *)
Record buffer_inv w : Prop := BufferInv {
  bi_ok : heap_ok w;
  bi_mutex : oneMegaMutex (glob w) = MFree;
  bi_zeros : oneMegaBuffer (glob w) ≠ NULL →
    ∃ a, w ⊨ oneMegaBuffer (glob w) ↦ Raw a (zeros ONE_MEGA)
}.

Lemma wp_mega_lock (Q : unit → world → Prop) w :
  oneMegaMutex (glob w) = MFree →
  Q tt (upd_glob (set_oneMegaMutex MLocked) w) → wp (pthread_mutex_lock OneMegaMutex) Q w.
Proof. intros Hm HQ. eapply wp_lock; [simpl; by rewrite Hm|done]. Qed.

Lemma wp_mega_unlock (Q : unit → world → Prop) w :
  oneMegaMutex (glob w) = MLocked →
  Q tt (upd_glob (set_oneMegaMutex MFree) w) → wp (pthread_mutex_unlock OneMegaMutex) Q w.
Proof. intros Hm HQ. eapply wp_unlock; [simpl; by rewrite Hm|done]. Qed.

(** The result [r] of [verifyBuffer]: a buffer that is there is kept, whatever
    alignment is asked; otherwise one is made, aligned, or the result is -1. *)
Definition verified (alignment : Z) w (r : Z) w' : Prop :=
  buffer_inv w' ∧ exceptions (trace w') = exceptions (trace w) ∧
  ioExceptionClass (glob w') = ioExceptionClass (glob w) ∧
  (∀ fd f, file_of fd (trace w') f = file_of fd (trace w) f) ∧
  (∀ fd, writes fd (trace w') = writes fd (trace w)) ∧
  let made := answer (trace w) (PosixMemalign (u64 alignment) ONE_MEGA) in
  let b := oneMegaBuffer (glob w') in
  if oneMegaBuffer (glob w) =? NULL then
    if made =? 0 then r = 0 ∧ b ≠ NULL ∧ b `mod` Z.max 1 (u64 alignment) = 0
    else r = -1 ∧ b = NULL
  else r = 0 ∧ w' = w.

Lemma wp_verifyBuffer alignment w :
  buffer_inv w → wp (verifyBuffer alignment) (verified alignment w) w.
Proof.
  intros Hinv. pose proof Hinv as [Hok Hm Hz]. unfold verifyBuffer, verified.
  apply wp_bind, wp_mega_lock; [done|]. wp_step.
  cbn [glob upd_glob oneMegaBuffer set_oneMegaMutex].
  destruct (Z.eqb_spec (oneMegaBuffer (glob w)) NULL) as [Hb|Hb].
  2:{ rewrite (proj2 (Z.eqb_neq _ 0) Hb). apply wp_bind, wp_mega_unlock; [done|]. apply wp_ret.
      assert (upd_glob (set_oneMegaMutex MFree) (upd_glob (set_oneMegaMutex MLocked) w) = w) as ->.
      { destruct w as [h b g t]. unfold upd_glob. simpl in *. f_equal. destruct g. simpl in *. by subst. }
      done. }
  rewrite Hb. simpl (NULL =? 0). cbv iota. apply wp_bind, wp_posix_memalign; [done| |].
  - intros r Hr Ha. cbn [fst snd trace upd_glob] in *. rewrite Ha, (proj2 (Z.eqb_neq r 0) Hr). simpl negb. cbv iota.
    wp_step. apply wp_bind, wp_mega_unlock; [done|]. apply wp_ret.
    by split_and!.
  - intros Ha p Hbp H0 Hal Hfr. cbn [fst snd trace upd_glob] in *. rewrite Ha. simpl negb. cbv iota.
    do 2 wp_step. cbn [glob upd_glob oneMegaBuffer set_oneMegaBuffer].
    set (bytes := replicate _ _).
    assert (length bytes = Z.to_nat ONE_MEGA) as Hlen by apply length_replicate.
    clearbody bytes. set (w1 := upd_glob _ (bump _ _ _ _)).
    assert (w1 ⊨ p ↦ Raw (u64 alignment) bytes) as Hp by apply lookup_insert_eq.
    apply wp_bind. eapply wp_memset; [exact Hp|cbn [raw_bytes]; rewrite Hlen, mega_nat; lia|].
    cbn [raw_align raw_bytes]. rewrite drop_ge, app_nil_r by (rewrite Hlen; lia). fold (zeros ONE_MEGA).
    apply wp_bind, wp_mega_unlock; [done|]. apply wp_ret.
    split_and!; try done.
    + split; [|done|].
      * apply heap_ok_glob. eapply heap_ok_put; [|exact Hp]. by apply heap_ok_glob, heap_ok_bump.
      * intros _. eexists. apply has_put_eq.
    + cbn. unfold NULL. split_and!; [done|lia|done].
Qed.

(** write(2) writes at most the bytes it is given: fewer, perhaps. *)
Class PosixWrite (fd : Z) : Prop := {
  pw_write h bytes n : 0 ≤ n → answer h (Write fd bytes n) ≤ n
}.

(** On the way from [w0], whose file has the bytes [bs], the writes [ws] were made,
    oldest first; a write that fails writes nothing. *)
Record filled (fd : Z) f (bs : list Z) ws w0 w : Prop := Filled {
  fl_heap : heap w = heap w0;
  fl_brk : brk w = brk w0;
  fl_glob : glob w = glob w0;
  fl_exceptions : exceptions (trace w) = exceptions (trace w0);
  fl_writes : writes fd (trace w) = rev ws ++ writes fd (trace w0);
  fl_file : file_of fd (trace w) f = File (replicate (written ws) 0 ++ drop (written ws) bs) (written ws)
}.

(** One [write] of [count] zeros, with what the caller does next. *)
Lemma wp_write_zeros {A} fd f bs ws count w0 w (Q : A → world → Prop) (K : Z → cprog A) :
  PosixWrite fd → buffer_inv w0 → oneMegaBuffer (glob w0) ≠ NULL →
  filled fd f bs ws w0 w → 0 ≤ count ≤ ONE_MEGA →
  (∀ r w', filled fd f bs (ws ++ [(count, r)]) w0 w' → wp (K r) Q w') →
  wp (let* r := write_zeros fd count in K r) Q w.
Proof.
  intros HF [_ _ Hz] Hb [Hh Hbr Hg Hx Hws Hf] Hc HK. destruct (Hz Hb) as [a Ha].
  assert (u64 count = count) as Hu by (apply u64_small; rewrite mega_value in Hc; lia).
  unfold write_zeros. apply wp_bind. wp_step. apply wp_bind, wp_bytes_at, wp_call.
  rewrite Hg. unfold has in Ha. rewrite Hh, Ha, Hu.
  cbn [of_block raw_storable mbind option_bind fmap option_fmap option_map to_block raw_bytes].
  set (r := answer (trace w) _).
  assert (r ≤ count) as Hr by (apply pw_write; lia). clearbody r.
  apply HK. split; try done; cbn [trace log].
  - unfold writes. cbn [omap list_omap write_of]. rewrite Z.eqb_refl, rev_app_distr.
    cbn. f_equal. exact Hws.
  - cbn [file_of file_step]. rewrite Hf, Z.eqb_refl, written_snoc. cbn [andb].
    destruct (Z.leb_spec 0 r) as [H0|H0].
    + unfold zeros. rewrite take_replicate, Nat.min_l by lia. apply file_write_zeros.
    + by replace (Z.to_nat r) with 0%nat by lia; rewrite Nat.add_0_r.
Qed.

(** The counts that [fill] asks for: the blocks, and the rest if there is one. *)
Definition fill_counts (size : Z) : list Z :=
  replicate (Z.to_nat (size / ONE_MEGA)) ONE_MEGA ++
  (if size `mod` ONE_MEGA =? 0 then [] else [size `mod` ONE_MEGA]).

(** All the writes were made and none failed: the file starts with as many zeros as
    they have written, and the position is the start. *)
Record fill_done fd size f (bs : list Z) ws w w' : Prop := FillDone {
  dn_writes : writes fd (trace w') = rev ws ++ writes fd (trace w);
  dn_counts : ws.*1 = fill_counts size;
  dn_answers : Forall (λ c, 0 ≤ c.2) ws;
  dn_exceptions : exceptions (trace w') = exceptions (trace w);
  dn_file : file_of fd (trace w') f = File (replicate (written ws) 0 ++ drop (written ws) bs) 0;
  dn_complete : ws.*2 = ws.*1 → written ws = Z.to_nat size
}.

Definition fill_message (size : Z) (i : nat) : string :=
  if Z.of_nat i <? size / ONE_MEGA then "Cannot initialize file"
  else "Cannot initialize file with final rest".

(** After the writes [ws] the write of [c] bytes has failed, with the answer [r]. *)
Record fill_stopped fd size f (bs : list Z) ws (c r : Z) w w' : Prop := FillStopped {
  sp_writes : writes fd (trace w') = (c, r) :: rev ws ++ writes fd (trace w);
  sp_counts : ws.*1 ++ [c] `prefix_of` fill_counts size;
  sp_answers : Forall (λ c, 0 ≤ c.2) ws;
  sp_failed : r < 0;
  sp_exceptions : exceptions (trace w') =
    (ioExceptionClass (glob w), Some (fill_message size (length ws))) :: exceptions (trace w);
  sp_file : file_of fd (trace w') f = File (replicate (written ws) 0 ++ drop (written ws) bs) (written ws)
}.

(** What [fill] leaves behind. *)
Definition fill_post (fd size : Z) f w w' : Prop :=
  let bs := f_bytes (file_of fd (trace w) f) in
  buffer_inv w' ∧
  ((∃ ws, fill_done fd size f bs ws w w') ∨ (∃ ws c r, fill_stopped fd size f bs ws c r w w')).

Lemma buffer_inv_filled fd f bs ws w0 w : buffer_inv w0 → filled fd f bs ws w0 w → buffer_inv w.
Proof.
  intros [[Hp Hok] Hm Hz] [Hh Hb Hg _ _ _]. split; rewrite ?Hg; [|done|].
  - split; rewrite ?Hb, ?Hh; [lia|]. exact Hok.
  - unfold has. by rewrite Hh.
Qed.

Lemma fill_blocks size :
  0 ≤ size < 2 ^ 51 →
  i32 (Z.quot size ONE_MEGA) = size / ONE_MEGA ∧ i32 (Z.rem size ONE_MEGA) = size `mod` ONE_MEGA ∧
  0 ≤ size / ONE_MEGA ∧ 0 ≤ size `mod` ONE_MEGA < ONE_MEGA ∧
  size = ONE_MEGA * (size / ONE_MEGA) + size `mod` ONE_MEGA.
Proof.
  intros Hs. pose proof mega_pos as Hp. pose proof mega_value as Hv.
  pose proof (Z.mod_pos_bound size ONE_MEGA Hp). pose proof (Z.div_mod size ONE_MEGA ltac:(lia)).
  pose proof (Z.div_pos size ONE_MEGA ltac:(lia) Hp).
  assert (size / ONE_MEGA < 2 ^ 31) by (apply Z.div_lt_upper_bound; lia).
  rewrite Z.quot_div_nonneg, Z.rem_mod_nonneg by lia.
  rewrite !i32_small by (unfold INT_MIN, INT_MAX; lia). split_and!; lia.
Qed.

Lemma fill_counts_sum size : 0 ≤ size → sum_list (Z.to_nat <$> fill_counts size) = Z.to_nat size.
Proof.
  intros Hs. pose proof mega_pos as Hp. pose proof (Z.mod_pos_bound size ONE_MEGA Hp).
  pose proof (Z.div_mod size ONE_MEGA ltac:(lia)). pose proof (Z.div_pos size ONE_MEGA Hs Hp).
  unfold fill_counts. rewrite fmap_app, sum_list_with_app, fmap_replicate.
  assert (∀ n m, sum_list_with id (replicate n m) = (n * m)%nat) as ->
    by (intros n m; induction n as [|n IH]; [done|]; simpl; rewrite IH; done).
  destruct (Z.eqb_spec (size `mod` ONE_MEGA) 0); simpl; nia.
Qed.

(** A failed write and its exception. *)
Lemma wp_fill_throw {A} fd size f bs ws c r w0 w msg (x : A) (Q : A → world → Prop) :
  buffer_inv w0 → filled fd f bs (ws ++ [(c, r)]) w0 w → r < 0 →
  Forall (λ c, 0 ≤ c.2) ws → ws.*1 ++ [c] `prefix_of` fill_counts size →
  msg = fill_message size (length ws) →
  (∀ w', buffer_inv w' → fill_stopped fd size f bs ws c r w0 w' → Q x w') →
  wp (throwIOException msg ;; Ret x) Q w.
Proof.
  intros Hb Hf Hr Hws Hpre -> HQ. pose proof (buffer_inv_filled _ _ _ _ _ _ Hb Hf) as [? ? ?].
  destruct Hf as [Hh _ Hg Hx Hwr Hfile]. unfold throwIOException. do 3 wp_step. apply HQ; [by split|].
  split; try done; cbn [trace log].
  - rewrite rev_app_distr in Hwr. exact Hwr.
  - change (exceptions (Ev (ThrowNew ?k ?m) ?u :: ?h)) with ((k, m) :: exceptions h). by rewrite Hx, Hg.
  - cbn [file_of file_step]. rewrite Hfile, written_snoc.
    by replace (Z.to_nat r) with 0%nat by lia; rewrite Nat.add_0_r.
Qed.

Lemma wp_seek_start fd f w (Q : Z → world → Prop) :
  (∀ r w', heap w' = heap w → brk w' = brk w → glob w' = glob w → exceptions (trace w') = exceptions (trace w) →
     writes fd (trace w') = writes fd (trace w) →
     file_of fd (trace w') f = File (f_bytes (file_of fd (trace w) f)) 0 → Q r w') →
  wp (call (Lseek fd 0 SEEK_SET)) Q w.
Proof.
  intros HQ. apply wp_call, HQ; try done. cbn [trace log file_of file_step].
  by rewrite !Z.eqb_refl.
Qed.

(** The loop over the blocks. *)
Definition blocks_post fd size f bs w0 (o : option unit) w' : Prop :=
  match o with
  | Some _ => buffer_inv w' ∧ ∃ ws c r, fill_stopped fd size f bs ws c r w0 w'
  | None => ∃ ws, filled fd f bs ws w0 w' ∧ Forall (λ c, 0 ≤ c.2) ws ∧
              ws.*1 = replicate (Z.to_nat (size / ONE_MEGA)) ONE_MEGA
  end.

Lemma wp_fill_blocks fd size f bs w0 w :
  PosixWrite fd → buffer_inv w0 → oneMegaBuffer (glob w0) ≠ NULL → 0 ≤ size →
  filled fd f bs [] w0 w →
  wp (for_exit 0 (size / ONE_MEGA) (λ _,
        let* r := write_zeros fd ONE_MEGA in
        if r <? 0 then throwIOException "Cannot initialize file" ;; Ret (Some tt) else Ret None))
     (blocks_post fd size f bs w0) w.
Proof.
  intros HF Hinv Hb Hs Hf. pose proof mega_pos as Hmp. pose proof (Z.div_pos size ONE_MEGA Hs Hmp).
  apply (wp_for_exit (λ i w', ∃ ws, filled fd f bs ws w0 w' ∧ Forall (λ c, 0 ≤ c.2) ws ∧
    ws.*1 = replicate (Z.to_nat i) ONE_MEGA)); [done|by exists []| |done].
  intros i w' Hi (ws & Hf' & Hok & Hc).
  assert (length ws = Z.to_nat i) as Hl.
  { rewrite <-(length_fmap fst), Hc. by rewrite length_replicate. }
  assert (ws.*1 ++ [ONE_MEGA] = replicate (Z.to_nat (i + 1)) ONE_MEGA) as Hc'.
  { rewrite Hc, Z2Nat.inj_add, replicate_add by lia. done. }
  eapply (wp_write_zeros fd f bs ws ONE_MEGA w0); [done..|lia|]. intros r w'' Hf''.
  destruct (Z.ltb_spec r 0) as [Hr|Hr].
  - eapply (wp_fill_throw fd size f bs ws ONE_MEGA r w0); try done.
    + rewrite Hc'. unfold fill_counts. apply prefix_app_r.
      replace (Z.to_nat (size / ONE_MEGA)) with (Z.to_nat (i + 1) + Z.to_nat (size / ONE_MEGA - (i + 1)))%nat by lia.
      rewrite replicate_add. by eexists.
    + unfold fill_message. by rewrite Hl, (proj2 (Z.ltb_lt _ _)) by lia.
    + intros w3 Hb3 Hst. split; [done|eauto].
  - apply wp_ret. exists (ws ++ [(ONE_MEGA, r)]). split_and!; [done| |].
    + apply Forall_app. split; [done|]. by constructor.
    + by rewrite fmap_app.
Qed.

(** The write of the rest. *)
Definition rest_post fd size f bs w0 (stop : bool) w' : Prop :=
  if stop then buffer_inv w' ∧ ∃ ws c r, fill_stopped fd size f bs ws c r w0 w'
  else ∃ ws, filled fd f bs ws w0 w' ∧ Forall (λ c, 0 ≤ c.2) ws ∧ ws.*1 = fill_counts size.

Lemma wp_fill_rest fd size f bs ws w0 w :
  PosixWrite fd → buffer_inv w0 → oneMegaBuffer (glob w0) ≠ NULL → 0 ≤ size →
  filled fd f bs ws w0 w → Forall (λ c, 0 ≤ c.2) ws →
  ws.*1 = replicate (Z.to_nat (size / ONE_MEGA)) ONE_MEGA →
  wp (if negb (size `mod` ONE_MEGA =? 0) then
        let* r := write_zeros fd (size `mod` ONE_MEGA) in
        if r <? 0 then throwIOException "Cannot initialize file with final rest" ;; Ret true
        else Ret false
      else Ret false) (rest_post fd size f bs w0) w.
Proof.
  intros HF Hinv Hb Hs Hf Hok Hc. pose proof mega_pos as Hmp.
  pose proof (Z.div_pos size ONE_MEGA Hs Hmp). pose proof (Z.mod_pos_bound size ONE_MEGA Hmp).
  assert (length ws = Z.to_nat (size / ONE_MEGA)) as Hl.
  { rewrite <-(length_fmap fst), Hc. by rewrite length_replicate. }
  assert (fill_counts size = ws.*1 ++ (if size `mod` ONE_MEGA =? 0 then [] else [size `mod` ONE_MEGA]))
    as Heq by (unfold fill_counts; by rewrite Hc).
  destruct (Z.eqb_spec (size `mod` ONE_MEGA) 0) as [Hz|Hz]; simpl negb; cbv iota.
  { apply wp_ret. exists ws. by rewrite Heq, app_nil_r. }
  eapply (wp_write_zeros fd f bs ws _ w0); [done..|lia|]. intros r w' Hf'.
  destruct (Z.ltb_spec r 0) as [Hr|Hr].
  - eapply (wp_fill_throw fd size f bs ws _ r w0); try done.
    + by rewrite Heq.
    + unfold fill_message. by rewrite Hl, (proj2 (Z.ltb_ge _ _)) by lia.
    + intros w3 Hb3 Hst. split; [done|eauto].
  - apply wp_ret. exists (ws ++ [(size `mod` ONE_MEGA, r)]). split_and!; [done| |].
    + apply Forall_app. split; [done|]. by constructor.
    + by rewrite fmap_app, Heq.
Qed.

Lemma fill_stopped_from fd size f bs ws c r w w1 w' :
  writes fd (trace w1) = writes fd (trace w) → exceptions (trace w1) = exceptions (trace w) →
  ioExceptionClass (glob w1) = ioExceptionClass (glob w) →
  fill_stopped fd size f bs ws c r w1 w' → fill_stopped fd size f bs ws c r w w'.
Proof. intros Hw Hx Hg [H1 H2 H3 H4 H5 H6]. split; [by rewrite <-Hw|done..|by rewrite <-Hx, <-Hg|done]. Qed.

Lemma wp_fill fd alignment size f w :
  PosixWrite fd → buffer_inv w → 0 ≤ size < 2 ^ 51 →
  (oneMegaBuffer (glob w) ≠ NULL ∨ answer (trace w) (PosixMemalign (u64 alignment) ONE_MEGA) = 0) →
  wp (fill fd alignment size) (λ _ w', fill_post fd size f w w') w.
Proof.
  intros HF Hinv Hsize Hbuf. destruct (fill_blocks size Hsize) as (Hbl & Hre & _ & _ & _).
  unfold fill. rewrite Hbl, Hre.
  eapply wp_seq; [by apply wp_verifyBuffer|]. intros r w1 (Hinv1 & Hx1 & Hc1 & Hf1 & Hw1 & Hres).
  assert (oneMegaBuffer (glob w1) ≠ NULL) as Hb1.
  { destruct (Z.eqb_spec (oneMegaBuffer (glob w)) NULL) as [Hn|Hn].
    - destruct Hbuf as [?|Hbuf]; [done|]. rewrite Hbuf in Hres. by destruct Hres as (_ & ? & _).
    - destruct Hres as [_ ->]. done. }
  unfold fill_post. set (bs := f_bytes (file_of fd (trace w) f)).
  eapply wp_bind, (wp_seek_start fd f). intros r' w2 Hh2 Hbr2 Hg2 Hx2 Hw2 Hf2.
  rewrite Hf1 in Hf2. fold bs in Hf2.
  assert (filled fd f bs [] w1 w2) as Hfill by (split; [done..|by rewrite Hf2]).
  eapply wp_seq; [apply (wp_fill_blocks fd size f bs w1); [done..|lia|done]|].
  intros [u|] w3; cbn [blocks_post].
  { intros (Hb3 & ws & c & r3 & Hst). apply wp_ret. split; [done|right].
    exists ws, c, r3. by apply (fill_stopped_from _ _ _ _ _ _ _ w w1). }
  intros (ws & Hf3 & Hok & Hc).
  eapply wp_seq; [apply (wp_fill_rest fd size f bs ws w1); [done..|lia|done|done|done]|].
  intros [|] w4; cbn [rest_post].
  { intros (Hb4 & ws4 & c & r4 & Hst). apply wp_ret. split; [done|right].
    exists ws4, c, r4. by apply (fill_stopped_from _ _ _ _ _ _ _ w w1). }
  intros (ws4 & Hf4 & Hok4 & Hc4). pose proof (buffer_inv_filled _ _ _ _ _ _ Hinv1 Hf4) as [[? ?] ? ?].
  eapply wp_bind, (wp_seek_start fd f). intros r5 w5 Hh5 Hbr5 Hg5 Hx5 Hw5 Hf5. apply wp_ret. split.
  { split; rewrite ?Hg5; [split; rewrite ?Hbr5, ?Hh5; done|done|]. unfold has. by rewrite Hh5. }
  left. exists ws4. destruct Hf4 as [_ _ _ Hx4 Hwr4 Hfile4]. split; [|done|done| | |].
  - by rewrite Hw5, Hwr4, Hw1.
  - by rewrite Hx5, Hx4, Hx1.
  - by rewrite Hf5, Hfile4.
  - intros Hall. unfold written. rewrite Hall, Hc4. apply fill_counts_sum. lia.
Qed.

(** A block count that wraps to a negative number writes nothing. *)
Lemma wp_fill_wrapped fd alignment size f w :
  buffer_inv w → i32 (Z.quot size ONE_MEGA) ≤ 0 → Z.rem size ONE_MEGA = 0 →
  wp (fill fd alignment size) (λ _ w',
    exceptions (trace w') = exceptions (trace w) ∧
    file_of fd (trace w') f = File (f_bytes (file_of fd (trace w) f)) 0) w.
Proof.
  intros Hinv Hb Hr. unfold fill. rewrite Hr.
  eapply wp_seq; [by apply wp_verifyBuffer|]. intros r w1 (Hinv1 & Hx1 & _ & Hf1 & _ & _).
  apply wp_bind, (wp_seek_start fd f). intros r2 w2 _ _ _ Hx2 _ Hf2.
  apply wp_bind, wp_for_exit_empty; [done|]. cbv iota beta. change (i32 0) with 0. simpl negb. cbv iota.
  apply wp_bind, wp_ret. apply wp_bind, (wp_seek_start fd f). intros r3 w3 _ _ _ Hx3 _ Hf3.
  apply wp_ret. split; [by rewrite Hx3, Hx2, Hx1|]. by rewrite Hf3, Hf2, Hf1.
Qed.

(** C21.  [verifyBuffer]: the buffer of zeros is made once.  The first call
    allocates a mega of zeros with the alignment it is given, or returns -1 and
    leaves no buffer; every later call changes nothing, whatever alignment it
    asks for.  The lock is free again on every path. *)
Theorem verifyBuffer_correct alignment w :
  buffer_inv w → wp (verifyBuffer alignment) (verified alignment w) w.
Proof. apply wp_verifyBuffer. Qed.

(** C15.  [fill], when the shared buffer is there or can be allocated, on a file
    whose writes may be partial or fail.  It asks for one write of a mega per block
    and one for the rest, in this order.  If none of them fails, there is no new
    exception, the file starts with as many zeros as they have written - exactly
    [size] when each was complete -, is otherwise as before, and its position is the
    start.  If one fails, it is the last one, exactly one IOException
    is thrown, whose message says if it was a block or the rest, and the
    file starts with the zeros written before.  The buffer of zeros is still all
    zeros and its lock is free. *)
Theorem fill_correct fd alignment size f w :
  PosixWrite fd → buffer_inv w → 0 ≤ size < 2 ^ 51 →
  (oneMegaBuffer (glob w) ≠ NULL ∨ answer (trace w) (PosixMemalign (u64 alignment) ONE_MEGA) = 0) →
  wp (fill fd alignment size) (λ _ w', fill_post fd size f w w') w.
Proof. apply wp_fill. Qed.

(** C30.  The bound of [fill_correct] is sharp: the number of blocks is an [int],
    and for 2^51 bytes [fill] writes nothing and reports nothing. *)
Theorem fill_too_large fd alignment f w :
  buffer_inv w →
  wp (fill fd alignment (2 ^ 51)) (λ _ w',
    exceptions (trace w') = exceptions (trace w) ∧
    file_of fd (trace w') f = File (f_bytes (file_of fd (trace w) f)) 0) w.
Proof. intros Hinv. apply wp_fill_wrapped; [done|by rewrite mega_value..]. Qed.
End fill.

(** ** Witnesses *)

#[export] Instance sim_posix_write s fd : (∀ h n, 0 ≤ n → s_write s h n ≤ n) → PosixWrite (E := sim_env s) fd.
Proof. intros Hs. split. intros h bytes n. apply Hs. Qed.

Lemma start_buffer : buffer_inv start_world.
Proof. split; [exact start_heap_ok|done..]. Qed.

Lemma verifyBuffer_witness :
  wp (verifyBuffer (E := sim_env demo_sim) 512) (verified (E := sim_env demo_sim) 512 start_world) start_world.
Proof. apply verifyBuffer_correct, start_buffer. Defined.

(** The first block is written in part, the second in full, and the rest fails. *)
Definition partial_write (h : history) (n : Z) : Z :=
  match length (writes 7 h) with 0%nat => n - 1 | 1%nat => n | _ => -1 end.
Definition partial_sim : sim := SimK 1 (λ _, 512) None (λ _, false) (λ _, 0) 0 None 3 partial_write.

Lemma partial_write_le h n : 0 ≤ n → partial_write h n ≤ n.
Proof. unfold partial_write. destruct (length _) as [|[|]]; lia. Qed.

(** Two blocks and a rest. *)
Lemma fill_witness :
  wp (fill (E := sim_env partial_sim) 7 512 2100000)
     (λ _ w', fill_post 7 2100000 (File [1; 2; 3] 2) start_world w') start_world.
Proof.
  apply (fill_correct (E := sim_env partial_sim));
    [apply sim_posix_write, partial_write_le|exact start_buffer|done|by right].
Defined.

Lemma fill_too_large_witness :
  wp (fill (E := sim_env demo_sim) 7 512 (2 ^ 51)) (λ _ w',
    exceptions (trace w') = exceptions (trace start_world) ∧
    file_of 7 (trace w') (File [1; 2; 3] 2) = File [1; 2; 3] 0) start_world.
Proof. apply fill_too_large, start_buffer. Defined.
