(* ===== verification/Buffers.v ===== *)
(** * Native buffers

    [newAlignedBuffer], [freeBuffer] and [memsetBuffer]: the direct byte buffers
    that the Java side reads from and writes to files. *)

From S2P Require Export System Demo.

Section buffers_code.
Context {E : Env}.

(** C's [size % alignment] is undefined for a zero divisor and for
    [INT_MIN % -1]. *)
Definition int_rem (a b : Z) : cprog Z :=
  if (b =? 0) || ((a =? INT_MIN) && (b =? -1)) then Ub else Ret (Z.rem a b).

Definition newAlignedBuffer (size alignment : Z) : cprog Z :=
  let* r := int_rem size alignment in
  if negb (r =? 0) then
    throwRuntimeException "Buffer size needs to be aligned to passed argument" ;;
    Ret NULL
  else
  let* res := posix_memalign (u64 alignment) (u64 size) in
  if negb (res.1 =? 0) then
    throwRuntimeExceptionErrorNo "Can't allocate posix buffer:" res.1 ;;
    Ret NULL
  else
  memset res.2 0 (u64 size) ;;
  call (NewDirectByteBuffer res.2 size).

Definition freeBuffer (jbuffer : Z) : cprog unit :=
  if jbuffer =? NULL then throwRuntimeException "Null pointer" else
  let* buffer := call (GetDirectBufferAddress jbuffer) in
  free buffer.

Definition memsetBuffer (jbuffer size : Z) : cprog unit :=
  let* buffer := call (GetDirectBufferAddress jbuffer) in
  if buffer =? 0 then
    throwRuntimeException "Invalid Buffer used, libaio requires NativeBuffer instead of Java ByteBuffer"
  else memset buffer 0 (u64 size).
End buffers_code.



Section buffers.
Context {E : Env} `{!PosixErrors E}.
Implicit Types (w : world) (p : Z).

Lemma wp_int_rem a b (Q : Z → world → Prop) w :
  b ≠ 0 → (a = INT_MIN → b ≠ -1) → Q (Z.rem a b) w → wp (int_rem a b) Q w.
Proof.
  intros Hb Ho HQ. unfold int_rem. rewrite (proj2 (Z.eqb_neq b 0) Hb). simpl orb.
  destruct (Z.eqb_spec a INT_MIN) as [Ha|?]; [|done].
  by rewrite (proj2 (Z.eqb_neq b (-1)) (Ho Ha)).
Qed.

(** The events of a made buffer, with a JVM reference [r] to it. *)
Record made_buffer (size alignment : Z) w p r w' : Prop := MadeBuffer {
  mb_extends : extends w w' [p];
  mb_zeros : w' ⊨ p ↦ Raw (u64 alignment) (zeros (u64 size));
  mb_aligned : p `mod` Z.max 1 (u64 alignment) = 0;
  mb_trace : trace w' = Ev (NewDirectByteBuffer p size) r :: Ev (PosixMemalign (u64 alignment) (u64 size)) 0 :: trace w;
  mb_answer : r = answer (Ev (PosixMemalign (u64 alignment) (u64 size)) 0 :: trace w) (NewDirectByteBuffer p size)
}.

(** A refusal: a RuntimeException, and nothing allocated. *)
Definition refused_buffer (msg : option string) w r w' : Prop :=
  r = NULL ∧ same_mem w w' ∧
  exceptions (trace w') = (runtimeExceptionClass (glob w), msg) :: exceptions (trace w).

Definition buffer_post (size alignment : Z) w (r : Z) w' : Prop :=
  let res := answer (trace w) (PosixMemalign (u64 alignment) (u64 size)) in
  if negb (Z.rem size alignment =? 0)
  then refused_buffer (Some "Buffer size needs to be aligned to passed argument"%string) w r w'
  else if negb (res =? 0)
  then refused_buffer
         (if answer (Ev (PosixMemalign (u64 alignment) (u64 size)) res :: trace w) AsprintfFails then None
          else Some ("Can't allocate posix buffer:" +:+ strerror res)) w r w'
  else ∃ p, made_buffer size alignment w p r w'.

Lemma wp_newAlignedBuffer size alignment w :
  heap_ok w → alignment ≠ 0 → (size = INT_MIN → alignment ≠ -1) →
  wp (newAlignedBuffer size alignment) (buffer_post size alignment w) w.
Proof.
  intros Hok Ha Ho. unfold newAlignedBuffer, buffer_post.
  apply wp_bind, wp_int_rem; [done|done|].
  destruct (negb (Z.rem size alignment =? 0)).
  { unfold throwRuntimeException. do 3 wp_step. split_and!; [done| |done]. split; [done|done|]. simpl. lia. }
  apply wp_bind, wp_posix_memalign; [done|..]; cbn [fst snd].
  - intros r Hr Hans. rewrite Hans, (proj2 (Z.eqb_neq r 0) Hr). simpl negb. cbv iota.
    pose proof (pe_memalign (trace w) (u64 alignment) (u64 size)) as Hb. rewrite Hans in Hb.
    eapply wp_seq; [apply wp_throwRuntimeExceptionErrorNo; [unfold INT_MIN, INT_MAX; lia|done]|].
    intros [] w' [Hm Ht]. apply wp_ret. split_and!; [done| |].
    + etrans; [|exact Hm]. apply same_mem_log.
    + rewrite Ht, errno_thrown_exceptions, Z.abs_eq by lia. done.
  - intros Hans p Hbp H0 Hal Hfr. rewrite Hans. simpl negb. cbv iota.
    set (w1 := bump _ _ _ _). set (bytes := replicate _ _) in w1.
    assert (0 ≤ u64 size) by apply u64_bounds.
    assert (length bytes = Z.to_nat (u64 size)) as Hlen by apply length_replicate. clearbody bytes.
    assert (w1 ⊨ p ↦ Raw (u64 alignment) bytes) as Hp by apply lookup_insert_eq.
    apply wp_bind. eapply wp_memset; [exact Hp|cbn [raw_bytes]; lia|].
    cbn [raw_align raw_bytes]. rewrite drop_ge, app_nil_r by lia. fold (zeros (u64 size)).
    wp_step. exists p. split; [|apply lookup_insert_eq|done|done|done].
    eapply extends_log, extends_put; [|apply list_elem_of_here|exact Hp].
    apply (extends_bump w (log (PosixMemalign (u64 alignment) (u64 size)) 0 w)); [|done|done].
    by apply extends_log, extends_refl.
Qed.

(** C19.  [newAlignedBuffer], for any size and alignment that can be divided: a
    size that is not a multiple of the alignment and a [posix_memalign] that
    fails each give [NULL], a RuntimeException and an unchanged memory; otherwise
    there is exactly one new block, aligned and all zeros, at the address the
    byte buffer is made with. *)
Theorem newAlignedBuffer_correct size alignment w :
  heap_ok w → alignment ≠ 0 → (size = INT_MIN → alignment ≠ -1) →
  wp (newAlignedBuffer size alignment) (buffer_post size alignment w) w.
Proof. apply wp_newAlignedBuffer. Qed.

(** C33.  The only undefined behaviour of [newAlignedBuffer] is its first
    division: by an alignment of 0, or of [INT_MIN] by -1. *)
Theorem newAlignedBuffer_undefined size alignment w :
  heap_ok w →
  (run (newAlignedBuffer size alignment) w = Crash ↔
   alignment = 0 ∨ size = INT_MIN ∧ alignment = -1).
Proof.
  intros Hok. split.
  - intros Hc. destruct (decide (alignment = 0)); [by left|].
    destruct (decide (size = INT_MIN ∧ alignment = -1)) as [?|Hn]; [by right|].
    pose proof (wp_newAlignedBuffer size alignment w Hok) as Hwp. unfold wp in Hwp.
    rewrite Hc in Hwp. exfalso. apply Hwp; [done|]. intros -> ->. by apply Hn.
  - intros [->|[-> ->]]; unfold newAlignedBuffer, int_rem; [by rewrite Z.eqb_refl|done].
Qed.

(** A Java client that makes a buffer and frees it. *)
Definition new_and_free (size alignment : Z) : cprog bool :=
  let* r := newAlignedBuffer size alignment in
  if r =? NULL then Ret false else freeBuffer r ;; Ret true.

Context {JB : JniBuffers E}.

(** C18.  A buffer that [newAlignedBuffer] makes is given back whole by
    [freeBuffer]: the memory is that of the start, whether the allocation
    succeeded (no exception then) or not (one exception). *)
Theorem buffer_roundtrip size alignment w :
  heap_ok w → alignment ≠ 0 → (size = INT_MIN → alignment ≠ -1) →
  wp (new_and_free size alignment) (λ ok w',
    same_mem w w' ∧
    if ok then exceptions (trace w') = exceptions (trace w)
    else ∃ msg, exceptions (trace w') = (runtimeExceptionClass (glob w), msg) :: exceptions (trace w)) w.
Proof.
  intros Hok Ha Ho. unfold new_and_free. eapply wp_seq; [by apply wp_newAlignedBuffer|].
  intros r w'. unfold buffer_post. intros Hpost.
  assert ((∃ msg, refused_buffer msg w r w') ∨ ∃ p, made_buffer size alignment w p r w') as [[msg (-> & Hm & Hx)]|[p Hmade]].
  { destruct (negb _); [by eauto|]. destruct (negb _); by eauto. }
  { apply wp_ret. eauto. }
  destruct Hmade as [Hex _ _ Ht Hr].
  assert (r ≠ NULL) as Hrn by (rewrite Hr; apply jb_new). rewrite (proj2 (Z.eqb_neq _ _) Hrn).
  unfold freeBuffer. rewrite (proj2 (Z.eqb_neq _ _) Hrn). do 2 apply wp_bind. wp_step.
  assert (answer (trace w') (GetDirectBufferAddress r) = p) as ->.
  { apply jb_address. rewrite Ht. cbn [buffer_of buffer_made]. by rewrite Z.eqb_refl. }
  eapply wp_extends_free; [by apply extends_log|]. intros Hex'. apply wp_ret.
  split; [by apply extends_nil in Hex'|].
  cbn [trace log upd_heap]. rewrite Ht. done.
Qed.

(** What [memsetBuffer] does to the block behind a direct buffer. *)
Definition memset_post (jbuffer size : Z) w w' : Prop :=
  let p := answer (trace w) (GetDirectBufferAddress jbuffer) in
  if p =? NULL
  then same_mem w w' ∧ ∃ msg, exceptions (trace w') = (runtimeExceptionClass (glob w), msg) :: exceptions (trace w)
  else ∃ a bytes, w ⊨ p ↦ Raw a bytes ∧
       heap w' = <[p := BRaw (Raw a (zeros size ++ drop (Z.to_nat size) bytes))]> (heap w) ∧
       exceptions (trace w') = exceptions (trace w).

(** C24.  [memsetBuffer] zeroes the first [size] bytes of the buffer and nothing
    else, or refuses a buffer that is not direct with a RuntimeException. *)
Theorem memsetBuffer_correct jbuffer size w :
  0 ≤ size ≤ INT_MAX →
  (∀ p, p = answer (trace w) (GetDirectBufferAddress jbuffer) → p ≠ NULL →
     ∃ a bytes, w ⊨ p ↦ Raw a bytes ∧ size ≤ Z.of_nat (length bytes)) →
  wp (memsetBuffer jbuffer size) (λ _, memset_post jbuffer size w) w.
Proof.
  intros Hsize Hp. unfold memsetBuffer, memset_post. apply wp_bind. wp_step.
  set (p := answer _ _) in *. destruct (Z.eqb_spec p NULL) as [Hn|Hn].
  - rewrite Hn. simpl (NULL =? 0). cbv iota. unfold throwRuntimeException. do 2 wp_step.
    split; [|by eexists]. split; [done|done|]. simpl. lia.
  - rewrite (proj2 (Z.eqb_neq p 0) Hn). destruct (Hp p eq_refl Hn) as (a & bytes & Hb & Hlen).
    assert (u64 size = size) as Hu by (apply u64_small; unfold INT_MAX in *; lia).
    eapply wp_memset; [exact Hb|by rewrite Hu|].
    exists a, bytes. by rewrite Hu.
Qed.
End buffers.

(** ** Witnesses *)

Lemma newAlignedBuffer_witness :
  wp (newAlignedBuffer (E := sim_env making_sim) 1024 512)
     (buffer_post (E := sim_env making_sim) 1024 512 start_world) start_world.
Proof. apply newAlignedBuffer_correct; [exact start_heap_ok|done|done]. Defined.

Lemma newAlignedBuffer_undefined_witness :
  run (newAlignedBuffer (E := sim_env making_sim) 1024 0) start_world = Crash.
Proof. apply newAlignedBuffer_undefined; [exact start_heap_ok|by left]. Defined.

Lemma buffer_roundtrip_witness :
  wp (new_and_free (E := sim_env making_sim) 1024 512) (λ ok w',
    same_mem start_world w' ∧
    if ok then exceptions (trace w') = exceptions (trace start_world)
    else ∃ msg, exceptions (trace w') = (runtimeExceptionClass (glob start_world), msg) :: exceptions (trace start_world))
    start_world.
Proof.
  apply (buffer_roundtrip (JB := sim_jni_buffers making_sim eq_refl)); [exact start_heap_ok|done|done].
Defined.

(** A buffer of four bytes, three of them set to zero. *)
Definition buffer_world : world := World {[ 10 := BRaw (Raw 512 [1; 2; 3; 4]) ]} 100 demo_globals [].

Lemma memsetBuffer_witness :
  wp (memsetBuffer (E := sim_env demo_sim) 55 3) (λ _, memset_post (E := sim_env demo_sim) 55 3 buffer_world)
     buffer_world.
Proof.
  apply memsetBuffer_correct; [done|]. intros p -> _. exists 512, [1; 2; 3; 4]. by split.
Defined.
