(* ===== verification/Witnesses.v ===== *)
(** * Witnesses of the components below the simulated environment

    The theorems of [Errors], [IocbPool] and [Ring] on concrete inputs; the
    other files evaluate theirs themselves. *)

From S2P Require Import Demo Session PoolThreads.

Lemma throw_errno_witness :
  wp (throwIOExceptionErrorNo (E := sim_env demo_sim) "Cannot open file:" (-2)) (λ _ w', same_mem start_world w' ∧
    trace w' = [Ev (ThrowNew 204 (Some "Cannot open file:error"%string)) tt; Ev AsprintfFails false]) start_world ∧
  wp (throwRuntimeExceptionErrorNo (E := sim_env demo_sim) "Cannot open file:" (-2)) (λ _ w', same_mem start_world w' ∧
    trace w' = [Ev (ThrowNew 203 (Some "Cannot open file:error"%string)) tt; Ev AsprintfFails false]) start_world.
Proof.
  apply (throw_errno_correct (E := sim_env demo_sim) "Cannot open file:" (-2) start_world);
    [by vm_compute|exact start_heap_ok].
Defined.

Lemma exceptionMessage_undefined_witness :
  run (exceptionMessage (E := sim_env demo_sim) "Cannot open file:" INT_MIN) start_world = Crash ↔ INT_MIN = INT_MIN.
Proof. apply exceptionMessage_undefined; [by vm_compute|exact start_heap_ok]. Defined.

Lemma demo_pool : pool demo_world 10 demo_control [40; 41] [40; 41].
Proof. by split. Qed.

(** The third request of three finds the pool empty; the iocb that comes back is
    the one that is handed out next. *)
Lemma pool_refines_fifo_witness :
  wp (PoolClient.code 10 [PoolClient.Get; PoolClient.Get; PoolClient.Get; PoolClient.Put 41; PoolClient.Get])
    (λ r w', r = [40; 41; 0; 41] ∧ [] ++ [41; 40] ≡ₚ [40; 41] ++ [] ∧ NoDup ([] ++ [41; 40]) ∧
       ∃ c' arr', pool w' 10 c' arr' [] ∧ used c' = Z.of_nat (length [41; 40])) demo_world.
Proof.
  apply (pool_refines_fifo 10 _ demo_world demo_control [40; 41] [40; 41] []);
    [exact demo_pool|apply (bool_decide_unpack _); by vm_compute|done|by vm_compute].
Defined.

(** Three threads that each take an iocb, synchronise a file, and give the iocb back. *)
Definition taker : client :=
  CGet (λ x, if x =? NULL then CStop
             else CLocal (λ w, Next 0 (log (Fsync 7) 0 w)) (λ _, CPut x CStop)).

Lemma taker_outside : outside 10 20 [] (client_code 10 taker).
Proof.
  exists taker. split; [done|]. split; [done|]. intros x Hx.
  rewrite (proj2 (Z.eqb_neq x NULL) Hx). split; [|by intros _; split; [apply list_elem_of_here|]].
  intros w. by do 2 eexists.
Qed.

(** The first thread is in the pool, the others have tried to enter. *)
Definition three_takers : list (cprog unit) * world :=
  schedule [0; 1; 0; 2; 1; 0]%nat (replicate 3 (client_code 10 taker), demo_world).

Lemma pool_threads_safe_witness :
  Forall (λ q, ¬ faulty q three_takers.2) three_takers.1 ∧
  (Forall finished three_takers.1 ∨ ∃ cfg, tstep (three_takers.1, three_takers.2) cfg) ∧
  (∀ c' arr', at_lock 10 20 three_takers.2 c' arr' → iocbLock c' = MFree → ∃ free' helds',
     pool three_takers.2 10 c' arr' free' ∧ Forall2 (outside 10 20) helds' three_takers.1 ∧
     free' ++ concat helds' ≡ₚ [40; 41] ++ concat (replicate 3 []) ∧ NoDup (free' ++ concat helds')).
Proof.
  apply (pool_threads_safe 10 20 demo_world demo_control [40; 41] [40; 41] (replicate 3 [])
    (replicate 3 (client_code 10 taker))); [exact demo_pool|done| | |done| |].
  - apply (bool_decide_unpack _). by vm_compute.
  - apply (bool_decide_unpack _). by vm_compute.
  - repeat constructor; apply taker_outside.
  - rewrite <-surjective_pairing. apply schedule_steps.
Defined.

(** Two completions in the ring, and room for eight. *)
Definition ring_world : world :=
  World {[ 30 := BEvents (replicate 8 no_event) ]} 100 demo_globals (trace busy_world).

Lemma ringio_get_events_witness :
  ∃ rt, ring_now (E := sim_env demo_sim) 5000 (ring_reads (E := sim_env demo_sim) 5000 4 (trace ring_world)) = Some rt ∧
    ring_later (sim_ring demo_sim 5000 (trace ring_world)) rt ∧
    let n := length (ring_pending rt) in
    ((Z.of_nat n < 8 → (n ≤ length (replicate 8 no_event))%nat) →
     run (ringio_get_events (E := sim_env demo_sim) 5000 1 8 30 None) ring_world =
     ringio_result (E := sim_env demo_sim) 5000 1 8 30 None rt (replicate 8 no_event)
       (after_reads (E := sim_env demo_sim) 5000 5 ring_world)).
Proof.
  apply (ringio_get_events_correct (E := sim_env demo_sim)); done.
Defined.

Lemma ring_reap_exactly_once_witness :
  let rt := sim_ring demo_sim 5000 (trace ring_world) in
  let l := ring_pending rt in
  ∃ w' rlast rest r',
    run (ring_reap (E := sim_env demo_sim) 5000 1 8 30 None (ring_nr rt) (ring_head rt) (ring_tail rt)) ring_world =
      Done (Z.of_nat (length l)) w' ∧
    w' ⊨ 30 ↦ (l ++ drop (length l) (replicate 8 no_event)) ∧
    ring_now (E := sim_env demo_sim) 5000
      (ring_reads (E := sim_env demo_sim) 5000 (length l - 1) (trace ring_world)) = Some rlast ∧
    ring_pending rlast = l ++ rest ∧
    ring_now (E := sim_env demo_sim) 5000 (trace w') = Some r' ∧
    ring_head r' = (ring_head rt + Z.of_nat (length l)) `mod` ring_nr rt ∧
    rest `prefix_of` ring_pending r'.
Proof.
  apply (ring_reap_exactly_once (E := sim_env demo_sim) 5000 1 8 30 None _ (sim_ring demo_sim 5000 (trace ring_world)));
    [apply sim_ring_valid|done|done|by vm_compute|apply Nat.ltb_lt; by vm_compute|by vm_compute|done|
     apply Nat.leb_le; by vm_compute].
Defined.
