(* ===== verification/Findings.v ===== *)
(** * Limits of the code

    What happens outside the hypotheses of the theorems on [deleteContext] and
    on requests with a callback: each limit as a theorem about every context, and
    a state on which it shows. *)

From S2P Require Import Lifecycle Library Session.

(** ** [deleteContext] with a request in flight *)

(** The rest of a program crashes after its first part. *)
Lemma run_seq_crash {S A B} (q : prog S A) (K : A → prog S B) s :
  wp q (λ a s', run (K a) s' = Crash) s → run (bind q K) s = Crash.
Proof. unfold wp. rewrite run_bind. by destruct (run q s). Qed.

Lemma run_crash {S A B} (q : prog S A) (K : A → prog S B) s :
  run q s = Crash → run (bind q K) s = Crash.
Proof. rewrite run_bind. by intros ->. Qed.

Section double_free.
Context {E : Env}.
Implicit Types (w : world) (p : Z) (k : ctl) (all free out arr l gone : list Z).

(** Freeing the addresses of [l], of which those of [gone] have been freed, is
    undefined when one of them comes twice. *)
Lemma destroy_twice p c arr l : ∀ i gone w,
  w ⊨ p ↦ c → w ⊨ iocb_pool c ↦ arr → l = drop i arr →
  (∀ x, x ∈ l → x ≠ NULL ∧ x ≠ p ∧ x ≠ iocb_pool c) →
  (∀ x, x ∈ gone → heap w !! x = None) →
  ¬ (NoDup l ∧ ∀ x, x ∈ l → x ∉ gone) →
  run (for_loop (length l) (Z.of_nat i) (λ j,
    let* pool := p ->> iocb_pool in
    let* x := load_elt (A := Z) pool j in
    Mem.free x)) w = Crash.
Proof.
  induction l as [|x l IH]; intros i gone w Hc Ha Hl Hne Hgone Hdup.
  { destruct Hdup. split; [constructor|]. by intros x ?%elem_of_nil. }
  assert (arr !! i = Some x) as Hi.
  { rewrite <-(Nat.add_0_r i), <-lookup_drop, <-Hl. done. }
  destruct (Hne x (list_elem_of_here _ _)) as (Hx0 & Hxp & Hxa).
  cbn [length for_loop]. destruct (heap w !! x) as [b|] eqn:Hx.
  - apply run_seq_crash. wp_step. apply wp_bind. eapply wp_load_elt; [done|lia|by rewrite Nat2Z.id|].
    eapply wp_free; [done|done|]. cbv beta.
    replace (Z.of_nat i + 1) with (Z.of_nat (Datatypes.S i)) by lia.
    apply (IH _ (x :: gone)); [by apply has_delete_ne|by apply has_delete_ne| |..].
    + by rewrite (drop_S _ _ _ Hi) in Hl; injection Hl.
    + intros y Hy. apply Hne. by apply list_elem_of_further.
    + intros y [->|Hy]%elem_of_cons; simpl; [apply lookup_delete_eq|].
      rewrite lookup_delete. case_decide; [done|by apply Hgone].
    + intros [Hnd Hdis]. apply Hdup. split.
      * apply list.NoDup_cons. split; [|done]. intros Hxl. apply (Hdis x Hxl). apply list_elem_of_here.
      * intros y [->|Hy]%elem_of_cons Hg; [|apply (Hdis y Hy); by apply list_elem_of_further].
        apply Hgone in Hg. congruence.
  - apply run_crash, run_seq_crash. wp_step. apply run_seq_crash.
    eapply wp_load_elt; [done|lia|by rewrite Nat2Z.id|]. cbv beta.
    unfold Mem.free. rewrite (proj2 (Z.eqb_neq x NULL) Hx0). unfold run. simpl. by rewrite Hx.
Qed.

(** The array of the pool of a live context, and the addresses of its iocbs. *)
Lemma system_pool_iocb p k all free out arr w x :
  system p k all free out w → pool_at k arr w → x ∈ all → x ≠ NULL ∧ x ≠ p ∧ x ≠ k_pool k.
Proof.
  intros (c & arr' & evl & [_ [Hc Ha' _ _] _ _ _ _ _ Hi _] & <-) Ha Hx. ctl_simpl.
  destruct (Hi x Hx) as (Hx0 & b & Hb).
  split_and!; [done|by eapply (has_ne w _ _ b c)|by eapply (has_ne w _ _ b arr)].
Qed.

Lemma tear_down_twice p k all free out arr w :
  system p k all free out w → pool_at k arr w → (∀ x, x ∈ arr → x ∈ all) →
  k_poll k = MFree → ¬ NoDup arr → run (tear_down p) w = Crash.
Proof.
  intros Hs Ha Hall Hpoll Hdup.
  pose proof Hs as (c & arr' & evl & [_ [Hc Ha' Hl Hr] He _ _ _ Hlen _ _] & <-).
  unfold tear_down, pool_at in *. ctl_simpl. pose proof (has_inj _ _ _ _ Ha' Ha) as ->. clear Ha'.
  apply run_seq_crash. wp_step. apply run_seq_crash. unfold io_queue_release. do 2 wp_step.
  apply run_seq_crash. eapply wp_mutex_destroy_poll; [by apply has_log|done|].
  apply run_seq_crash. eapply wp_mutex_destroy_iocb; [apply has_put_eq|done|].
  rewrite put_put. set (c1 := set_iocbLock _ _). set (w1 := put p c1 _).
  assert (w1 ⊨ p ↦ c1) as Hc1 by apply has_put_eq.
  assert (w1 ⊨ iocb_pool c1 ↦ arr) as Ha1.
  { apply has_put_ne; [|done]. by eapply (has_ne w _ _ c arr). }
  apply run_crash. unfold iocb_destroy. apply run_seq_crash. wp_step.
  unfold iocb_destroy_bounded. apply run_crash. unfold iocb_destroy_members, for_.
  assert (Z.to_nat (queueSize c1 - 0) = length arr) as -> by (destruct Hr; simpl; lia).
  apply (destroy_twice p c1 arr arr 0 []); [done|done|done| |by intros x ?%elem_of_nil|].
  - intros x Hx. by apply (system_pool_iocb p (ctl_of c) all free out arr w x Hs Ha), Hall.
  - intros [? _]. done.
Qed.

(** The world before the blocks [ps] were allocated. *)
Definition without_blocks (ps : list Z) w : world :=
  World (foldr delete (heap w) ps) (brk w) (glob w) (trace w).

Lemma extends_without ps w :
  heap_ok w → NoDup ps → (∀ q, q ∈ ps → is_Some (heap w !! q)) → extends (without_blocks ps w) w ps.
Proof.
  intros Hok Hnd Hps. split; simpl; try done.
  - intros q Hq. by rewrite lookup_foldr_delete_not_elem_of.
  - intros q Hq. split_and!; [by rewrite lookup_foldr_delete|intros ->|by apply Hps].
    destruct (Hps _ Hq) as [b Hb]. apply Hok in Hb. unfold NULL in Hb. lia.
Qed.

Lemma system_blocks_nodup p k all free out w :
  system p k all free out w → NoDup (blocks p k all).
Proof.
  intros (c & arr & evl & [_ [Hc Ha _ _] He _ _ Hnd _ Hi _] & <-). unfold blocks. ctl_simpl.
  assert (∀ x, x ∈ all → x ≠ events c ∧ x ≠ iocb_pool c ∧ x ≠ p) as Hne.
  { intros x Hx. destruct (Hi x Hx) as (_ & b & Hb).
    split_and!; [by eapply (has_ne w _ _ b evl)|by eapply (has_ne w _ _ b arr)|by eapply (has_ne w _ _ b c)]. }
  assert (events c ≠ iocb_pool c ∧ events c ≠ p ∧ iocb_pool c ≠ p) as (? & ? & ?).
  { split_and!; [by eapply (has_ne w _ _ evl arr)|by eapply (has_ne w _ _ evl c)|by eapply (has_ne w _ _ arr c)]. }
  apply list.NoDup_cons. split.
  - rewrite elem_of_app. intros [Hx|Hx]; [by apply Hne in Hx as (? & _)|].
    apply elem_of_cons in Hx as [?|?%list_elem_of_singleton]; done.
  - apply list.NoDup_app. split_and!; [done| |].
    + intros x Hx. apply Hne in Hx as (_ & ? & ?).
      intros [?|?%list_elem_of_singleton]%elem_of_cons; done.
    + apply list.NoDup_cons. split; [by intros ?%list_elem_of_singleton|apply NoDup_singleton].
Qed.

Lemma tear_down_once p k all free out arr w :
  system p k all free out w → pool_at k arr w → (∀ x, x ∈ arr → x ∈ all) →
  k_poll k = MFree → NoDup arr →
  wp (tear_down p) (λ _ w', deleted (without_blocks (blocks p k all) w) k w w') w.
Proof.
  intros Hs Ha Hall Hpoll Hnd. eapply (wp_tear_down p k all free out arr); [|done|done| |done].
  - apply extends_without; [by eapply system_heap_ok|by eapply system_blocks_nodup|].
    intros q. by eapply system_blocks.
  - apply submseteq_length_Permutation; [by apply NoDup_submseteq|].
    destruct Hs as (c & arr' & evl & [_ [Hc Ha' _ []] _ _ _ _ Hlen _ _] & <-).
    rewrite (has_inj _ _ _ _ Ha' Ha) in *. lia.
Qed.

(** C31.  [deleteContext] needs a context with nothing in flight.  Its end,
    [tear_down], frees what the array of the pool holds, and never looks at the
    requests in flight.  On any live context, whatever is in flight: if the
    array holds no iocb twice, every block of the context is freed, once,
    and the memory is that before the context; if it does - and it may, as
    [putIOCB] writes over the entry of an iocb that is in use - the second
    [free] of that iocb is undefined behaviour. *)
Theorem tear_down_double_free p k all free out arr w :
  system p k all free out w → pool_at k arr w → (∀ x, x ∈ arr → x ∈ all) → k_poll k = MFree →
  (NoDup arr ∧ wp (tear_down p) (λ _ w', deleted (without_blocks (blocks p k all) w) k w w') w) ∨
  (¬ NoDup arr ∧ run (tear_down p) w = Crash).
Proof.
  intros. destruct (decide (NoDup arr)) as [Hnd|Hnd]; [left|right]; (split; [done|]).
  - by apply (tear_down_once p k all free out arr).
  - by apply (tear_down_twice p k all free out arr).
Qed.
End double_free.

(** *** A client that comes to it *)

(** A kernel that reports the latest request first, and never more at a time than it
    is asked to wait for, or one; the library does not know its ring. *)
Definition foreign_ring : aio_ring := AioRing 0 8 0 0 0 1 0 32 (replicate 8 no_event).

Definition lifo_events (ctx min_nr max : Z) (h : history) : list io_event :=
  (λ p, IoEvent 0 p 512 0) <$> take (Z.to_nat (Z.min max (Z.max 1 min_nr))) (owned ctx h).

Definition lifo_getevents (ctx min_nr max : Z) (timeout : option (Z * Z)) (h : history) : ge_result :=
  if bool_decide (timeout = None) && (Z.of_nat (length (owned ctx h)) <? min_nr) then GeWait
  else GeEvents (lifo_events ctx min_nr max h).

Definition lifo_answer (h : history) (T : Set) (c : syscall T) : T :=
  match c in syscall T return T with
  | RingRead _ => Some foreign_ring
  | IoGetevents ctx min_nr max timeout => lifo_getevents ctx min_nr max timeout h
  | c => sim_answer demo_sim h _ c
  end.

#[export] Instance lifo_env : Env := {
  answer := lifo_answer;
  strerror := @strerror (sim_env demo_sim);
  io_prep_pwrite_env := @io_prep_pwrite_env (sim_env demo_sim);
  io_prep_pread_env := @io_prep_pread_env (sim_env demo_sim);
  indet_control := @indet_control (sim_env demo_sim);
  indet_iocb := @indet_iocb (sim_env demo_sim);
  indet_ptr := 0;
  indet_event := no_event;
  indet_byte := 7
}.

(** It keeps the promises of libaio. *)
#[export] Instance lifo_kernel_events : KernelEvents lifo_env.
Proof.
  split.
  - intros h ctx min_nr max timeout l. simpl. unfold lifo_getevents. destruct (_ && _); [done|].
    intros [= <-]. unfold lifo_events. split_and!.
    + rewrite length_fmap, length_take. lia.
    + rewrite <-list_fmap_compose. erewrite list_fmap_ext, list_fmap_id by done.
      apply sublist_submseteq, sublist_take.
    + apply Forall_fmap, Forall_true. intros p. by vm_compute.
  - intros h ctx min_nr max timeout e. simpl. unfold lifo_getevents. by destruct (_ && _).
  - intros h ctx min_nr max timeout. simpl. unfold lifo_getevents.
    destruct (_ && _) eqn:Hw; [|done]. intros _. apply andb_true_iff in Hw as [Ht%bool_decide_eq_true Hw].
    split; [done|lia].
  - intros h ctx r [= <-]. split; [apply submseteq_nil_l|constructor].
  - intros h ctx _. by eexists.
Qed.

Lemma lifo_kernel_progress : KernelProgress lifo_env 0.
Proof.
  split.
  - intros h ctx min_nr max l. simpl. unfold lifo_getevents. destruct (_ && _); [done|].
    intros [= <-] _ Hmin Hmax. unfold lifo_events. rewrite length_fmap, length_take. lia.
  - intros h ctx min_nr max timeout. simpl. unfold lifo_getevents. by destruct (_ && _).
Qed.

#[export] Instance lifo_kernel_ring : KernelRing lifo_env.
Proof.
  split.
  - intros h ctx r [= <-]. by split.
  - intros h ctx r [= <-]. by exists foreign_ring.
  - intros h ctx r k [= <-] Hk head'. exists foreign_ring. simpl in Hk.
    assert (k = 0%nat) as -> by lia. by split_and!.
Qed.
#[export] Instance lifo_kernel_submit : KernelSubmit lifo_env.
Proof. split. intros. by left. Qed.
#[export] Instance lifo_jni_refs : JniRefs lifo_env.
Proof. split; [apply (jr_null (E := sim_env demo_sim))|apply (jr_fresh (E := sim_env demo_sim))|apply (jr_pointer (E := sim_env demo_sim))]. Qed.
#[export] Instance lifo_io_prep : IoPrep lifo_env.
Proof. by split. Qed.

(** Two writes, and a poll that takes the completion of the second. *)
Definition inflight : world :=
  after (E := lifo_env) 55 [OpWrite 7 0 512 66 77; OpWrite 7 512 512 66 78; OpPoll 88 1 1] demo_world.

Lemma inflight_reachable : reachable (E := lifo_env) 55 demo_world inflight.
Proof. apply reachable_after. constructor. Qed.

(** The first write is in flight, its entry in the array overwritten; and
    [deleteContext] crashes. *)
Example inflight_deleteContext :
  owned 5000 (trace inflight) = [40] ∧ heap inflight !! 20 = Some (BPtrs [41; 41]) ∧
  run (deleteContext (E := lifo_env) 55) inflight = Crash.
Proof. by vm_compute. Qed.

Lemma inflight_session : session_inv 10 demo_ctl [40; 41] [900] inflight.
Proof.
  eapply (reachable_inv (E := lifo_env) 55 10 demo_ctl [40; 41] [900] demo_world);
    [by split|exact demo_session|exact inflight_reachable].
Qed.

Lemma tear_down_double_free_witness :
  (NoDup [41; 41] ∧ wp (tear_down (E := lifo_env) 10) (λ _ w',
     deleted (without_blocks (blocks 10 demo_ctl [40; 41]) inflight) demo_ctl inflight w') inflight) ∨
  (¬ NoDup [41; 41] ∧ run (tear_down (E := lifo_env) 10) inflight = Crash).
Proof.
  destruct inflight_session as (free & Hs & _).
  apply (tear_down_double_free (E := lifo_env) 10 demo_ctl [40; 41] free [] [41; 41] inflight);
    [exact Hs|by vm_compute| |done].
  intros x Hx. repeat (apply elem_of_cons in Hx as [->|Hx]; [set_solver|]). by apply elem_of_nil in Hx.
Defined.

(** ** A request without callback under [blockedPoll] *)

Section null_callback.
Context {E : Env} {KR : KernelRing E} {KE : KernelEvents E}.
Implicit Types (w : world) (p : Z) (k : ctl) (all free out base : list Z).

Lemma whole_snoc {A} (bs : list (list A)) a b : whole (bs ++ [a]) b = bs ++ [a ++ b].
Proof. induction bs as [|c [|c' bs] IH]; [done|done|]. cbn [app whole] in *. by rewrite IH. Qed.

(** The last report is the batch with the wake-up. *)
Lemma last_report (bs : list (list io_event)) e b :
  bs ≠ [] → ∃ a rest, rev (nonempty (whole bs (e :: b))) = (a ++ e :: b) :: rest.
Proof.
  intros Hbs. destruct bs as [|a bs _] using rev_ind; [done|]. exists a, (rev (nonempty bs)).
  rewrite whole_snoc. unfold nonempty. rewrite fmap_app, concat_app, rev_app_distr. simpl.
  by destruct a.
Qed.

(** The request [x], in flight in [w], is lost in [w']: it is in no place of the context.
    It was treated, and the ring is not looked at any more; or it came behind a
    wake-up in the last report. *)
Record lost p k all (x : Z) w w' : Prop := Lost {
  lo_place : ∃ free' out', system p k all free' out' w' ∧ x ∈ out' ∧ x ∉ free';
  lo_owned : x ∉ owned (k_ctx k) (trace w');
  lo_cause : forceSysCall (glob w') = JNI_TRUE ∨
    ∃ a e b rest, reports (k_ctx k) (trace w') = (a ++ e :: b) :: rest ∧
      data_of w (ev_obj e) = MINUS_ONE ∧ x ∈ (ev_obj <$> b)
}.

Lemma system_out_lost p k all free out w x :
  system p k all free out w → x ∈ out → (x ∉ free) ∧ x ∉ owned (k_ctx k) (trace w).
Proof.
  intros Hs Hx. split; [|by eapply system_owned_fresh].
  destruct (system_perm _ _ _ _ _ _ Hs) as (Hperm & Hnd & _). rewrite <-Hperm in Hnd.
  apply list.NoDup_app in Hnd as (_ & Hd & _). intros Hf. apply (Hd x Hf). rewrite elem_of_app. by left.
Qed.

Lemma poller_loses d fil g bs b p k all free out base fsync x w w' :
  poller_post d fil g bs b p k all free out base fsync w w' →
  (∀ y, d y = data_of w y) → x ∈ owned (k_ctx k) (trace w) → d x = NULL →
  x ∈ owned (k_ctx k) (trace w') ∨ lost p k all x w w'.
Proof.
  intros [Hre Hl Htr Hend Ho [Hs _] Hg] Hd Hx Hnull.
  rewrite Ho, fmap_app, !elem_of_app in Hx. destruct Hx as [[Hx|Hx]|Hx]; [right|right|by left].
  - assert (x ∈ without_callback d (concat bs)) as Hin by (by apply list_elem_of_filter).
    assert (x ∈ without_callback d (concat bs) ++ (ev_obj <$> drop 1 b) ++ out) as Hout
      by (rewrite elem_of_app; by left).
    destruct (system_out_lost _ _ _ _ _ _ _ Hs Hout). split; [by do 2 eexists|done|left].
    rewrite Hg. unfold forces. rewrite bool_decide_false; [done|]. intros Hnil. rewrite Hnil in Hin.
    by apply elem_of_nil in Hin.
  - destruct Hend as [(e & b' & -> & Hm & _)|[-> _]]; [|by apply elem_of_nil in Hx].
    cbn [fmap list_fmap] in Hx. apply elem_of_cons in Hx as [->|Hx]; [rewrite Hm in Hnull; discriminate|].
    assert (x ∈ without_callback d (concat bs) ++ (ev_obj <$> drop 1 (e :: b')) ++ out) as Hout
      by (rewrite !elem_of_app; auto).
    destruct (system_out_lost _ _ _ _ _ _ _ Hs Hout). split; [by do 2 eexists|done|right].
    destruct Hl as [?|Hl]; [done|]. destruct (last_report bs e b' Hl) as (a & rest & Hlast).
    exists a, e, b', (rest ++ reports (k_ctx k) (trace w)). by rewrite Hre, Hlast, <-Hd.
Qed.

(** C32.  A request without callback costs [blockedPoll] an iocb, on every context
    and for every kernel: when the poller returns, each request in flight whose
    [data] was [NULL] is still with the kernel, or it is lost - neither in the pool
    nor with the kernel -, and the user-space reaper is off from then on unless
    the request came behind the wake-up. *)
Theorem blockedPoll_null_callback_leaks bound fuel ptr p k all free out base fsync w :
  KernelProgress E bound →
  DirectBuffer E ptr p → system p k all free out w → refs_ok k out base w →
  k_poll k = MFree → wakes w (owned (k_ctx k) (trace w)) →
  enough_fuel (fildes_of w) (glob w) bound fuel k w →
  wp (blockedPoll fuel ptr fsync) (λ _ w', ∀ x,
    x ∈ owned (k_ctx k) (trace w) → data_of w x = NULL →
    x ∈ owned (k_ctx k) (trace w') ∨ lost p k all x w w') w.
Proof.
  intros HP Hd Hs Hr Hk Hw Hf.
  eapply wp_of_may; [eapply wp_may_mono; [by apply (wp_blockedPoll False bound); [..|by right]| |]|].
  - intros [] w' (bs & b & Hpost) x Hx Hnull. by eapply poller_loses.
  - intros w' H. exact H.
  - by intros w' [].
Qed.
End null_callback.

(** [busy_world], with a write that has no callback. *)
Definition null_world : world :=
  World (demo_heap (set_used 2 demo_control) (set_data NULL write_iocb) dumb_iocb) 100 demo_globals
    (Ev (IoSubmit 5000 41 dumb_iocb) 1 :: Ev (IoSubmit 5000 40 (set_data NULL write_iocb)) 1
       :: Ev (NewGlobalRef NULL) NULL :: demo_history).

Lemma null_system : system 10 demo_ctl [40; 41] [] [] null_world.
Proof.
  exists (set_used 2 demo_control), [40; 41], [no_event; no_event]. split; [|done]. split; try done.
  - apply demo_heap_ok.
  - simpl. by rewrite Permutation_swap.
  - apply (bool_decide_unpack _). by vm_compute.
  - intros x. apply demo_iocb.
  - simpl. set_solver.
Qed.
Lemma null_refs : refs_ok demo_ctl [] [900] null_world.
Proof. unfold refs_ok. apply (bool_decide_unpack _). by vm_compute. Qed.
Lemma null_wakes : wakes null_world (owned 5000 (trace null_world)).
Proof.
  intros x Hx. vm_compute in Hx.
  repeat (apply elem_of_cons in Hx as [->|Hx]; [by vm_compute|]). by apply elem_of_nil in Hx.
Qed.

(** Here the poller takes both requests, and the wake-up alone comes back. *)
Example null_poll :
  wp (blockedPoll (E := sim_env demo_sim) 3 55 0) (λ _ w',
    owned 5000 (trace w') = [] ∧ forceSysCall (glob w') = JNI_TRUE) null_world.
Proof. by vm_compute. Qed.

Lemma blockedPoll_null_witness :
  wp (blockedPoll (E := sim_env demo_sim) 3 55 0) (λ _ w', ∀ x,
    x ∈ owned 5000 (trace null_world) → data_of null_world x = NULL →
    x ∈ owned 5000 (trace w') ∨ lost 10 demo_ctl [40; 41] x null_world w') null_world.
Proof.
  apply (blockedPoll_null_callback_leaks (E := sim_env demo_sim) 0 3 55 10 demo_ctl [40; 41] [] [] [900] 0
    null_world (sim_kernel_progress demo_sim) (demo_buffer demo_sim eq_refl) null_system null_refs eq_refl
    null_wakes).
  split; [exists 41; split; [|done]; vm_compute; apply list_elem_of_here|]. vm_compute. lia.
Defined.
